(* ===== verification/_CoqProject ===== *)
-Q . S2P
Prelude.v
GoFloat.v
FloatExact.v
FloatError.v
Proto.v
GoTimer.v
Registry.v
RegistryProps.v
DeadDetection.v
GoHttp.v
GoStrings.v
GoJson.v
GoText.v
GoUnmarshal.v
GoMux.v
Router.v
RouterProps.v
RouterLive.v
RouterRuns.v
Scaler.v
Sweeps.v
Provisioner.v
Worker.v
WorkerProc.v
Queue.v
Auth.v
LimiterRate.v
Dispatcher.v
Slo.v
SloBounds.v
Gateway.v
Config.v
Bodies.v
EndToEnd.v
Pool.v
RequestServer.v
Live.v
LiveInv.v
LiveRun.v
LiveProps.v
LiveRefine.v
TwoPlanes.v
PlanesRest.v
ControlServer.v
Shutdown.v
Observe.v
AdminApi.v
