(* ===== verification/Prelude.v ===== *)
(** * LLM inference control plane: verification library

    The program is two Go servers and two workers.  The control plane keeps a registry of
    workers that send it heartbeats, routes inference requests to them over HTTP, evicts the
    dead ones and starts replacements.  The request plane stands in front of it: a gateway
    authenticates clients, limits their rate, decides whether to admit a request, queues it
    and waits; a pool of dispatchers takes requests from the queue and forwards them to the
    control plane's router, with retries and fallback models.

    ** How the code is modelled

    One definition per function or method, with the source's names where the language allows
    them.  State is passed explicitly; what one lock section does is one definition.  A call
    that leaves the program (a worker's or the upstream's HTTP answer, docker, a clock
    reading, the order of a loop over a map) is an argument, one per use, so a theorem holds
    for every behaviour of the surroundings.  A run-time panic is a value of [res].  Where
    goroutines share state there is a step relation whose steps are the lock sections or
    channel operations, and the theorems hold for every interleaving.

    ** Files, in order

    - Prelude (this file): machine integers, panics, loops over maps, shared lemmas.
    - GoFloat, FloatExact, FloatError: [float64] as binary64, executable; order of the
      comparisons; exactness on integers below 2^53; values as reals and rounding error.
    - GoTimer: [time.AfterFunc], [Reset], [Stop] and the goroutines that expired timers start.
    - GoHttp, GoStrings: what the program uses of net/http, strings, strconv and durations.
    - GoJson, GoText, GoUnmarshal: encoding/json as the program uses it: the scanner and the
      printer of values ([parse_print]), strings with their escapes and invalid bytes
      ([decode_quote], [decode_compact]), and decoding into structs and into a map of raw
      members ([unmarshal_marshal]).
    - GoMux: http.ServeMux: patterns, cleaned and escaped paths.
    - Proto: the messages and the state enum of proto/registry.pb.go.
    - Registry: control-plane/registry/registry.go, every handler and read method; [step] is
      the registry with its clock, timers and pending callbacks.
      RegistryProps: [registry_refines_fleet] (its runs, call by call, are runs of an
      abstract fleet), the entries' invariant, the history of one registration, the read methods.
      DeadDetection: when the deadline timer finds a silent worker, and when it does not.
    - Router: control-plane/router/router.go, one request.  RouterProps: selection and the
      retry loop.  RouterLive: the running router, one handler for each request, taken apart at
      every access to what handlers share, next to the running registry; its invariant.
      RouterRuns: selections nobody disturbs, termination, crashes, concrete runs.
    - Scaler: control-plane/scaler/scaler.go, one sweep alone and among registry steps.
      Sweeps: its loop over the running registry.
    - Provisioner: control-plane/provisioner.  Worker: worker/cmd, the flags, what is
      registered and reported, one tick of the heartbeat loop undisturbed.  WorkerProc: the
      goroutines and main of both workers, with lost calls, next to the running registry;
      what the Ollama worker reads of Ollama's answers.
    - Queue: request-plane/queue, undisturbed and under concurrent callers.
    - Auth: request-plane/auth, the key store and the token bucket; LimiterRate: the bucket
      on any clock and budget.
    - Dispatcher: request-plane/dispatcher, one request; the chunk channel of a stream.
    - Slo: request-plane/slo and request-plane/backpressure; SloBounds: how far its results
      are from the exact ones.
    - Gateway: request-plane/gateway, one request through every gate.
    - Config: the flag parsers of request-plane/cmd/server and request-plane/admin.
    - Bodies: what the bodies the dispatcher rewrites mean to the router and the worker.
    - EndToEnd: the dispatcher with the router behind it.
    - Pool: the dispatcher pool over the queue, and the requests the gateway gives it.
    - RequestServer: request-plane/cmd/server, what main builds of its flags, and the running
      server: gateway, queue and pool.
    - Live: the running request plane, one handler for each client and one loop for each
      dispatcher, taken apart at every access to shared state, with the clock.  LiveInv: its
      invariant.  LiveRun: its steps as a function of a schedule.  LiveProps: what clients get.
    - LiveRefine: Live seen as a pool.
    - TwoPlanes: Live and the running router side by side, every goroutine of both.
      PlanesRest: that they come to rest, and how.
    - ControlServer: control-plane/cmd/server, the router's construction and the metrics hook;
      what follows an eviction.
    - Shutdown: the two server processes from the signal to their end, Live and the running
      router inside them, and the workers that go on after a restart.
    - Observe: control-plane/api and control-plane/metrics.
    - AdminApi: both admin APIs from the request line to the JSON text.

    ** How the parts meet

    The router and the scaler act on [Registry]; a worker's calls are the registry's
    operations ([router_step] runs the router's handlers next to [step], [world_step] one
    worker's process); the provisioner's command line is parsed by the worker's flags
    ([boot]).  The gateway uses Auth, Slo and
    Queue; the pool takes from the same Queue and runs Dispatcher; [server_step] joins them with
    the gateway in one piece.  Live joins them goroutine by goroutine: its pure steps are pieces
    of Gateway ([handler_alone]), its dispatchers run Dispatcher, its lanes hold pointers to the
    requests, and the timeout of a wait is a step.
    Config's counters are driven by the gateway's hook.  Over the HTTP hop between the planes,
    [ask_router] makes the dispatcher's call the router's request and the router's response
    the dispatcher's answer; the bodies are the texts themselves, decoded on each side.
    TwoPlanes runs Live next to [router_step]: the answers to the calls made for a request are
    responses of router handlers that arrived since the request was queued, or connections
    that failed; its states project to reachable states of Live ([planes_live]) and of the
    router ([pi_router]), so what is shown of either holds there.

    ** What the theorems show

    Safety of the fleet: [registry_refines_fleet], [registration_history],
    [registry_entries_wellformed], [dead_only_after_timeout]. Detection:
    [silent_workers_found_dead], [silent_worker_dies], and [missed_detection] for a
    callback faster than the gap between a heartbeat's two clock readings. Workers:
    [heartbeats_conform] and the one report the registry refuses ([early_drain_refused]),
    [drain_runs_out] for every fair run, [left_for_good], [ollama_registers_models], and
    [refused_worker_locked_out]. Routing: [handleInference_outcome],
    [handleInference_failover], [pickWorker_optimal], [pickWorker_round_robin]. The
    running router: [ended_runs_ServeHTTP] that every handler does what the sequential
    handler does, [in_flight_exact] what a counter is worth, [undisturbed_selection],
    [router_rests] that handlers end and counters return to zero, [race_run_panics] for
    two requests between the passes of a selection and [crash_leaks] for an answer whose
    status cannot be written. Eviction: [dead_worker_evicted] and [visit_evicts_dead]
    for every interleaving, [fleet_heals] from the sweep to the replacements docker
    starts or fails to start, and the registration a sweep loses. Queueing: [lanes_are_fifo], [AheadOf_exact]. Dispatch:
    [dispatchBuffered_outcome] and [dispatchStream_outcome] reduce both nested retry
    loops to a walk along one flat plan; [setModel_fields] and [sent_bodies] say what is
    sent on the way. The running request plane: [own_answer] that a client gets what was
    made of its own request or the 504, [live_exactly_once] where each request is and
    that no send of a result blocks, [every_client_answered] that every handler comes to
    an end, [live_refines_pool] that it implements Pool, [live_exhausted] what streams
    nobody reads do to the pool; [server_drains] for a server built from its flags and
    patient clients. Both planes: [request_answered], from the chain to what the client
    reads, [nobody_serves], [worker_requests_bounded], [empty_fallback_answers_400], and
    [cut_off_answer_looks_whole]; running side by side,
    [answered_by_worker] and [planes_rest]. The end of a process:
    [shutdown_drains_nothing], [control_plane_stops], [restart_loses_workers].
    Admission: [gates_in_order], [keys_enforced], [limiter_rate],
    [limiter_refines_bucket], [Estimate_bounds] and [Record_mean] on the program's
    floats. Views: [views_agree], [scrape_well_formed], [counters_match_responses],
    [keys_are_exposed]; over HTTP [admin_drains], [worker_detail_reads_back], and
    [unpresentable_blanks_listing] for a figure JSON cannot write.

    ** Bounds and fuel

    The program's loops are structural: the router's retries run on [min(n, 3)] attempts, the
    dispatcher's on [maxAttempts] for each model of the chain, scans on their lists.  The JSON
    scanner runs on fuel, twice the length of its text and two, which is always enough
    ([fuel_enough]), and to encoding/json's nesting depth of 10000.  Integers wrap around at
    their width.  Float arithmetic is computed.  Where it is compared with exact numbers, the
    hypotheses keep budgets and counts below 2^53, where an integer is a float; the limiter's
    rate theorem asks that its rounding errors, at most 2^-49 of a budget for each request, do
    not add up to a token, and the estimate and the average that theirs stay below a tenth of
    a nanosecond.  [limiter_refines_bucket] is about whole seconds and budgets of [60 * r]
    tokens, where nothing rounds.  A chunk channel holds sixteen chunks.

    ** What is not modelled

    The quoting of %q, which needs the Unicode tables ([FmtQuote]), and the texts of
    encoding/json's errors ([JsonError]).  The syntax of numeric command-line flags.  The gRPC
    and protobuf runtimes, the Prometheus client, the Docker and Ollama programs, logging,
    sockets.  The decimal digits of a float and the text of a time in a response
    ([FloatText], [TimeText]); a redirect of an admin API is the path it leads to.  Header values
    are single.  The gateway's [WriteHeader] is given the upstream's status without the check
    for three digits: the router never answers with another ([ask_router_status]).  Timeouts
    of the HTTP clients are answers of the surroundings.  In Live a client does not hang up,
    and an upstream that never answers is a dispatcher that takes no step. *)

From stdpp Require Export base gmap strings list sorting relations pretty.
From Stdlib Require Export ZArith Lia.

(** Opening [Z_scope] is left to the files that need it. *)
#[global] Set Default Goal Selector "!".

(** ** Machine integers

    Go's integers wrap around on overflow.  An integer of the source is a [Z]
    and every operation that can overflow is followed by one of these. *)

Definition int64 (z : Z) : Z := ((z + 2 ^ 63) mod 2 ^ 64 - 2 ^ 63)%Z.

Definition uint64 (z : Z) : Z := (z mod 2 ^ 64)%Z.

Definition uint32 (z : Z) : Z := (z mod 2 ^ 32)%Z.

(** ** Results of code that can panic *)

Inductive GoPanic :=
  | IndexOutOfRange
  | DivideByZero
  | NilMapWrite
  | MakeChanSize
  | InvalidWriteHeaderCode.

Inductive res (A : Type) :=
  | Ok (a : A)
  | Panic (p : GoPanic).
Arguments Ok {A} a.
Arguments Panic {A} p.

Definition res_bind {A B} (r : res A) (f : A → res B) : res B :=
  match r with
  | Ok a => f a
  | Panic p => Panic p
  end.

Declare Scope go_scope.
Delimit Scope go_scope with go.
Notation "x ←! r ; k" := (res_bind r (λ x, k))
  (at level 20, r at level 100, k at level 200, right associativity) : go_scope.

(** ** Iteration over Go maps

    [for k, v := range m] visits the entries of a map in an order the language
    leaves unspecified and that changes between two loops over the same map.
    [range i m] is the order of the [i]-th loop; all that is known of it is that
    it visits every entry exactly once. *)

Class MapRange := {
  range : ∀ {A}, nat → gmap string A → list (string * A);
  range_perm : ∀ {A} i (m : gmap string A), range i m ≡ₚ map_to_list m;
}.

(** The order of [map_to_list] is one admissible order. *)
#[export] Instance map_to_list_range : MapRange | 100 := {
  range A i m := map_to_list m;
  range_perm A i m := Permutation_refl _;
}.

(** The [%q] verb of fmt, left abstract: theorems hold for every quoting. *)
Class FmtQuote := quote : string → string.

(** ** Tactics *)

(** Case analysis on the scrutinee of a match in the goal. *)
Ltac case_goal :=
  match goal with
  | |- context [ match ?x with _ => _ end ] => destruct x eqn:?
  end.

(** Case analysis on the scrutinee of a match in a hypothesis. *)
Ltac case_hyp H :=
  repeat match type of H with
  | context [ match ?x with _ => _ end ] => destruct x eqn:?; simplify_eq/=
  end.

Create HintDb fleet.
Create Rewrite HintDb fleet.

(** ** Lemmas on machine integers *)

Lemma int64_id z : (- 2 ^ 63 ≤ z < 2 ^ 63)%Z → int64 z = z.
Proof. intros H. unfold int64. rewrite Z.mod_small; lia. Qed.

Lemma int64_range z : (- 2 ^ 63 ≤ int64 z < 2 ^ 63)%Z.
Proof.
  unfold int64. pose proof (Z.mod_pos_bound (z + 2 ^ 63) (2 ^ 64) ltac:(lia)). lia.
Qed.

Lemma int64_add_l a b : int64 (int64 a + b) = int64 (a + b).
Proof.
  unfold int64.
  replace ((a + 2 ^ 63) mod 2 ^ 64 - 2 ^ 63 + b + 2 ^ 63)%Z
    with ((a + 2 ^ 63) mod 2 ^ 64 + b)%Z by lia.
  rewrite Z.add_mod_idemp_l by lia. do 2 f_equal. lia.
Qed.

Lemma uint64_id z : (0 ≤ z < 2 ^ 64)%Z → uint64 z = z.
Proof. intros H. unfold uint64. by apply Z.mod_small. Qed.

Lemma uint64_range z : (0 ≤ uint64 z < 2 ^ 64)%Z.
Proof. apply Z.mod_pos_bound. lia. Qed.

#[export] Hint Rewrite @int64_add_l : fleet.
#[export] Hint Resolve int64_range uint64_range : fleet.

(** ** Lemmas on lists *)

Lemma list_filter_all {A} (P : A → Prop) `{∀ x, Decision (P x)} (l : list A) :
  (∀ x, x ∈ l → P x) → filter P l = l.
Proof.
  induction l as [|x l IH]; intros Hall; [done|]. rewrite filter_cons, decide_True.
  - f_equal. apply IH. intros y Hy. apply Hall. by right.
  - apply Hall. by left.
Qed.

Lemma list_filter_none {A} (P : A → Prop) `{∀ x, Decision (P x)} (l : list A) :
  (∀ x, x ∈ l → ¬ P x) → filter P l = [].
Proof.
  induction l as [|x l IH]; intros Hall; [done|]. rewrite filter_cons, decide_False.
  - apply IH. intros y Hy. apply Hall. by right.
  - apply Hall. by left.
Qed.

Lemma filter_fmap_iff {A B} (f : A → B) (P : B → Prop) (Q : A → Prop)
    `{∀ x, Decision (P x), ∀ x, Decision (Q x)} (l : list A) :
  (∀ x, Q x ↔ P (f x)) → filter P (f <$> l) = f <$> filter Q l.
Proof.
  intros HPQ. induction l as [|x l IH]; [done|]. rewrite fmap_cons, !filter_cons, IH.
  destruct (decide (Q x)) as [Hq|Hq]; specialize (HPQ x).
  - by rewrite decide_True by tauto.
  - by rewrite decide_False by tauto.
Qed.

(** Dropping one element of a list whose keys are distinct. *)
Lemma filter_key_ne_length {A B} `{EqDecision B} (f : A → B) (l : list A) e :
  NoDup (f <$> l) → e ∈ l → S (length (filter (λ v, f v ≠ f e) l)) = length l.
Proof.
  induction l as [|v l IH]; intros Hnd He; [by apply not_elem_of_nil in He|].
  simpl in Hnd. apply NoDup_cons in Hnd as [Hv Hnd]. rewrite filter_cons.
  destruct (decide (f v = f e)) as [Heq|Hne].
  - rewrite decide_False by (intros H; by apply H). simpl. f_equal. f_equal.
    apply list_filter_all. intros u Hu Hf. apply Hv. rewrite Heq, <- Hf. by apply list_elem_of_fmap_2.
  - rewrite decide_True by done. simpl. f_equal. apply IH; [done|].
    apply elem_of_cons in He as [->|He]; [done|done].
Qed.

Lemma insert_delete_Permutation {A} (l : list A) n x y :
  l !! n = Some x → <[n := y]> l ≡ₚ y :: delete n l.
Proof.
  revert n. induction l as [|z l IH]; intros [|n]; simpl; [done..|].
  intros H. rewrite (IH _ H). apply Permutation_swap.
Qed.

(** Replacing one element under [omap], and under a sum. *)
Lemma omap_insert_Permutation {A B} (f : A → option B) (l : list A) n x y :
  l !! n = Some x → option_list (f x) ++ omap f (<[n := y]> l) ≡ₚ option_list (f y) ++ omap f l.
Proof.
  intros Hx. rewrite (insert_delete_Permutation _ _ _ y Hx).
  rewrite (delete_Permutation l n x Hx) at 2. simpl.
  destruct (f x), (f y); simpl; try done. apply Permutation_swap.
Qed.

(** Two places with the same image, the images being distinct. *)
Lemma NoDup_omap_lookup {A B} (f : A → option B) (l : list A) i j x y b :
  NoDup (omap f l) → l !! i = Some x → l !! j = Some y → f x = Some b → f y = Some b → i = j.
Proof.
  revert i j. induction l as [|z l IH]; intros i j Hnd Hi Hj Hx Hy; [done|].
  assert (∀ k v, l !! k = Some v → f v = Some b → b ∈ omap f l) as Hin.
  { intros k v Hk Hv. apply list_elem_of_omap. exists v. split; [by eapply list_elem_of_lookup_2|done]. }
  csimpl in Hnd. destruct i as [|i], j as [|j]; simpl in Hi, Hj; [done|..].
  - injection Hi as ->. rewrite Hx in Hnd. apply NoDup_cons in Hnd as [Hnd _]. destruct Hnd. by eapply Hin.
  - injection Hj as ->. rewrite Hy in Hnd. apply NoDup_cons in Hnd as [Hnd _]. destruct Hnd. by eapply Hin.
  - f_equal. apply IH; [|done..]. destruct (f z); [by apply NoDup_cons in Hnd as [_ ?]|done].
Qed.

Lemma length_omap_le {A B} (f : A → option B) (l : list A) : (length (omap f l) ≤ length l)%nat.
Proof. induction l as [|x l IH]; csimpl; [done|]. destruct (f x); csimpl; lia. Qed.

Lemma sum_list_insert {A} (f : A → nat) (l : list A) n x y :
  l !! n = Some x → (sum_list_with f (<[n := y]> l) + f x = sum_list_with f l + f y)%nat.
Proof.
  revert n. induction l as [|z l IH]; intros [|n]; simpl; try done.
  - intros [= ->]. lia.
  - intros H. specialize (IH n H). lia.
Qed.

Lemma rotate_Permutation {A} n (l : list A) : rotate n l ≡ₚ l.
Proof. unfold rotate. by rewrite Permutation_app_comm, take_drop. Qed.

(** ** Lemmas on [range] *)

Section range_lemmas.
Context `{MapRange} {A : Type}.
Implicit Types m : gmap string A.

Lemma elem_of_range i m k x : (k, x) ∈ range i m ↔ m !! k = Some x.
Proof. by rewrite (range_perm i m), elem_of_map_to_list. Qed.

Lemma NoDup_range_fst i m : NoDup (range i m).*1.
Proof. rewrite (range_perm i m). apply NoDup_fst_map_to_list. Qed.

Lemma length_range i m : length (range i m) = size m.
Proof. by rewrite (range_perm i m), length_map_to_list. Qed.

Lemma range_empty i : range i (∅ : gmap string A) = [].
Proof.
  apply Permutation_nil. by rewrite (range_perm i ∅), map_to_list_empty.
Qed.

End range_lemmas.

#[export] Hint Resolve NoDup_range_fst : fleet.

(** ** Invariants of step relations *)

Section reachability.
Context {S : Type} (R : relation S) (Inv : S → Prop).
Hypothesis Inv_step : ∀ s s', R s s' → Inv s → Inv s'.

Lemma invariant_rtc s s' : rtc R s s' → Inv s → Inv s'.
Proof. induction 1; eauto. Qed.

End reachability.

(** A relation along which one measure falls, or stays while a second one falls. *)
Lemma sn_measures {S : Type} (R : relation S) (f g : S → nat) :
  (∀ s s', R s s' → f s' < f s ∨ f s' = f s ∧ g s' < g s)%nat → ∀ s, sn R s.
Proof.
  intros Hdec s. remember (f s) as n1 eqn:E1. remember (g s) as n2 eqn:E2.
  revert n2 s E1 E2. induction (lt_wf n1) as [n1 _ IH1].
  intros n2. induction (lt_wf n2) as [n2 _ IH2]. intros s -> ->.
  constructor. intros s' Hs. destruct (Hdec _ _ Hs) as [H1|[H1 H2]].
  - by eapply IH1.
  - by eapply IH2.
Qed.
