(* ===== verification/GoFloat.v ===== *)
(** * Go's [float64]

    A [float64] of the source is an IEEE 754 binary64 number, given by the
    Standard Library's [SpecFloat] at precision 53 and exponent bound 1024, so
    every operation below rounds to nearest even exactly as the hardware does
    and is executable.  Comparison is a total preorder on the numbers that are not
    NaN; when the operations are exact is the matter of FloatExact. *)

From S2P Require Import Prelude.
From Stdlib Require Export Floats.SpecFloat.
Open Scope Z_scope.

Abbreviation float64 := spec_float.

Definition f_add : float64 → float64 → float64 := SFadd 53 1024.
Definition f_sub : float64 → float64 → float64 := SFsub 53 1024.
Definition f_mul : float64 → float64 → float64 := SFmul 53 1024.
Definition f_div : float64 → float64 → float64 := SFdiv 53 1024.

Definition f_ltb : float64 → float64 → bool := SFltb.
Definition f_leb : float64 → float64 → bool := SFleb.
Definition f_eqb : float64 → float64 → bool := SFeqb.

Definition f_isnan (x : float64) : bool :=
  match x with S754_nan => true | _ => false end.

(** Conversion of an integer, [float64(n)]. *)
Definition f_of_Z (z : Z) : float64 := binary_normalize 53 1024 z 0 false.

#[global] Arguments f_of_Z : simpl never.
#[global] Arguments f_add : simpl never.
#[global] Arguments f_sub : simpl never.
#[global] Arguments f_mul : simpl never.
#[global] Arguments f_div : simpl never.

(** The built-in [min] of Go on two floats: NaN propagates and -0 is below +0. *)
Definition f_min (x y : float64) : float64 :=
  if f_isnan x || f_isnan y then S754_nan
  else if f_ltb x y then x
  else if f_ltb y x then y
  else match x with S754_zero true => x | _ => y end.

(** [x*y + z] with one rounding, as the compiler may fuse it. *)
Definition f_fma (x y z : float64) : float64 :=
  match x, y, z with
  | S754_finite sx mx ex, S754_finite sy my ey, S754_finite sz mz ez =>
    let sp := xorb sx sy in
    let mp := Pos.mul mx my in
    let ep := ex + ey in
    let e := Z.min ep ez in
    binary_normalize 53 1024
      (cond_Zopp sp (Z.pos (fst (shl_align mp ep e)))
       + cond_Zopp sz (Z.pos (fst (shl_align mz ez e)))) e false
  | S754_finite _ _ _, S754_finite _ _ _, S754_infinity _ => z
  | _, _, _ => f_add z (f_mul x y)
  end.

(** [z + x*y]: the language lets an implementation fuse the two operations
    (it does on arm64 and does not on amd64), so [fused] is a parameter of
    every definition that computes such an expression. *)
Definition f_muladd (fused : bool) (x y z : float64) : float64 :=
  if fused then f_fma x y z else f_add z (f_mul x y).

(** Truncation toward zero of a finite float. *)
Definition f_trunc (x : float64) : option Z :=
  match x with
  | S754_zero _ => Some 0
  | S754_finite s m e => Some (cond_Zopp s (if 0 <=? e then Z.pos m * 2 ^ e else Z.pos m / 2 ^ (- e)))
  | _ => None
  end.

(** [int64(x)].  Out of range the result is implementation-dependent: [oor] is
    the value the implementation gives. *)
Definition f_to_int64 (oor : float64 → Z) (x : float64) : Z :=
  match f_trunc x with
  | Some z => if (- 2 ^ 63 <=? z) && (z <? 2 ^ 63) then z else oor x
  | None => oor x
  end.

(** ** Order *)

Lemma SFcompare_sym x y :
  SFcompare y x = CompOpp <$> SFcompare x y.
Proof.
  destruct x as [s|s| |s m e], y as [s'|s'| |s' m' e']; try done;
    try (destruct s; done); try (destruct s'; done).
  - by destruct s, s'.
  - change (SFcompare (S754_finite s m e) (S754_finite s' m' e')) with
      (Some (match s, s' with
       | true, false => Lt | false, true => Gt
       | false, false => match e ?= e' with Lt => Lt | Gt => Gt | Eq => Pos.compare_cont Eq m m' end
       | true, true => match e ?= e' with Lt => Gt | Gt => Lt | Eq => CompOpp (Pos.compare_cont Eq m m') end
       end)).
    simpl. rewrite (Z.compare_antisym e e').
    change (Pos.compare_cont Eq m' m) with (m' ?= m)%positive.
    change (Pos.compare_cont Eq m m') with (m ?= m')%positive.
    rewrite (Pos.compare_antisym m m').
    destruct s, s', (e ?= e'), (m ?= m')%positive; done.
Qed.

(** The position of a number in the order: class, then exponent, then mantissa. *)
Definition f_key (x : float64) : Z * Z * Z :=
  match x with
  | S754_infinity true => (-2, 0, 0)
  | S754_finite true m e => (-1, - e, Z.neg m)
  | S754_zero _ | S754_nan => (0, 0, 0)
  | S754_finite false m e => (1, e, Z.pos m)
  | S754_infinity false => (2, 0, 0)
  end.

Definition key_le (k k' : Z * Z * Z) : Prop :=
  let '(c, e, m) := k in let '(c', e', m') := k' in
  c < c' ∨ c = c' ∧ (e < e' ∨ e = e' ∧ m ≤ m').

Lemma f_leb_key x y :
  f_isnan x = false → f_isnan y = false → f_leb x y = true ↔ key_le (f_key x) (f_key y).
Proof.
  intros Hx Hy. unfold f_leb, SFleb.
  destruct x as [s|s| |s m e], y as [s'|s'| |s' m' e']; try done;
    try (destruct s); try (destruct s'); simpl; try (split; [lia|done]); try (split; [done|lia]).
  - change (Pos.compare_cont Eq m m') with (m ?= m')%positive.
    destruct (Z.compare_spec e e'), (Pos.compare_spec m m'); simpl; split; try done; lia.
  - change (Pos.compare_cont Eq m m') with (m ?= m')%positive.
    destruct (Z.compare_spec e e'), (Pos.compare_spec m m'); simpl; split; try done; lia.
Qed.

Lemma f_ltb_leb x y :
  f_isnan x = false → f_isnan y = false → f_ltb x y = negb (f_leb y x).
Proof.
  intros Hx Hy. unfold f_ltb, f_leb, SFltb, SFleb. rewrite (SFcompare_sym x y).
  destruct (SFcompare x y) as [[]|] eqn:E; try done.
  exfalso. by destruct x as [s|s| |s m e], y as [s'|s'| |s' m' e'].
Qed.

Lemma f_eqb_leb x y : f_eqb x y = f_leb x y && f_leb y x.
Proof.
  unfold f_eqb, f_leb, SFeqb, SFleb. rewrite (SFcompare_sym x y).
  by destruct (SFcompare x y) as [[]|].
Qed.

Lemma f_leb_total x y :
  f_isnan x = false → f_isnan y = false → f_leb x y = true ∨ f_leb y x = true.
Proof.
  intros Hx Hy. rewrite !f_leb_key by done.
  destruct (f_key x) as [[c e] m], (f_key y) as [[c' e'] m']; simpl; lia.
Qed.

Lemma f_leb_refl x : f_isnan x = false → f_leb x x = true.
Proof. intros Hx. by destruct (f_leb_total x x). Qed.

Lemma f_leb_trans x y z :
  f_isnan y = false → f_leb x y = true → f_leb y z = true → f_leb x z = true.
Proof.
  intros Hy Hxy Hyz.
  assert (f_isnan x = false) as Hx by (destruct x; [..|discriminate Hxy|]; done).
  assert (f_isnan z = false) as Hz by (destruct z, y; done).
  revert Hxy Hyz. rewrite !f_leb_key by done.
  destruct (f_key x) as [[c e] m], (f_key y) as [[c' e'] m'], (f_key z) as [[c'' e''] m''].
  simpl; lia.
Qed.

Lemma f_ltb_leb_trans x y z :
  f_isnan x = false → f_isnan y = false → f_isnan z = false →
  f_ltb x y = true → f_leb y z = true → f_ltb x z = true.
Proof.
  intros Hx Hy Hz. rewrite !f_ltb_leb by done. rewrite !negb_true_iff, <- !not_true_iff_false.
  rewrite !f_leb_key by done.
  destruct (f_key x) as [[c e] m], (f_key y) as [[c' e'] m'], (f_key z) as [[c'' e''] m''].
  simpl; lia.
Qed.

Lemma f_ltb_leb_weak x y : f_ltb x y = true → f_leb x y = true.
Proof. unfold f_ltb, f_leb, SFltb, SFleb. by destruct (SFcompare x y) as [[]|]. Qed.

(** ** [min] *)

Lemma f_min_nan x y : f_isnan (f_min x y) = f_isnan x || f_isnan y.
Proof.
  unfold f_min. destruct (f_isnan x) eqn:Hx, (f_isnan y) eqn:Hy; try done; simpl.
  repeat case_goal; try done; by subst.
Qed.

Lemma f_min_le_l x y :
  f_isnan x = false → f_isnan y = false → f_leb (f_min x y) x = true.
Proof.
  intros Hx Hy. unfold f_min. rewrite Hx, Hy; simpl.
  destruct (f_ltb x y) eqn:Hxy; [by apply f_leb_refl|].
  rewrite f_ltb_leb, negb_false_iff in Hxy by done.
  destruct (f_ltb y x) eqn:Hyx; [done|].
  destruct x as [[]| | |]; try done.
Qed.

Lemma f_min_le_r x y :
  f_isnan x = false → f_isnan y = false → f_leb (f_min x y) y = true.
Proof.
  intros Hx Hy. unfold f_min. rewrite Hx, Hy; simpl.
  destruct (f_ltb x y) eqn:Hxy; [by apply f_ltb_leb_weak|].
  destruct (f_ltb y x) eqn:Hyx; [by apply f_leb_refl|].
  rewrite f_ltb_leb, negb_false_iff in Hyx by done.
  destruct x as [[]| | |]; try done; by apply f_leb_refl.
Qed.

Lemma f_min_glb x y z :
  f_leb z x = true → f_leb z y = true → f_leb z (f_min x y) = true.
Proof.
  intros Hx Hy. unfold f_min.
  assert (f_isnan x = false) as -> by (destruct x, z; done).
  assert (f_isnan y = false) as -> by (destruct y, z; done). simpl.
  repeat case_goal; try done; by subst.
Qed.

(** A number that is not below zero: neither NaN nor negative. *)
Definition f_nonneg (x : float64) : bool := f_leb (S754_zero false) x.

Lemma f_nonneg_not_nan x : f_nonneg x = true → f_isnan x = false.
Proof. by destruct x. Qed.

Lemma f_nonneg_cases x :
  f_nonneg x = true ↔
  (∃ s, x = S754_zero s) ∨ x = S754_infinity false ∨ (∃ m e, x = S754_finite false m e).
Proof.
  split.
  - destruct x as [s|s| |s m e]; try done; [eauto|destruct s; [done|eauto]|].
    destruct s; [done|]. eauto 6.
  - intros [[s ->]|[->|(m & e & ->)]]; done.
Qed.
