(* ===== verification/FloatExact.v ===== *)
(** * Exact integer arithmetic in [float64]

    Rounding does not change a number that a [float64] represents, and it
    represents every integer below 2^53 in absolute value.  So on such integers
    addition, subtraction, multiplication, exact division, comparison and [min]
    of floats are those of [Z]. *)

From S2P Require Import Prelude GoFloat.
Open Scope Z_scope.

(** ** Digits and shifts *)

Abbreviation digits p := (Z.pos (digits2_pos p)).

Lemma digits_log2 p : digits p = Z.log2 (Z.pos p) + 1.
Proof.
  induction p as [p IH|p IH|]; simpl digits2_pos; [| |done]; rewrite Pos2Z.inj_succ, IH.
  - rewrite (Pos2Z.inj_xI p), Z.log2_succ_double by lia. lia.
  - rewrite (Pos2Z.inj_xO p), Z.log2_double by lia. lia.
Qed.

Lemma digits_pow p q k : 0 ≤ k → Z.pos q = Z.pos p * 2 ^ k → digits q = digits p + k.
Proof. intros Hk Hq. rewrite !digits_log2, Hq, Z.log2_mul_pow2 by lia. lia. Qed.

Lemma digits_bound p d : 0 ≤ d → Z.pos p < 2 ^ d → digits p ≤ d.
Proof.
  intros Hd Hp. rewrite digits_log2. apply Z.log2_lt_pow2 in Hp; lia.
Qed.

Lemma digits_mono p q : Z.pos p ≤ Z.pos q → digits p ≤ digits q.
Proof. intros H. rewrite !digits_log2. pose proof (Z.log2_le_mono _ _ H). lia. Qed.

Lemma shift_left p n : Z.pos (Pos.iter xO p n) = Z.pos p * 2 ^ Z.pos n.
Proof.
  induction n as [|n IH] using Pos.peano_ind; [simpl; lia|].
  rewrite Pos.iter_succ, (Pos2Z.inj_xO _), IH, Pos2Z.inj_succ, Z.pow_succ_r by lia. lia.
Qed.

Lemma shift_right n p q :
  Z.pos q = Z.pos p * 2 ^ Z.pos n →
  iter_pos shr_1 n {| shr_m := Z.pos q; shr_r := false; shr_s := false |}
    = {| shr_m := Z.pos p; shr_r := false; shr_s := false |}.
Proof.
  revert p q. induction n as [n IH|n IH|]; intros p q Hq; simpl iter_pos.
  - assert (Z.pos q = 2 * Z.pos (Pos.iter xO (Pos.iter xO p n) n)) as Hq'.
    { rewrite !shift_left, Hq, (Pos2Z.inj_xI n), Z.add_1_r, Z.pow_succ_r by lia.
      rewrite <- Z.mul_assoc, <- Z.pow_add_r by lia.
      replace (Z.pos n + Z.pos n) with (2 * Z.pos n) by lia. lia. }
    rewrite <- Pos2Z.inj_xO in Hq'. injection Hq' as ->. simpl.
    rewrite (IH (Pos.iter xO p n)) by apply shift_left. apply IH. apply shift_left.
  - rewrite (IH (Pos.iter xO p n)); [apply IH; apply shift_left|].
    rewrite shift_left, Hq, <- Z.mul_assoc, <- Z.pow_add_r by lia. do 2 f_equal. lia.
  - assert (Z.pos q = Z.pos (xO p)) as [= ->] by lia. done.
Qed.

(** ** Rounding is exact on representable numbers *)

(** [m * 2^c] has a 53-bit mantissa and an exponent in the normal range. *)
Definition canonical (m : positive) (c : Z) : Prop := digits m = 53 ∧ -1074 ≤ c ≤ 971.

Lemma fexp_canonical m c : canonical m c → fexp 53 1024 (digits m + c) = c.
Proof. intros [-> Hc]. unfold fexp, emin. lia. Qed.

Lemma round_aux_exact s p e m c :
  canonical m c → e ≤ c → Z.pos p = Z.pos m * 2 ^ (c - e) →
  binary_round_aux 53 1024 s (Z.pos p) e loc_Exact = S754_finite s m c.
Proof.
  intros Hm He Hp. pose proof (digits_pow m p (c - e) ltac:(lia) Hp) as Hd.
  assert (shr_fexp 53 1024 (Z.pos p) e loc_Exact =
    ({| shr_m := Z.pos m; shr_r := false; shr_s := false |}, c)) as Hfirst.
  { unfold shr_fexp. simpl Zdigits2. replace (digits p + e) with (digits m + c) by lia.
    rewrite (fexp_canonical m c Hm). simpl shr_record_of_loc.
    destruct (c - e) as [|n|n] eqn:Hn; [| |lia].
    - simpl. assert (p = m) as -> by lia. do 2 f_equal. lia.
    - simpl shr. rewrite (shift_right n m p Hp). f_equal. lia. }
  unfold binary_round_aux. rewrite Hfirst. simpl round_nearest_even.
  unfold shr_fexp. simpl Zdigits2. rewrite (fexp_canonical m c Hm), Z.sub_diag. simpl.
  destruct (Z.leb_spec c (1024 - 53)); [done|destruct Hm; lia].
Qed.

(** [p * 2^e] and [m * 2^c] are the same number. *)
Definition same_number (p : positive) (e : Z) (m : positive) (c : Z) : Prop :=
  Z.pos p * 2 ^ (e - Z.min e c) = Z.pos m * 2 ^ (c - Z.min e c).

Lemma round_exact s p e m c :
  canonical m c → same_number p e m c → binary_round 53 1024 s p e = S754_finite s m c.
Proof.
  intros Hm Hs. unfold same_number in Hs. unfold binary_round.
  destruct (Z.le_gt_cases e c) as [Hle|Hgt].
  - rewrite Z.min_l, Z.sub_diag, Z.pow_0_r, Z.mul_1_r in Hs by lia.
    pose proof (digits_pow m p (c - e) ltac:(lia) Hs) as Hd.
    replace (digits p + e) with (digits m + c) by lia. rewrite fexp_canonical by done.
    unfold shl_align. destruct (c - e) as [|n|n] eqn:Hn; [| |lia].
    all: apply round_aux_exact; [done|lia|]; by rewrite Hn.
  - rewrite Z.min_r, Z.sub_diag, Z.pow_0_r, Z.mul_1_r in Hs by lia.
    pose proof (digits_pow p m (e - c) ltac:(lia) (eq_sym Hs)) as Hd.
    replace (digits p + e) with (digits m + c) by lia. rewrite fexp_canonical by done.
    unfold shl_align. destruct (c - e) as [|n|n] eqn:Hn; [lia|lia|].
    apply round_aux_exact; [done|lia|]. rewrite Z.sub_diag, shift_left, <- Hs.
    replace (e - c) with (Z.pos n) by lia. lia.
Qed.

(** ** Integers *)

(** The mantissa and exponent of a positive integer. *)
Definition int_mant (p : positive) : positive :=
  match (53 - digits p)%Z with Z.pos n => Pos.iter xO p n | _ => p end.
Definition int_exp (p : positive) : Z := digits p - 53.

(** The [float64] of an integer. *)
Definition f_int (z : Z) : float64 :=
  match z with
  | Z0 => S754_zero false
  | Z.pos p => S754_finite false (int_mant p) (int_exp p)
  | Z.neg p => S754_finite true (int_mant p) (int_exp p)
  end.

(** The integers a float represents exactly. *)
Definition small (z : Z) : Prop := - 2 ^ 53 < z < 2 ^ 53.

Lemma int_mant_value p : Z.pos p < 2 ^ 53 → Z.pos (int_mant p) = Z.pos p * 2 ^ (- int_exp p).
Proof.
  intros Hp. pose proof (digits_bound p 53 ltac:(lia) Hp). unfold int_mant, int_exp.
  replace (- (digits p - 53)) with (53 - digits p) by lia.
  destruct (53 - digits p) as [|n|n] eqn:E; [lia|by rewrite shift_left|lia].
Qed.

Lemma int_canonical p : Z.pos p < 2 ^ 53 → canonical (int_mant p) (int_exp p).
Proof.
  intros Hp. pose proof (digits_bound p 53 ltac:(lia) Hp). unfold int_exp. split; [|lia].
  rewrite (digits_pow p (int_mant p) (53 - digits p)); [lia|lia|].
  rewrite int_mant_value by done. unfold int_exp. do 2 f_equal. lia.
Qed.

Lemma int_exp_nonpos p : Z.pos p < 2 ^ 53 → int_exp p ≤ 0.
Proof. intros Hp. pose proof (digits_bound p 53 ltac:(lia) Hp). unfold int_exp. lia. Qed.

(** A scaled integer rounds to that integer. *)
Lemma normalize_int z m e :
  small z → e ≤ 0 → m = z * 2 ^ (- e) → binary_normalize 53 1024 m e false = f_int z.
Proof.
  intros Hz He ->. assert (0 < 2 ^ (- e)) as Hpow by (apply Z.pow_pos_nonneg; lia).
  assert (∀ p q, Z.pos p < 2 ^ 53 → Z.pos q = Z.pos p * 2 ^ (- e) →
    same_number q e (int_mant p) (int_exp p)) as Hsame.
  { intros p q Hp Hq. unfold same_number. pose proof (int_exp_nonpos p Hp).
    rewrite int_mant_value, Hq, <- !Z.mul_assoc, <- !Z.pow_add_r by lia. do 2 f_equal. lia. }
  unfold small in Hz. destruct z as [|p|p]; [done| |].
  - destruct (Z.pos p * 2 ^ (- e)) as [|q|q] eqn:Hq; [lia| |lia].
    apply round_exact; [apply int_canonical; lia|apply Hsame; lia].
  - destruct (Z.neg p * 2 ^ (- e)) as [|q|q] eqn:Hq; [lia|lia|].
    apply round_exact; [apply int_canonical; lia|apply Hsame; lia].
Qed.

Lemma f_of_Z_int z : small z → f_of_Z z = f_int z.
Proof. intros Hz. unfold f_of_Z. apply normalize_int; [done|lia|]. simpl. lia. Qed.

(** A mantissa brought down to a smaller exponent. *)
Lemma aligned p e :
  Z.pos p < 2 ^ 53 → e ≤ int_exp p →
  Z.pos (fst (shl_align (int_mant p) (int_exp p) e)) = Z.pos p * 2 ^ (- e).
Proof.
  intros Hp He. pose proof (int_exp_nonpos p Hp). unfold shl_align.
  destruct (e - int_exp p) as [|n|n] eqn:Hn; simpl; [| lia|].
  - rewrite int_mant_value by done. do 2 f_equal. lia.
  - rewrite shift_left, int_mant_value, <- Z.mul_assoc, <- Z.pow_add_r by lia. do 2 f_equal. lia.
Qed.

Lemma f_add_int a b : small a → small b → small (a + b) → f_add (f_int a) (f_int b) = f_int (a + b).
Proof.
  unfold small. intros Ha Hb Hab. destruct a as [|p|p], b as [|q|q]; try done.
  all: unfold f_add, f_int at 1 2; unfold SFadd; pose proof (int_exp_nonpos p ltac:(lia));
    apply normalize_int; [done|lia|]; rewrite !aligned by lia; simpl cond_Zopp; lia.
Qed.

Lemma f_sub_int a b : small a → small b → small (a - b) → f_sub (f_int a) (f_int b) = f_int (a - b).
Proof.
  unfold small. intros Ha Hb Hab. destruct a as [|p|p], b as [|q|q]; try done.
  all: unfold f_sub, f_int at 1 2; unfold SFsub; pose proof (int_exp_nonpos p ltac:(lia));
    apply normalize_int; [done|lia|]; rewrite !aligned by lia; simpl cond_Zopp; lia.
Qed.

Lemma f_mul_int a b :
  0 ≤ a → 0 ≤ b → small a → small b → small (a * b) → f_mul (f_int a) (f_int b) = f_int (a * b).
Proof.
  unfold small. intros Ha0 Hb0 Ha Hb Hab. destruct a as [|p|p], b as [|q|q]; try done.
  change (Z.pos p * Z.pos q) with (Z.pos (p * q)) in *.
  pose proof (int_canonical p ltac:(lia)) as [Hp _]. pose proof (int_canonical q ltac:(lia)) as [Hq _].
  pose proof (int_exp_nonpos p ltac:(lia)). pose proof (int_exp_nonpos q ltac:(lia)).
  assert (digits p + digits q ≤ digits (p * q) + 1) as Hd.
  { rewrite !digits_log2, (Pos2Z.inj_mul p q). pose proof (Z.log2_mul_below (Z.pos p) (Z.pos q)). lia. }
  unfold f_mul, f_int, SFmul. apply round_aux_exact; [apply int_canonical; lia|unfold int_exp; lia|].
  rewrite Pos2Z.inj_mul, !int_mant_value by lia.
  replace (Z.pos p * 2 ^ (- int_exp p) * (Z.pos q * 2 ^ (- int_exp q)))
    with (Z.pos (p * q) * (2 ^ (- int_exp p) * 2 ^ (- int_exp q))) by lia.
  pose proof (int_exp_nonpos (p * q) ltac:(lia)). rewrite <- !Z.pow_add_r, <- Z.mul_assoc, <- Z.pow_add_r;
    unfold int_exp in *; try lia. do 2 f_equal. lia.
Qed.

(** Division is exact when the divisor divides. *)
Lemma f_div_int a b : 0 < b → 0 ≤ a → small b → small (a * b) → f_div (f_int (a * b)) (f_int b) = f_int a.
Proof.
  unfold small. intros Hb0 Ha0 Hb Hab. destruct b as [|q|q]; [lia| |lia]. destruct a as [|p|p]; [done| |lia].
  change (Z.pos p * Z.pos q) with (Z.pos (p * q)) in *.
  assert (Z.pos p < 2 ^ 53) as Hp by lia.
  pose proof (int_exp_nonpos (p * q) ltac:(lia)) as He1. pose proof (int_exp_nonpos q ltac:(lia)) as He2.
  pose proof (int_exp_nonpos p ltac:(lia)) as He.
  pose proof (int_canonical (p * q) ltac:(lia)) as [Hd1 _]. pose proof (int_canonical q ltac:(lia)) as [Hd2 _].
  assert (digits (p * q) ≤ digits p + digits q) as Hd.
  { rewrite !digits_log2, (Pos2Z.inj_mul p q). pose proof (Z.log2_mul_above (Z.pos p) (Z.pos q)). lia. }
  unfold f_div, f_int, SFdiv, SFdiv_core_binary. cbv zeta. simpl Zdigits2. rewrite Hd1, Hd2.
  set (e1 := int_exp (p * q)) in *. set (e2 := int_exp q) in *.
  set (e' := Z.min (fexp 53 1024 (53 + e1 - (53 + e2))) (e1 - e2)).
  assert (e' ≤ int_exp p ∧ e' ≤ e1 - e2) as [He' He''].
  { unfold e', fexp, emin, int_exp, e1, e2, int_exp in *. lia. }
  assert (match e1 - e2 - e' with
    | Z0 => Z.pos (int_mant (p * q))
    | Z.pos _ => Z.shiftl (Z.pos (int_mant (p * q))) (e1 - e2 - e')
    | Z.neg _ => 0
    end = Z.pos p * 2 ^ (- e') * Z.pos (int_mant q)) as Hm.
  { transitivity (Z.pos (int_mant (p * q)) * 2 ^ (e1 - e2 - e')).
    - destruct (e1 - e2 - e') as [|n|n] eqn:En; [simpl; lia|by rewrite Z.shiftl_mul_pow2 by lia|lia].
    - rewrite !int_mant_value by lia. fold e1 e2. rewrite Pos2Z.inj_mul.
      replace (Z.pos p * Z.pos q * 2 ^ (- e1) * 2 ^ (e1 - e2 - e'))
        with (Z.pos p * Z.pos q * (2 ^ (- e1) * 2 ^ (e1 - e2 - e'))) by lia.
      replace (Z.pos p * 2 ^ (- e') * (Z.pos q * 2 ^ (- e2)))
        with (Z.pos p * Z.pos q * (2 ^ (- e') * 2 ^ (- e2))) by lia.
      rewrite <- !Z.pow_add_r by lia. do 2 f_equal. lia. }
  rewrite Hm.
  assert (Z.div_eucl (Z.pos p * 2 ^ (- e') * Z.pos (int_mant q)) (Z.pos (int_mant q))
    = (Z.pos p * 2 ^ (- e'), 0)) as ->.
  { pose proof (Z_div_mod (Z.pos p * 2 ^ (- e') * Z.pos (int_mant q)) (Z.pos (int_mant q)) ltac:(lia)) as Hdm.
    destruct (Z.div_eucl _ _) as [x r]. destruct Hdm as [Heq Hr].
    assert (x = Z.pos p * 2 ^ (- e')) by nia. f_equal; nia. }
  assert (new_location (Z.pos (int_mant q)) 0 = loc_Exact) as ->.
  { unfold new_location, new_location_even, new_location_odd. by case_goal. }
  assert (0 < 2 ^ (- e')) by (apply Z.pow_pos_nonneg; lia).
  destruct (Z.pos p * 2 ^ (- e')) as [|m|m] eqn:Em; [lia| |lia]. cbn [xorb].
  apply round_aux_exact; [by apply int_canonical|done|].
  rewrite <- Em, int_mant_value, <- Z.mul_assoc, <- Z.pow_add_r by lia. do 2 f_equal. lia.
Qed.

(** ** Order *)

Lemma f_int_not_nan z : f_isnan (f_int z) = false.
Proof. by destruct z. Qed.

Lemma int_key_le p q : Z.pos p < 2 ^ 53 → Z.pos q < 2 ^ 53 →
  Z.pos p ≤ Z.pos q ↔
  int_exp p < int_exp q ∨ int_exp p = int_exp q ∧ Z.pos (int_mant p) ≤ Z.pos (int_mant q).
Proof.
  intros Hp Hq. rewrite !int_mant_value by done. unfold int_exp.
  assert (digits p ≤ 53 ∧ digits q ≤ 53) by (split; apply digits_bound; lia).
  split.
  - intros Hle. pose proof (digits_mono _ _ Hle).
    destruct (Z.eq_dec (digits p) (digits q)) as [Heq|]; [right|left; lia].
    rewrite Heq. split; [done|]. apply Z.mul_le_mono_nonneg_r; [|done]. lia.
  - intros [Hlt|[Heq Hle]].
    + destruct (Z.le_gt_cases (Z.pos p) (Z.pos q)) as [|Hgt]; [done|].
      pose proof (digits_mono q p ltac:(lia)). lia.
    + replace (digits p) with (digits q) in Hle by lia.
      eapply Z.mul_le_mono_pos_r; [|exact Hle]. apply Z.pow_pos_nonneg; lia.
Qed.

Lemma f_leb_int a b : small a → small b → f_leb (f_int a) (f_int b) = (a <=? b).
Proof.
  unfold small. intros Ha Hb. apply eq_true_iff_eq.
  rewrite f_leb_key, Z.leb_le by apply f_int_not_nan.
  destruct a as [|p|p], b as [|q|q]; simpl; try lia.
  - pose proof (int_key_le p q ltac:(lia) ltac:(lia)). lia.
  - pose proof (int_key_le q p ltac:(lia) ltac:(lia)). lia.
Qed.

Lemma f_ltb_int a b : small a → small b → f_ltb (f_int a) (f_int b) = (a <? b).
Proof.
  intros Ha Hb. rewrite f_ltb_leb, f_leb_int by (done || apply f_int_not_nan). lia.
Qed.

Lemma f_min_int a b : small a → small b → f_min (f_int a) (f_int b) = f_int (Z.min a b).
Proof.
  intros Ha Hb. unfold f_min. rewrite !f_int_not_nan, !f_ltb_int by done. simpl.
  destruct (Z.ltb_spec a b); [by rewrite Z.min_l by lia|].
  destruct (Z.ltb_spec b a); [by rewrite Z.min_r by lia|].
  assert (a = b) as -> by lia. rewrite Z.min_id. by destruct b.
Qed.

(** Truncation gives the integer back. *)
Lemma f_trunc_int z : small z → f_trunc (f_int z) = Some z.
Proof.
  unfold small. intros Hz. destruct z as [|p|p]; [done| |].
  all: simpl; pose proof (int_exp_nonpos p ltac:(lia)) as He;
    destruct (Z.leb_spec 0 (int_exp p));
    [assert (int_exp p = 0) as He0 by lia; rewrite int_mant_value, He0 by lia; simpl; f_equal; lia
    |rewrite int_mant_value, Z.div_mul by lia; done].
Qed.

Lemma f_to_int64_int oor z : small z → f_to_int64 oor (f_int z) = z.
Proof.
  intros Hz. unfold f_to_int64. rewrite f_trunc_int by done. unfold small in Hz.
  destruct (Z.leb_spec (- 2 ^ 63) z), (Z.ltb_spec z (2 ^ 63)); simpl; lia.
Qed.

#[export] Hint Rewrite f_of_Z_int f_add_int f_sub_int f_leb_int f_ltb_int f_min_int
  f_to_int64_int using (unfold small in *; lia) : fleet.

(** ** Fused multiply-add *)

Lemma aligned_product p q e :
  Z.pos p < 2 ^ 53 → Z.pos q < 2 ^ 53 → e ≤ int_exp p + int_exp q →
  Z.pos (fst (shl_align (Pos.mul (int_mant p) (int_mant q)) (int_exp p + int_exp q) e)) =
    Z.pos p * Z.pos q * 2 ^ (- e).
Proof.
  intros Hp Hq He. pose proof (int_exp_nonpos p Hp). pose proof (int_exp_nonpos q Hq).
  assert (Z.pos (Pos.mul (int_mant p) (int_mant q)) =
    Z.pos p * Z.pos q * 2 ^ (- (int_exp p + int_exp q))) as Hm.
  { rewrite Pos2Z.inj_mul, !int_mant_value by lia.
    replace (- (int_exp p + int_exp q)) with (- int_exp p + - int_exp q) by lia.
    rewrite Z.pow_add_r by lia. lia. }
  unfold shl_align. destruct (e - (int_exp p + int_exp q)) as [|n|n] eqn:Hn; cbn [fst]; [| lia|].
  - rewrite Hm. do 2 f_equal. lia.
  - rewrite shift_left, Hm, <- Z.mul_assoc, <- Z.pow_add_r by lia. do 2 f_equal. lia.
Qed.

Lemma f_fma_int a b c :
  0 ≤ a → 0 ≤ b → small a → small b → small c → small (a * b) → small (a * b + c) →
  f_fma (f_int a) (f_int b) (f_int c) = f_int (a * b + c).
Proof.
  unfold small. intros Ha0 Hb0 Ha Hb Hc Hab Habc.
  assert (f_add (f_int c) (f_mul (f_int a) (f_int b)) = f_int (a * b + c)) as Hsep.
  { rewrite f_mul_int, f_add_int by (unfold small; lia). f_equal. lia. }
  destruct a as [|p|p]; [done| |lia]. destruct b as [|q|q]; [done| |lia].
  destruct c as [|r|r]; [done| |].
  all: clear Hsep; unfold f_fma, f_int at 1 2 3; cbv zeta; cbn [xorb];
    pose proof (int_exp_nonpos p ltac:(lia)); pose proof (int_exp_nonpos q ltac:(lia));
    pose proof (int_exp_nonpos r ltac:(lia)); apply normalize_int; [done|lia|];
    rewrite (aligned r), aligned_product by lia; simpl cond_Zopp; lia.
Qed.

Lemma f_muladd_int fused a b c :
  0 ≤ a → 0 ≤ b → small a → small b → small c → small (a * b) → small (a * b + c) →
  f_muladd fused (f_int a) (f_int b) (f_int c) = f_int (a * b + c).
Proof.
  intros. unfold f_muladd. destruct fused; [by apply f_fma_int|].
  rewrite f_mul_int, f_add_int by (done || (unfold small in *; lia)). f_equal. lia.
Qed.

(** ** Numbers of moderate size do not overflow *)

Lemma shr_1_le r : 0 ≤ shr_m r → 0 ≤ shr_m (shr_1 r) ≤ shr_m r.
Proof. destruct r as [[|[p|p|]|p] b1 b2]; simpl; lia. Qed.

Lemma iter_shr_le n r : 0 ≤ shr_m r → 0 ≤ shr_m (iter_pos shr_1 n r) ≤ shr_m r.
Proof.
  revert r. induction n as [n IH|n IH|]; intros r Hr; simpl; [| |by apply shr_1_le].
  - pose proof (shr_1_le r Hr). pose proof (IH (shr_1 r)). pose proof (IH (iter_pos shr_1 n (shr_1 r))). lia.
  - pose proof (IH r Hr). pose proof (IH (iter_pos shr_1 n r)). lia.
Qed.

Lemma shr_record_m m l : shr_m (shr_record_of_loc m l) = m.
Proof. by destruct l as [|[]]. Qed.

Lemma shr_fexp_bound m e l bound :
  0 ≤ m < 2 ^ bound → 0 ≤ bound → -1074 ≤ e →
  let '(r, e') := shr_fexp 53 1024 m e l in 0 ≤ shr_m r ≤ m ∧ -1074 ≤ e' ≤ Z.max e (bound + e).
Proof.
  intros Hm Hb He. unfold shr_fexp.
  assert (Zdigits2 m ≤ bound) as Hd.
  { destruct m as [|p|p]; simpl; [lia| |lia]. apply digits_bound; lia. }
  assert (fexp 53 1024 (Zdigits2 m + e) ≤ Z.max e (bound + e)) by (unfold fexp, emin; lia).
  destruct (fexp 53 1024 (Zdigits2 m + e) - e) as [|n|n] eqn:En; simpl; rewrite ?shr_record_m.
  - split; lia.
  - pose proof (iter_shr_le n (shr_record_of_loc m l)) as Hi. rewrite shr_record_m in Hi. split; lia.
  - split; lia.
Qed.

Lemma round_aux_moderate s m e l :
  0 ≤ m < 2 ^ 300 → -1074 ≤ e ≤ 300 →
  binary_round_aux 53 1024 s m e l = S754_zero s ∨
  ∃ m' e', binary_round_aux 53 1024 s m e l = S754_finite s m' e'.
Proof.
  intros Hm He. unfold binary_round_aux.
  pose proof (shr_fexp_bound m e l 300 Hm ltac:(lia) ltac:(lia)) as H1.
  destruct (shr_fexp _ _ m e l) as [r1 e1]. destruct H1 as [Hr1 He1].
  set (m1 := round_nearest_even (shr_m r1) (loc_of_shr_record r1)).
  assert (0 ≤ m1 < 2 ^ 301) as Hm1.
  { assert (shr_m r1 ≤ m1 ≤ shr_m r1 + 1) by (unfold m1, round_nearest_even; repeat case_goal; lia). lia. }
  pose proof (shr_fexp_bound m1 e1 loc_Exact 301 Hm1 ltac:(lia) ltac:(lia)) as H2.
  destruct (shr_fexp _ _ m1 e1 _) as [r2 e2]. destruct H2 as [Hr2 He2].
  destruct (shr_m r2) as [|p|p]; [by left| |lia].
  destruct (Z.leb_spec e2 (1024 - 53)); [right; eauto|lia].
Qed.

(** The quotient of two positive integers is a finite number that is not negative. *)
Lemma f_div_moderate a b :
  0 < a → 0 < b → small a → small b →
  f_div (f_int a) (f_int b) = S754_zero false ∨ ∃ m e, f_div (f_int a) (f_int b) = S754_finite false m e.
Proof.
  unfold small. intros Ha0 Hb0 Ha Hb. destruct a as [|p|p]; [lia| |lia]. destruct b as [|q|q]; [lia| |lia].
  unfold f_div, f_int, SFdiv.
  assert (∀ p, Z.pos p < 2 ^ 53 → -52 ≤ int_exp p ≤ 0 ∧ Z.pos (int_mant p) < 2 ^ 53) as Hint.
  { intros p' Hp'. pose proof (int_exp_nonpos p' Hp'). unfold int_exp at 1. split; [lia|].
    destruct (int_canonical p' Hp') as [Hd _]. rewrite digits_log2 in Hd.
    apply Z.log2_lt_pow2; lia. }
  destruct (Hint p ltac:(lia)) as [He1 Hm1], (Hint q ltac:(lia)) as [He2 Hm2].
  destruct (int_canonical p ltac:(lia)) as [Hd1 _], (int_canonical q ltac:(lia)) as [Hd2 _].
  unfold SFdiv_core_binary. cbv zeta. simpl Zdigits2. rewrite Hd1, Hd2.
  set (e1 := int_exp p) in *. set (e2 := int_exp q) in *.
  set (e' := Z.min (fexp 53 1024 (53 + e1 - (53 + e2))) (e1 - e2)).
  assert (-105 ≤ e' ≤ 52 ∧ 0 ≤ e1 - e2 - e' ≤ 157) as [He' Hs] by (unfold e', fexp, emin; lia).
  set (m' := match e1 - e2 - e' with
    | Z0 => Z.pos (int_mant p)
    | Z.pos _ => Z.shiftl (Z.pos (int_mant p)) (e1 - e2 - e')
    | Z.neg _ => 0
    end).
  assert (0 ≤ m' < 2 ^ 300) as Hm'.
  { assert (Z.pos (int_mant p) * 2 ^ (e1 - e2 - e') < 2 ^ 300) as Hbig.
    { apply Z.lt_le_trans with (2 ^ 53 * 2 ^ (e1 - e2 - e')).
      - apply Z.mul_lt_mono_pos_r; [apply Z.pow_pos_nonneg; lia|done].
      - rewrite <- Z.pow_add_r by lia. apply Z.pow_le_mono_r; lia. }
    unfold m'. destruct (e1 - e2 - e') as [|n|n]; [simpl in *; lia| |lia].
    rewrite Z.shiftl_mul_pow2 by lia. split; [apply Z.mul_nonneg_nonneg; lia|done]. }
  pose proof (Z_div_mod m' (Z.pos (int_mant q)) ltac:(lia)) as Hdm.
  destruct (Z.div_eucl m' (Z.pos (int_mant q))) as [x r]. destruct Hdm as [Heq Hr].
  apply round_aux_moderate; [|lia]. split; [nia|]. eapply Z.le_lt_trans; [|apply Hm']. nia.
Qed.

(** Adding nothing: no time has passed. *)
Lemma f_muladd_zero fused y z :
  y = S754_zero false ∨ (∃ m e, y = S754_finite false m e) → f_muladd fused (S754_zero false) y (f_int z) = f_int z.
Proof. intros [->|(m & e & ->)]; destruct fused, z; done. Qed.
