(* ===== verification/FloatError.v ===== *)
(** * Rounding error in [float64]

    The value of a float that is not negative as a real number, and how far the result of
    an operation is from the exact one: at most one part in 2^53, and 2^-1075 near zero. *)

From Stdlib Require Import Reals Lra.
From S2P Require Import Prelude GoFloat FloatExact.
Open Scope Z_scope.
#[local] Arguments IZR : simpl never.

(** ** Powers of two *)

Definition bpow (e : Z) : R := powerRZ 2 e.

#[global] Arguments bpow : simpl never.

Lemma bpow_pos e : (0 < bpow e)%R.
Proof. apply powerRZ_lt. lra. Qed.

Lemma bpow_add a b : bpow (a + b) = (bpow a * bpow b)%R.
Proof. apply powerRZ_add. lra. Qed.

Lemma bpow_IZR k : 0 ≤ k → bpow k = IZR (2 ^ k).
Proof.
  intros Hk. unfold bpow. rewrite <- (Z2Nat.id k Hk), <- pow_powerRZ. apply (pow_IZR 2).
Qed.

Lemma bpow_0 : bpow 0 = 1%R.
Proof. done. Qed.

Lemma bpow_1 : bpow 1 = 2%R.
Proof. unfold bpow. simpl. lra. Qed.

Lemma bpow_le a b : a <= b → (bpow a <= bpow b)%R.
Proof.
  intros Hab. replace b with (a + (b - a)) by lia. rewrite bpow_add.
  assert (1 <= bpow (b - a))%R.
  { rewrite bpow_IZR by lia. apply IZR_le. pose proof (Z.pow_pos_nonneg 2 (b - a)). lia. }
  pose proof (bpow_pos a). nra.
Qed.

Lemma bpow_lt_inv a b : (bpow a < bpow b)%R → a < b.
Proof.
  intros Hab. destruct (Z.lt_ge_cases a b) as [|Hge]; [done|]. pose proof (bpow_le b a Hge). lra.
Qed.

Lemma bpow_opp e : (bpow e * bpow (- e) = 1)%R.
Proof. rewrite <- bpow_add, Z.add_opp_diag_r. apply bpow_0. Qed.

(** A scaled integer at a lower exponent. *)
Lemma scale_down z e e' : e' <= e → (IZR z * bpow e = IZR (z * 2 ^ (e - e')) * bpow e')%R.
Proof.
  intros He. rewrite mult_IZR, <- bpow_IZR by lia. rewrite Rmult_assoc, <- bpow_add.
  do 2 f_equal. lia.
Qed.

(** ** The locations of SpecFloat *)

(** Where [y] lies between [m] and [m + 1]. *)
Definition inbetween (m : Z) (l : location) (y : R) : Prop :=
  match l with
  | loc_Exact => y = IZR m
  | loc_Inexact Lt => (IZR m < y < IZR m + /2)%R
  | loc_Inexact Eq => y = (IZR m + /2)%R
  | loc_Inexact Gt => (IZR m + /2 < y < IZR m + 1)%R
  end.

Lemma inbetween_bounds m l y : inbetween m l y → (IZR m <= y < IZR m + 1)%R.
Proof. destruct l as [|[]]; simpl; lra. Qed.

Definition holds (r : shr_record) (y : R) : Prop := inbetween (shr_m r) (loc_of_shr_record r) y.

Lemma shr_1_holds r y : 0 ≤ shr_m r → holds r y → holds (shr_1 r) (y / 2).
Proof.
  destruct r as [m rb sb]. unfold holds. simpl. intros Hm.
  destruct m as [|[p|p|]|p]; [| | | |lia].
  - destruct rb, sb; simpl; lra.
  - assert (IZR (Z.pos p~1) = 2 * IZR (Z.pos p) + 1)%R as E by (rewrite <- mult_IZR, <- plus_IZR; done).
    destruct rb, sb; simpl; rewrite ?E; lra.
  - assert (IZR (Z.pos p~0) = 2 * IZR (Z.pos p))%R as E by (rewrite <- mult_IZR; done).
    destruct rb, sb; simpl; rewrite ?E; lra.
  - destruct rb, sb; simpl; lra.
Qed.

Lemma iter_shr_holds n r y :
  0 ≤ shr_m r → holds r y → holds (iter_pos shr_1 n r) (y * bpow (- Z.pos n)).
Proof.
  revert r y. assert (∀ a b, (a * bpow (- b)) * bpow (- b) = a * bpow (- (b + b)))%R as Hb.
  { intros a b. rewrite Rmult_assoc, <- bpow_add. do 2 f_equal. lia. }
  assert (∀ a, a / 2 = a * bpow (-1))%R as H2 by (intros a; unfold bpow; simpl; lra).
  induction n as [n IH|n IH|]; intros r y Hr Hy; cbn [iter_pos].
  - replace (y * bpow (- Z.pos n~1))%R with ((y / 2 * bpow (- Z.pos n)) * bpow (- Z.pos n))%R.
    + apply IH; [by apply iter_shr_le, shr_1_le|]. apply IH; [by apply shr_1_le|]. by apply shr_1_holds.
    + rewrite Hb, H2, Rmult_assoc, <- bpow_add. do 2 f_equal. lia.
  - replace (y * bpow (- Z.pos n~0))%R with ((y * bpow (- Z.pos n)) * bpow (- Z.pos n))%R.
    + apply IH; [by apply iter_shr_le|]. by apply IH.
    + rewrite Hb. do 2 f_equal. lia.
  - change (- Z.pos 1) with (-1). rewrite <- H2. by apply shr_1_holds.
Qed.

Lemma holds_of_loc m l y : inbetween m l y → holds (shr_record_of_loc m l) y.
Proof. unfold holds. by destruct l as [|[]]. Qed.

(** [shr_fexp] moves to the exponent of the format. *)
Lemma shr_fexp_holds m e l x :
  0 ≤ m → inbetween m l (x * bpow (- e)) → e ≤ fexp 53 1024 (Zdigits2 m + e) →
  ∃ r, shr_fexp 53 1024 m e l = (r, fexp 53 1024 (Zdigits2 m + e)) ∧ 0 ≤ shr_m r ≤ m ∧
    holds r (x * bpow (- fexp 53 1024 (Zdigits2 m + e))).
Proof.
  intros Hm Hx He. unfold shr_fexp. set (e1 := fexp 53 1024 (Zdigits2 m + e)) in *.
  apply holds_of_loc in Hx. destruct (e1 - e) as [|n|n] eqn:Hn; [| |lia].
  - assert (e1 = e) as -> by lia. exists (shr_record_of_loc m l). rewrite shr_record_m. done.
  - exists (iter_pos shr_1 n (shr_record_of_loc m l)). simpl. split; [f_equal; lia|]. split.
    + pose proof (iter_shr_le n (shr_record_of_loc m l)) as Hle. rewrite shr_record_m in Hle. by apply Hle.
    + apply (iter_shr_holds n) in Hx; [|by rewrite shr_record_m].
      rewrite Rmult_assoc, <- bpow_add in Hx. by replace (- e1) with (- e + - Z.pos n) by lia.
Qed.

Lemma nearest_even_error m l y : inbetween m l y →
  (Rabs (IZR (round_nearest_even m l) - y) <= /2)%R ∧ m <= round_nearest_even m l <= m + 1.
Proof.
  intros Hy. split; [|destruct l as [|[]]; simpl; repeat case_match; lia].
  apply Rabs_le. destruct l as [|[]]; simpl in *; [lra| |lra|rewrite plus_IZR; lra].
  case_match; rewrite ?plus_IZR; lra.
Qed.

(** ** Rounding *)

(** The floats that are not negative and not infinite, with their values. *)
Definition canon (m : positive) (e : Z) : Prop := fexp 53 1024 (digits m + e) = e ∧ e ≤ 971.

Definition fin (f : float64) (v : R) : Prop :=
  f = S754_zero false ∧ v = 0%R ∨
  ∃ m e, f = S754_finite false m e ∧ canon m e ∧ v = (IZR (Z.pos m) * bpow e)%R.

(** [v] is [x] rounded. *)
Definition near (x v : R) : Prop := (Rabs (v - x) <= x * bpow (-53) + bpow (-1075))%R.

Lemma fin_nonneg f v : fin f v → (0 <= v)%R.
Proof.
  intros [[_ ->]|(m & e & _ & _ & ->)]; [lra|]. apply Rmult_le_pos; [apply IZR_le; lia|].
  apply Rlt_le, bpow_pos.
Qed.

Lemma Zdigits2_bounds m : 0 < m → 2 ^ (Zdigits2 m - 1) ≤ m < 2 ^ Zdigits2 m.
Proof.
  destruct m as [|p|p]; [lia| |lia]. intros _. simpl Zdigits2. rewrite digits_log2.
  replace (Z.log2 (Z.pos p) + 1 - 1) with (Z.log2 (Z.pos p)) by lia. apply Z.log2_spec. lia.
Qed.

Lemma Zdigits2_unique m d : 0 < d → 2 ^ (d - 1) ≤ m < 2 ^ d → Zdigits2 m = d.
Proof.
  intros Hd Hm. assert (0 < m) as Hpos by (pose proof (Z.pow_pos_nonneg 2 (d - 1)); lia).
  destruct m as [|p|p]; [lia| |lia]. simpl Zdigits2. rewrite digits_log2.
  rewrite (Z.log2_unique (Z.pos p) (d - 1)); [lia|lia|]. by replace (Z.succ (d - 1)) with d by lia.
Qed.

(** How a real lies at the exponent of the format. *)
Lemma at_format m e l x :
  0 ≤ m → inbetween m l (x * bpow (- e)) → e ≤ fexp 53 1024 (Zdigits2 m + e) →
  let e1 := fexp 53 1024 (Zdigits2 m + e) in
  (x * bpow (- e1) < IZR (2 ^ 53))%R ∧ -1074 ≤ e1 ∧ (-1074 < e1 → (IZR (2 ^ 52) <= x * bpow (- e1))%R).
Proof.
  intros Hm Hx%inbetween_bounds He e1. destruct Hx as [Hx1 Hx2].
  assert (-1074 ≤ e1) as He1 by (unfold e1, fexp, emin; lia).
  pose proof (bpow_opp e) as Ho. pose proof (bpow_pos e) as Hp.
  assert (x = x * bpow (- e) * bpow e)%R as Hx by (rewrite Rmult_assoc, (Rmult_comm (bpow (- e))), Ho; lra).
  assert (∀ k, 0 ≤ k → bpow k = bpow (k + e1) * bpow (- e1))%R as Hk
    by (intros k _; rewrite <- bpow_add; f_equal; lia).
  pose proof (bpow_pos (- e1)) as Hp1. split_and!; [|done|].
  - rewrite <- bpow_IZR, (Hk 53) by lia. apply Rmult_lt_compat_r; [done|]. rewrite Hx.
    apply Rlt_le_trans with (IZR (2 ^ Zdigits2 m) * bpow e)%R.
    + apply Rmult_lt_compat_r; [done|]. eapply Rlt_le_trans; [exact Hx2|]. rewrite <- plus_IZR.
      apply IZR_le. destruct (decide (m = 0)) as [->|]; [done|].
      pose proof (Zdigits2_bounds m ltac:(lia)). lia.
    + rewrite <- bpow_IZR, <- bpow_add by (by destruct m). apply bpow_le. unfold e1, fexp. lia.
  - intros Hlt. assert (e1 = Zdigits2 m + e - 53) as Heq by (unfold e1, fexp, emin in *; lia).
    assert (0 < m) as Hpos by (destruct m as [|p|p]; simpl in *; lia).
    pose proof (Zdigits2_bounds m Hpos) as [Hb _].
    rewrite <- bpow_IZR, (Hk 52) by lia. apply Rmult_le_compat_r; [lra|].
    replace (52 + e1) with ((Zdigits2 m - 1) + e) by lia. rewrite bpow_add, Hx.
    apply Rmult_le_compat_r; [lra|]. rewrite bpow_IZR by (destruct m; simpl; lia).
    eapply Rle_trans; [apply IZR_le; exact Hb|done].
Qed.

(** An integer mantissa within a half of [y] is near the real that [y] stands for. *)
Lemma rounded_near e1 m1 y :
  (0 <= y)%R → (Rabs (IZR m1 - y) <= / 2)%R → -1074 ≤ e1 → (-1074 < e1 → (IZR (2 ^ 52) <= y)%R) →
  near (y * bpow e1) (IZR m1 * bpow e1).
Proof.
  intros Hy0 Herr He1 Hlow. pose proof (bpow_pos e1) as Hpe. unfold near.
  rewrite <- Rmult_minus_distr_r, Rabs_mult, (Rabs_right (bpow e1)) by lra.
  assert (Rabs (IZR m1 - y) * bpow e1 <= bpow (e1 - 1))%R as Hhalf.
  { replace (bpow (e1 - 1)) with (/2 * bpow e1)%R; [by apply Rmult_le_compat_r; [lra|]|].
    replace e1 with (e1 - 1 + 1) at 1 by lia. rewrite bpow_add, bpow_1. lra. }
  destruct (decide (-1074 < e1)) as [Hlt|Hge].
  - specialize (Hlow Hlt). pose proof (bpow_pos (-1075)).
    assert (bpow (e1 - 1) <= y * bpow e1 * bpow (-53))%R; [|lra]. rewrite Rmult_assoc, <- bpow_add.
    replace (bpow (e1 - 1)) with (IZR (2 ^ 52) * bpow (e1 + -53))%R.
    + apply Rmult_le_compat_r; [apply Rlt_le, bpow_pos|done].
    + rewrite <- bpow_IZR, <- bpow_add by lia. f_equal. lia.
  - replace (-1075) with (e1 - 1) by lia. pose proof (bpow_pos (-53)) as Hp53.
    assert (0 <= y * bpow e1 * bpow (-53))%R; [|lra]. apply Rmult_le_pos; [|lra].
    apply Rmult_le_pos; lra.
Qed.

(** A mantissa that fits needs no second shift. *)
Lemma shr_fitting e1 m1 :
  0 ≤ m1 < 2 ^ 53 → -1074 ≤ e1 → (-1074 < e1 → 2 ^ 52 ≤ m1) →
  shr_fexp 53 1024 m1 e1 loc_Exact = ({| shr_m := m1; shr_r := false; shr_s := false |}, e1) ∧
  (0 < m1 → fexp 53 1024 (Zdigits2 m1 + e1) = e1).
Proof.
  intros Hm1 He1 Hlow. assert (fexp 53 1024 (Zdigits2 m1 + e1) ≤ e1) as Hle.
  { assert (Zdigits2 m1 ≤ 53); [|unfold fexp, emin; lia].
    destruct m1 as [|p|p]; simpl; [lia| |lia]. apply digits_bound; lia. }
  split; [unfold shr_fexp; by destruct (fexp _ _ _ - e1) eqn:E; [..|]; [|lia|]|]. intros Hpos.
  destruct (decide (-1074 < e1)) as [Hlt|]; [|unfold fexp, emin in *; lia].
  rewrite (Zdigits2_unique m1 53) by lia. unfold fexp, emin. lia.
Qed.

(** The mantissa as a float; 2^53 is the one that is shifted once more. *)
Lemma rounded_fin e1 m1 :
  0 ≤ m1 ≤ 2 ^ 53 → -1074 ≤ e1 ≤ 950 → (-1074 < e1 → 2 ^ 52 ≤ m1) →
  fin (let '(mrs, e) := shr_fexp 53 1024 m1 e1 loc_Exact in
       match shr_m mrs with
       | 0 => S754_zero false
       | Z.pos m => if e <=? 1024 - 53 then S754_finite false m e else S754_infinity false
       | Z.neg _ => S754_nan
       end) (IZR m1 * bpow e1).
Proof.
  intros Hm1 He1 Hlow. destruct (decide (m1 = 2 ^ 53)) as [->|Hne].
  - unfold shr_fexp. rewrite (Zdigits2_unique (2 ^ 53) 54) by lia. replace (fexp 53 1024 (54 + e1) - e1) with 1
      by (unfold fexp, emin; lia).
    change (shr (shr_record_of_loc (2 ^ 53) loc_Exact) e1 1)
      with ({| shr_m := 2 ^ 52; shr_r := false; shr_s := false |}, e1 + 1). cbn [shr_m].
    destruct (2 ^ 52) as [|p|p] eqn:E52; [done| |done].
    destruct (Z.leb_spec (e1 + 1) (1024 - 53)) as [_|]; [|lia]. right. exists p, (e1 + 1).
    split_and!; [done| |].
    + split; [|lia]. change (digits p) with (Zdigits2 (Z.pos p)). rewrite <- E52.
      rewrite (Zdigits2_unique (2 ^ 52) 53) by lia. unfold fexp, emin. lia.
    + rewrite <- E52, (Z.add_comm e1), bpow_add, bpow_1, <- Rmult_assoc, <- mult_IZR. done.
  - destruct (shr_fitting e1 m1) as [-> Hfix]; [lia..|done|].
    cbn [shr_m]. destruct m1 as [|p|p]; [left; split; [done|lra]| |lia].
    destruct (Z.leb_spec e1 (1024 - 53)) as [_|]; [|lia]. right. exists p, e1.
    split_and!; [done|split; [by apply Hfix|lia]|done].
Qed.

Lemma round_aux_near m e l x :
  0 ≤ m → inbetween m l (x * bpow (- e)) → e ≤ fexp 53 1024 (Zdigits2 m + e) → (x < bpow 1000)%R →
  ∃ v, fin (binary_round_aux 53 1024 false m e l) v ∧ near x v.
Proof.
  intros Hm Hx He Hbig. destruct (at_format m e l x Hm Hx He) as (Hup & He1 & Hlow).
  destruct (shr_fexp_holds m e l x Hm Hx He) as (r1 & Hs & Hr1 & Hy).
  unfold binary_round_aux. rewrite Hs. set (e1 := fexp 53 1024 (Zdigits2 m + e)) in *.
  destruct (nearest_even_error _ _ _ Hy) as [Herr Hm1]. apply inbetween_bounds in Hy.
  set (m1 := round_nearest_even _ _) in *. set (y := (x * bpow (- e1))%R) in *.
  assert (x = y * bpow e1)%R as Hxy.
  { unfold y. rewrite Rmult_assoc, (Rmult_comm (bpow (- e1))), bpow_opp. lra. }
  assert (shr_m r1 < 2 ^ 53) as Hr2 by (apply lt_IZR; lra).
  assert (-1074 < e1 → 2 ^ 52 ≤ shr_m r1) as Hr3.
  { intros Hlt. specialize (Hlow Hlt). assert (2 ^ 52 < shr_m r1 + 1); [|lia].
    apply lt_IZR. rewrite plus_IZR. lra. }
  assert (e1 ≤ 950) as Hsmall.
  { destruct (decide (-1074 < e1)) as [Hlt|]; [|lia]. specialize (Hlow Hlt). pose proof (bpow_pos e1).
    assert (e1 + 52 < 1000); [|lia]. apply bpow_lt_inv. eapply Rle_lt_trans; [|exact Hbig].
    rewrite Hxy, Z.add_comm, bpow_add. apply Rmult_le_compat_r; [lra|]. by rewrite bpow_IZR. }
  exists (IZR m1 * bpow e1)%R. split; [apply rounded_fin; lia|]. rewrite Hxy. apply rounded_near; [|done..].
  assert (0 <= IZR (shr_m r1))%R by (apply IZR_le; lia). lra.
Qed.

Lemma near_exact x : (0 <= x)%R → near x x.
Proof.
  intros Hx. unfold near. rewrite Rminus_diag, Rabs_R0. pose proof (bpow_pos (-1075)).
  pose proof (bpow_pos (-53)). assert (0 <= x * bpow (-53))%R by (apply Rmult_le_pos; lra). lra.
Qed.

Lemma shl_align_value m e e' : e' ≤ e → Z.pos (fst (shl_align m e e')) = Z.pos m * 2 ^ (e - e').
Proof.
  intros He. unfold shl_align. destruct (e' - e) as [|n|n] eqn:En; [|lia|].
  - replace (e - e') with 0 by lia. simpl. lia.
  - cbn [fst]. rewrite shift_left. do 2 f_equal. lia.
Qed.

Lemma exact_location m e x : x = (IZR m * bpow e)%R → inbetween m loc_Exact (x * bpow (- e)).
Proof. intros ->. simpl. rewrite Rmult_assoc, bpow_opp. lra. Qed.

Lemma round_near m e x :
  x = (IZR (Z.pos m) * bpow e)%R → (x < bpow 1000)%R →
  ∃ v, fin (binary_round 53 1024 false m e) v ∧ near x v.
Proof.
  intros Hx Hbig. unfold binary_round. set (e1 := fexp 53 1024 (digits m + e)).
  destruct (Z.le_gt_cases e e1) as [Hle|Hgt].
  - replace (shl_align m e e1) with (m, e) by (unfold shl_align; destruct (e1 - e) eqn:E; (done || lia)).
    apply round_aux_near; [lia|by apply exact_location|exact Hle|done].
  - pose proof (shl_align_value m e e1 ltac:(lia)) as Hv.
    assert (snd (shl_align m e e1) = e1) as Hs by (unfold shl_align; destruct (e1 - e) eqn:E; [lia|lia|done]).
    destruct (shl_align m e e1) as [mz ez]. simpl in Hv, Hs. subst ez.
    apply round_aux_near; [lia| | |done].
    + apply exact_location. rewrite Hv, <- scale_down by lia. done.
    + change (Zdigits2 (Z.pos mz)) with (digits mz). rewrite (digits_pow m mz (e - e1)) by lia.
      replace (digits m + (e - e1) + e1) with (digits m + e) by lia. done.
Qed.

Lemma normalize_near z e x :
  0 ≤ z → x = (IZR z * bpow e)%R → (x < bpow 1000)%R →
  ∃ v, fin (binary_normalize 53 1024 z e false) v ∧ near x v.
Proof.
  intros Hz Hx Hbig. destruct z as [|p|p]; [|by apply round_near|lia].
  exists 0%R. split; [by left|]. subst x. rewrite Rmult_0_l. by apply near_exact, Rle_refl.
Qed.

(** ** The operations *)

(** A float that is not negative, with a shorter name for its parts. *)
Ltac fin_cases H m e :=
  let Hc := fresh "Hc" m in destruct H as [[-> ->]|(m & e & -> & Hc & ->)].

Lemma f_of_Z_fin z : 0 ≤ z < 2 ^ 53 → fin (f_of_Z z) (IZR z).
Proof.
  intros Hz. rewrite f_of_Z_int by (unfold small; lia). destruct z as [|p|p]; [by left| |lia].
  right. exists (int_mant p), (int_exp p). destruct (int_canonical p ltac:(lia)) as [Hd He].
  split_and!; [done|split; [by apply fexp_canonical|lia]|].
  rewrite int_mant_value, mult_IZR, <- bpow_IZR, Rmult_assoc, <- bpow_add by (pose proof (int_exp_nonpos p); lia).
  rewrite Z.add_opp_diag_l, bpow_0. lra.
Qed.

Lemma f_add_near a b va vb :
  fin a va → fin b vb → (va + vb < bpow 1000)%R → ∃ v, fin (f_add a b) v ∧ near (va + vb) v.
Proof.
  intros Ha Hb Hbig. pose proof (fin_nonneg _ _ Ha) as Ha0. pose proof (fin_nonneg _ _ Hb) as Hb0.
  destruct (Ha) as [[-> ->]|(m & e & -> & _ & Hva)].
  { exists vb. rewrite Rplus_0_l. split; [|by apply near_exact]. by fin_cases Hb m e; [left|right; exists m, e]. }
  destruct (Hb) as [[-> ->]|(m' & e' & -> & _ & Hvb)].
  { exists va. rewrite Rplus_0_r. split; [exact Ha|by apply near_exact]. }
  unfold f_add, SFadd. apply normalize_near; [simpl; lia| |done]. cbn [cond_Zopp].
  rewrite !shl_align_value, plus_IZR, Rmult_plus_distr_r, <- !scale_down by lia. by rewrite <- Hva, <- Hvb.
Qed.

Lemma f_sub_near a b va vb :
  fin a va → fin b vb → (vb <= va < bpow 1000)%R → ∃ v, fin (f_sub a b) v ∧ near (va - vb) v.
Proof.
  intros Ha Hb [Hle Hbig]. pose proof (fin_nonneg _ _ Ha) as Ha0. pose proof (fin_nonneg _ _ Hb) as Hb0.
  destruct (Hb) as [[-> ->]|(m' & e' & -> & _ & Hvb)].
  { exists va. rewrite Rminus_0_r. split; [|by apply near_exact].
    destruct (Ha) as [[-> ->]|(m & e & -> & _ & _)]; [by left|exact Ha]. }
  pose proof (bpow_pos e') as Hp. assert (0 < IZR (Z.pos m'))%R as Hm by (apply IZR_lt; lia).
  destruct (Ha) as [[-> ->]|(m & e & -> & _ & Hva)]; [nra|].
  unfold f_sub, SFsub. cbn [cond_Zopp].
  assert (va - vb = IZR (Z.pos (fst (shl_align m e (Z.min e e'))) - Z.pos (fst (shl_align m' e' (Z.min e e')))) *
    bpow (Z.min e e'))%R as Heq.
  { rewrite !shl_align_value, minus_IZR, Rmult_minus_distr_r, <- !scale_down by lia. by rewrite <- Hva, <- Hvb. }
  apply normalize_near; [|done|lra]. apply le_IZR.
  pose proof (bpow_pos (Z.min e e')). apply Rmult_le_reg_r with (bpow (Z.min e e')); [done|]. lra.
Qed.

Lemma f_mul_near a b va vb :
  fin a va → fin b vb → (va * vb < bpow 1000)%R → ∃ v, fin (f_mul a b) v ∧ near (va * vb) v.
Proof.
  intros Ha Hb Hbig.
  destruct Ha as [[-> ->]|(m & e & -> & [Hc _] & ->)].
  { exists 0%R. rewrite Rmult_0_l. split; [|by apply near_exact, Rle_refl].
    by destruct Hb as [[-> _]|(m' & e' & -> & _)]; left. }
  destruct Hb as [[-> ->]|(m' & e' & -> & [Hc' _] & ->)].
  { exists 0%R. rewrite Rmult_0_r. split; [by left|by apply near_exact, Rle_refl]. }
  unfold f_mul, SFmul. cbn [xorb]. apply round_aux_near; [lia| | |done].
  - apply exact_location. rewrite Pos2Z.inj_mul, mult_IZR, bpow_add. lra.
  - simpl Zdigits2. rewrite digits_log2, Pos2Z.inj_mul. rewrite digits_log2 in Hc, Hc'.
    pose proof (Z.log2_mul_below (Z.pos m) (Z.pos m') ltac:(lia) ltac:(lia)).
    pose proof (Z.log2_nonneg (Z.pos m)). pose proof (Z.log2_nonneg (Z.pos m')). unfold fexp, emin in *. lia.
Qed.

(** *** Division *)

Lemma new_location_spec m r q :
  0 ≤ r < Z.pos m → inbetween q (new_location (Z.pos m) r) (IZR q + IZR r / IZR (Z.pos m)).
Proof.
  intros Hr. assert (0 < IZR (Z.pos m))%R as Hm by (apply IZR_lt; lia).
  set (y := (IZR r / IZR (Z.pos m))%R). assert (y * IZR (Z.pos m) = IZR r)%R as Hy by (unfold y; field; lra).
  assert (0 < r → (0 < y)%R) as H0 by (intros Hr0%IZR_lt; nra).
  assert (y < 1)%R as H1 by (assert (IZR r < IZR (Z.pos m))%R by (apply IZR_lt; lia); nra).
  assert (2 * r < Z.pos m → (y < /2)%R) as Hlt by (intros H%IZR_lt; rewrite mult_IZR in H; nra).
  assert (Z.pos m < 2 * r → (/2 < y)%R) as Hgt by (intros H%IZR_lt; rewrite mult_IZR in H; nra).
  assert (Z.pos m = 2 * r → (y = /2)%R) as Heq.
  { intros H%(f_equal IZR). rewrite mult_IZR in H. nra. }
  unfold new_location, new_location_even, new_location_odd.
  destruct r as [|p|p]; [|cbn [Z.eqb]|lia].
  { assert (y = 0)%R by (unfold y; field; lra). destruct (Z.even (Z.pos m)); simpl; lra. }
  set (r := Z.pos p) in *. specialize (H0 ltac:(lia)). destruct (Z.even (Z.pos m)) eqn:Hev.
  - destruct (Z.compare_spec (2 * r) (Z.pos m)); simpl; try lra.
    + specialize (Heq ltac:(lia)). lra.
    + specialize (Hlt ltac:(lia)). lra.
    + specialize (Hgt ltac:(lia)). lra.
  - assert (2 * r ≠ Z.pos m) by (intros E; rewrite <- E, Z.even_mul in Hev; done).
    destruct (Z.compare_spec (2 * r + 1) (Z.pos m)); simpl.
    + specialize (Hlt ltac:(lia)). lra.
    + specialize (Hlt ltac:(lia)). lra.
    + specialize (Hgt ltac:(lia)). lra.
Qed.

Lemma Zdigits2_quotient a b s :
  0 ≤ s → Zdigits2 (Z.pos a) + s - Zdigits2 (Z.pos b) ≤ Zdigits2 (Z.pos a * 2 ^ s / Z.pos b).
Proof.
  intros Hs. set (k := Zdigits2 (Z.pos a) + s - Zdigits2 (Z.pos b)).
  assert (0 ≤ Z.pos a * 2 ^ s / Z.pos b) as Hq0 by (apply Z.div_pos; [apply Z.mul_nonneg_nonneg|]; lia).
  destruct (Z.le_gt_cases k 0) as [|Hk].
  { transitivity 0; [done|]. by destruct (Z.pos a * 2 ^ s / Z.pos b). }
  assert (2 ^ (k - 1) ≤ Z.pos a * 2 ^ s / Z.pos b) as Hq.
  { apply Z.div_le_lower_bound; [lia|]. pose proof (Zdigits2_bounds (Z.pos a) ltac:(lia)) as [Ha _].
    pose proof (Zdigits2_bounds (Z.pos b) ltac:(lia)) as [_ Hb].
    apply Z.le_trans with (2 ^ Zdigits2 (Z.pos b) * 2 ^ (k - 1)).
    - apply Z.mul_le_mono_nonneg_r; [apply Z.pow_nonneg|]; lia.
    - rewrite <- Z.pow_add_r by (simpl; lia).
      replace (Zdigits2 (Z.pos b) + (k - 1)) with ((Zdigits2 (Z.pos a) - 1) + s) by (unfold k; lia).
      rewrite Z.pow_add_r by (simpl; lia). apply Z.mul_le_mono_nonneg_r; [apply Z.pow_nonneg; lia|done]. }
  assert (0 < Z.pos a * 2 ^ s / Z.pos b) as Hpos by (pose proof (Z.pow_pos_nonneg 2 (k - 1)); lia).
  pose proof (Zdigits2_bounds _ Hpos) as [_ Hu].
  assert (k - 1 < Zdigits2 (Z.pos a * 2 ^ s / Z.pos b)); [|lia].
  apply (Z.pow_lt_mono_r_iff 2); [lia|by destruct (Z.pos a * 2 ^ s / Z.pos b)|lia].
Qed.

Lemma f_div_near a b va vb :
  fin a va → fin b vb → (0 < vb)%R → (va / vb < bpow 1000)%R →
  ∃ v, fin (f_div a b) v ∧ near (va / vb) v.
Proof.
  intros Ha Hb Hb0 Hbig. fin_cases Hb m2 e2; [lra|].
  destruct Ha as [[-> ->]|(m1 & e1 & -> & _ & ->)].
  { exists 0%R. unfold Rdiv. rewrite Rmult_0_l. split; [by left|apply near_exact; lra]. }
  unfold f_div, SFdiv, SFdiv_core_binary. cbv zeta. cbn [xorb].
  set (D := Zdigits2 (Z.pos m1) + e1 - (Zdigits2 (Z.pos m2) + e2)).
  set (e' := Z.min (fexp 53 1024 D) (e1 - e2)). set (s := e1 - e2 - e'). assert (0 ≤ s) as Hs by lia.
  assert (match s with Z0 => Z.pos m1 | Z.pos _ => Z.shiftl (Z.pos m1) s | Z.neg _ => 0 end =
    Z.pos m1 * 2 ^ s) as ->.
  { destruct s as [|n|n]; [lia|apply Z.shiftl_mul_pow2; lia|lia]. }
  rewrite (surjective_pairing (Z.div_eucl _ _)). change (fst (Z.div_eucl ?x ?y)) with (x / y).
  change (snd (Z.div_eucl ?x ?y)) with (x `mod` y).
  set (q := Z.pos m1 * 2 ^ s / Z.pos m2). set (r := (Z.pos m1 * 2 ^ s) `mod` Z.pos m2).
  pose proof (Z.div_mod (Z.pos m1 * 2 ^ s) (Z.pos m2) ltac:(lia)) as Hdm. fold q r in Hdm.
  pose proof (Z.mod_pos_bound (Z.pos m1 * 2 ^ s) (Z.pos m2) ltac:(lia)) as Hr. fold r in Hr.
  pose proof (Zdigits2_quotient m1 m2 s Hs) as Hq. fold q in Hq.
  apply round_aux_near; [apply Z.div_pos; [apply Z.mul_nonneg_nonneg|]; lia| | |done].
  - assert (0 < IZR (Z.pos m2))%R as Hm2 by (apply IZR_lt; lia). pose proof (bpow_pos e2).
    replace (IZR (Z.pos m1) * bpow e1 / (IZR (Z.pos m2) * bpow e2) * bpow (- e'))%R
      with (IZR q + IZR r / IZR (Z.pos m2))%R; [by apply new_location_spec|].
    assert (bpow e1 * bpow (- e') = bpow s * bpow e2)%R as He by (rewrite <- !bpow_add; f_equal; unfold s; lia).
    apply (f_equal IZR) in Hdm. rewrite plus_IZR, !mult_IZR, <- bpow_IZR in Hdm by done.
    assert (IZR (Z.pos m1) * bpow e1 * bpow (- e') = IZR (Z.pos m1) * bpow s * bpow e2)%R as He2
      by (rewrite !Rmult_assoc, He; lra).
    unfold Rdiv. rewrite Rinv_mult.
    replace (IZR (Z.pos m1) * bpow e1 * (/ IZR (Z.pos m2) * / bpow e2) * bpow (- e'))%R
      with (IZR (Z.pos m1) * bpow e1 * bpow (- e') * / IZR (Z.pos m2) * / bpow e2)%R by lra.
    rewrite He2, Hdm. field. lra.
  - assert (fexp 53 1024 D ≤ fexp 53 1024 (Zdigits2 q + e')); [|lia].
    assert (D ≤ Zdigits2 q + e') by lia. unfold fexp. lia.
Qed.

(** *** Fused multiply-add *)

Lemma f_fma_near a b c va vb vc :
  fin a va → fin b vb → fin c vc → (va * vb + vc < bpow 1000)%R →
  ∃ v, fin (f_fma a b c) v ∧ near (va * vb + vc) v.
Proof.
  intros Ha Hb Hc Hbig. pose proof (fin_nonneg _ _ Hc) as Hc0.
  assert ((va * vb = 0)%R → f_mul a b = S754_zero false → f_fma a b c = f_add c (f_mul a b) →
    ∃ v, fin (f_fma a b c) v ∧ near (va * vb + vc) v) as Hzero.
  { intros Hv Hm Hf. rewrite Hf, Hm, Hv, Rplus_0_l. exists vc. split; [|by apply near_exact].
    destruct Hc as [[-> ->]|(m & e & -> & Hc)]; [by left|right; exists m, e; done]. }
  destruct (Ha) as [[-> ->]|(m & e & -> & _ & Hva)].
  { apply Hzero; [lra|by fin_cases Hb m' e'|by fin_cases Hb m' e']. }
  destruct (Hb) as [[-> ->]|(m' & e' & -> & _ & Hvb)]; [by apply Hzero; [lra|..]|].
  destruct (Hc) as [[-> ->]|(m'' & e'' & -> & _ & Hvc)].
  { rewrite Rplus_0_r in *. change (f_fma _ _ _) with (f_add (S754_zero false) (f_mul (S754_finite false m e) (S754_finite false m' e'))).
    destruct (f_mul_near _ _ _ _ Ha Hb Hbig) as (v & Hv & Hn). exists v. split; [|done].
    by destruct Hv as [[-> ->]|(m0 & e0 & -> & Hv)]; [left|right; exists m0, e0]. }
  unfold f_fma. cbv zeta. cbn [xorb]. apply normalize_near; [simpl; lia| |done]. cbn [cond_Zopp].
  rewrite !shl_align_value, plus_IZR, Rmult_plus_distr_r, <- !scale_down by lia.
  rewrite Pos2Z.inj_mul, mult_IZR, bpow_add, <- Hvc, Hva, Hvb. lra.
Qed.

(** *** Addition of a product, and truncation *)

Lemma Rabs_within x y : (Rabs x <= y)%R → (- y <= x <= y)%R.
Proof. unfold Rabs. destruct (Rcase_abs x); lra. Qed.

(** The error near zero stays tiny whatever it is multiplied by. *)
Lemma eta_tiny k : 0 <= k <= 1000 → (bpow (-1075) * bpow k <= bpow (-75))%R.
Proof. intros Hk. rewrite <- bpow_add. apply bpow_le. lia. Qed.

Lemma u_value : bpow (-53) = (1 / 9007199254740992)%R.
Proof. unfold bpow. simpl. lra. Qed.

(** Two roundings at most. *)
Lemma f_muladd_near fused a b c va vb vc :
  fin a va → fin b vb → fin c vc → (va * vb + vc < bpow 999)%R →
  ∃ v, fin (f_muladd fused a b c) v ∧
    (Rabs (v - (va * vb + vc)) <= (va * vb + vc) * bpow (-51) + 4 * bpow (-1075))%R.
Proof.
  intros Ha Hb Hc Hbig. pose proof (fin_nonneg _ _ Ha) as Ha0. pose proof (fin_nonneg _ _ Hb) as Hb0.
  pose proof (fin_nonneg _ _ Hc) as Hc0. assert (0 <= va * vb)%R as Hab by (by apply Rmult_le_pos).
  assert (bpow (-51) = 4 / 9007199254740992)%R as H51 by (unfold bpow; simpl; lra).
  assert (0 < bpow (-1075) < 1)%R as Heta.
  { split; [apply bpow_pos|]. apply Rlt_le_trans with (bpow (-1)).
    - replace (-1) with (-1075 + 1074) by lia. rewrite bpow_add. pose proof (bpow_pos (-1075)).
      assert (1 < bpow 1074)%R; [|nra]. rewrite bpow_IZR by lia. apply IZR_lt. lia.
    - unfold bpow. simpl. lra. }
  assert (bpow 1000 = 2 * bpow 999)%R as H1000 by (rewrite <- bpow_1, <- bpow_add; done).
  assert (4 < bpow 999)%R as H999 by (rewrite bpow_IZR by lia; apply IZR_lt; lia).
  unfold f_muladd. destruct fused.
  - destruct (f_fma_near _ _ _ _ _ _ Ha Hb Hc) as (v & Hv & Hn); [lra|]. exists v. split; [done|].
    unfold near in Hn. rewrite u_value in Hn. rewrite H51. lra.
  - destruct (f_mul_near _ _ _ _ Ha Hb) as (p & Hp & Hnp); [lra|].
    unfold near in Hnp. rewrite u_value in Hnp. apply Rabs_within in Hnp.
    destruct (f_add_near _ _ _ _ Hc Hp) as (v & Hv & Hn); [lra|]. exists v. split; [done|].
    unfold near in Hn. rewrite u_value in Hn. apply Rabs_within in Hn. rewrite H51. apply Rabs_le. lra.
Qed.

Lemma f_trunc_fin f v : fin f v → f_trunc f = Some (Int_part v).
Proof.
  assert (∀ z y, (IZR z <= y < IZR z + 1)%R → Int_part y = z) as Hint.
  { intros z y [H1 H2]. unfold Int_part. rewrite <- (tech_up y (z + 1)); [lia| |]; rewrite plus_IZR; lra. }
  intros [[-> ->]|(m & e & -> & _ & ->)]; simpl; f_equal; symmetry; apply Hint; [lra|].
  destruct (Z.leb_spec 0 e).
  - rewrite mult_IZR, <- bpow_IZR by lia. lra.
  - set (k := 2 ^ (- e)). assert (0 < k) as Hk by (apply Z.pow_pos_nonneg; lia).
    pose proof (Z.div_mod (Z.pos m) k ltac:(lia)) as Hdm.
    pose proof (Z.mod_pos_bound (Z.pos m) k Hk) as [Hr1 Hr2].
    set (q := Z.pos m / k) in *. set (r := Z.pos m `mod` k) in *.
    apply (f_equal IZR) in Hdm. rewrite plus_IZR, mult_IZR in Hdm.
    apply IZR_le in Hr1. apply IZR_lt in Hr2. apply IZR_lt in Hk.
    assert (IZR k * bpow e = 1)%R as Hone.
    { unfold k. rewrite <- bpow_IZR by lia. rewrite Rmult_comm. apply bpow_opp. }
    pose proof (bpow_pos e). rewrite Hdm, Rmult_plus_distr_r.
    replace (IZR k * IZR q * bpow e)%R with (IZR q)%R by (rewrite (Rmult_comm (IZR k)), Rmult_assoc, Hone; lra).
    assert (0 <= IZR r * bpow e)%R by (apply Rmult_le_pos; lra).
    assert (IZR r * bpow e < IZR k * bpow e)%R by (apply Rmult_lt_compat_r; lra). lra.
Qed.

(** *** Order *)

Lemma canon_lt m e m' e' : canon m e → canon m' e' → e < e' →
  (IZR (Z.pos m) * bpow e < IZR (Z.pos m') * bpow e')%R.
Proof.
  intros [Hc _] [Hc' _] Hlt. unfold fexp, emin in *. pose proof (bpow_pos e). pose proof (bpow_pos e').
  pose proof (Zdigits2_bounds (Z.pos m) ltac:(lia)) as [_ Hm]. simpl Zdigits2 in Hm.
  pose proof (Zdigits2_bounds (Z.pos m') ltac:(lia)) as [Hm' _]. simpl Zdigits2 in Hm'.
  assert (Z.pos m < 2 ^ 53) as Hm2.
  { eapply Z.lt_le_trans; [exact Hm|]. apply Z.pow_le_mono_r; lia. }
  assert (digits m' = 53) as Hd by lia. rewrite Hd in Hm'.
  apply Rlt_le_trans with (bpow (53 + e)).
  - rewrite bpow_add, (bpow_IZR 53) by lia. apply Rmult_lt_compat_r; [done|]. by apply IZR_lt.
  - apply Rle_trans with (bpow (52 + e')); [apply bpow_le; lia|].
    rewrite bpow_add, (bpow_IZR 52) by lia. apply Rmult_le_compat_r; [lra|]. by apply IZR_le.
Qed.

Lemma f_leb_fin a b va vb : fin a va → fin b vb → f_leb a b = true ↔ (va <= vb)%R.
Proof.
  intros Ha Hb. rewrite f_leb_key; [|by fin_cases Ha m e|by fin_cases Hb m e].
  destruct Ha as [[-> ->]|(m & e & -> & Hc & ->)], Hb as [[-> ->]|(m' & e' & -> & Hc' & ->)]; simpl.
  - split; [lra|lia].
  - split; [|lia]. intros _. apply Rmult_le_pos; [apply IZR_le; lia|apply Rlt_le, bpow_pos].
  - split; [lia|]. assert (0 < IZR (Z.pos m) * bpow e)%R; [|lra].
    apply Rmult_lt_0_compat; [apply IZR_lt; lia|apply bpow_pos].
  - pose proof (bpow_pos e). destruct (Z.lt_trichotomy e e') as [Hlt|[<-|Hgt]].
    + pose proof (canon_lt _ _ _ _ Hc Hc' Hlt). split; [lra|lia].
    + split.
      * intros Hk. apply Rmult_le_compat_r; [lra|]. apply IZR_le. lia.
      * intros Hr. apply Rmult_le_reg_r, le_IZR in Hr; [lia|done].
    + pose proof (canon_lt _ _ _ _ Hc' Hc Hgt). split; [lia|lra].
Qed.

Lemma fin_not_nan a va : fin a va → f_isnan a = false.
Proof. by intros [[-> _]|(m & e & -> & _)]. Qed.

Lemma f_ltb_fin a b va vb : fin a va → fin b vb → f_ltb a b = true ↔ (va < vb)%R.
Proof.
  intros Ha Hb. rewrite f_ltb_leb, negb_true_iff, <- not_true_iff_false by (by eapply fin_not_nan).
  rewrite (f_leb_fin b a vb va) by done. lra.
Qed.

Lemma f_min_fin a b va vb : fin a va → fin b vb → fin (f_min a b) (Rmin va vb).
Proof.
  intros Ha Hb. unfold f_min. rewrite (fin_not_nan _ _ Ha), (fin_not_nan _ _ Hb). simpl.
  destruct (f_ltb a b) eqn:H1; [apply (f_ltb_fin _ _ _ _ Ha Hb) in H1; by rewrite Rmin_left by lra|].
  apply not_true_iff_false in H1. rewrite (f_ltb_fin _ _ _ _ Ha Hb) in H1.
  rewrite Rmin_right by lra. destruct (f_ltb b a); [done|].
  by destruct Ha as [[-> _]|(m & e & -> & _)].
Qed.
