(* ===== verification/Proto.v ===== *)
(** * Messages of the worker registry service

    The messages of proto/registry.proto as the generated Go code of
    proto/registry.pb.go declares them (exported fields only: the protobuf
    runtime's bookkeeping fields are not modelled).  A [string] is a sequence of
    bytes, a [uint64] or [uint32] is a [Z], a [double] a [float64]. *)

From S2P Require Import Prelude GoFloat.

(** Protobuf enums are open: a peer may send any 32-bit number.  Numbers the
    enum does not name are [UnrecognizedState]. *)
Inductive WorkerState :=
  | STARTING
  | READY
  | BUSY
  | DRAINING
  | DEAD
  | UnrecognizedState (n : Z).

#[export] Instance WorkerState_eq_dec : EqDecision WorkerState.
Proof. solve_decision. Defined.

(** The state a number on the wire denotes. *)
Definition WorkerState_of_number (n : Z) : WorkerState :=
  if (n =? 0)%Z then STARTING
  else if (n =? 1)%Z then READY
  else if (n =? 2)%Z then BUSY
  else if (n =? 3)%Z then DRAINING
  else if (n =? 4)%Z then DEAD
  else UnrecognizedState n.

Record WorkerInfo := {
  WorkerId : string;
  Address : string;
  GpuType : string;
  VramBytes : Z;
  ModelsLoaded : list string;
  Backend : string;
  Provider : string;
  Hardware : string;
  CostPerHour : float64;
}.

Record RegisterResponse := {
  reg_Ok : bool;
  reg_Message : string;
  HeartbeatIntervalSecs : Z;
}.

Record HeartbeatRequest := {
  hb_WorkerId : string;
  hb_State : WorkerState;
}.

Record HeartbeatResponse := {
  hb_Ok : bool;
  Drain : bool;
}.

Record LoadReport := {
  load_WorkerId : string;
  QueueDepth : Z;
  RequestsPerSec : float64;
  AvgLatencyMs : float64;
  VramUsedBytes : Z;
}.

Record DeregisterRequest := {
  dereg_WorkerId : string;
}.

(** [&pb.LoadReport{WorkerId: id}]: every other field is its zero value. *)
Definition emptyLoadReport (id : string) : LoadReport := {|
  load_WorkerId := id;
  QueueDepth := 0;
  RequestsPerSec := S754_zero false;
  AvgLatencyMs := S754_zero false;
  VramUsedBytes := 0;
|}.

(** [WorkerState_name], and the number for a value the enum does not name. *)
Definition WorkerState_String (s : WorkerState) : string :=
  match s with
  | STARTING => "STARTING"
  | READY => "READY"
  | BUSY => "BUSY"
  | DRAINING => "DRAINING"
  | DEAD => "DEAD"
  | UnrecognizedState n => pretty n
  end.

(** A state the enum names. *)
Definition recognized (s : WorkerState) : bool :=
  match s with UnrecognizedState _ => false | _ => true end.
