(* ===== verification/GoTimer.v ===== *)
(** * Go's runtime timers

    [time.AfterFunc], [Timer.Reset] and [Timer.Stop] as the registry uses them.
    A timer object carries the argument its callback closes over; when it expires
    the runtime starts a goroutine that runs the callback some time later.
    Instants are nanoseconds of the monotonic clock. *)

From S2P Require Import Prelude.
Open Scope Z_scope.

(** [t_when] is the instant an armed timer fires, [None] when it is not armed. *)
Record Timer := {
  t_when : option Z;
  t_arg : string;
}.

(** A goroutine an expired timer started and that has not run its callback yet:
    the callback's argument and the instant the goroutine was started. *)
Record Callback := {
  cb_arg : string;
  cb_at : Z;
}.

#[export] Instance Callback_eq_dec : EqDecision Callback.
Proof. solve_decision. Defined.

Record Timers := {
  timers : gmap nat Timer;
  nextTimer : nat;
  callbacks : list Callback;
}.

Definition noTimers : Timers := {| timers := ∅; nextTimer := 0; callbacks := [] |}.

(** [time.AfterFunc(d, func() { f(arg) })] called at [now]. *)
Definition AfterFunc (now d : Z) (arg : string) (h : Timers) : nat * Timers :=
  (nextTimer h,
   {| timers := <[nextTimer h := {| t_when := Some (now + d); t_arg := arg |}]> (timers h);
      nextTimer := S (nextTimer h);
      callbacks := callbacks h |}).

Definition set_when (w : option Z) (t : Timer) : Timer :=
  {| t_when := w; t_arg := t_arg t |}.

Definition on_timer (f : Timer → Timer) (i : nat) (h : Timers) : Timers :=
  {| timers := alter f i (timers h); nextTimer := nextTimer h; callbacks := callbacks h |}.

(** [t.Reset(d)] called at [now]: re-arms the timer, expired or not. *)
Definition Reset (i : nat) (now d : Z) : Timers → Timers :=
  on_timer (set_when (Some (now + d))) i.

(** [t.Stop()]: a callback already started is not cancelled. *)
Definition Stop (i : nat) : Timers → Timers :=
  on_timer (set_when None) i.

(** The runtime fires timer [i], whose instant has passed at [now]. *)
Definition expire (i : nat) (now : Z) (h : Timers) : option Timers :=
  match timers h !! i with
  | Some {| t_when := Some w; t_arg := arg |} =>
    if w <=? now then
      Some {| timers := alter (set_when None) i (timers h);
              nextTimer := nextTimer h;
              callbacks := {| cb_arg := arg; cb_at := now |} :: callbacks h |}
    else None
  | _ => None
  end.

(** The [n]-th pending goroutine is scheduled: it leaves the pending ones. *)
Definition take_callback (n : nat) (h : Timers) : option (Callback * Timers) :=
  match callbacks h !! n with
  | Some cb =>
    Some (cb, {| timers := timers h; nextTimer := nextTimer h;
                 callbacks := delete n (callbacks h) |})
  | None => None
  end.

(** ** Laws *)

(** Timers are allocated in order: every number below [nextTimer] is taken and
    none above. *)
Definition timers_wf (h : Timers) : Prop :=
  ∀ i, is_Some (timers h !! i) ↔ (i < nextTimer h)%nat.

(** [own_timer h i arg]: timer [i] exists and its callback closes over [arg]. *)
Definition own_timer (h : Timers) (i : nat) (arg : string) : Prop :=
  ∃ t, timers h !! i = Some t ∧ t_arg t = arg.

(** Timer [i] is armed for instant [w]. *)
Definition armed_at (h : Timers) (i : nat) (w : Z) : Prop :=
  ∃ t, timers h !! i = Some t ∧ t_when t = Some w.

Lemma noTimers_wf : timers_wf noTimers.
Proof. intros i. simpl. rewrite lookup_empty. split; [by intros []|lia]. Qed.

Lemma AfterFunc_wf now d arg h i h' :
  AfterFunc now d arg h = (i, h') → timers_wf h → timers_wf h'.
Proof.
  intros [= <- <-] Hwf j. simpl. rewrite lookup_insert. case_decide; [subst; split; [lia|done]|].
  rewrite (Hwf j). lia.
Qed.

Lemma on_timer_wf f i h : timers_wf h → timers_wf (on_timer f i h).
Proof.
  intros Hwf j. simpl. rewrite <- (Hwf j), lookup_alter.
  case_decide; [subst|done]. by rewrite fmap_is_Some.
Qed.

Lemma expire_spec i now h h' :
  expire i now h = Some h' →
  ∃ w arg, timers h !! i = Some {| t_when := Some w; t_arg := arg |} ∧ w ≤ now ∧
    h' = {| timers := alter (set_when None) i (timers h); nextTimer := nextTimer h;
            callbacks := {| cb_arg := arg; cb_at := now |} :: callbacks h |}.
Proof.
  unfold expire. destruct (timers h !! i) as [[[w|] arg]|]; [|done..].
  destruct (Z.leb_spec w now); [|done]. intros [= <-]. eauto.
Qed.

Lemma expire_wf i now h h' : expire i now h = Some h' → timers_wf h → timers_wf h'.
Proof.
  intros (w & arg & _ & _ & ->)%expire_spec Hwf. exact (on_timer_wf (set_when None) i h Hwf).
Qed.

Lemma take_callback_spec n h cb h' :
  take_callback n h = Some (cb, h') →
  callbacks h ≡ₚ cb :: callbacks h' ∧ timers h' = timers h ∧ nextTimer h' = nextTimer h.
Proof.
  unfold take_callback. destruct (callbacks h !! n) as [c|] eqn:E; [|done].
  intros [= <- <-]. by split; [apply delete_Permutation|].
Qed.

Lemma take_callback_wf n h cb h' :
  take_callback n h = Some (cb, h') → timers_wf h → timers_wf h'.
Proof. intros (_ & Ht & Hn)%take_callback_spec Hwf i. rewrite Ht, Hn. apply Hwf. Qed.

Section own_timer_laws.
Implicit Types (h : Timers) (i j : nat) (arg : string).

Lemma own_timer_fun h i arg arg' : own_timer h i arg → own_timer h i arg' → arg = arg'.
Proof. intros (t & Ht & <-) (t' & Ht' & <-). by simplify_eq. Qed.

Lemma own_timer_lt h i arg : timers_wf h → own_timer h i arg → (i < nextTimer h)%nat.
Proof. intros Hwf (t & Ht & _). apply Hwf. by exists t. Qed.

Lemma own_AfterFunc h now d arg i h' :
  AfterFunc now d arg h = (i, h') → own_timer h' i arg.
Proof. intros [= <- <-]. eexists. simpl. by rewrite lookup_insert_eq. Qed.

Lemma own_AfterFunc_old h now d arg i h' j arg' :
  timers_wf h → AfterFunc now d arg h = (i, h') → own_timer h j arg' → own_timer h' j arg'.
Proof.
  intros Hwf [= <- <-] Hj. pose proof (own_timer_lt _ _ _ Hwf Hj).
  destruct Hj as (t & Ht & Ha). exists t. simpl. by rewrite lookup_insert_ne by lia.
Qed.

Lemma own_on_when h i j w arg :
  own_timer h j arg → own_timer (on_timer (set_when w) i h) j arg.
Proof.
  intros (t & Ht & Ha). unfold own_timer. simpl. destruct (decide (i = j)) as [->|].
  - rewrite lookup_alter_eq, Ht. by eexists.
  - rewrite lookup_alter_ne by done. eauto.
Qed.

Lemma own_expire h i now h' j arg :
  expire i now h = Some h' → own_timer h j arg → own_timer h' j arg.
Proof.
  intros (w & arg' & _ & _ & ->)%expire_spec. exact (own_on_when h i j None arg).
Qed.

Lemma armed_Reset h i now d arg : own_timer h i arg → armed_at (Reset i now d h) i (now + d).
Proof.
  intros (t & Ht & _). eexists. simpl. by rewrite lookup_alter_eq, Ht.
Qed.

Lemma armed_on_ne h f i j w : i ≠ j → armed_at h j w → armed_at (on_timer f i h) j w.
Proof. intros Hij (t & Ht & Hw). exists t. simpl. by rewrite lookup_alter_ne. Qed.

Lemma armed_AfterFunc h now d arg i h' :
  AfterFunc now d arg h = (i, h') → armed_at h' i (now + d).
Proof. intros [= <- <-]. eexists. simpl. by rewrite lookup_insert_eq. Qed.

Lemma armed_AfterFunc_old h now d arg i h' j w :
  timers_wf h → AfterFunc now d arg h = (i, h') → armed_at h j w → armed_at h' j w.
Proof.
  intros Hwf [= <- <-] (t & Ht & Hw). exists t. simpl.
  assert (j < nextTimer h)%nat by (apply Hwf; eauto). by rewrite lookup_insert_ne by lia.
Qed.

End own_timer_laws.

#[export] Hint Resolve noTimers_wf on_timer_wf own_on_when : fleet.
