(* ===== verification/Registry.v ===== *)
(** * The worker registry (control-plane/registry/registry.go)

    State: the map of worker entries, the dead timeout, and the runtime timers
    the entries own.  Each gRPC handler and each method that takes the registry's
    lock is one atomic definition that returns the new state; [Register] starts
    its timer before it takes the lock and is two steps, [Register_start] and
    [Register_finish].  Clock readings are arguments, one per reading of the
    source.  [step] interleaves the operations with the clock, the timers and the
    goroutines they start.  Printing to the log is not modelled. *)

From S2P Require Import Prelude GoFloat Proto GoTimer.
Open Scope Z_scope.

Definition Second : Z := 1000000000.
Definition DefaultHeartbeatIntervalSecs : Z := 5.
Definition DefaultDeadTimeout : Z := 15 * Second.

(** [MarkedDeadAt] is [None] for the zero [time.Time]; [deadlineTimer] is the
    number of the runtime timer the entry owns. *)
Record WorkerEntry := {
  Info : WorkerInfo;
  State : WorkerState;
  LastHeartbeat : Z;
  RegisteredAt : Z;
  Load : LoadReport;
  DrainRequested : bool;
  MarkedDeadAt : option Z;
  deadlineTimer : nat;
}.

Record Registry := {
  workers : gmap string WorkerEntry;
  deadTimeout : Z;
  heap : Timers;
}.

Definition New (timeout : Z) : Registry :=
  {| workers := ∅; deadTimeout := timeout; heap := noTimers |}.

(** gRPC status errors: [status.Error(code, msg)]. *)
Inductive Code := InvalidArgument | NotFound.

Record Status := { code : Code; msg : string }.

(** ** Updates of an entry and of the registry *)

Definition with_heartbeat (now : Z) (s : WorkerState) (e : WorkerEntry) : WorkerEntry :=
  {| Info := Info e; State := s; LastHeartbeat := now; RegisteredAt := RegisteredAt e;
     Load := Load e; DrainRequested := DrainRequested e; MarkedDeadAt := MarkedDeadAt e;
     deadlineTimer := deadlineTimer e |}.

Definition with_load (l : LoadReport) (e : WorkerEntry) : WorkerEntry :=
  {| Info := Info e; State := State e; LastHeartbeat := LastHeartbeat e;
     RegisteredAt := RegisteredAt e; Load := l; DrainRequested := DrainRequested e;
     MarkedDeadAt := MarkedDeadAt e; deadlineTimer := deadlineTimer e |}.

Definition with_drain (e : WorkerEntry) : WorkerEntry :=
  {| Info := Info e; State := State e; LastHeartbeat := LastHeartbeat e;
     RegisteredAt := RegisteredAt e; Load := Load e; DrainRequested := true;
     MarkedDeadAt := MarkedDeadAt e; deadlineTimer := deadlineTimer e |}.

Definition with_dead (at_ : Z) (e : WorkerEntry) : WorkerEntry :=
  {| Info := Info e; State := DEAD; LastHeartbeat := LastHeartbeat e;
     RegisteredAt := RegisteredAt e; Load := Load e; DrainRequested := DrainRequested e;
     MarkedDeadAt := Some at_; deadlineTimer := deadlineTimer e |}.

Definition set_workers (m : gmap string WorkerEntry) (r : Registry) : Registry :=
  {| workers := m; deadTimeout := deadTimeout r; heap := heap r |}.

Definition set_heap (h : Timers) (r : Registry) : Registry :=
  {| workers := workers r; deadTimeout := deadTimeout r; heap := h |}.

(** ** gRPC handlers *)

(** [Register] up to the lock: validation, the entry stamped with the first
    clock reading [now], and its timer started at [armed]. *)
Definition Register_start (now armed : Z) (info : WorkerInfo) (r : Registry)
    : Registry * (WorkerEntry + Status) :=
  if decide (WorkerId info = "") then
    (r, inr {| code := InvalidArgument; msg := "worker_id is required" |})
  else if decide (Address info = "") then
    (r, inr {| code := InvalidArgument; msg := "address is required" |})
  else
    let workerID := WorkerId info in
    let '(timer, h) := AfterFunc armed (deadTimeout r) workerID (heap r) in
    (set_heap h r,
     inl {| Info := info; State := STARTING; LastHeartbeat := now; RegisteredAt := now;
            Load := emptyLoadReport workerID; DrainRequested := false;
            MarkedDeadAt := None; deadlineTimer := timer |}).

(** [Register] under the lock. *)
Definition Register_finish (entry : WorkerEntry) (r : Registry) : Registry * RegisterResponse :=
  (set_workers (<[WorkerId (Info entry) := entry]> (workers r)) r,
   {| reg_Ok := true; reg_Message := "registered";
      HeartbeatIntervalSecs := DefaultHeartbeatIntervalSecs |}).

Definition Register (now armed : Z) (info : WorkerInfo) (r : Registry)
    : Registry * (RegisterResponse + Status) :=
  match Register_start now armed info r with
  | (r', inl entry) => let '(r'', resp) := Register_finish entry r' in (r'', inl resp)
  | (r', inr err) => (r', inr err)
  end.

Definition validTransition (from to : WorkerState) : bool :=
  if decide (from = to) then true
  else match from with
  | STARTING => bool_decide (to = READY)
  | READY => bool_decide (to = BUSY) || bool_decide (to = DRAINING)
  | BUSY => bool_decide (to = READY) || bool_decide (to = DRAINING)
  | DRAINING | DEAD => false
  | UnrecognizedState _ => false
  end.

(** The timer is re-armed at [reset_at], then the heartbeat is stamped [now]. *)
Definition Heartbeat (reset_at now : Z) (req : HeartbeatRequest) (r : Registry)
    : Registry * (HeartbeatResponse + Status) :=
  match workers r !! hb_WorkerId req with
  | None => (r, inr {| code := NotFound;
      msg := "worker " +:+ hb_WorkerId req +:+ " not registered; re-register" |})
  | Some entry =>
    if validTransition (State entry) (hb_State req) then
      let h := Reset (deadlineTimer entry) reset_at (deadTimeout r) (heap r) in
      let entry' := with_heartbeat now (hb_State req) entry in
      (set_workers (<[hb_WorkerId req := entry']> (workers r)) (set_heap h r),
       inl {| hb_Ok := true; Drain := DrainRequested entry |})
    else (r, inr {| code := InvalidArgument;
      msg := "invalid state transition " +:+ WorkerState_String (State entry) +:+ " → "
             +:+ WorkerState_String (hb_State req) +:+ " for worker " +:+ hb_WorkerId req |})
  end.

(** Stop the entry's timer and delete the entry. *)
Definition remove_worker (workerID : string) (entry : WorkerEntry) (r : Registry) : Registry :=
  set_workers (delete workerID (workers r)) (set_heap (Stop (deadlineTimer entry) (heap r)) r).

Definition Deregister (req : DeregisterRequest) (r : Registry) : Registry * (unit + Status) :=
  match workers r !! dereg_WorkerId req with
  | None => (r, inr {| code := NotFound;
      msg := "worker " +:+ dereg_WorkerId req +:+ " not registered" |})
  | Some entry => (remove_worker (dereg_WorkerId req) entry r, inl tt)
  end.

Definition ReportLoad (report : LoadReport) (r : Registry) : Registry * (unit + Status) :=
  match workers r !! load_WorkerId report with
  | None => (r, inr {| code := NotFound;
      msg := "worker " +:+ load_WorkerId report +:+ " not registered" |})
  | Some entry =>
    (set_workers (<[load_WorkerId report := with_load report entry]> (workers r)) r, inl tt)
  end.

(** ** The deadline callback: [since] and [now] are its two clock readings *)

Definition markDead (since now : Z) (workerID : string) (r : Registry) : Registry :=
  match workers r !! workerID with
  | None => r
  | Some entry =>
    if decide (State entry = DEAD) then r
    else if since - LastHeartbeat entry <? deadTimeout r then r
    else set_workers (<[workerID := with_dead now entry]> (workers r)) r
  end.

(** ** Methods the scaler and the admin API call *)

Definition RequestDrain (workerID : string) (r : Registry) : Registry * option string :=
  match workers r !! workerID with
  | None => (r, Some ("worker " +:+ workerID +:+ " not found"))
  | Some entry => (set_workers (<[workerID := with_drain entry]> (workers r)) r, None)
  end.

Definition Evict (workerID : string) (r : Registry) : Registry * option string :=
  match workers r !! workerID with
  | None => (r, Some ("worker " +:+ workerID +:+ " not found"))
  | Some entry => (remove_worker workerID entry r, None)
  end.

(** ** Read methods *)

Definition GetWorker (workerID : string) (r : Registry) : option WorkerEntry :=
  workers r !! workerID.

(** READY or BUSY. *)
Definition is_healthy (s : WorkerState) : bool :=
  bool_decide (s = READY) || bool_decide (s = BUSY).

(** The inner loop: some loaded model is [modelID]. *)
Fixpoint serves (models : list string) (modelID : string) : bool :=
  match models with
  | [] => false
  | m :: ms => if decide (m = modelID) then true else serves ms modelID
  end.

Record ModelStat := {
  Model : string;
  TotalWorkers : nat;
  HealthyWorkers : nat;
}.

(** The counts of one model, [counts] in [ModelsServed]. *)
Definition count_one (healthy : bool) (c : nat * nat) : nat * nat :=
  (S (fst c), if healthy then S (snd c) else snd c).

Definition count_model (healthy : bool) (m : gmap string (nat * nat)) (model : string)
    : gmap string (nat * nat) :=
  <[model := count_one healthy (default (0%nat, 0%nat) (m !! model))]> m.

Definition count_worker (m : gmap string (nat * nat)) (e : WorkerEntry) : gmap string (nat * nat) :=
  foldl (count_model (is_healthy (State e))) m (ModelsLoaded (Info e)).

Section reads.
Context `{MapRange}.

Definition ListWorkers (i : nat) (r : Registry) : list WorkerEntry :=
  (range i (workers r)).*2.

Definition HealthyWorkersForModel (i : nat) (modelID : string) (r : Registry) : list WorkerEntry :=
  filter (λ e, is_healthy (State e) && serves (ModelsLoaded (Info e)) modelID)
    (ListWorkers i r).

(** [(total, healthy)]. *)
Definition WorkerCount (i : nat) (r : Registry) : nat * nat :=
  foldl (λ c e, (S (fst c), if is_healthy (State e) then S (snd c) else snd c)) (0%nat, 0%nat)
    (ListWorkers i r).

(** [i] numbers the loop over the workers and [j] the loop over the counts. *)
Definition ModelsServed (i j : nat) (r : Registry) : list ModelStat :=
  (λ '(model, (total, healthy)),
     {| Model := model; TotalWorkers := total; HealthyWorkers := healthy |})
    <$> range j (foldl count_worker ∅ (ListWorkers i r)).

End reads.

(** ** The registry as a running system

    [clock] is the monotonic clock; [starting] holds the entries of [Register]
    calls that have started their timer and wait for the lock. *)

Record Sys := {
  reg : Registry;
  clock : Z;
  starting : list WorkerEntry;
}.

Definition init (timeout t0 : Z) : Sys :=
  {| reg := New timeout; clock := t0; starting := [] |}.

(** Bounds on the scheduling delays of a run.  [gap]: between the two clock
    readings of one critical section; [latency]: at least this much passes
    between a timer's expiry and its callback's clock reading; [insert_delay]:
    between [Register]'s first clock reading and its insertion.  Every finite run
    satisfies [latency = 0] and some [gap] and [insert_delay]. *)
Record Timing := {
  gap : Z;
  latency : Z;
  insert_delay : Z;
}.

Definition advance (r : Registry) (t : Z) (s : Sys) : Sys :=
  {| reg := r; clock := t; starting := starting s |}.

Inductive step (T : Timing) (s : Sys) : Sys → Prop :=
  | step_tick t :
      clock s ≤ t → step T s (advance (reg s) t s)
  | step_register_start now armed info r e :
      clock s ≤ now ≤ armed → armed ≤ now + gap T →
      Register_start now armed info (reg s) = (r, inl e) →
      step T s {| reg := r; clock := armed; starting := e :: starting s |}
  | step_register_finish n e r resp :
      starting s !! n = Some e →
      clock s ≤ LastHeartbeat e + insert_delay T →
      Register_finish e (reg s) = (r, resp) →
      step T s {| reg := r; clock := clock s; starting := delete n (starting s) |}
  | step_heartbeat reset_at now req r resp :
      clock s ≤ reset_at ≤ now → now ≤ reset_at + gap T →
      Heartbeat reset_at now req (reg s) = (r, resp) →
      step T s (advance r now s)
  | step_deregister req r resp :
      Deregister req (reg s) = (r, resp) → step T s (advance r (clock s) s)
  | step_report_load report r resp :
      ReportLoad report (reg s) = (r, resp) → step T s (advance r (clock s) s)
  | step_request_drain id r err :
      RequestDrain id (reg s) = (r, err) → step T s (advance r (clock s) s)
  | step_evict id r err :
      Evict id (reg s) = (r, err) → step T s (advance r (clock s) s)
  | step_expire i h :
      expire i (clock s) (heap (reg s)) = Some h →
      step T s (advance (set_heap h (reg s)) (clock s) s)
  | step_mark_dead n cb h since now :
      take_callback n (heap (reg s)) = Some (cb, h) →
      cb_at cb + latency T ≤ since → clock s ≤ since ≤ now →
      step T s (advance (markDead since now (cb_arg cb) (set_heap h (reg s))) now s).

Definition reachable (T : Timing) (timeout : Z) (s : Sys) : Prop :=
  ∃ t0, rtc (step T) (init timeout t0) s.

(** The lifecycle the registry enforces between two looks at one registration. *)
Inductive lifecycle : WorkerState → WorkerState → Prop :=
  | life_same st : lifecycle st st
  | life_loaded : lifecycle STARTING READY
  | life_busy : lifecycle READY BUSY
  | life_idle : lifecycle BUSY READY
  | life_drain st : is_healthy st = true → lifecycle st DRAINING
  | life_dead st : lifecycle st DEAD.

(** ** Well-formedness, and that every step preserves it *)

Record entry_ok (t : Z) (id : string) (e : WorkerEntry) : Prop := {
  ok_id : WorkerId (Info e) = id;
  ok_id_nonempty : id ≠ "";
  ok_address : Address (Info e) ≠ "";
  ok_load : load_WorkerId (Load e) = id;
  ok_state : recognized (State e) = true;
  ok_dead : is_Some (MarkedDeadAt e) ↔ State e = DEAD;
  ok_time : RegisteredAt e ≤ LastHeartbeat e ≤ t;
  ok_dead_time d : MarkedDeadAt e = Some d → d ≤ t;
}.

Record wf (s : Sys) : Prop := {
  wf_heap : timers_wf (heap (reg s));
  wf_workers id e : workers (reg s) !! id = Some e →
    entry_ok (clock s) id e ∧ own_timer (heap (reg s)) (deadlineTimer e) id;
  wf_starting e : e ∈ starting s →
    entry_ok (clock s) (WorkerId (Info e)) e ∧ (State e = STARTING ∧ DrainRequested e = false) ∧
    own_timer (heap (reg s)) (deadlineTimer e) (WorkerId (Info e));
  wf_starting_nodup : NoDup (deadlineTimer <$> starting s);
  wf_apart e id e' : e ∈ starting s → workers (reg s) !! id = Some e' →
    deadlineTimer e' ≠ deadlineTimer e;
}.

Lemma is_healthy_iff s : is_healthy s = true ↔ s = READY ∨ s = BUSY.
Proof. unfold is_healthy. by rewrite orb_true_iff, !bool_decide_eq_true. Qed.

Lemma validTransition_lifecycle from to :
  validTransition from to = true → lifecycle from to.
Proof.
  unfold validTransition. case_decide as E; [subst; constructor|].
  destruct from; try done.
  - intros ->%bool_decide_eq_true. constructor.
  - intros [->%bool_decide_eq_true| ->%bool_decide_eq_true]%orb_true_iff; by constructor.
  - intros [->%bool_decide_eq_true| ->%bool_decide_eq_true]%orb_true_iff; by constructor.
Qed.

(** A worker cannot report itself into or out of [DEAD], nor into a state the
    enum does not name. *)
Lemma validTransition_dead from to :
  validTransition from to = true → from = DEAD ↔ to = DEAD.
Proof.
  unfold validTransition. case_decide as E; [by subst|].
  by destruct from, to.
Qed.

Lemma validTransition_recognized from to :
  validTransition from to = true → recognized from = true → recognized to = true.
Proof. intros H%validTransition_lifecycle. by destruct H. Qed.

Lemma entry_ok_weaken t t' id e : t ≤ t' → entry_ok t id e → entry_ok t' id e.
Proof.
  intros Ht []. split; try done; [lia|]. intros d Hd. specialize (ok_dead_time0 d Hd). lia.
Qed.

Lemma entry_ok_heartbeat t now s id e :
  t ≤ now → validTransition (State e) s = true → entry_ok t id e →
  entry_ok now id (with_heartbeat now s e).
Proof.
  intros Ht Hv []. split; simpl; try done; [by eapply validTransition_recognized| |lia|].
  - rewrite ok_dead0. by apply validTransition_dead.
  - intros d Hd. specialize (ok_dead_time0 d Hd). lia.
Qed.

Lemma entry_ok_load t l e :
  entry_ok t (load_WorkerId l) e → entry_ok t (load_WorkerId l) (with_load l e).
Proof. intros []. by split. Qed.

Lemma entry_ok_drain t id e : entry_ok t id e → entry_ok t id (with_drain e).
Proof. intros []. by split. Qed.

Lemma entry_ok_with_dead t now id e :
  t ≤ now → entry_ok t id e → entry_ok now id (with_dead now e).
Proof. intros Ht []. split; simpl; try done; [lia|]. intros d [= <-]. done. Qed.

#[export] Hint Resolve entry_ok_weaken entry_ok_heartbeat entry_ok_load entry_ok_drain
  entry_ok_with_dead : fleet.

(** What a step under the lock does to the entries and to the timers: each
    entry after it comes from the entry of the same worker, with the same timer. *)
Definition updates (t : Z) (r r' : Registry) : Prop :=
  ∀ id e', workers r' !! id = Some e' →
    ∃ e, workers r !! id = Some e ∧ deadlineTimer e' = deadlineTimer e ∧
      (∀ t0, t0 ≤ t → entry_ok t0 id e → entry_ok t id e').

Definition heap_le (h h' : Timers) : Prop :=
  (timers_wf h → timers_wf h') ∧ ∀ i arg, own_timer h i arg → own_timer h' i arg.

Lemma heap_le_refl h : heap_le h h.
Proof. by split. Qed.

Lemma heap_le_on_when w i h : heap_le h (on_timer (set_when w) i h).
Proof. split; eauto with fleet. Qed.

Lemma heap_le_expire i now h h' : expire i now h = Some h' → heap_le h h'.
Proof. intros H. split; [by eapply expire_wf|]. intros ??. by eapply own_expire. Qed.

Lemma heap_le_take n h cb h' : take_callback n h = Some (cb, h') → heap_le h h'.
Proof.
  intros H. split; [by eapply take_callback_wf|].
  apply take_callback_spec in H as (_ & Ht & _). unfold own_timer. by rewrite Ht.
Qed.

#[export] Hint Resolve heap_le_refl heap_le_on_when heap_le_expire heap_le_take : fleet.

Lemma updates_refl t r r' : workers r' = workers r → updates t r r'.
Proof. intros Hw id e' H. exists e'. rewrite <- Hw. eauto with fleet. Qed.

Lemma updates_insert t r id e e' r' :
  workers r' = <[id:=e']> (workers r) → workers r !! id = Some e →
  deadlineTimer e' = deadlineTimer e →
  (∀ t0, t0 ≤ t → entry_ok t0 id e → entry_ok t id e') → updates t r r'.
Proof.
  intros Hw He Hd Hok id' e0. rewrite Hw, lookup_insert. case_decide; [|eauto 6 with fleet].
  subst. intros [= <-]. eauto.
Qed.

Lemma updates_delete t r id r' : workers r' = delete id (workers r) → updates t r r'.
Proof.
  intros Hw id' e0. rewrite Hw. intros [? H]%lookup_delete_Some. eauto 6 with fleet.
Qed.

Section op_updates.
Implicit Types r : Registry.

Lemma Heartbeat_updates a b req r r' resp :
  Heartbeat a b req r = (r', resp) → updates b r r' ∧ heap_le (heap r) (heap r').
Proof.
  unfold Heartbeat. destruct (workers r !! _) as [e|] eqn:He; simpl.
  - destruct (validTransition _ _) eqn:Hv; intros [= <- <-]; simpl.
    + split; [|by apply heap_le_on_when]. eapply updates_insert; eauto with fleet.
    + split; [by apply updates_refl|apply heap_le_refl].
  - intros [= <- <-]. split; [by apply updates_refl|apply heap_le_refl].
Qed.

Lemma Deregister_updates t req r r' resp :
  Deregister req r = (r', resp) → updates t r r' ∧ heap_le (heap r) (heap r').
Proof.
  unfold Deregister. destruct (workers r !! _) as [e|] eqn:He; intros [= <- <-]; simpl.
  - split; [by eapply updates_delete|apply heap_le_on_when].
  - split; [by apply updates_refl|apply heap_le_refl].
Qed.

Lemma Evict_updates t id r r' err :
  Evict id r = (r', err) → updates t r r' ∧ heap_le (heap r) (heap r').
Proof.
  unfold Evict. destruct (workers r !! _) as [e|] eqn:He; intros [= <- <-]; simpl.
  - split; [by eapply updates_delete|apply heap_le_on_when].
  - split; [by apply updates_refl|apply heap_le_refl].
Qed.

Lemma ReportLoad_updates t report r r' resp :
  ReportLoad report r = (r', resp) → updates t r r' ∧ heap r' = heap r.
Proof.
  unfold ReportLoad. destruct (workers r !! _) as [e|] eqn:He; intros [= <- <-]; simpl.
  - split; [|done]. eapply updates_insert; eauto with fleet.
  - split; [by apply updates_refl|done].
Qed.

Lemma RequestDrain_updates t id r r' err :
  RequestDrain id r = (r', err) → updates t r r' ∧ heap r' = heap r.
Proof.
  unfold RequestDrain. destruct (workers r !! _) as [e|] eqn:He; intros [= <- <-]; simpl.
  - split; [|done]. eapply updates_insert; eauto with fleet.
  - split; [by apply updates_refl|done].
Qed.

Lemma markDead_updates a b id r :
  updates b r (markDead a b id r) ∧ heap (markDead a b id r) = heap r.
Proof.
  unfold markDead. destruct (workers r !! id) as [e|] eqn:He; [|split; [by apply updates_refl|done]].
  case_decide; [split; [by apply updates_refl|done]|].
  case_goal; [split; [by apply updates_refl|done]|]. simpl. split; [|done].
  eapply updates_insert; eauto with fleet.
Qed.

End op_updates.

Lemma wf_advance t r' s :
  wf s → clock s ≤ t → updates t (reg s) r' → heap_le (heap (reg s)) (heap r') →
  wf (advance r' t s).
Proof.
  intros [] Ht Hup [Hh Hown]. split; simpl; auto.
  - intros id e' (e & He & -> & Hok)%Hup. destruct (wf_workers0 _ _ He). split; eauto.
  - intros e He. destruct (wf_starting0 e He) as (? & ? & ?). eauto with fleet.
  - intros e id e' He (e0 & He0 & -> & _)%Hup. eauto.
Qed.

Lemma Register_start_spec now armed info r r' e :
  Register_start now armed info r = (r', inl e) →
  WorkerId info ≠ "" ∧ Address info ≠ "" ∧ workers r' = workers r ∧
  AfterFunc armed (deadTimeout r) (WorkerId info) (heap r) = (deadlineTimer e, heap r') ∧
  Info e = info ∧ LastHeartbeat e = now ∧ (State e = STARTING ∧ DrainRequested e = false) ∧
  deadTimeout r' = deadTimeout r ∧ (∀ t, now ≤ t → entry_ok t (WorkerId info) e).
Proof.
  unfold Register_start. case_decide as Hid; [done|]. case_decide as Ha; [done|].
  intros [= <- <-]. split_and!; try done. intros t Ht. split; simpl; try done; by split; [intros []|].
Qed.

Lemma wf_register_start now armed info s r e :
  wf s → clock s ≤ now ≤ armed → Register_start now armed info (reg s) = (r, inl e) →
  wf {| reg := r; clock := armed; starting := e :: starting s |}.
Proof.
  intros [] Ht (_ & _ & Hw & Hh & <- & _ & HS & _ & Hok)%Register_start_spec.
  assert (∀ j arg, own_timer (heap (reg s)) j arg → j ≠ deadlineTimer e) as Hne.
  { intros j arg Hj%own_timer_lt; [|done]. injection Hh. lia. }
  split; simpl.
  - by eapply AfterFunc_wf.
  - rewrite Hw. intros id e' [??]%wf_workers0.
    split; [eapply entry_ok_weaken; [|done]; lia|by eapply own_AfterFunc_old].
  - intros e' [->|(? & ? & ?)%wf_starting0]%elem_of_cons.
    + split; [apply Hok; lia|]. split; [done|by eapply own_AfterFunc].
    + split; [eapply entry_ok_weaken; [|done]; lia|]. split; [done|by eapply own_AfterFunc_old].
  - apply NoDup_cons. split; [|done]. intros (e' & Heq & He')%list_elem_of_fmap.
    destruct (wf_starting0 e' He') as (_ & _ & ?%Hne). done.
  - rewrite Hw. intros e0 id e' [->|He0]%elem_of_cons Hid; [|eauto].
    destruct (wf_workers0 id e' Hid) as [_ ?%Hne]. done.
Qed.

Lemma wf_register_finish n e s r resp :
  wf s → starting s !! n = Some e → Register_finish e (reg s) = (r, resp) →
  wf {| reg := r; clock := clock s; starting := delete n (starting s) |}.
Proof.
  intros [] Hn [= <- <-]. pose proof (delete_Permutation _ _ _ Hn) as Hp.
  assert (∀ e', e' ∈ delete n (starting s) → e' ∈ starting s ∧ deadlineTimer e ≠ deadlineTimer e') as Hin.
  { intros e' He'. rewrite Hp in wf_starting_nodup0. simpl in *.
    apply NoDup_cons in wf_starting_nodup0 as [Hnin _]. split; [rewrite Hp; by right|].
    intros Heq. apply Hnin. rewrite Heq. by apply list_elem_of_fmap_2. }
  destruct (wf_starting0 e) as (Hok & _ & Hown); [rewrite Hp; by left|].
  split; simpl; [done| | | |].
  - intros id e'. rewrite lookup_insert. case_decide; [|auto]. subst. by intros [= <-].
  - intros e' [? _]%Hin. auto.
  - rewrite Hp in wf_starting_nodup0. by apply NoDup_cons in wf_starting_nodup0 as [_ ?].
  - intros e' id e0 [He' Hne]%Hin. rewrite lookup_insert. case_decide; [|eauto].
    by intros [= <-].
Qed.

(** The three shapes of a step: everything but [Register] updates entries in place. *)
Inductive step_shape (s s' : Sys) : Prop :=
  | shape_update r' t :
      s' = advance r' t s → clock s ≤ t → updates t (reg s) r' →
      heap_le (heap (reg s)) (heap r') → step_shape s s'
  | shape_start now armed info r e :
      s' = {| reg := r; clock := armed; starting := e :: starting s |} →
      clock s ≤ now ≤ armed → Register_start now armed info (reg s) = (r, inl e) →
      step_shape s s'
  | shape_finish n e r resp :
      s' = {| reg := r; clock := clock s; starting := delete n (starting s) |} →
      starting s !! n = Some e → Register_finish e (reg s) = (r, resp) → step_shape s s'.

Lemma step_view T s s' : step T s s' → step_shape s s'.
Proof.
  destruct 1 as
    [t Ht|now armed info r e Ht _ Hr|n e r resp Hn _ Hr|a b req r resp Ht _ Hr|req r resp Hr
    |report r resp Hr|id r err Hr|id r err Hr|i h Hr|n cb h since now Hr _ Ht].
  - eapply shape_update; [done|done|by apply updates_refl|apply heap_le_refl].
  - by eapply shape_start.
  - by eapply shape_finish.
  - apply Heartbeat_updates in Hr as []. eapply shape_update; [done|lia|done..].
  - apply (Deregister_updates (clock s)) in Hr as []. eapply shape_update; [done|lia|done..].
  - apply (ReportLoad_updates (clock s)) in Hr as [? Hh].
    eapply shape_update; [done|lia|done|]. rewrite Hh. apply heap_le_refl.
  - apply (RequestDrain_updates (clock s)) in Hr as [? Hh].
    eapply shape_update; [done|lia|done|]. rewrite Hh. apply heap_le_refl.
  - apply (Evict_updates (clock s)) in Hr as []. eapply shape_update; [done|lia|done..].
  - eapply shape_update; [done|lia|by apply updates_refl|]. by eapply heap_le_expire.
  - destruct (markDead_updates since now (cb_arg cb) (set_heap h (reg s))) as [Hu Hh].
    eapply shape_update; [done|lia|done|]. rewrite Hh. by eapply heap_le_take.
Qed.

Lemma wf_step T s s' : step T s s' → wf s → wf s'.
Proof.
  intros [r' t -> | now armed info r e -> | n e r resp ->]%step_view Hwf.
  - by apply wf_advance.
  - by eapply wf_register_start.
  - by eapply wf_register_finish.
Qed.

Lemma wf_init timeout t0 : wf (init timeout t0).
Proof. split; simpl; try set_solver; [apply noTimers_wf|constructor]. Qed.

Lemma reachable_wf T timeout s : reachable T timeout s → wf s.
Proof. intros [t0 H]. eapply invariant_rtc; eauto using wf_step, wf_init. Qed.

Lemma step_timeout T s s' : step T s s' → deadTimeout (reg s') = deadTimeout (reg s).
Proof.
  intros Hstep. destruct Hstep as
    [|now armed info r e Ht _ Hr|n e r resp Hn _ Hr|a b req r resp Ht _ Hr|req r resp Hr
    |report r resp Hr|id r err Hr|id r err Hr|i h Hr|n cb h since now Hr _ Ht]; simpl; try done.
  - by apply Register_start_spec in Hr as (_&_&_&_&_&_&_&?&_).
  - by injection Hr as <- <-.
  - unfold Heartbeat in Hr. case_hyp Hr; done.
  - unfold Deregister in Hr. case_hyp Hr; done.
  - unfold ReportLoad in Hr. case_hyp Hr; done.
  - unfold RequestDrain in Hr. case_hyp Hr; done.
  - unfold Evict in Hr. case_hyp Hr; done.
  - unfold markDead. by repeat case_goal.
Qed.

Lemma reachable_timeout T timeout s : reachable T timeout s → deadTimeout (reg s) = timeout.
Proof.
  intros [t0 H]. apply (invariant_rtc (step T) (λ s', deadTimeout (reg s') = timeout)) in H; auto.
  intros ?? Hs <-. by eapply step_timeout.
Qed.

(** ** What a step does to one registration

    Timer numbers are never reused, so an entry's [deadlineTimer] identifies the
    [Register] call it comes from. *)

(** [evolves s' e e']: how one step that ends in [s'] may change an entry. *)
Record evolves (s' : Sys) (e e' : WorkerEntry) : Prop := {
  ev_life : lifecycle (State e) (State e');
  ev_info : Info e' = Info e ∧ RegisteredAt e' = RegisteredAt e;
  ev_drain : DrainRequested e = true → DrainRequested e' = true;
  ev_dead : State e ≠ DEAD → State e' = DEAD →
    LastHeartbeat e' = LastHeartbeat e ∧ deadTimeout (reg s') ≤ clock s' - LastHeartbeat e;
  ev_marked : State e = DEAD → MarkedDeadAt e' = MarkedDeadAt e;
}.

Lemma evolves_refl s' e : evolves s' e e.
Proof. split; try done. constructor. Qed.

Lemma step_evolves T s s' id e e' :
  wf s → step T s s' → workers (reg s) !! id = Some e → workers (reg s') !! id = Some e' →
  deadlineTimer e' = deadlineTimer e → evolves s' e e'.
Proof.
  intros Hwf Hstep He He' Hd. destruct Hstep as
    [t Ht|now armed info r e0 Ht _ Hr|n e0 r resp Hn _ Hr|a b req r resp Ht _ Hr|req r resp Hr
    |report r resp Hr|id' r err Hr|id' r err Hr|i h Hr|n cb h since now Hr _ Ht]; simpl in *.
  - simplify_eq. apply evolves_refl.
  - apply Register_start_spec in Hr as (_ & _ & Hw & _). rewrite Hw in He'. simplify_eq.
    apply evolves_refl.
  - injection Hr as <- <-. simpl in *. destruct (decide (WorkerId (Info e0) = id)) as [Heq|]; [subst id|].
    + rewrite lookup_insert_eq in He'. simplify_eq.
      exfalso. eapply (wf_apart _ Hwf e'); eauto using list_elem_of_lookup_2.
    + rewrite lookup_insert_ne in He' by done. simplify_eq. apply evolves_refl.
  - unfold Heartbeat in Hr. case_hyp Hr; [|apply evolves_refl..].
    rewrite lookup_insert in He'. case_decide; simplify_eq; [|apply evolves_refl].
    split; simpl; try done; [by apply validTransition_lifecycle|].
    intros Hn Hd'. exfalso. apply Hn. by eapply validTransition_dead.
  - unfold Deregister in Hr. case_hyp Hr; [|apply evolves_refl].
    apply lookup_delete_Some in He' as [_ He']. simplify_eq. apply evolves_refl.
  - unfold ReportLoad in Hr. case_hyp Hr; [|apply evolves_refl].
    rewrite lookup_insert in He'. case_decide; simplify_eq; [|apply evolves_refl].
    split; simpl; try done; constructor.
  - unfold RequestDrain in Hr. case_hyp Hr; [|apply evolves_refl].
    rewrite lookup_insert in He'. case_decide; simplify_eq; [|apply evolves_refl].
    split; simpl; try done; constructor.
  - unfold Evict in Hr. case_hyp Hr; [|apply evolves_refl].
    apply lookup_delete_Some in He' as [_ He']. simplify_eq. apply evolves_refl.
  - simplify_eq. apply evolves_refl.
  - unfold markDead in He'. simpl in He'. repeat (case_match; simplify_eq/=; try apply evolves_refl).
    rewrite lookup_insert in He'. case_decide; simplify_eq; [|apply evolves_refl].
    split; simpl; try done; [constructor|]. intros _ _. split; [done|].
    unfold markDead. simpl. repeat (case_match; simplify_eq/=); lia.
Qed.

(** A registration that has left the registry does not come back. *)
Record gone (i : nat) (s : Sys) : Prop := {
  gone_used : (i < nextTimer (heap (reg s)))%nat;
  gone_workers id e : workers (reg s) !! id = Some e → deadlineTimer e ≠ i;
  gone_starting e : e ∈ starting s → deadlineTimer e ≠ i;
}.

Lemma nextTimer_mono r r' t :
  heap_le (heap r) (heap r') → timers_wf (heap r) → updates t r r' →
  (nextTimer (heap r) ≤ nextTimer (heap r'))%nat.
Proof.
  intros [Hwf Hown] Hr _. destruct (nextTimer (heap r)) as [|n] eqn:E; [lia|].
  destruct (proj2 (Hr n)) as [t' Ht]; [lia|].
  destruct (Hown n (t_arg t')) as (t'' & Ht'' & _); [by exists t'|].
  specialize (Hwf Hr). assert (is_Some (timers (heap r') !! n)) as H by eauto. apply Hwf in H. lia.
Qed.

Lemma gone_advance i s r' t :
  wf s → gone i s → updates t (reg s) r' → heap_le (heap (reg s)) (heap r') →
  gone i (advance r' t s).
Proof.
  intros Hwf [] Hu Hh. split; simpl; [|by intros id e' (e & He & -> & _)%Hu; eauto|done].
  pose proof (nextTimer_mono _ _ _ Hh (wf_heap _ Hwf) Hu). lia.
Qed.

Lemma gone_start i s now armed info r e :
  gone i s → Register_start now armed info (reg s) = (r, inl e) →
  gone i {| reg := r; clock := armed; starting := e :: starting s |}.
Proof.
  intros [] (_ & _ & Hw & Hh & _)%Register_start_spec. injection Hh as Hd Hh.
  split; simpl; rewrite <- ?Hh; simpl; [lia|by rewrite Hw|].
  intros e' [->|?]%elem_of_cons; [lia|auto].
Qed.

Lemma gone_finish i s n e r resp :
  gone i s → starting s !! n = Some e → Register_finish e (reg s) = (r, resp) →
  gone i {| reg := r; clock := clock s; starting := delete n (starting s) |}.
Proof.
  intros [] Hn [= <- <-]. pose proof (delete_Permutation _ _ _ Hn) as Hp.
  split; simpl; [done| |].
  - intros id e'. rewrite lookup_insert. case_decide; [|eauto]. intros [= <-].
    apply gone_starting0. rewrite Hp. by left.
  - intros e' He'. apply gone_starting0. rewrite Hp. by right.
Qed.

Lemma gone_step T i s s' : wf s → step T s s' → gone i s → gone i s'.
Proof.
  intros Hwf [r' t -> | now armed info r e -> | n e r resp ->]%step_view Hg.
  - by apply gone_advance.
  - by eapply gone_start.
  - by eapply gone_finish.
Qed.

(** An update that drops an entry drops its registration for good. *)
Lemma update_drops s r' t id e :
  wf s → updates t (reg s) r' → heap_le (heap (reg s)) (heap r') →
  workers (reg s) !! id = Some e → workers r' !! id = None →
  gone (deadlineTimer e) (advance r' t s).
Proof.
  intros Hwf Hu Hh He Hnone. destruct (wf_workers _ Hwf id e He) as [_ Hown].
  pose proof (own_timer_lt _ _ _ (wf_heap _ Hwf) Hown).
  pose proof (nextTimer_mono _ _ _ Hh (wf_heap _ Hwf) Hu).
  split; simpl; [lia| |].
  - intros id' e' He' Hd. destruct (Hu _ _ He') as (e0 & He0 & Hd0 & _).
    destruct (wf_workers _ Hwf id' e0 He0) as [_ Hown']. rewrite <- Hd0, Hd in Hown'.
    rewrite (own_timer_fun _ _ _ _ Hown' Hown) in He'. congruence.
  - intros e' He' Hd. eapply (wf_apart _ Hwf e'); eauto.
Qed.

(** Registering a worker again drops its previous registration for good. *)
Lemma finish_drops s n e0 r resp e :
  wf s → starting s !! n = Some e0 → Register_finish e0 (reg s) = (r, resp) →
  workers (reg s) !! WorkerId (Info e0) = Some e →
  gone (deadlineTimer e) {| reg := r; clock := clock s; starting := delete n (starting s) |}.
Proof.
  intros Hwf Hn [= <- <-] He. destruct (wf_workers _ Hwf _ e He) as [_ Hown].
  pose proof (own_timer_lt _ _ _ (wf_heap _ Hwf) Hown).
  pose proof (delete_Permutation _ _ _ Hn) as Hp.
  assert (e0 ∈ starting s) as He0 by (rewrite Hp; by left).
  split; simpl; [done| |].
  - intros id' e'. rewrite lookup_insert. case_decide as Hid.
    + intros [= <-] Hd. by eapply (wf_apart _ Hwf e0 _ e).
    + intros He' Hd. destruct (wf_workers _ Hwf id' e' He') as [_ Hown'].
      rewrite Hd in Hown'. pose proof (own_timer_fun _ _ _ _ Hown' Hown). congruence.
  - intros e' He' Hd. eapply (wf_apart _ Hwf e'); [|done|done]. rewrite Hp. by right.
Qed.

(** One step keeps a registration, or removes it for good. *)
Lemma step_keeps_or_gone T s s' id e :
  wf s → step T s s' → workers (reg s) !! id = Some e →
  (∃ e', workers (reg s') !! id = Some e' ∧ deadlineTimer e' = deadlineTimer e) ∨
  gone (deadlineTimer e) s'.
Proof.
  intros Hwf [r' t -> Ht Hu Hh| now armed info r e0 -> Ht Hr| n e0 r resp -> Hn Hr]%step_view He.
  - destruct (workers r' !! id) as [e'|] eqn:He'; [left|right; by eapply update_drops].
    exists e'. split; [done|]. destruct (Hu _ _ He') as (e0 & He0 & Hd & _). congruence.
  - apply Register_start_spec in Hr as (_ & _ & Hw & _). left. exists e. simpl. by rewrite Hw.
  - destruct (decide (WorkerId (Info e0) = id)) as [<-|Hne]; [right; by eapply finish_drops|].
    left. injection Hr as <- <-. exists e. simpl. by rewrite lookup_insert_ne.
Qed.

Lemma gone_rtc T i s s' : wf s → rtc (step T) s s' → gone i s → gone i s'.
Proof. intros Hwf H. revert Hwf. induction H; eauto using wf_step, gone_step. Qed.

(** What the whole life of a registration looks like. *)
Lemma registration_rtc T s s' id e e' :
  wf s → rtc (step T) s s' →
  workers (reg s) !! id = Some e → workers (reg s') !! id = Some e' →
  deadlineTimer e' = deadlineTimer e →
  rtc lifecycle (State e) (State e') ∧ Info e' = Info e ∧ RegisteredAt e' = RegisteredAt e ∧
  (DrainRequested e = true → DrainRequested e' = true).
Proof.
  intros Hwf Hrtc. revert e Hwf. induction Hrtc as [s|s s1 s' Hstep Hrtc IH]; intros e Hwf He He' Hd.
  { simplify_eq. split_and!; done. }
  pose proof (wf_step _ _ _ Hstep Hwf) as Hwf1.
  destruct (step_keeps_or_gone _ _ _ _ _ Hwf Hstep He) as [(e1 & He1 & Hd1)|Hgone].
  - destruct (step_evolves _ _ _ _ _ _ Hwf Hstep He He1 Hd1) as [Hl [Hi Hr] Hdr _ _].
    destruct (IH e1 Hwf1 He1 He') as (Hl' & Hi' & Hr' & Hdr'); [congruence|].
    split_and!; [by eapply rtc_l|congruence|congruence|auto].
  - exfalso. by eapply (gone_workers _ _ (gone_rtc _ _ _ _ Hwf1 Hrtc Hgone)).
Qed.

(** A dead registration keeps the instant it was marked at. *)
Lemma dead_stamp_rtc T s s' id e e' :
  wf s → rtc (step T) s s' →
  workers (reg s) !! id = Some e → workers (reg s') !! id = Some e' →
  deadlineTimer e' = deadlineTimer e → State e = DEAD →
  State e' = DEAD ∧ MarkedDeadAt e' = MarkedDeadAt e.
Proof.
  intros Hwf Hrtc. revert e Hwf. induction Hrtc as [s|s s1 s' Hstep Hrtc IH]; intros e Hwf He He' Hd HD.
  { by simplify_eq. }
  pose proof (wf_step _ _ _ Hstep Hwf) as Hwf1.
  destruct (step_keeps_or_gone _ _ _ _ _ Hwf Hstep He) as [(e1 & He1 & Hd1)|Hgone].
  - destruct (step_evolves _ _ _ _ _ _ Hwf Hstep He He1 Hd1) as [Hl _ _ _ Hm].
    destruct (IH e1 Hwf1 He1 He') as [? Hm']; [congruence| |rewrite Hm' in *; auto].
    rewrite HD in Hl. by inversion Hl.
  - exfalso. by eapply (gone_workers _ _ (gone_rtc _ _ _ _ Hwf1 Hrtc Hgone)).
Qed.

(** ** Reads *)

Lemma serves_iff models m : serves models m = true ↔ m ∈ models.
Proof.
  induction models as [|m' ms IH]; simpl; [set_solver|].
  case_decide; [subst; split; [by left|done]|]. rewrite IH, elem_of_cons. split; [by right|by intros [->|]].
Qed.

Definition occurrences (m : string) (models : list string) : nat :=
  length (filter (m =.) models).

Lemma occurrences_pos m models : (0 < occurrences m models)%nat ↔ m ∈ models.
Proof.
  unfold occurrences. split.
  - intros H. destruct (filter _ models) as [|m' l] eqn:E; simpl in H; [lia|].
    assert (m' ∈ filter (m =.) models) as [-> ?]%list_elem_of_filter by (rewrite E; by left). done.
  - intros H. assert (m ∈ filter (m =.) models) as H' by (by apply list_elem_of_filter).
    destruct (filter _ models); [set_solver|simpl; lia].
Qed.

Lemma occurrences_nodup m models :
  NoDup models → occurrences m models = if serves models m then 1%nat else 0%nat.
Proof.
  unfold occurrences. induction models as [|m' ms IH]; intros Hnd; [done|].
  apply NoDup_cons in Hnd as [Hnin Hnd]. specialize (IH Hnd). simpl. rewrite filter_cons.
  destruct (decide (m = m')) as [->|Hne].
  - rewrite decide_True by done. simpl. rewrite IH.
    destruct (serves ms m') eqn:E; [|done]. by apply serves_iff in E.
  - by rewrite decide_False.
Qed.

(** The counts [ModelsServed] accumulates for one model over a list of workers. *)
Definition tally (m : string) (es : list WorkerEntry) : nat * nat :=
  (sum_list_with (λ e, occurrences m (ModelsLoaded (Info e))) es,
   sum_list_with (λ e, if is_healthy (State e) then occurrences m (ModelsLoaded (Info e)) else 0%nat) es).

Definition tally_opt (c : nat * nat) : option (nat * nat) :=
  if decide (fst c = 0%nat) then None else Some c.

Lemma count_models_lookup h models acc m :
  foldl (count_model h) acc models !! m =
  if decide (occurrences m models = 0%nat) then acc !! m
  else let c := default (0%nat, 0%nat) (acc !! m) in
    Some ((fst c + occurrences m models)%nat,
          (snd c + if h then occurrences m models else 0)%nat).
Proof.
  revert acc. induction models as [|m' ms IH]; intros acc; [done|]. simpl. rewrite IH.
  unfold occurrences. rewrite filter_cons. unfold count_model.
  destruct (decide (m = m')) as [->|Hne].
  - rewrite lookup_insert_eq. simpl.
    destruct (default (0%nat, 0%nat) (acc !! m')) as [t n]. unfold count_one. simpl.
    set (k := length _). clearbody k.
    destruct (decide (k = 0%nat)); subst; destruct h; simpl; do 2 f_equal; lia.
  - by rewrite lookup_insert_ne by done.
Qed.

Lemma tally_healthy_le m es : (snd (tally m es) ≤ fst (tally m es))%nat.
Proof. unfold tally. simpl. induction es as [|e es IH]; simpl; [lia|]. case_match; lia. Qed.

Lemma count_workers_lookup_acc es acc m :
  foldl count_worker acc es !! m =
  if decide (fst (tally m es) = 0%nat) then acc !! m
  else let c := default (0%nat, 0%nat) (acc !! m) in
    Some ((fst c + fst (tally m es))%nat, (snd c + snd (tally m es))%nat).
Proof.
  revert acc. induction es as [|e es IH]; intros acc; [done|]. simpl. rewrite IH.
  pose proof (tally_healthy_le m es) as Hle.
  unfold count_worker, tally in *. simpl in *. rewrite count_models_lookup.
  set (k := occurrences m _). set (t := sum_list_with _ es) in *.
  set (n := sum_list_with _ es) in *. clearbody k t n. clear IH.
  destruct (decide (k = 0%nat)), (decide (t = 0%nat)), (decide (k + t = 0)%nat); try lia;
    subst; destruct (acc !! m) as [[a b]|]; destruct (is_healthy (State e)); simpl;
    try done; do 2 f_equal; lia.
Qed.

Lemma count_workers_lookup es m :
  foldl count_worker ∅ es !! m = tally_opt (tally m es).
Proof.
  rewrite count_workers_lookup_acc, lookup_empty. unfold tally_opt.
  destruct (tally m es); simpl. done.
Qed.

Section read_lemmas.
Context `{MapRange}.
Implicit Types r : Registry.

Lemma ListWorkers_perm i r : ListWorkers i r ≡ₚ (map_to_list (workers r)).*2.
Proof. unfold ListWorkers. by rewrite range_perm. Qed.

Lemma elem_of_ListWorkers i r e : e ∈ ListWorkers i r ↔ ∃ id, workers r !! id = Some e.
Proof.
  unfold ListWorkers. rewrite list_elem_of_fmap. split.
  - intros ([id e'] & -> & Hin%elem_of_range). eauto.
  - intros (id & Hid). exists (id, e). by rewrite elem_of_range.
Qed.

(** When entries know their key, a listing holds every worker once. *)
Lemma NoDup_ListWorkers i r :
  (∀ id e, workers r !! id = Some e → WorkerId (Info e) = id) →
  NoDup ((λ e, WorkerId (Info e)) <$> ListWorkers i r).
Proof.
  intros Hid. unfold ListWorkers. rewrite <- list_fmap_compose.
  replace (((λ e, WorkerId (Info e)) ∘ snd) <$> range i (workers r)) with (range i (workers r)).*1;
    [apply NoDup_range_fst|].
  apply list_fmap_ext. intros ? [id e] Hin%list_elem_of_lookup_2%elem_of_range. symmetry. by apply Hid.
Qed.

Lemma HealthyWorkersForModel_perm i j m r :
  HealthyWorkersForModel i m r ≡ₚ HealthyWorkersForModel j m r.
Proof. unfold HealthyWorkersForModel. by rewrite !ListWorkers_perm. Qed.

Lemma elem_of_HealthyWorkersForModel i m r e :
  e ∈ HealthyWorkersForModel i m r ↔
  ∃ id, workers r !! id = Some e ∧ is_healthy (State e) = true ∧ m ∈ ModelsLoaded (Info e).
Proof.
  unfold HealthyWorkersForModel. rewrite list_elem_of_filter, elem_of_ListWorkers, Is_true_true,
    andb_true_iff, serves_iff.
  split; [intros ((? & ?) & (id & ?)); eauto|intros (id & ? & ? & ?); eauto].
Qed.

(** A model is tallied exactly when some worker lists it. *)
Lemma tally_served m es :
  fst (tally m es) ≠ 0%nat ↔ ∃ e, e ∈ es ∧ m ∈ ModelsLoaded (Info e).
Proof.
  unfold tally. simpl. setoid_rewrite <- (occurrences_pos m).
  induction es as [|e es IH]; simpl; [split; [lia|intros (? & ? & _); set_solver]|].
  destruct (decide (occurrences m (ModelsLoaded (Info e)) = 0%nat)) as [H0|H0].
  - rewrite H0. simpl. rewrite IH. split.
    + intros (e' & ? & ?). exists e'. split; [by right|done].
    + intros (e' & [->|?]%elem_of_cons & ?); [lia|eauto].
  - split; [|lia]. intros _. exists e. split; [by left|lia].
Qed.

(** Its healthy count is positive exactly when some healthy worker lists it. *)
Lemma tally_healthy m es :
  snd (tally m es) ≠ 0%nat ↔
  ∃ e, e ∈ es ∧ is_healthy (State e) = true ∧ m ∈ ModelsLoaded (Info e).
Proof.
  transitivity (fst (tally m (filter (λ e, is_healthy (State e)) es)) ≠ 0%nat).
  - unfold tally. simpl. induction es as [|e es IH]; [done|]. rewrite filter_cons. simpl.
    destruct (is_healthy (State e)); simpl; [|done].
    set (k := occurrences _ _). set (t := sum_list_with _ es) in *.
    set (u := sum_list_with _ (filter _ es)) in *. clearbody k t u. lia.
  - rewrite tally_served. setoid_rewrite list_elem_of_filter. setoid_rewrite Is_true_true.
    split; intros (e & H1); exists e; tauto.
Qed.

Lemma tally_perm m es es' : es ≡ₚ es' → tally m es = tally m es'.
Proof. intros Hp. unfold tally. by rewrite Hp. Qed.

Lemma WorkerCount_spec i r :
  WorkerCount i r =
  (size (workers r), length (filter (λ e, is_healthy (State e)) (map_to_list (workers r)).*2)).
Proof.
  unfold WorkerCount.
  transitivity (length (ListWorkers i r), length (filter (λ e, is_healthy (State e)) (ListWorkers i r))).
  - cut (∀ c, foldl (λ c e, (S (fst c), if is_healthy (State e) then S (snd c) else snd c)) c
        (ListWorkers i r) = ((fst c + length (ListWorkers i r))%nat,
        (snd c + length (filter (λ e, is_healthy (State e)) (ListWorkers i r)))%nat));
      [by intros ->|].
    induction (ListWorkers i r) as [|e es IH]; intros [t n]; simpl; [by rewrite !Nat.add_0_r|].
    rewrite IH, filter_cons. simpl. destruct (is_healthy (State e)); simpl; f_equal; lia.
  - by rewrite ListWorkers_perm, length_fmap, length_map_to_list.
Qed.

(** With each worker's model list free of repetitions the tally counts workers. *)
Lemma tally_nodup m es :
  (∀ e, e ∈ es → NoDup (ModelsLoaded (Info e))) →
  tally m es = (length (filter (λ e, serves (ModelsLoaded (Info e)) m) es),
                length (filter (λ e, is_healthy (State e) && serves (ModelsLoaded (Info e)) m) es)).
Proof.
  unfold tally. induction es as [|e es IH]; intros Hnd; [done|]. simpl.
  assert (∀ e, e ∈ es → NoDup (ModelsLoaded (Info e))) as Hnd' by set_solver.
  injection (IH Hnd') as Ht Hn. rewrite Ht, Hn, !filter_cons.
  rewrite occurrences_nodup by (apply Hnd; by left).
  destruct (is_healthy (State e)), (serves (ModelsLoaded (Info e)) m); simpl; done.
Qed.

Lemma elem_of_ModelsServed i j r ms :
  ms ∈ ModelsServed i j r ↔
  ∃ c, tally_opt (tally (Model ms) (map_to_list (workers r)).*2) = Some c ∧
    TotalWorkers ms = fst c ∧ HealthyWorkers ms = snd c.
Proof.
  unfold ModelsServed. rewrite list_elem_of_fmap. split.
  - intros ([m [t n]] & -> & Hin%elem_of_range). rewrite count_workers_lookup in Hin.
    rewrite (tally_perm _ _ _ (ListWorkers_perm i r)) in Hin. simpl. eauto.
  - intros ([t n] & Hc & Ht & Hn). exists (Model ms, (t, n)). destruct ms; simpl in *; subst.
    split; [done|]. apply elem_of_range. rewrite count_workers_lookup.
    by rewrite (tally_perm _ _ _ (ListWorkers_perm i r)).
Qed.

Lemma NoDup_ModelsServed i j r : NoDup (Model <$> ModelsServed i j r).
Proof.
  unfold ModelsServed. rewrite <- list_fmap_compose.
  set (l := range j _). replace ((Model ∘ _) <$> l) with l.*1; [apply NoDup_range_fst|].
  by apply list_fmap_ext; intros ? [m [t n]].
Qed.

End read_lemmas.

(** ** A demonstration run, the concrete input of the witnesses below *)

Definition demo_info : WorkerInfo := {|
  WorkerId := "w1"; Address := "localhost:9001"; GpuType := "cpu"; VramBytes := 0;
  ModelsLoaded := ["llama3"]; Backend := "mock"; Provider := "local"; Hardware := "cpu";
  CostPerHour := S754_zero false |}.

Definition demo_entry (now : Z) (s : WorkerState) (hb : Z) : WorkerEntry := {|
  Info := demo_info; State := s; LastHeartbeat := hb; RegisteredAt := now;
  Load := emptyLoadReport "w1"; DrainRequested := false; MarkedDeadAt := None;
  deadlineTimer := 0 |}.

(** The worker registers at 0 and reports READY: its timer is re-armed at [reset]
    and the heartbeat stamped [hb]. *)
Definition demo_sys (reset hb : Z) : Sys := {|
  reg := {| workers := {["w1" := demo_entry 0 READY hb]}; deadTimeout := DefaultDeadTimeout;
            heap := {| timers := {[0%nat := {| t_when := Some (reset + DefaultDeadTimeout);
                                               t_arg := "w1" |}]};
                       nextTimer := 1; callbacks := [] |} |};
  clock := hb; starting := [] |}.

(** The constructors of [step] as computations, for concrete runs. *)
Lemma run_heartbeat T s a b req s' :
  clock s ≤ a ≤ b → b ≤ a + gap T → s' = advance (fst (Heartbeat a b req (reg s))) b s →
  step T s s'.
Proof.
  intros ?? ->. by eapply (step_heartbeat T s a b req _ (snd (Heartbeat a b req (reg s)))), surjective_pairing.
Qed.

Lemma run_tick T s t s' : clock s ≤ t → s' = advance (reg s) t s → step T s s'.
Proof. intros ? ->. by constructor. Qed.

Lemma run_expire T s i s' :
  Some s' = (λ h, advance (set_heap h (reg s)) (clock s) s) <$> expire i (clock s) (heap (reg s)) →
  step T s s'.
Proof.
  destruct (expire i _ _) as [h|] eqn:E; [|done]. intros [= ->]. by apply (step_expire T s i).
Qed.

Lemma run_mark_dead T s n cb h since now s' :
  take_callback n (heap (reg s)) = Some (cb, h) →
  cb_at cb + latency T ≤ since → clock s ≤ since ≤ now →
  s' = advance (markDead since now (cb_arg cb) (set_heap h (reg s))) now s → step T s s'.
Proof. intros ??? ->. by eapply step_mark_dead. Qed.

Lemma run_drain T s id s' :
  s' = advance (fst (RequestDrain id (reg s))) (clock s) s → step T s s'.
Proof.
  intros ->. by eapply (step_request_drain T s id _ (snd (RequestDrain id (reg s)))), surjective_pairing.
Qed.

Lemma demo_reachable T reset hb :
  0 ≤ gap T → 0 ≤ insert_delay T → 0 ≤ reset ≤ hb → hb ≤ reset + gap T →
  reachable T DefaultDeadTimeout (demo_sys reset hb).
Proof.
  intros Hg Hi Hr Hh. exists 0.
  eapply rtc_l; [by eapply (step_register_start T _ 0 0 demo_info)|].
  eapply rtc_l; [by eapply (step_register_finish T _ 0 (demo_entry 0 STARTING 0))|].
  eapply rtc_l; [|apply rtc_refl].
  eapply (run_heartbeat T _ reset hb {| hb_WorkerId := "w1"; hb_State := READY |});
    [simpl; lia|lia|reflexivity].
Qed.
