(* ===== verification/RegistryProps.v ===== *)
(** * Properties of the worker registry

    A refinement - the calls, answers and deadline callbacks of every run of the registry
    with its timers are those of a run of an abstract fleet, which has neither timers nor
    calls under way and holds all that can be read of a worker -, the invariant of the
    entries, the life of a registration, the branches of [Heartbeat], and the read
    methods. *)

From S2P Require Import Prelude GoFloat Proto GoTimer Registry.
Open Scope Z_scope.

(** ** The abstract fleet

    What a client of the registry sees, without locks, timers, callbacks and calls under way:
    the members with all that can be read of them.  [fleet_acts] gives every call with its
    answer, and what it makes of the fleet. *)

Record Member := {
  m_info : WorkerInfo;
  m_state : WorkerState;
  m_heard : Z;
  m_since : Z;
  m_load : LoadReport;
  m_drain : bool;
  m_died : option Z;
}.

Abbreviation Fleet := (gmap string Member).

Definition newcomer (now : Z) (info : WorkerInfo) : Member :=
  {| m_info := info; m_state := STARTING; m_heard := now; m_since := now;
     m_load := emptyLoadReport (WorkerId info); m_drain := false; m_died := None |}.

Definition heard_from (now : Z) (st : WorkerState) (m : Member) : Member :=
  {| m_info := m_info m; m_state := st; m_heard := now; m_since := m_since m; m_load := m_load m;
     m_drain := m_drain m; m_died := m_died m |}.

Definition loaded_with (l : LoadReport) (m : Member) : Member :=
  {| m_info := m_info m; m_state := m_state m; m_heard := m_heard m; m_since := m_since m; m_load := l;
     m_drain := m_drain m; m_died := m_died m |}.

Definition asked_to_drain (m : Member) : Member :=
  {| m_info := m_info m; m_state := m_state m; m_heard := m_heard m; m_since := m_since m; m_load := m_load m;
     m_drain := true; m_died := m_died m |}.

Definition found_dead (now : Z) (m : Member) : Member :=
  {| m_info := m_info m; m_state := DEAD; m_heard := m_heard m; m_since := m_since m; m_load := m_load m;
     m_drain := m_drain m; m_died := Some now |}.

(** The state changes a worker may report. *)
Inductive reports : WorkerState → WorkerState → Prop :=
  | reports_same st : reports st st
  | reports_loaded : reports STARTING READY
  | reports_busy : reports READY BUSY
  | reports_idle : reports BUSY READY
  | reports_drain st : st = READY ∨ st = BUSY → reports st DRAINING.

(** A call with its answer and the instant it takes effect, or a deadline callback with its
    two clock readings. *)
Inductive Action :=
  | a_register (now : Z) (info : WorkerInfo) (answer : RegisterResponse + Status)
  | a_heartbeat (now : Z) (req : HeartbeatRequest) (answer : HeartbeatResponse + Status)
  | a_deregister (req : DeregisterRequest) (answer : unit + Status)
  | a_load (report : LoadReport) (answer : unit + Status)
  | a_drain (id : string) (err : option string)
  | a_evict (id : string) (err : option string)
  | a_deadline (id : string) (since now : Z).

Definition welcome : RegisterResponse :=
  {| reg_Ok := true; reg_Message := "registered"; HeartbeatIntervalSecs := 5 |}.

(** A refused call leaves the fleet as it is. *)
Inductive fleet_acts (timeout : Z) (f : Fleet) : Action → Fleet → Prop :=
  | f_join now info :
      WorkerId info ≠ "" → Address info ≠ "" →
      fleet_acts timeout f (a_register now info (inl welcome)) (<[WorkerId info := newcomer now info]> f)
  | f_join_refused now info err :
      WorkerId info = "" ∨ Address info = "" → code err = InvalidArgument →
      fleet_acts timeout f (a_register now info (inr err)) f
  | f_report now req m :
      f !! hb_WorkerId req = Some m → reports (m_state m) (hb_State req) →
      fleet_acts timeout f (a_heartbeat now req (inl {| hb_Ok := true; Drain := m_drain m |}))
        (<[hb_WorkerId req := heard_from now (hb_State req) m]> f)
  | f_report_refused now req m err :
      f !! hb_WorkerId req = Some m → ¬ reports (m_state m) (hb_State req) → code err = InvalidArgument →
      fleet_acts timeout f (a_heartbeat now req (inr err)) f
  | f_report_unknown now req err :
      f !! hb_WorkerId req = None → code err = NotFound →
      fleet_acts timeout f (a_heartbeat now req (inr err)) f
  | f_leave req :
      is_Some (f !! dereg_WorkerId req) →
      fleet_acts timeout f (a_deregister req (inl tt)) (delete (dereg_WorkerId req) f)
  | f_leave_unknown req err :
      f !! dereg_WorkerId req = None → code err = NotFound →
      fleet_acts timeout f (a_deregister req (inr err)) f
  | f_load l m :
      f !! load_WorkerId l = Some m →
      fleet_acts timeout f (a_load l (inl tt)) (<[load_WorkerId l := loaded_with l m]> f)
  | f_load_unknown l err :
      f !! load_WorkerId l = None → code err = NotFound →
      fleet_acts timeout f (a_load l (inr err)) f
  | f_drain id m :
      f !! id = Some m → fleet_acts timeout f (a_drain id None) (<[id := asked_to_drain m]> f)
  | f_drain_unknown id msg :
      f !! id = None → fleet_acts timeout f (a_drain id (Some msg)) f
  | f_evict id :
      is_Some (f !! id) → fleet_acts timeout f (a_evict id None) (delete id f)
  | f_evict_unknown id msg :
      f !! id = None → fleet_acts timeout f (a_evict id (Some msg)) f
  | f_dies id since now m :
      f !! id = Some m → m_state m ≠ DEAD → timeout ≤ since - m_heard m →
      fleet_acts timeout f (a_deadline id since now) (<[id := found_dead now m]> f)
  | f_spared id since now :
      (∀ m, f !! id = Some m → m_state m = DEAD ∨ since - m_heard m < timeout) →
      fleet_acts timeout f (a_deadline id since now) f.

(** The actions of a run, the earliest first. *)
Inductive fleet_runs (timeout : Z) (f : Fleet) : list Action → Fleet → Prop :=
  | fleet_rests : fleet_runs timeout f [] f
  | fleet_goes_on tr a f1 f2 :
      fleet_runs timeout f tr f1 → fleet_acts timeout f1 a f2 → fleet_runs timeout f (tr ++ [a]) f2.

(** ** The registry's runs, with what can be seen of them

    [step] with labels: [None] is a step that nobody sees - the clock, a timer that expires, a
    [Register] that waits for the lock. *)

Inductive lstep (T : Timing) (s : Sys) : option Action → Sys → Prop :=
  | l_tick t : clock s ≤ t → lstep T s None (advance (reg s) t s)
  | l_register_start now armed info r e :
      clock s ≤ now ≤ armed → armed ≤ now + gap T →
      Register_start now armed info (reg s) = (r, inl e) →
      lstep T s None {| reg := r; clock := armed; starting := e :: starting s |}
  | l_register_refused now armed info r err :
      clock s ≤ now ≤ armed → Register_start now armed info (reg s) = (r, inr err) →
      lstep T s (Some (a_register now info (inr err))) (advance r now s)
  | l_register_finish n e r resp :
      starting s !! n = Some e → clock s ≤ LastHeartbeat e + insert_delay T →
      Register_finish e (reg s) = (r, resp) →
      lstep T s (Some (a_register (RegisteredAt e) (Info e) (inl resp)))
        {| reg := r; clock := clock s; starting := delete n (starting s) |}
  | l_heartbeat reset_at now req r resp :
      clock s ≤ reset_at ≤ now → now ≤ reset_at + gap T →
      Heartbeat reset_at now req (reg s) = (r, resp) →
      lstep T s (Some (a_heartbeat now req resp)) (advance r now s)
  | l_deregister req r resp :
      Deregister req (reg s) = (r, resp) → lstep T s (Some (a_deregister req resp)) (advance r (clock s) s)
  | l_load report r resp :
      ReportLoad report (reg s) = (r, resp) → lstep T s (Some (a_load report resp)) (advance r (clock s) s)
  | l_drain id r err :
      RequestDrain id (reg s) = (r, err) → lstep T s (Some (a_drain id err)) (advance r (clock s) s)
  | l_evict id r err :
      Evict id (reg s) = (r, err) → lstep T s (Some (a_evict id err)) (advance r (clock s) s)
  | l_expire i h :
      expire i (clock s) (heap (reg s)) = Some h → lstep T s None (advance (set_heap h (reg s)) (clock s) s)
  | l_deadline n cb h since now :
      take_callback n (heap (reg s)) = Some (cb, h) →
      cb_at cb + latency T ≤ since → clock s ≤ since ≤ now →
      lstep T s (Some (a_deadline (cb_arg cb) since now))
        (advance (markDead since now (cb_arg cb) (set_heap h (reg s))) now s).

Inductive registry_runs (T : Timing) (s : Sys) : list Action → Sys → Prop :=
  | registry_rests : registry_runs T s [] s
  | registry_goes_on tr l s1 s2 :
      registry_runs T s tr s1 → lstep T s1 l s2 → registry_runs T s (tr ++ option_list l) s2.

(** The labels are on the steps of [step]. *)
Lemma lstep_step T s l s' : lstep T s l s' → step T s s'.
Proof.
  destruct 1 as [t Ht|now armed info r e Ht Hg Hr|now armed info r err Ht Hr|n e r resp Hn Ht Hr
    |a b req r resp Ht Hg Hr|req r resp Hr|report r resp Hr|id r err Hr|id r err Hr|i h Hr|n cb h since now Hr Hl Ht].
  3: { unfold Register_start in Hr. repeat case_decide; [..|by destruct (AfterFunc _ _ _ _)];
         injection Hr as <- _; apply step_tick; lia. }
  - by apply step_tick.
  - by apply (step_register_start T s now armed info).
  - by eapply step_register_finish.
  - by eapply step_heartbeat.
  - by eapply step_deregister.
  - by eapply step_report_load.
  - by eapply step_request_drain.
  - by eapply step_evict.
  - by eapply step_expire.
  - by eapply step_mark_dead.
Qed.

Lemma step_lstep T s s' : step T s s' → ∃ l, lstep T s l s'.
Proof.
  destruct 1; eexists.
  - by apply l_tick.
  - by apply (l_register_start T s now armed info).
  - by eapply l_register_finish.
  - by eapply l_heartbeat.
  - by eapply l_deregister.
  - by eapply l_load.
  - by eapply l_drain.
  - by eapply l_evict.
  - by eapply l_expire.
  - by eapply l_deadline.
Qed.

Lemma reachable_runs T timeout s : reachable T timeout s ↔ ∃ t0 tr, registry_runs T (init timeout t0) tr s.
Proof.
  split.
  - intros [t0 Hr]. exists t0. revert s Hr.
    apply (rtc_ind_r (λ s, ∃ tr, registry_runs T (init timeout t0) tr s)).
    { exists []. constructor. }
    intros s s' _ Hs [tr IH]. destruct (step_lstep _ _ _ Hs) as [l Hl]. eexists. by econstructor.
  - intros (t0 & tr & Hr). exists t0. induction Hr as [|tr l s1 s2 _ IH Hs]; [done|].
    eapply rtc_r; [exact IH|]. by eapply lstep_step.
Qed.

(** ** The refinement *)

Definition abs_entry (e : WorkerEntry) : Member :=
  {| m_info := Info e; m_state := State e; m_heard := LastHeartbeat e; m_since := RegisteredAt e;
     m_load := Load e; m_drain := DrainRequested e; m_died := MarkedDeadAt e |}.

Definition abs_fleet (r : Registry) : Fleet := abs_entry <$> workers r.

Lemma validTransition_iff from to : validTransition from to = true ↔ reports from to.
Proof.
  unfold validTransition. split.
  - case_decide as E; [subst; constructor|]. destruct from, to; try done; constructor; auto.
  - intros H. case_decide as Hne; [done|]. destruct H as [| | | |st [->| ->]]; done.
Qed.

Lemma abs_lookup id r : abs_fleet r !! id = abs_entry <$> workers r !! id.
Proof. apply lookup_fmap. Qed.

Lemma abs_set id e h r :
  abs_fleet (set_workers (<[id := e]> (workers r)) (set_heap h r)) = <[id := abs_entry e]> (abs_fleet r).
Proof. apply fmap_insert. Qed.

Lemma abs_put id e r : abs_fleet (set_workers (<[id := e]> (workers r)) r) = <[id := abs_entry e]> (abs_fleet r).
Proof. apply fmap_insert. Qed.

Lemma abs_remove id e r : abs_fleet (remove_worker id e r) = delete id (abs_fleet r).
Proof. apply fmap_delete. Qed.

(** A call that waits for the lock holds the newcomer's entry. *)
Definition waiting_fresh (s : Sys) : Prop :=
  ∀ e, e ∈ starting s → abs_entry e = newcomer (RegisteredAt e) (Info e).

Lemma waiting_fresh_step T s s' : step T s s' → waiting_fresh s → waiting_fresh s'.
Proof.
  unfold waiting_fresh.
  destruct 1 as [| now armed info r e0 _ _ Hr |n e0 r resp Hn _ _| | | | | | |]; simpl; try done; intros Hf e.
  - unfold Register_start in Hr. case_decide; [done|]. case_decide; [done|]. injection Hr as _ <-.
    intros [->|He]%elem_of_cons; [done|by apply Hf].
  - intros He. apply Hf. revert He. by apply sublist_subseteq, sublist_delete.
Qed.

Lemma Heartbeat_acts timeout a b req r r' resp :
  Heartbeat a b req r = (r', resp) → fleet_acts timeout (abs_fleet r) (a_heartbeat b req resp) (abs_fleet r').
Proof.
  unfold Heartbeat. destruct (workers r !! hb_WorkerId req) as [e|] eqn:He.
  - pose proof (abs_lookup (hb_WorkerId req) r) as Hm. rewrite He in Hm. simpl in Hm.
    destruct (validTransition (State e) (hb_State req)) eqn:Hv; intros [= <- <-].
    + rewrite abs_set. by apply (f_report _ _ _ _ (abs_entry e)), validTransition_iff.
    + eapply f_report_refused; [exact Hm| |done]. intros Hn%validTransition_iff. simpl in Hn. congruence.
  - intros [= <- <-]. apply f_report_unknown; [by rewrite abs_lookup, He|done].
Qed.

Lemma markDead_acts since now id r :
  fleet_acts (deadTimeout r) (abs_fleet r) (a_deadline id since now) (abs_fleet (markDead since now id r)).
Proof.
  unfold markDead. pose proof (abs_lookup id r) as Hm. destruct (workers r !! id) as [e|] eqn:He; simpl in Hm.
  2: { apply f_spared. by rewrite Hm. }
  case_decide as HD; [|destruct (Z.ltb_spec (since - LastHeartbeat e) (deadTimeout r)) as [Hlt|Hge]].
  1, 2: apply f_spared; rewrite Hm; intros m [= <-]; simpl; auto.
  rewrite abs_put. by apply (f_dies _ _ _ _ _ (abs_entry e)).
Qed.

(** One step is one action, or nothing that can be seen. *)
Lemma lstep_acts T s l s' :
  wf s → waiting_fresh s → lstep T s l s' →
  match l with
  | Some a => fleet_acts (deadTimeout (reg s)) (abs_fleet (reg s)) a (abs_fleet (reg s'))
  | None => abs_fleet (reg s') = abs_fleet (reg s)
  end.
Proof.
  intros Hwf Hf. destruct 1 as [t Ht|now armed info r e Ht Hg Hr|now armed info r err Ht Hr|n e r resp Hn Ht Hr
    |a b req r resp Ht Hg Hr|req r resp Hr|report r resp Hr|id r err Hr|id r err Hr|i h Hr|n cb h since now Hr Hl Ht];
    simpl; try done.
  - apply Register_start_spec in Hr as (_ & _ & Hw & _). unfold abs_fleet. by rewrite Hw.
  - unfold Register_start in Hr. case_decide as Hid; [|case_decide as Ha; [|done]];
      injection Hr as <- <-; (apply f_join_refused; [auto|done]).
  - injection Hr as <- <-. apply list_elem_of_lookup_2 in Hn. rewrite abs_put, (Hf e Hn).
    destruct (wf_starting _ Hwf e Hn) as ([] & _). by apply f_join.
  - by eapply Heartbeat_acts.
  - unfold Deregister in Hr. pose proof (abs_lookup (dereg_WorkerId req) (reg s)) as Hm. case_hyp Hr.
    + rewrite abs_remove. apply f_leave. rewrite Hm. by eexists.
    + by apply f_leave_unknown.
  - unfold ReportLoad in Hr. pose proof (abs_lookup (load_WorkerId report) (reg s)) as Hm. case_hyp Hr.
    + rewrite abs_put. by apply (f_load _ _ _ (abs_entry w)).
    + by apply f_load_unknown.
  - unfold RequestDrain in Hr. pose proof (abs_lookup id (reg s)) as Hm. case_hyp Hr.
    + rewrite abs_put. by apply (f_drain _ _ _ (abs_entry w)).
    + by apply f_drain_unknown.
  - unfold Evict in Hr. pose proof (abs_lookup id (reg s)) as Hm. case_hyp Hr.
    + rewrite abs_remove. apply f_evict. rewrite Hm. by eexists.
    + by apply f_evict_unknown.
  - apply (markDead_acts since now (cb_arg cb) (set_heap h (reg s))).
Qed.

(** C1: The registry with its timers, locks, callbacks and calls under way implements the
    abstract fleet: whatever it does, the sequence of calls, their answers and the deadline
    callbacks is one of the fleet, and at its end the fleet is what every reader finds - the
    entry of each id but for its timer, the list of all workers, and the router's candidates
    for a model. *)
Theorem registry_refines_fleet `{MapRange} T timeout t0 tr s :
  registry_runs T (init timeout t0) tr s →
  ∃ f, fleet_runs timeout ∅ tr f ∧
    (∀ id, abs_entry <$> GetWorker id (reg s) = f !! id) ∧
    ∀ i, abs_entry <$> ListWorkers i (reg s) ≡ₚ (map_to_list f).*2 ∧
      ∀ model, abs_entry <$> HealthyWorkersForModel i model (reg s) ≡ₚ
        filter (λ m, (m_state m = READY ∨ m_state m = BUSY) ∧ model ∈ ModelsLoaded (m_info m)) (map_to_list f).*2.
Proof.
  intros Hr. exists (abs_fleet (reg s)). split; [|split].
  - cut (wf s ∧ waiting_fresh s ∧ deadTimeout (reg s) = timeout ∧ fleet_runs timeout ∅ tr (abs_fleet (reg s))); [tauto|].
    induction Hr as [|tr l s1 s2 _ (Hwf & Hf & HD & IH) Hs].
    + split_and!; [apply wf_init|by intros e He%not_elem_of_nil|done|]. unfold abs_fleet. simpl. rewrite fmap_empty.
      constructor.
    + pose proof (lstep_step _ _ _ _ Hs) as Hst. pose proof (lstep_acts _ _ _ _ Hwf Hf Hs) as Ha. rewrite HD in Ha.
      split_and!; [by eapply wf_step|by eapply waiting_fresh_step|by rewrite (step_timeout _ _ _ Hst)|].
      destruct l as [a|]; simpl; [by econstructor|]. by rewrite app_nil_r, Ha.
  - intros id. symmetry. apply abs_lookup.
  - assert (∀ i, abs_entry <$> ListWorkers i (reg s) ≡ₚ (map_to_list (abs_fleet (reg s))).*2) as Hl.
    { intros i. unfold abs_fleet. rewrite map_to_list_fmap, ListWorkers_perm, <- !list_fmap_compose. done. }
    intros i. split; [apply Hl|]. intros model. rewrite <- (Hl i). unfold HealthyWorkersForModel.
    match goal with |- ?x ≡ₚ ?y => cut (y = x); [by intros <-|] end. apply filter_fmap_iff. intros e. simpl.
    by rewrite Is_true_true, andb_true_iff, is_healthy_iff, serves_iff.
Qed.

(** A registration, its first READY, a drain request, and one for a worker nobody knows. *)
Definition demo_trace : list Action :=
  [a_register 0 demo_info (inl welcome);
   a_heartbeat 2 {| hb_WorkerId := "w1"; hb_State := READY |} (inl {| hb_Ok := true; Drain := false |});
   a_drain "w1" None; a_drain "w2" (Some "worker w2 not found")].

Definition demo_registry_timing : Timing := {| gap := 1; latency := 0; insert_delay := 0 |}.

Definition demo_drained : Sys :=
  advance (fst (RequestDrain "w1" (reg (demo_sys 1 2)))) 2 (demo_sys 1 2).

Lemma run_drain_label T s id err s' :
  snd (RequestDrain id (reg s)) = err → s' = advance (fst (RequestDrain id (reg s))) (clock s) s →
  lstep T s (Some (a_drain id err)) s'.
Proof. intros <- ->. by apply l_drain, surjective_pairing. Qed.

Lemma demo_registry_runs : registry_runs demo_registry_timing (init DefaultDeadTimeout 0) demo_trace demo_drained.
Proof.
  change demo_trace with ((((([] ++ option_list (@None Action)) ++ option_list (Some (a_register 0 demo_info (inl welcome)))) ++
    option_list (Some (a_heartbeat 2 {| hb_WorkerId := "w1"; hb_State := READY |} (inl {| hb_Ok := true; Drain := false |})))) ++
    option_list (Some (a_drain "w1" None))) ++ option_list (Some (a_drain "w2" (Some "worker w2 not found")))).
  eapply registry_goes_on; [eapply registry_goes_on; [eapply registry_goes_on; [eapply registry_goes_on;
    [eapply registry_goes_on; [constructor|]|]|]|]|].
  - by eapply (l_register_start _ _ 0 0 demo_info).
  - by eapply (l_register_finish _ _ 0 (demo_entry 0 STARTING 0)).
  - by apply (l_heartbeat _ _ 1 2 {| hb_WorkerId := "w1"; hb_State := READY |}).
  - by eapply (l_drain _ _ "w1").
  - eapply run_drain_label; vm_compute; reflexivity.
Qed.

Lemma registry_refines_fleet_witness :
  registry_runs demo_registry_timing (init DefaultDeadTimeout 0) demo_trace demo_drained ∧
  ∃ f, fleet_runs DefaultDeadTimeout ∅ demo_trace f ∧ (m_drain <$> f !! "w1") = Some true.
Proof.
  split; [exact demo_registry_runs|].
  destruct (registry_refines_fleet _ _ _ _ _ demo_registry_runs) as (f & Hf & Hg & _).
  exists f. split; [exact Hf|]. rewrite <- (Hg "w1"). vm_compute. reflexivity.
Defined.

(** ** The entries *)

(** In every reachable system every entry is well formed: it is stored under
    its own non-empty worker id, has an address, holds a load report of its own
    worker, is in one of the five states of the enum, carries a [MarkedDeadAt]
    stamp exactly when it is [DEAD], and has no time stamp in the future. *)
Theorem registry_entries_wellformed T timeout s id e :
  reachable T timeout s → workers (reg s) !! id = Some e →
  WorkerId (Info e) = id ∧ id ≠ "" ∧ Address (Info e) ≠ "" ∧ load_WorkerId (Load e) = id ∧
  recognized (State e) = true ∧ (is_Some (MarkedDeadAt e) ↔ State e = DEAD) ∧
  RegisteredAt e ≤ LastHeartbeat e ≤ clock s ∧
  (∀ d, MarkedDeadAt e = Some d → d ≤ clock s).
Proof.
  intros Hwf%reachable_wf He. destruct (wf_workers _ Hwf _ _ He) as [[] _]. repeat (split; [done|]). done.
Qed.

Lemma registry_entries_wellformed_witness :
  workers (reg (demo_sys 1 2)) !! "w1" = Some (demo_entry 0 READY 2) ∧
  recognized READY = true ∧ (is_Some (None : option Z) ↔ READY = DEAD).
Proof.
  split; [reflexivity|].
  destruct (registry_entries_wellformed {| gap := 1; latency := 0; insert_delay := 0 |}
    DefaultDeadTimeout (demo_sys 1 2) "w1" (demo_entry 0 READY 2)) as (_ & _ & _ & _ & H & H' & _);
    [by apply demo_reachable|reflexivity|].
  exact (conj H H').
Defined.

(** ** The life of a registration *)

Lemma lifecycle_draining a c :
  rtc lifecycle a c → a = DRAINING ∨ a = DEAD → c = DRAINING ∨ c = DEAD.
Proof.
  induction 1 as [|a b c Hab _ IH]; intros Ha; [done|]. apply IH.
  inversion Hab; subst; auto; destruct Ha; discriminate.
Qed.

Lemma lifecycle_dead a c : rtc lifecycle a c → a = DEAD → c = DEAD.
Proof.
  induction 1 as [|a b c Hab _ IH]; intros ->; [done|]. apply IH.
  by inversion Hab; subst.
Qed.

(** C25: Between any two looks at one registration (same deadline timer, so no
    [Register] in between), however the operations interleave, its state has
    moved along the lifecycle STARTING, READY/BUSY, DRAINING, DEAD only; a worker
    found [DRAINING] is then [DRAINING] or [DEAD]; a [DEAD] one stays [DEAD]; a
    drain request is never lost; and what the worker registered with is unchanged. *)
Theorem registration_history T timeout s s' id e e' :
  reachable T timeout s → rtc (step T) s s' →
  workers (reg s) !! id = Some e → workers (reg s') !! id = Some e' →
  deadlineTimer e' = deadlineTimer e →
  rtc lifecycle (State e) (State e') ∧
  (State e = DRAINING → State e' = DRAINING ∨ State e' = DEAD) ∧
  (State e = DEAD → State e' = DEAD) ∧
  (DrainRequested e = true → DrainRequested e' = true) ∧
  Info e' = Info e ∧ RegisteredAt e' = RegisteredAt e.
Proof.
  intros Hwf%reachable_wf Hrtc He He' Hd.
  destruct (registration_rtc _ _ _ _ _ _ Hwf Hrtc He He' Hd) as (Hl & Hi & Hr & Hdr).
  split_and!; auto; intros HS; rewrite HS in Hl.
  - eapply lifecycle_draining; eauto.
  - by eapply lifecycle_dead.
Qed.

Lemma registration_history_witness :
  DrainRequested (with_drain (demo_entry 0 READY 2)) = true ∧
  rtc lifecycle (State (demo_entry 0 READY 2)) (State (with_drain (demo_entry 0 READY 2))).
Proof.
  split; [reflexivity|].
  eapply (registration_history {| gap := 1; latency := 0; insert_delay := 0 |} DefaultDeadTimeout
    (demo_sys 1 2) (advance (fst (RequestDrain "w1" (reg (demo_sys 1 2)))) 2 (demo_sys 1 2)) "w1");
    [by apply demo_reachable| |reflexivity..].
  apply rtc_once. by apply (run_drain _ _ "w1").
Defined.

(** ** Heartbeat, branch by branch *)

(** A heartbeat from an unknown worker is refused with [NotFound] and one that
    reports a transition outside the lifecycle with [InvalidArgument], both
    leaving the registry untouched; any other is accepted, answers with the
    worker's drain flag, stores the reported state and the time, re-arms that
    worker's deadline timer for [deadTimeout] later and changes no other worker. *)
Theorem heartbeat_branches a b req r :
  let id := hb_WorkerId req in
  (workers r !! id = None →
    ∃ m, Heartbeat a b req r = (r, inr {| code := NotFound; msg := m |})) ∧
  (∀ e, workers r !! id = Some e → ¬ reports (State e) (hb_State req) →
    ∃ m, Heartbeat a b req r = (r, inr {| code := InvalidArgument; msg := m |})) ∧
  (∀ e, workers r !! id = Some e → reports (State e) (hb_State req) →
    own_timer (heap r) (deadlineTimer e) id →
    ∃ r', Heartbeat a b req r = (r', inl {| hb_Ok := true; Drain := DrainRequested e |}) ∧
      workers r' !! id = Some (with_heartbeat b (hb_State req) e) ∧
      (∀ id', id' ≠ id → workers r' !! id' = workers r !! id') ∧
      armed_at (heap r') (deadlineTimer e) (a + deadTimeout r)).
Proof.
  unfold Heartbeat. simpl. split_and!.
  - intros ->. eauto.
  - intros e -> Hn. destruct (validTransition _ _) eqn:Hv; [|eauto].
    by apply validTransition_iff in Hv.
  - intros e -> Hv%validTransition_iff Hown. rewrite Hv. eexists. split; [done|]. simpl. split_and!.
    + apply lookup_insert_eq.
    + intros id' Hne. by apply lookup_insert_ne.
    + by eapply armed_Reset.
Qed.

Lemma heartbeat_branches_witness :
  ∃ r', Heartbeat 3 4 {| hb_WorkerId := "w1"; hb_State := BUSY |} (reg (demo_sys 1 2)) =
    (r', inl {| hb_Ok := true; Drain := false |}) ∧
    workers r' !! "w1" = Some (with_heartbeat 4 BUSY (demo_entry 0 READY 2)).
Proof.
  destruct (heartbeat_branches 3 4 {| hb_WorkerId := "w1"; hb_State := BUSY |} (reg (demo_sys 1 2)))
    as (_ & _ & H).
  destruct (H (demo_entry 0 READY 2)) as (r' & H1 & H2 & _);
    [reflexivity|constructor|by eexists|].
  by exists r'.
Defined.

(** ** What the router and the admin API read *)

Section reads.
Context `{MapRange}.

(** In every reachable system the candidates for a model are exactly the READY
    or BUSY workers that list it, each of them once, whatever the order in which
    the map is visited; no STARTING, DRAINING or DEAD worker is ever a candidate. *)
Theorem healthy_workers_exact T timeout s i m :
  reachable T timeout s →
  NoDup ((λ e, WorkerId (Info e)) <$> HealthyWorkersForModel i m (reg s)) ∧
  ∀ e, e ∈ HealthyWorkersForModel i m (reg s) ↔
    workers (reg s) !! WorkerId (Info e) = Some e ∧ (State e = READY ∨ State e = BUSY) ∧
    m ∈ ModelsLoaded (Info e).
Proof.
  intros Hwf%reachable_wf.
  assert (∀ id e, workers (reg s) !! id = Some e → WorkerId (Info e) = id) as Hid.
  { intros id e He. by destruct (wf_workers _ Hwf _ _ He) as [[] _]. }
  split.
  - eapply sublist_NoDup; [by apply (NoDup_ListWorkers i)|apply fmap_sublist, sublist_filter].
  - intros e. rewrite elem_of_HealthyWorkersForModel. setoid_rewrite is_healthy_iff. split.
    + intros (id & He & ? & ?). by rewrite (Hid _ _ He).
    + intros (? & ? & ?). eauto.
Qed.

(** [ModelsServed] reports every served model once; when no worker lists a model
    twice, its totals are the number of workers that list the model and the
    number of candidates the router would get for it. *)
Theorem models_served_exact i j k r :
  (∀ id e, workers r !! id = Some e → NoDup (ModelsLoaded (Info e))) →
  NoDup (Model <$> ModelsServed i j r) ∧
  (∀ m, m ∈ Model <$> ModelsServed i j r ↔
     ∃ id e, workers r !! id = Some e ∧ m ∈ ModelsLoaded (Info e)) ∧
  ∀ ms, ms ∈ ModelsServed i j r →
    TotalWorkers ms =
      length (filter (λ e, serves (ModelsLoaded (Info e)) (Model ms)) (ListWorkers k r)) ∧
    HealthyWorkers ms = length (HealthyWorkersForModel k (Model ms) r).
Proof.
  intros Hnd. split; [apply NoDup_ModelsServed|].
  assert (∀ e, e ∈ ListWorkers k r → NoDup (ModelsLoaded (Info e))) as Hnd'.
  { intros e (id & He)%elem_of_ListWorkers. by eapply Hnd. }
  assert (∀ ms, ms ∈ ModelsServed i j r ↔
    ∃ c, tally_opt (tally (Model ms) (ListWorkers k r)) = Some c ∧
      TotalWorkers ms = fst c ∧ HealthyWorkers ms = snd c) as Hin.
  { intros ms. rewrite elem_of_ModelsServed.
    by rewrite (tally_perm _ _ _ (ListWorkers_perm k r)). }
  split.
  - intros m. rewrite list_elem_of_fmap. transitivity (fst (tally m (ListWorkers k r)) ≠ 0%nat).
    + unfold tally_opt in Hin. split.
      * intros (ms & -> & (c & Hc & _)%Hin). by case_decide.
      * intros H0. exists {| Model := m; TotalWorkers := fst (tally m (ListWorkers k r));
          HealthyWorkers := snd (tally m (ListWorkers k r)) |}. split; [done|].
        apply Hin. rewrite decide_False by done. eauto.
    + rewrite tally_served. setoid_rewrite elem_of_ListWorkers. split.
      * intros (e & (id & He) & Hm). eauto.
      * intros (id & e & He & Hm). eauto.
  - intros ms (c & Hc & -> & ->)%Hin. rewrite tally_nodup in Hc by done.
    unfold tally_opt in Hc. case_decide; simplify_eq. done.
Qed.

End reads.

Lemma healthy_workers_exact_witness :
  HealthyWorkersForModel 0 "llama3" (reg (demo_sys 1 2)) = [demo_entry 0 READY 2] ∧
  NoDup ((λ e, WorkerId (Info e)) <$> HealthyWorkersForModel 0 "llama3" (reg (demo_sys 1 2))).
Proof.
  split; [reflexivity|].
  apply (healthy_workers_exact {| gap := 1; latency := 0; insert_delay := 0 |} DefaultDeadTimeout).
  by apply demo_reachable.
Defined.

Lemma models_served_exact_witness :
  ModelsServed 0 1 (reg (demo_sys 1 2)) =
    [{| Model := "llama3"; TotalWorkers := 1; HealthyWorkers := 1 |}] ∧
  NoDup (Model <$> ModelsServed 0 1 (reg (demo_sys 1 2))).
Proof.
  split; [reflexivity|]. apply (models_served_exact 0 1 2). intros id e.
  simpl. rewrite lookup_singleton_Some. intros [_ <-]. simpl. by apply NoDup_singleton.
Defined.

(** A worker that lists one model twice. *)
Definition twice_info : WorkerInfo := {|
  WorkerId := "w1"; Address := "localhost:9001"; GpuType := ""; VramBytes := 0;
  ModelsLoaded := ["llama3"; "llama3"]; Backend := ""; Provider := ""; Hardware := "";
  CostPerHour := S754_zero false |}.

(** [ModelsServed] then counts that worker twice, while the router has one candidate. *)
Lemma models_served_counts_repetitions :
  let r := fst (Heartbeat 0 0 {| hb_WorkerId := "w1"; hb_State := READY |}
                  (fst (Register 0 0 twice_info (New DefaultDeadTimeout)))) in
  ModelsServed 0 1 r = [{| Model := "llama3"; TotalWorkers := 2; HealthyWorkers := 2 |}] ∧
  length (HealthyWorkersForModel 2 "llama3" r) = 1%nat.
Proof. by split; vm_compute. Qed.
