(* ===== verification/DeadDetection.v ===== *)
(** * Dead-worker detection

    Every worker that is not [DEAD] is watched: its timer is armed, or a callback
    that will find it overdue is pending.  The invariant holds in runs whose
    callbacks are not faster than the gap between [Heartbeat]'s two clock
    readings; [missed_detection] shows that a faster callback loses the worker. *)

From S2P Require Import Prelude GoFloat Proto GoTimer Registry.
Open Scope Z_scope.

(** Armed within [gap] of the instant the worker becomes overdue. *)
Definition watched (T : Timing) (r : Registry) (e : WorkerEntry) : Prop :=
  ∃ w, armed_at (heap r) (deadlineTimer e) w ∧
    LastHeartbeat e + deadTimeout r - gap T ≤ w ≤ LastHeartbeat e + deadTimeout r + gap T.

Definition overdue_callback (T : Timing) (r : Registry) (id : string) (e : WorkerEntry) : Prop :=
  ∃ cb, cb ∈ callbacks (heap r) ∧ cb_arg cb = id ∧
    LastHeartbeat e + deadTimeout r ≤ cb_at cb + latency T.

Definition covered (T : Timing) (r : Registry) (id : string) (e : WorkerEntry) : Prop :=
  watched T r e ∨ overdue_callback T r id e.

(** An entry whose [Register] call waits for the lock. *)
Definition covered_starting (T : Timing) (s : Sys) (e : WorkerEntry) : Prop :=
  (∃ w, armed_at (heap (reg s)) (deadlineTimer e) w ∧
    LastHeartbeat e + deadTimeout (reg s) ≤ w ≤ LastHeartbeat e + deadTimeout (reg s) + gap T) ∨
  LastHeartbeat e + deadTimeout (reg s) ≤ clock s.

Record detecting (T : Timing) (s : Sys) : Prop := {
  det_workers id e : workers (reg s) !! id = Some e → State e ≠ DEAD → covered T (reg s) id e;
  det_starting e : e ∈ starting s → covered_starting T s e;
}.

(** Nothing left for the runtime to do: no armed timer is due, no callback waits. *)
Definition quiescent (s : Sys) : Prop :=
  callbacks (heap (reg s)) = [] ∧
  ∀ i w, armed_at (heap (reg s)) i w → clock s < w.

(** The steps that happen without any message to the registry. *)
Inductive silent_step (T : Timing) (s : Sys) : Sys → Prop :=
  | silent_tick t :
      clock s ≤ t → silent_step T s (advance (reg s) t s)
  | silent_expire i h :
      expire i (clock s) (heap (reg s)) = Some h →
      silent_step T s (advance (set_heap h (reg s)) (clock s) s)
  | silent_mark_dead n cb h since now :
      take_callback n (heap (reg s)) = Some (cb, h) →
      cb_at cb + latency T ≤ since → clock s ≤ since ≤ now →
      silent_step T s (advance (markDead since now (cb_arg cb) (set_heap h (reg s))) now s).

Section detection.
Context (T : Timing).
Context (Hgap : gap T ≤ latency T).

(** What an in-place update must do to keep the other registrations covered. *)
Lemma detecting_update s r' t :
  wf s → detecting T s → clock s ≤ t → deadTimeout r' = deadTimeout (reg s) →
  (∀ id e', workers r' !! id = Some e' → State e' ≠ DEAD →
     covered T r' id e' ∨
     (∃ e, workers (reg s) !! id = Some e ∧ State e ≠ DEAD ∧
       deadlineTimer e' = deadlineTimer e ∧ LastHeartbeat e' = LastHeartbeat e ∧
       (covered T (reg s) id e → covered T r' id e))) →
  (∀ e, e ∈ starting s → ∀ w, armed_at (heap (reg s)) (deadlineTimer e) w →
     armed_at (heap r') (deadlineTimer e) w ∨ w ≤ t) →
  detecting T (advance r' t s).
Proof.
  intros Hwf [Hw Hs] Ht HD Hup Hst. split; simpl.
  - intros id e' He' Hnd. destruct (Hup _ _ He' Hnd) as [?|(e & He & Hnd' & Hd & Hl & Hc)]; [done|].
    specialize (Hc (Hw _ _ He Hnd')). unfold covered, watched, overdue_callback in *.
    by rewrite Hd, Hl.
  - intros e He. unfold covered_starting in *. simpl. rewrite HD.
    destruct (Hs e He) as [(w & Ha & Hb)|?]; [|right; lia].
    destruct (Hst e He w Ha) as [?|?]; [left; eauto|right; lia].
Qed.

Lemma covered_heap h r id e :
  (∀ w, armed_at (heap r) (deadlineTimer e) w → armed_at h (deadlineTimer e) w) →
  callbacks h = callbacks (heap r) →
  covered T r id e → covered T (set_heap h r) id e.
Proof.
  intros Ha Hc [(w & Hw & Hb)|(cb & Hcb & Hb)]; [left; exists w; auto|right].
  exists cb. simpl. by rewrite Hc.
Qed.

Lemma covered_workers m r id e : covered T r id e → covered T (set_workers m r) id e.
Proof. done. Qed.

Lemma timers_apart s id id' e e' :
  wf s → workers (reg s) !! id = Some e → workers (reg s) !! id' = Some e' → id ≠ id' →
  deadlineTimer e ≠ deadlineTimer e'.
Proof.
  intros Hwf He He' Hne Heq. destruct (wf_workers _ Hwf _ _ He) as [_ H1].
  destruct (wf_workers _ Hwf _ _ He') as [_ H2]. rewrite Heq in H1.
  by pose proof (own_timer_fun _ _ _ _ H1 H2).
Qed.

Lemma detecting_tick s t :
  wf s → detecting T s → clock s ≤ t → detecting T (advance (reg s) t s).
Proof.
  intros Hwf Hdet Ht. apply detecting_update; auto. intros id e He Hnd. right. exists e. auto.
Qed.

(** An update of the entries only, that keeps states, timers and heartbeats. *)
Lemma detecting_workers s m :
  wf s → detecting T s →
  (∀ id e', m !! id = Some e' → ∃ e, workers (reg s) !! id = Some e ∧ State e' = State e ∧
     deadlineTimer e' = deadlineTimer e ∧ LastHeartbeat e' = LastHeartbeat e) →
  detecting T (advance (set_workers m (reg s)) (clock s) s).
Proof.
  intros Hwf Hdet Hm. apply detecting_update; auto; [lia|].
  intros id e' (e & He & HS & Hd & Hl)%Hm Hnd. right. exists e.
  split_and!; auto; congruence.
Qed.

Lemma detecting_heartbeat a b req s r resp :
  wf s → detecting T s → clock s ≤ a ≤ b → b ≤ a + gap T →
  Heartbeat a b req (reg s) = (r, resp) → detecting T (advance r b s).
Proof.
  intros Hwf Hdet Ht Hg Hr. unfold Heartbeat in Hr. case_hyp Hr.
  2,3: apply detecting_tick; auto; lia.
  rename w into e0. apply detecting_update; auto; [lia| |].
  - intros id e' He' Hnd. simpl in He'. rewrite lookup_insert in He'.
    case_decide as Hid; simplify_eq; [left|right].
    + destruct (wf_workers _ Hwf _ _ Heqo) as [_ Hown]. left. exists (a + deadTimeout (reg s)).
      split; [by eapply armed_Reset|simpl; lia].
    + exists e'. split_and!; auto. intros Hc. apply covered_workers, covered_heap; [|done..].
      intros w. apply armed_on_ne. by eapply (timers_apart s).
  - intros e He w Ha. left. simpl. apply armed_on_ne; [|done]. by eapply (wf_apart _ Hwf).
Qed.

Lemma detecting_remove id e0 s :
  wf s → detecting T s → workers (reg s) !! id = Some e0 →
  detecting T (advance (remove_worker id e0 (reg s)) (clock s) s).
Proof.
  intros Hwf Hdet He0. apply detecting_update; auto; [lia| |].
  - intros id' e' He' Hnd. right. simpl in He'. apply lookup_delete_Some in He' as [Hne He'].
    exists e'. split_and!; auto. intros Hc. apply covered_workers, covered_heap; [|done..].
    intros w. apply armed_on_ne. by eapply (timers_apart s).
  - intros e He w Ha. left. simpl. apply armed_on_ne; [|done]. by eapply (wf_apart _ Hwf).
Qed.

Lemma armed_expire i now h h' j w :
  expire i now h = Some h' → armed_at h j w → armed_at h' j w ∨ i = j ∧ w ≤ now.
Proof.
  intros (w' & arg & Hi & Hle & ->)%expire_spec Ha. destruct (decide (i = j)) as [->|Hne].
  - right. split; [done|]. destruct Ha as (t & Ht & Hw). rewrite Hi in Ht. by simplify_eq/=.
  - left. by apply (armed_on_ne h (set_when None)).
Qed.

Lemma detecting_expire i h s :
  wf s → detecting T s → expire i (clock s) (heap (reg s)) = Some h →
  detecting T (advance (set_heap h (reg s)) (clock s) s).
Proof.
  intros Hwf Hdet Hr. apply detecting_update; auto; [lia| |].
  - intros id e He Hnd. simpl in He.
    destruct (det_workers _ _ Hdet _ _ He Hnd) as [(w & Ha & Hb)|(cb & Hcb & Hb)].
    + destruct (armed_expire _ _ _ _ _ _ Hr Ha) as [Ha'|[-> Hle]].
      * left. left. by exists w.
      * left. right. destruct (wf_workers _ Hwf _ _ He) as [_ Hown].
        apply expire_spec in Hr as (w' & arg & Hi & Hle' & ->).
        destruct Hown as (t & Ht & Harg). rewrite Hi in Ht. simplify_eq/=.
        eexists. split; [by left|]. simpl. split; [done|lia].
    + left. right. apply expire_spec in Hr as (w' & arg & Hi & Hle' & ->).
      exists cb. split; [by right|done].
  - intros e He w Ha. simpl. destruct (armed_expire _ _ _ _ _ _ Hr Ha) as [?|[_ ?]]; auto.
Qed.

Lemma detecting_mark_dead n cb h since now s :
  wf s → detecting T s → take_callback n (heap (reg s)) = Some (cb, h) →
  cb_at cb + latency T ≤ since → clock s ≤ since ≤ now →
  detecting T (advance (markDead since now (cb_arg cb) (set_heap h (reg s))) now s).
Proof.
  intros Hwf Hdet Hr Hlat Ht. apply take_callback_spec in Hr as (Hp & Htm & _).
  assert (∀ i w, armed_at (heap (reg s)) i w → armed_at h i w) as Harm
    by (unfold armed_at; by rewrite Htm).
  set (r' := markDead since now (cb_arg cb) (set_heap h (reg s))).
  assert (heap r' = h) as Hh by (unfold r', markDead; by repeat case_goal).
  assert (deadTimeout r' = deadTimeout (reg s)) as HD by (unfold r', markDead; by repeat case_goal).
  (* an entry that is not dead afterwards is unchanged, and not overdue if it is the callback's *)
  assert (∀ id e, workers r' !! id = Some e → State e ≠ DEAD →
    workers (reg s) !! id = Some e ∧
    (id = cb_arg cb → since < LastHeartbeat e + deadTimeout (reg s))) as Hun.
  { intros id e. unfold r', markDead. simpl.
    destruct (workers (reg s) !! cb_arg cb) as [e0|] eqn:He0; simpl;
      [|intros; split; [done|intros ->; congruence]].
    case_decide as HS; simpl; [intros; split; [done|]; intros ->; congruence|].
    destruct (Z.ltb_spec (since - LastHeartbeat e0) (deadTimeout (reg s))); simpl.
    - intros He Hnd. split; [done|]. intros ->. simplify_eq. lia.
    - rewrite lookup_insert. case_decide; [by intros [= <-]|]. intros; split; [done|intros ->; congruence]. }
  apply detecting_update; auto; [lia| |rewrite Hh; auto].
  intros id e He Hnd. destruct (Hun _ _ He Hnd) as [He0 Hlt]. left.
  unfold covered, watched, overdue_callback. rewrite Hh, HD.
  destruct (det_workers _ _ Hdet _ _ He0 Hnd) as [(w & Ha & Hb)|(cb' & Hcb & Harg & Hb)].
  { left. exists w. auto. }
  right. exists cb'. split_and!; auto.
  rewrite Hp in Hcb. apply elem_of_cons in Hcb as [->|?]; [|done].
  specialize (Hlt (eq_sym Harg)). lia.
Qed.

Lemma detecting_register_start now armed info s r e :
  wf s → detecting T s → clock s ≤ now ≤ armed → armed ≤ now + gap T →
  Register_start now armed info (reg s) = (r, inl e) →
  detecting T {| reg := r; clock := armed; starting := e :: starting s |}.
Proof.
  intros Hwf [Hw Hs] Ht Hg (_ & _ & Hwr & Hh & _ & Hl & HS & HD & _)%Register_start_spec.
  pose proof (armed_AfterFunc _ _ _ _ _ _ Hh) as Hnew.
  assert (∀ i w, armed_at (heap (reg s)) i w → armed_at (heap r) i w) as Hold
    by (intros; by eapply (armed_AfterFunc_old (heap (reg s))); [apply Hwf|..]).
  assert (callbacks (heap r) = callbacks (heap (reg s))) as Hcb by (by injection Hh as _ <-).
  split; simpl; unfold covered, watched, overdue_callback, covered_starting; simpl;
    rewrite ?HD, ?Hcb.
  - rewrite Hwr. intros id e' He' Hnd.
    destruct (Hw _ _ He' Hnd) as [(w & Ha & Hb)|?]; [left|by right]. exists w. auto.
  - intros e' [->|He']%elem_of_cons; [left; eexists; split; [done|lia]|].
    destruct (Hs _ He') as [(w & Ha & Hb)|?]; [left; exists w; auto|right; lia].
Qed.

Lemma detecting_register_finish n e s r resp :
  insert_delay T < deadTimeout (reg s) →
  wf s → detecting T s → starting s !! n = Some e →
  clock s ≤ LastHeartbeat e + insert_delay T → Register_finish e (reg s) = (r, resp) →
  detecting T {| reg := r; clock := clock s; starting := delete n (starting s) |}.
Proof.
  intros Hdelay Hwf [Hw Hs] Hn Ht [= <- <-]. pose proof (delete_Permutation _ _ _ Hn) as Hp.
  split; simpl.
  - intros id e'. rewrite lookup_insert. case_decide; [|intros; by apply covered_workers, Hw].
    subst. intros [= <-] _. left.
    destruct (Hs e) as [(w & Ha & Hb)|?]; [by eapply list_elem_of_lookup_2| |lia].
    exists w. simpl. split; [done|lia].
  - intros e' He'. unfold covered_starting. simpl. apply Hs. rewrite Hp. by right.
Qed.

Lemma detecting_step timeout s s' :
  insert_delay T < timeout → deadTimeout (reg s) = timeout →
  wf s → step T s s' → detecting T s → detecting T s'.
Proof.
  intros Hdelay <- Hwf Hstep Hdet. destruct Hstep as
    [t Ht|now armed info r e Ht Hg Hr|n e r resp Hn Ht Hr|a b req r resp Ht Hg Hr|req r resp Hr
    |report r resp Hr|id r err Hr|id r err Hr|i h Hr|n cb h since now Hr Hlat Ht].
  - by apply detecting_tick.
  - by eapply detecting_register_start.
  - by eapply detecting_register_finish.
  - by eapply detecting_heartbeat.
  - unfold Deregister in Hr. case_hyp Hr; [by apply detecting_remove|by apply detecting_tick].
  - unfold ReportLoad in Hr. case_hyp Hr; [|by apply detecting_tick]. apply detecting_workers; auto.
    intros id' e'. rewrite lookup_insert. case_decide; [|eauto 10]. subst. intros [= <-]. eauto.
  - unfold RequestDrain in Hr. case_hyp Hr; [|by apply detecting_tick].
    apply detecting_workers; auto.
    intros id' e'. rewrite lookup_insert. case_decide; [|eauto 10]. subst. intros [= <-]. eauto.
  - unfold Evict in Hr. case_hyp Hr; [by apply detecting_remove|by apply detecting_tick].
  - by eapply detecting_expire.
  - by eapply detecting_mark_dead.
Qed.

Lemma reachable_detecting timeout s :
  insert_delay T < timeout → reachable T timeout s → detecting T s.
Proof.
  intros Hdelay [t0 H].
  cut (wf s ∧ deadTimeout (reg s) = timeout ∧ detecting T s); [tauto|].
  eapply (invariant_rtc (step T) (λ s, wf s ∧ deadTimeout (reg s) = timeout ∧ detecting T s));
    [|exact H|].
  - intros s1 s2 Hs (Hwf & HD & Hdet). split_and!; [by eapply wf_step| |by eapply detecting_step].
    rewrite <- HD. by apply (step_timeout T).
  - split_and!; [apply wf_init|done|]. split; simpl; set_solver.
Qed.

End detection.

(** ** Properties *)

(** No false alarm: a step that turns a registration [DEAD] comes at least
    [deadTimeout] after that worker's last heartbeat (a heartbeat that overtakes
    the timer's callback is honoured), and leaves the heartbeat stamp alone. *)
Theorem dead_only_after_timeout T timeout s s' id e e' :
  reachable T timeout s → step T s s' →
  workers (reg s) !! id = Some e → workers (reg s') !! id = Some e' →
  deadlineTimer e' = deadlineTimer e → State e ≠ DEAD → State e' = DEAD →
  LastHeartbeat e' = LastHeartbeat e ∧ timeout ≤ clock s' - LastHeartbeat e.
Proof.
  intros Hr Hstep He He' Hd Hn HD. pose proof (reachable_timeout _ _ _ Hr) as Ht.
  destruct (ev_dead _ _ _ (step_evolves _ _ _ _ _ _ (reachable_wf _ _ _ Hr) Hstep He He' Hd) Hn HD)
    as [Hl Hc].
  rewrite (step_timeout _ _ _ Hstep), Ht in Hc. done.
Qed.

(** C13: No missed death: when callbacks are not faster than the gap between
    [Heartbeat]'s two clock readings and [Register] is not delayed by a whole
    timeout, then as soon as no timer is due and no callback is pending, every
    worker that is not [DEAD] has been heard from less than [deadTimeout] and the gap ago. *)
Theorem silent_workers_found_dead T timeout s id e :
  gap T ≤ latency T → insert_delay T < timeout →
  reachable T timeout s → quiescent s →
  workers (reg s) !! id = Some e → State e ≠ DEAD →
  clock s < LastHeartbeat e + timeout + gap T.
Proof.
  intros Hg Hi Hr [Hcb Hq] He Hn.
  pose proof (reachable_timeout _ _ _ Hr) as HD.
  destruct (det_workers _ _ (reachable_detecting T Hg _ _ Hi Hr) _ _ He Hn)
    as [(w & Ha & Hb)|(cb & Hin & _)].
  - specialize (Hq _ _ Ha). lia.
  - rewrite Hcb in Hin. set_solver.
Qed.

Lemma silent_step_step T s s' : silent_step T s s' → step T s s'.
Proof.
  destruct 1; [by constructor|by eapply step_expire|by eapply step_mark_dead].
Qed.

(** An overdue callback of a worker marks it [DEAD] when it runs late enough. *)
Lemma overdue_callback_kills T timeout s id e :
  deadTimeout (reg s) = timeout → workers (reg s) !! id = Some e → State e ≠ DEAD →
  overdue_callback T (reg s) id e →
  ∃ s', silent_step T s s' ∧
    ∃ d, workers (reg s') !! id = Some (with_dead d e).
Proof.
  intros HD He Hn (cb & [n Hcb]%list_elem_of_lookup & <- & Hlat).
  set (t := Z.max (clock s) (cb_at cb + latency T)).
  eexists. split.
  { apply (silent_mark_dead _ _ n cb {| timers := timers (heap (reg s));
      nextTimer := nextTimer (heap (reg s)); callbacks := delete n (callbacks (heap (reg s))) |} t t);
      [|lia|lia]. unfold take_callback. by rewrite Hcb. }
  exists t. simpl. unfold markDead. simpl. rewrite He, decide_False by done.
  destruct (Z.ltb_spec (t - LastHeartbeat e) (deadTimeout (reg s))); [lia|]. simpl.
  by rewrite lookup_insert_eq.
Qed.

(** The timer of a watched worker fires once the clock has passed it. *)
Lemma watched_expires T s id e :
  gap T ≤ latency T → own_timer (heap (reg s)) (deadlineTimer e) id → watched T (reg s) e →
  ∃ s1 s2, silent_step T s s1 ∧ silent_step T s1 s2 ∧
    workers (reg s2) = workers (reg s) ∧ deadTimeout (reg s2) = deadTimeout (reg s) ∧
    overdue_callback T (reg s2) id e.
Proof.
  intros Hg (tm & Htm & Harg) (w & (tm' & Htm' & Hw) & Hb). simplify_eq.
  set (t := Z.max (clock s) w).
  destruct tm as [w' arg]. simpl in *. subst w'.
  exists (advance (reg s) t s). eexists. split; [apply silent_tick; lia|]. split.
  - apply (silent_expire _ _ (deadlineTimer e)). simpl. unfold expire. rewrite Htm.
    destruct (Z.leb_spec w t); [done|lia].
  - simpl. split_and!; [done|done|]. eexists. split; [by left|]. simpl. split; [done|lia].
Qed.

(** A worker that falls silent is found dead without any further message: under
    the same assumptions, from any reachable system the clock, the timers and their
    callbacks alone can reach a system in which that worker is [DEAD]. *)
Theorem silent_worker_dies T timeout s id e :
  gap T ≤ latency T → insert_delay T < timeout →
  reachable T timeout s → workers (reg s) !! id = Some e → State e ≠ DEAD →
  ∃ s' e', rtc (silent_step T) s s' ∧ workers (reg s') !! id = Some e' ∧ State e' = DEAD ∧
    LastHeartbeat e' = LastHeartbeat e.
Proof.
  intros Hg Hi Hr He Hn.
  pose proof (reachable_timeout _ _ _ Hr) as HD. pose proof (reachable_wf _ _ _ Hr) as Hwf.
  destruct (det_workers _ _ (reachable_detecting T Hg _ _ Hi Hr) _ _ He Hn) as [Hw|Hcb].
  - destruct (wf_workers _ Hwf _ _ He) as [_ Hown].
    destruct (watched_expires T s id e Hg Hown Hw) as (s1 & s2 & H1 & H2 & Hws & HD2 & Hcb).
    rewrite <- Hws in He. rewrite <- HD2 in HD.
    destruct (overdue_callback_kills T timeout s2 id e) as (s' & H3 & d & Hd); [done..|].
    exists s', (with_dead d e). split; [|done]. by do 3 (eapply rtc_l; [eassumption|]).
  - destruct (overdue_callback_kills T timeout s id e) as (s' & H3 & d & Hd); [done..|].
    exists s', (with_dead d e). split; [by apply rtc_once|done].
Qed.

(** A callback faster than the gap: [Heartbeat] re-arms the timer at 1 and stamps the
    heartbeat at 2, the timer fires at 1 + timeout and its callback reads the clock at
    once, finds the worker not yet overdue and returns. *)
Definition missed_sys : Sys :=
  {| reg := {| workers := {["w1" := demo_entry 0 READY 2]}; deadTimeout := DefaultDeadTimeout;
               heap := {| timers := {[0%nat := {| t_when := None; t_arg := "w1" |}]};
                          nextTimer := 1; callbacks := [] |} |};
     clock := 1 + DefaultDeadTimeout; starting := [] |}.

Definition fast_callbacks : Timing := {| gap := 1; latency := 0; insert_delay := 0 |}.

Lemma missed_reachable : reachable fast_callbacks DefaultDeadTimeout missed_sys.
Proof.
  destruct (demo_reachable fast_callbacks 1 2) as [t0 H]; [done..|]. exists t0.
  eapply (transitivity (y := demo_sys 1 2)); [exact H|].
  eapply rtc_l; [by apply (step_tick _ _ (1 + DefaultDeadTimeout))|].
  eapply rtc_l; [by eapply (run_expire _ _ 0%nat)|].
  apply rtc_once.
  by eapply (run_mark_dead _ _ 0%nat _ _ (1 + DefaultDeadTimeout) (1 + DefaultDeadTimeout)).
Qed.

Lemma silent_stuck T s s' :
  callbacks (heap (reg s)) = [] → (∀ i w, ¬ armed_at (heap (reg s)) i w) →
  rtc (silent_step T) s s' → reg s' = reg s.
Proof.
  intros Hcb Harm Hrtc. induction Hrtc as [|s s1 s' Hs _ IH]; [done|].
  assert (reg s1 = reg s) as Heq.
  { destruct Hs as [|i h Hr|n cb h since now Hr]; [done| |].
    - apply expire_spec in Hr as (w & arg & Hi & _). exfalso. apply (Harm i w). by eexists.
    - unfold take_callback in Hr. by rewrite Hcb in Hr. }
  rewrite <- Heq. apply IH; by rewrite Heq.
Qed.

(** C35: The condition on callbacks is needed: when a callback may read the clock sooner
    after the expiry than [Heartbeat] takes between re-arming the timer and stamping
    the heartbeat, a reachable system has a READY worker that stays READY for ever
    without sending another heartbeat: no timer and no callback is left to notice. *)
Theorem missed_detection :
  reachable fast_callbacks DefaultDeadTimeout missed_sys ∧
  workers (reg missed_sys) !! "w1" = Some (demo_entry 0 READY 2) ∧
  ∀ s', rtc (silent_step fast_callbacks) missed_sys s' →
    workers (reg s') !! "w1" = Some (demo_entry 0 READY 2).
Proof.
  split; [apply missed_reachable|]. split; [done|]. intros s' Hs'.
  apply silent_stuck in Hs' as ->; [done..|].
  intros i w (t & Ht & Hw). simpl in Ht. apply lookup_singleton_Some in Ht as [_ <-]. done.
Qed.

(** *** Witnesses *)

(** The worker of the demonstration run, its timer expired and its callback run. *)
Definition dead_sys : Sys := {|
  reg := {| workers := {["w1" := with_dead (2 + DefaultDeadTimeout) (demo_entry 0 READY 2)]};
            deadTimeout := DefaultDeadTimeout;
            heap := {| timers := {[0%nat := {| t_when := None; t_arg := "w1" |}]};
                       nextTimer := 1; callbacks := [] |} |};
  clock := 2 + DefaultDeadTimeout; starting := [] |}.

Definition slow_callbacks : Timing := {| gap := 1; latency := 1; insert_delay := 0 |}.

(** The system just before the callback runs. *)
Definition dying_sys : Sys := {|
  reg := {| workers := {["w1" := demo_entry 0 READY 2]}; deadTimeout := DefaultDeadTimeout;
            heap := {| timers := {[0%nat := {| t_when := None; t_arg := "w1" |}]};
                       nextTimer := 1;
                       callbacks := [{| cb_arg := "w1"; cb_at := 1 + DefaultDeadTimeout |}] |} |};
  clock := 1 + DefaultDeadTimeout; starting := [] |}.

Lemma dying_reachable : reachable slow_callbacks DefaultDeadTimeout dying_sys.
Proof.
  destruct (demo_reachable slow_callbacks 1 2) as [t0 H]; [done..|]. exists t0.
  eapply (transitivity (y := demo_sys 1 2)); [exact H|].
  eapply rtc_l; [by apply (step_tick _ _ (1 + DefaultDeadTimeout))|].
  apply rtc_once. by eapply (run_expire _ _ 0%nat).
Qed.

Lemma dying_step : step slow_callbacks dying_sys dead_sys.
Proof.
  eapply (run_mark_dead _ _ 0%nat _ _ (2 + DefaultDeadTimeout) (2 + DefaultDeadTimeout));
    [reflexivity|vm_compute; done|vm_compute; done|reflexivity].
Qed.

Lemma dead_only_after_timeout_witness :
  DefaultDeadTimeout ≤ clock dead_sys - 2.
Proof.
  apply (dead_only_after_timeout slow_callbacks DefaultDeadTimeout dying_sys dead_sys "w1"
    (demo_entry 0 READY 2) (with_dead (2 + DefaultDeadTimeout) (demo_entry 0 READY 2)));
    [apply dying_reachable|apply dying_step|reflexivity..|done|reflexivity].
Defined.

Lemma silent_workers_found_dead_witness :
  quiescent (demo_sys 1 2) ∧ 2 < 2 + DefaultDeadTimeout + 1.
Proof.
  assert (quiescent (demo_sys 1 2)) as Hq.
  { split; [reflexivity|]. intros i w (t & Ht & Hw). simpl in *.
    apply lookup_singleton_Some in Ht as [_ <-]. by injection Hw as <-. }
  split; [exact Hq|].
  apply (silent_workers_found_dead slow_callbacks DefaultDeadTimeout (demo_sys 1 2) "w1"
    (demo_entry 0 READY 2)); [done|done| |exact Hq|reflexivity|done].
  by apply demo_reachable.
Defined.

Lemma silent_worker_dies_witness :
  ∃ s' e', rtc (silent_step slow_callbacks) (demo_sys 1 2) s' ∧
    workers (reg s') !! "w1" = Some e' ∧ State e' = DEAD.
Proof.
  destruct (silent_worker_dies slow_callbacks DefaultDeadTimeout (demo_sys 1 2) "w1"
    (demo_entry 0 READY 2)) as (s' & e' & H & H1 & H2 & _);
    [done|done|by apply demo_reachable|reflexivity|done|].
  by exists s', e'.
Defined.
