(* ===== verification/GoHttp.v ===== *)
(** * HTTP requests and responses

    What the handlers use of net/http: a request's method, path, headers and
    body; a response writer that commits its status on the first write.  Header
    names are canonical and carry one value.  A status is a final one: net/http answers
    1xx on its own.  [WriteHeader] is its effect for the codes net/http accepts; a handler
    that passes a code on which it did not choose itself asks [header_panics] first. *)

From S2P Require Import Prelude.
Open Scope Z_scope.

Definition StatusOK : Z := 200.
Definition StatusNoContent : Z := 204.
Definition StatusBadRequest : Z := 400.
Definition StatusUnauthorized : Z := 401.
Definition StatusNotFound : Z := 404.
Definition StatusMethodNotAllowed : Z := 405.
Definition StatusTooManyRequests : Z := 429.
Definition StatusBadGateway : Z := 502.
Definition StatusServiceUnavailable : Z := 503.
Definition StatusGatewayTimeout : Z := 504.

Abbreviation Header := (gmap string string).

(** [h.Get(k)]: the empty string when the header is absent. *)
Definition Get (h : Header) (k : string) : string := default "" (h !! k).

(** [io.ReadAll(r.Body)] fails on a [None] body. *)
Record Request := {
  Method : string;
  Path : string;
  ReqHeader : Header;
  ReqBody : option string;
}.

(** [Written] is the committed status, [None] before the first write. *)
Record Writer := {
  Written : option Z;
  RespHeader : Header;
  RespBody : string;
}.

Definition newWriter : Writer := {| Written := None; RespHeader := ∅; RespBody := "" |}.

(** Headers set after the status is committed are not sent. *)
Definition SetHeader (k v : string) (w : Writer) : Writer :=
  match Written w with
  | Some _ => w
  | None => {| Written := None; RespHeader := <[k := v]> (RespHeader w); RespBody := RespBody w |}
  end.

(** Only the first [WriteHeader] counts. *)
Definition WriteHeader (code : Z) (w : Writer) : Writer :=
  {| Written := Some (default code (Written w)); RespHeader := RespHeader w; RespBody := RespBody w |}.

(** [checkWriteHeaderCode]: the first [WriteHeader] panics on a code that does not have three
    digits; the client that read the code off an answer accepts any three characters that
    spell a number, [000] to [099] among them. *)
Definition valid_code (code : Z) : bool := (100 <=? code) && (code <=? 999).

Definition header_panics (code : Z) (w : Writer) : bool :=
  match Written w with None => negb (valid_code code) | Some _ => false end.

(** A write before [WriteHeader] commits 200. *)
Definition Write (b : string) (w : Writer) : Writer :=
  {| Written := Some (default StatusOK (Written w)); RespHeader := RespHeader w;
     RespBody := RespBody w +:+ b |}.

Definition newline : string := String (Ascii.ascii_of_nat 10) "".

(** [http.Error(w, msg, code)]. *)
Definition Error (msg : string) (code : Z) (w : Writer) : Writer :=
  Write (msg +:+ newline)
    (WriteHeader code
      (SetHeader "X-Content-Type-Options" "nosniff"
        (SetHeader "Content-Type" "text/plain; charset=utf-8" w))).

Lemma Error_status msg code w : Written w = None → Written (Error msg code w) = Some code.
Proof. intros H. unfold Error, SetHeader. rewrite H. done. Qed.

Lemma SetHeader_written k v w : Written (SetHeader k v w) = Written w.
Proof. unfold SetHeader. by destruct (Written w) eqn:E. Qed.

#[export] Hint Rewrite SetHeader_written : fleet.

Lemma header_panics_valid code w : valid_code code = true → header_panics code w = false.
Proof. unfold header_panics. intros ->. by destruct (Written w). Qed.

Lemma SetHeader_body k v w : RespBody (SetHeader k v w) = RespBody w.
Proof. unfold SetHeader. by destruct (Written w). Qed.

Lemma SetHeader_get k v k' w : Written w = None →
  Get (RespHeader (SetHeader k v w)) k' = if decide (k = k') then v else Get (RespHeader w) k'.
Proof. intros Hw. unfold SetHeader. rewrite Hw. unfold Get. simpl. rewrite lookup_insert. by case_decide. Qed.
