(* ===== verification/GoStrings.v ===== *)
(** * Strings

    What the program uses of the strings and strconv packages, for separators of
    one byte: [Join], [Split], [SplitN] with a limit of two, [TrimPrefix],
    [FormatInt] and [Atoi]; and time.Duration's [String]. *)

From S2P Require Import Prelude.
From Stdlib Require Export Ascii.
Open Scope Z_scope.

Fixpoint Join (elems : list string) (sep : ascii) : string :=
  match elems with
  | [] => ""
  | [s] => s
  | s :: elems' => s +:+ String sep (Join elems' sep)
  end.

(** [Split "" sep] is one empty string. *)
Fixpoint Split (s : string) (sep : ascii) : list string :=
  match s with
  | EmptyString => [""]
  | String c s' =>
    if decide (c = sep) then "" :: Split s' sep
    else match Split s' sep with
    | [] => [String c ""]
    | w :: ws => String c w :: ws
    end
  end.

(** [SplitN(s, sep, 2)]: the text around the first separator, [None] when there is
    none and the result would be the one string [s]. *)
Fixpoint Cut (s : string) (sep : ascii) : option (string * string) :=
  match s with
  | EmptyString => None
  | String c s' =>
    if decide (c = sep) then Some ("", s')
    else (λ '(a, b), (String c a, b)) <$> Cut s' sep
  end.

(** The rest of [s] after [prefix], [None] when [s] does not begin with it. *)
Fixpoint TrimPrefix (s prefix : string) {struct prefix} : option string :=
  match prefix, s with
  | EmptyString, _ => Some s
  | String p prefix', String c s' => if decide (p = c) then TrimPrefix s' prefix' else None
  | String _ _, EmptyString => None
  end.

Definition FormatInt (z : Z) : string := pretty z.

Definition digit (c : ascii) : option Z :=
  let n := Z.of_nat (nat_of_ascii c) in
  if (48 <=? n) && (n <=? 57) then Some (n - 48) else None.

Fixpoint digits (s : string) (acc : Z) : option Z :=
  match s with
  | EmptyString => Some acc
  | String c s' => match digit c with Some d => digits s' (10 * acc + d) | None => None end
  end.

Definition is_digits (s : string) : option Z :=
  match s with EmptyString => None | _ => digits s 0 end.

(** The value [Atoi] returns next to its error: 0 for malformed text, the nearest
    integer for a number out of range. *)
Definition Atoi (s : string) : Z :=
  let clamp z := Z.max (- 2 ^ 63) (Z.min (2 ^ 63 - 1) z) in
  match s with
  | String c s' =>
    if decide (c = "+"%char) then default 0 (clamp <$> is_digits s')
    else if decide (c = "-"%char) then default 0 (clamp ∘ Z.opp <$> is_digits s')
    else default 0 (clamp <$> is_digits s)
  | EmptyString => 0
  end.

(** ** Lemmas *)

(** The separator does not occur. *)
Fixpoint avoids (sep : ascii) (s : string) : Prop :=
  match s with
  | EmptyString => True
  | String c s' => c ≠ sep ∧ avoids sep s'
  end.

#[export] Instance avoids_dec sep s : Decision (avoids sep s).
Proof. induction s; simpl; apply _. Defined.

Lemma Split_avoids sep s : avoids sep s → Split s sep = [s].
Proof.
  induction s as [|c s IH]; simpl; [done|]. intros [Hc Hs].
  rewrite decide_False by done. by rewrite IH.
Qed.

Lemma Split_app sep s t : avoids sep s → Split (s +:+ String sep t) sep = s :: Split t sep.
Proof.
  induction s as [|c s IH]; simpl; [by rewrite decide_True|].
  intros [Hc Hs]. rewrite decide_False by done. by rewrite IH.
Qed.

Lemma Split_Join sep l : l ≠ [] → Forall (avoids sep) l → Split (Join l sep) sep = l.
Proof.
  intros Hl Hall. induction Hall as [|s l Hs Hall IH]; [done|].
  destruct l as [|t l]; [by apply Split_avoids|].
  simpl Join. rewrite Split_app by done. f_equal. by apply IH.
Qed.

Lemma Cut_app sep s t : avoids sep s → Cut (s +:+ String sep t) sep = Some (s, t).
Proof.
  induction s as [|c s IH]; simpl; [by rewrite decide_True|].
  intros [Hc Hs]. rewrite decide_False by done. by rewrite IH.
Qed.

Lemma Cut_avoids sep s : avoids sep s → Cut s sep = None.
Proof.
  induction s as [|c s IH]; simpl; [done|]. intros [Hc Hs].
  rewrite decide_False by done. by rewrite IH.
Qed.

Lemma TrimPrefix_app p s : TrimPrefix (p +:+ s) p = Some s.
Proof. induction p as [|c p IH]; [done|]. simpl. by rewrite decide_True. Qed.

Lemma TrimPrefix_Some s p t : TrimPrefix s p = Some t ↔ s = p +:+ t.
Proof.
  split; [|intros ->; apply TrimPrefix_app]. revert s.
  induction p as [|c p IH]; intros s; simpl; [by intros [= ->]|]. destruct s as [|d s]; [done|].
  case_decide; [|done]. intros ->%IH. by subst.
Qed.

Lemma String_app_nil_r s : s +:+ "" = s.
Proof. induction s as [|c s IH]; [done|]. change (String c (s +:+ "") = String c s). by rewrite IH. Qed.

Lemma String_app_assoc s t u : (s +:+ t) +:+ u = s +:+ (t +:+ u).
Proof.
  induction s as [|c s IH]; [done|].
  change (String c ((s +:+ t) +:+ u) = String c (s +:+ (t +:+ u))). by rewrite IH.
Qed.

Lemma String_length_app s t : String.length (s +:+ t) = (String.length s + String.length t)%nat.
Proof. induction s as [|c s IH]; simpl; [done|]. by rewrite IH. Qed.

(** ** Numbers are read back *)

Lemma digit_pretty d : (d < 10)%N → digit (pretty_N_char d) = Some (Z.of_N d).
Proof.
  intros Hd. assert (d ∈ [0; 1; 2; 3; 4; 5; 6; 7; 8; 9]%N) as Hin by (rewrite !elem_of_cons, elem_of_nil; lia).
  rewrite !elem_of_cons, elem_of_nil in Hin.
  repeat (destruct Hin as [->|Hin]; [done|]). done.
Qed.

Lemma digits_pretty_go n s : digits (pretty_N_go n s) 0 = digits s (Z.of_N n).
Proof.
  revert s. induction (N.lt_wf_0 n) as [n _ IH]; intros s.
  assert (n = 0 ∨ 0 < n)%N as [->|Hn] by lia; [by rewrite pretty_N_go_0|].
  rewrite pretty_N_go_step by done. rewrite IH by (apply N.div_lt; lia).
  cbn [digits]. rewrite digit_pretty by (by apply N.mod_lt).
  f_equal. pose proof (N.div_mod n 10 ltac:(done)). lia.
Qed.

Lemma pretty_N_go_cons n c s : ∃ c' s', pretty_N_go n (String c s) = String c' s'.
Proof.
  revert c s. induction (N.lt_wf_0 n) as [n _ IH]; intros c s.
  assert (n = 0 ∨ 0 < n)%N as [->|Hn] by lia; [by eexists _, _|].
  rewrite pretty_N_go_step by done. apply IH. by apply N.div_lt.
Qed.

Lemma is_digits_FormatInt z : 0 ≤ z → is_digits (FormatInt z) = Some z.
Proof.
  intros Hz. unfold FormatInt. destruct z as [|p|p]; [done| |lia].
  change (pretty (Z.pos p)) with (pretty_N_go (Npos p) "").
  pose proof (digits_pretty_go (Npos p) "") as Hd. simpl in Hd.
  destruct (pretty_N_go (Npos p) "") as [|c s] eqn:E; [|done].
  rewrite pretty_N_go_step in E by done.
  destruct (pretty_N_go_cons (N.pos p `div` 10) (pretty_N_char (N.pos p `mod` 10)) "") as (c & s & E').
  by rewrite E' in E.
Qed.

Lemma Atoi_FormatInt z : 0 ≤ z < 2 ^ 63 → Atoi (FormatInt z) = z.
Proof.
  intros Hz. pose proof (is_digits_FormatInt z ltac:(lia)) as Hd.
  destruct (FormatInt z) as [|c s] eqn:E; [done|]. unfold Atoi.
  assert (c ≠ "+"%char ∧ c ≠ "-"%char) as [? ?] by (split; intros ->; done).
  rewrite !decide_False, Hd by done. simpl. lia.
Qed.

Lemma avoids_app sep s t : avoids sep (s +:+ t) ↔ avoids sep s ∧ avoids sep t.
Proof. induction s as [|c s IH]; simpl; [tauto|]. rewrite IH. tauto. Qed.

(** A number's text holds digits only. *)
Lemma FormatInt_avoids sep z : 0 ≤ z → digit sep = None → avoids sep (FormatInt z).
Proof.
  intros Hz Hsep. pose proof (is_digits_FormatInt z Hz) as Hd. unfold is_digits in Hd.
  destruct (FormatInt z) as [|c s]; [done|]. revert Hd. generalize (String c s) as t. generalize 0 as acc.
  intros acc t. revert acc. induction t as [|d t IH]; intros acc; [done|]. simpl.
  destruct (digit d) eqn:E; [|done]. intros H. split; [intros ->; congruence|by eapply IH].
Qed.

(** ** time.Duration's [String]

    [fmtFrac]: the decimals of [v / 10 ^ prec] without trailing zeros, before the text [acc],
    and the integer part. *)
Fixpoint fmtFrac (prec : nat) (v : Z) (printing : bool) (acc : string) : string * Z :=
  match prec with
  | O => (if printing then "." +:+ acc else acc, v)
  | S prec' =>
    let printing' := printing || negb (v mod 10 =? 0) in
    fmtFrac prec' (v / 10) printing' (if printing' then FormatInt (v mod 10) +:+ acc else acc)
  end.

(** A unit's text, behind [prec] decimals. *)
Definition in_unit (prec : nat) (u : Z) (unit_ : string) : string :=
  let '(frac, n) := fmtFrac prec u false "" in FormatInt n +:+ frac +:+ unit_.

(** The micro sign in UTF-8. *)
Definition micro : string := String (ascii_of_nat 194) (String (ascii_of_nat 181) "").

Definition Duration_String (d : Z) : string :=
  let u := Z.abs d in
  let text :=
    if u =? 0 then "0s"
    else if u <? 1000 then in_unit 0 u "ns"
    else if u <? 1000000 then in_unit 3 u (micro +:+ "s")
    else if u <? 1000000000 then in_unit 6 u "ms"
    else
      let '(frac, secs) := fmtFrac 9 u false "" in
      let seconds := FormatInt (secs mod 60) +:+ frac +:+ "s" in
      let mins := secs / 60 in
      if 0 <? mins then
        let minutes := FormatInt (mins mod 60) +:+ "m" +:+ seconds in
        let hours := mins / 60 in
        if 0 <? hours then FormatInt hours +:+ "h" +:+ minutes else minutes
      else seconds in
  if d <? 0 then "-" +:+ text else text.

Example Duration_String_examples :
  Duration_String <$> [0; 1; 1100; 2200000; 3300000000; 245000000000; 18367001000000; - 1500000000; - 2 ^ 63] =
  ["0s"; "1ns"; "1.1" +:+ micro +:+ "s"; "2.2ms"; "3.3s"; "4m5s"; "5h6m7.001s"; "-1.5s";
   "-2562047h47m16.854775808s"].
Proof. vm_compute. reflexivity. Qed.
