(* ===== verification/GoJson.v ===== *)
(** * JSON text

    The texts encoding/json reads and writes: a value as the tokens of its text, the
    scanner with its nesting limit, and the printer.  What is printed is read back, and the
    scanner's fuel is always enough.  White space between tokens is all that is lost. *)

From S2P Require Import Prelude GoStrings.
From Stdlib Require Import Ascii.
Open Scope Z_scope.
#[local] Set Warnings "-register-all".

(** ** Values *)

Definition dquote : ascii := "034".
Definition backslash : ascii := "\".

(** One character of a string's text: a byte, a one-letter escape, or four hexadecimal
    digits behind a u. *)
Inductive item :=
  | Byte (c : ascii)
  | Esc (e : ascii)
  | Uni (h1 h2 h3 h4 : ascii).

(** Sign, integer digits, fraction, and exponent with its letter and sign. *)
Record number := {
  n_neg : bool;
  n_int : string;
  n_frac : option string;
  n_exp : option (ascii * string * string);
}.

Inductive json :=
  | JNull
  | JBool (b : bool)
  | JNum (n : number)
  | JStr (l : list item)
  | JArr (l : list json)
  | JObj (l : list (list item * json)).

(** Induction with the hypothesis for every element and member. *)
Section json_nested_ind.
Context (P : json → Prop).
Hypothesis Hnull : P JNull.
Hypothesis Hbool : ∀ b, P (JBool b).
Hypothesis Hnum : ∀ n, P (JNum n).
Hypothesis Hstr : ∀ l, P (JStr l).
Hypothesis Harr : ∀ l, Forall P l → P (JArr l).
Hypothesis Hobj : ∀ l, Forall (λ m, P m.2) l → P (JObj l).

Fixpoint json_nested_ind (v : json) : P v :=
  match v with
  | JNull => Hnull
  | JBool b => Hbool b
  | JNum n => Hnum n
  | JStr l => Hstr l
  | JArr l => Harr l ((fix all (l : list json) : Forall P l :=
      match l with
      | [] => @Forall_nil_2 _ P
      | w :: l' => @Forall_cons_2 _ P w l' (json_nested_ind w) (all l')
      end) l)
  | JObj l => Hobj l ((fix all (l : list (list item * json)) : Forall (λ m, P m.2) l :=
      match l with
      | [] => @Forall_nil_2 _ (λ m, P m.2)
      | m :: l' => @Forall_cons_2 _ (λ m, P m.2) m l' (json_nested_ind m.2) (all l')
      end) l)
  end.

End json_nested_ind.

(** ** Character classes *)

Definition code (c : ascii) : Z := Z.of_N (N_of_ascii c).

Definition is_space (c : ascii) : bool :=
  (code c =? 32) || (code c =? 9) || (code c =? 13) || (code c =? 10).

Definition is_digit (c : ascii) : bool := (48 <=? code c) && (code c <=? 57).

Definition is_hex (c : ascii) : bool :=
  is_digit c || ((97 <=? code c) && (code c <=? 102)) || ((65 <=? code c) && (code c <=? 70)).

(** The letters of one-letter escapes. *)
Definition is_escape (c : ascii) : bool :=
  bool_decide (c ∈ ["b"; "f"; "n"; "r"; "t"; "\"; "/"; dquote]%char).

Definition is_plain (c : ascii) : bool :=
  (32 <=? code c) && bool_decide (c ≠ dquote) && bool_decide (c ≠ backslash).

(** ** The scanner *)

Fixpoint skip_space (s : string) : string :=
  match s with
  | String c s' => if is_space c then skip_space s' else s
  | EmptyString => s
  end.

(** The text behind the character [c]; behind [c] and the white space before it. *)
Definition chomp (c : ascii) (s : string) : option string :=
  match s with
  | String c' s' => if decide (c' = c) then Some s' else None
  | EmptyString => None
  end.

Definition expect (c : ascii) (s : string) : option string := chomp c (skip_space s).

(** The text of a string behind its opening quote, up to its closing quote. *)
Fixpoint scan_string (s : string) : option (list item * string) :=
  match s with
  | String c s1 =>
    if decide (c = dquote) then Some ([], s1)
    else if decide (c = backslash) then
      match s1 with
      | String e s2 =>
        if is_escape e then '(l, rest) ← scan_string s2; Some (Esc e :: l, rest)
        else if decide (e = "u"%char) then
          match s2 with
          | String h1 (String h2 (String h3 (String h4 s3))) =>
            if is_hex h1 && is_hex h2 && is_hex h3 && is_hex h4
            then '(l, rest) ← scan_string s3; Some (Uni h1 h2 h3 h4 :: l, rest)
            else None
          | _ => None
          end
        else None
      | EmptyString => None
      end
    else if is_plain c then '(l, rest) ← scan_string s1; Some (Byte c :: l, rest)
    else None
  | EmptyString => None
  end.

Fixpoint scan_digits (s : string) : string * string :=
  match s with
  | String c s' =>
    if is_digit c then let '(d, rest) := scan_digits s' in (String c d, rest) else ("", s)
  | EmptyString => ("", s)
  end.

(** At least one digit. *)
Definition scan_digits1 (s : string) : option (string * string) :=
  let '(d, rest) := scan_digits s in if decide (d = "") then None else Some (d, rest).

(** An integer part: a zero, or digits that do not start with zero. *)
Definition scan_int (s : string) : option (string * string) :=
  match chomp "0" s with
  | Some s' => Some ("0", s')
  | None => scan_digits1 s
  end.

Definition scan_frac (s : string) : option (option string * string) :=
  match chomp "." s with
  | Some s' => '(d, rest) ← scan_digits1 s'; Some (Some d, rest)
  | None => Some (None, s)
  end.

Definition scan_sign (s : string) : string * string :=
  match chomp "+" s, chomp "-" s with
  | Some s', _ => ("+", s')
  | _, Some s' => ("-", s')
  | _, _ => ("", s)
  end.

Definition scan_exp (s : string) : option (option (ascii * string * string) * string) :=
  match s with
  | String c s' =>
    if decide (c = "e"%char ∨ c = "E"%char) then
      let '(sign, s1) := scan_sign s' in
      '(d, rest) ← scan_digits1 s1; Some (Some (c, sign, d), rest)
    else Some (None, s)
  | EmptyString => Some (None, s)
  end.

Definition scan_number (s : string) : option (number * string) :=
  let '(neg, s0) := match chomp "-" s with Some s' => (true, s') | None => (false, s) end in
  '(i, s1) ← scan_int s0;
  '(f, s2) ← scan_frac s1;
  '(e, s3) ← scan_exp s2;
  Some ({| n_neg := neg; n_int := i; n_frac := f; n_exp := e |}, s3).

(** A literal. *)
Fixpoint scan_word (w s : string) : option string :=
  match w, s with
  | EmptyString, _ => Some s
  | String a w', String c s' => if decide (a = c) then scan_word w' s' else None
  | _, _ => None
  end.

Definition max_depth : Z := 10000.

(** [value n depth s] reads one value at the start of [s], inside [depth] containers.  [n]
    is fuel. *)
Fixpoint value (n : nat) (depth : Z) (s : string) : option (json * string) :=
  match n with
  | O => None
  | S n' =>
    match skip_space s with
    | EmptyString => None
    | String c s1 =>
      if decide (c = dquote) then '(l, rest) ← scan_string s1; Some (JStr l, rest)
      else if decide (c = "{"%char) then
        if max_depth <=? depth then None
        else match expect "}" s1 with
        | Some rest => Some (JObj [], rest)
        | None => '(l, rest) ← members n' (depth + 1) s1; Some (JObj l, rest)
        end
      else if decide (c = "["%char) then
        if max_depth <=? depth then None
        else match expect "]" s1 with
        | Some rest => Some (JArr [], rest)
        | None => '(l, rest) ← elements n' (depth + 1) s1; Some (JArr l, rest)
        end
      else if decide (c = "t"%char) then rest ← scan_word "rue" s1; Some (JBool true, rest)
      else if decide (c = "f"%char) then rest ← scan_word "alse" s1; Some (JBool false, rest)
      else if decide (c = "n"%char) then rest ← scan_word "ull" s1; Some (JNull, rest)
      else '(x, rest) ← scan_number (String c s1); Some (JNum x, rest)
    end
  end
with elements (n : nat) (depth : Z) (s : string) : option (list json * string) :=
  match n with
  | O => None
  | S n' =>
    '(v, s1) ← value n' depth s;
    match expect "," s1 with
    | Some s2 => '(l, rest) ← elements n' depth s2; Some (v :: l, rest)
    | None => rest ← expect "]" s1; Some ([v], rest)
    end
  end
with members (n : nat) (depth : Z) (s : string) : option (list (list item * json) * string) :=
  match n with
  | O => None
  | S n' =>
    s1 ← expect dquote s;
    '(k, s2) ← scan_string s1;
    s3 ← expect ":" s2;
    '(v, s4) ← value n' depth s3;
    match expect "," s4 with
    | Some s5 => '(l, rest) ← members n' depth s5; Some ((k, v) :: l, rest)
    | None => rest ← expect "}" s4; Some ([(k, v)], rest)
    end
  end.

(** More fuel than any text of this length can use. *)
Definition fuel (s : string) : nat := 2 * String.length s + 2.

(** A whole text. *)
Definition parse (s : string) : option json :=
  '(v, rest) ← value (fuel s) 0 s;
  if decide (skip_space rest = "") then Some v else None.

(** ** The printer: the text of a value followed by [k] *)

Definition print_item (x : item) (k : string) : string :=
  match x with
  | Byte c => String c k
  | Esc e => String backslash (String e k)
  | Uni h1 h2 h3 h4 => String backslash (String "u" (String h1 (String h2 (String h3 (String h4 k)))))
  end.

Definition print_string (l : list item) (k : string) : string :=
  String dquote (foldr print_item (String dquote k) l).

Definition print_number (n : number) (k : string) : string :=
  let k1 := match n_exp n with Some (e, sign, d) => String e (sign +:+ d +:+ k) | None => k end in
  let k2 := match n_frac n with Some d => String "." (d +:+ k1) | None => k1 end in
  let k3 := n_int n +:+ k2 in
  if n_neg n then String "-" k3 else k3.

(** Elements separated by commas. *)
Definition print_list {A} (p : A → string → string) : list A → string → string :=
  fix go (l : list A) (k : string) : string :=
  match l with
  | [] => k
  | [x] => p x k
  | x :: l' => p x (String "," (go l' k))
  end.

Fixpoint print (v : json) (k : string) : string :=
  match v with
  | JNull => "null" +:+ k
  | JBool true => "true" +:+ k
  | JBool false => "false" +:+ k
  | JNum n => print_number n k
  | JStr l => print_string l k
  | JArr l => String "[" (print_list print l (String "]" k))
  | JObj l => String "{" (print_list (λ m k, print_string m.1 (String ":" (print m.2 k))) l (String "}" k))
  end.

(** ** Texts that are printed are read back *)

(** Tokens as the scanner produces them. *)
Definition wf_item (x : item) : bool :=
  match x with
  | Byte c => is_plain c
  | Esc e => is_escape e
  | Uni h1 h2 h3 h4 => is_hex h1 && is_hex h2 && is_hex h3 && is_hex h4
  end.

Definition wf_string (l : list item) : Prop := Forall (λ x, wf_item x = true) l.

Fixpoint digits_only (s : string) : bool :=
  match s with String c s' => is_digit c && digits_only s' | EmptyString => true end.

Definition wf_digits (s : string) : bool := digits_only s && bool_decide (s ≠ "").

Definition wf_int (s : string) : bool :=
  match chomp "0" s with
  | Some s' => bool_decide (s' = "")
  | None => wf_digits s
  end.

Definition wf_number (n : number) : bool :=
  wf_int (n_int n) &&
  match n_frac n with Some d => wf_digits d | None => true end &&
  match n_exp n with
  | Some (e, sign, d) =>
    bool_decide (e = "e"%char ∨ e = "E"%char) && bool_decide (sign ∈ [""; "+"; "-"]) && wf_digits d
  | None => true
  end.

(** Well-formed values, nested at most to the limit inside [depth] containers. *)
Inductive wf_json : Z → json → Prop :=
  | wf_null depth : wf_json depth JNull
  | wf_bool depth b : wf_json depth (JBool b)
  | wf_num depth n : wf_number n = true → wf_json depth (JNum n)
  | wf_str depth l : wf_string l → wf_json depth (JStr l)
  | wf_arr depth l : depth < max_depth → Forall (wf_json (depth + 1)) l → wf_json depth (JArr l)
  | wf_obj depth l :
      depth < max_depth → Forall (λ m, wf_string m.1 ∧ wf_json (depth + 1) m.2) l →
      wf_json depth (JObj l).

Lemma chomp_Some c s s' : chomp c s = Some s' ↔ s = String c s'.
Proof.
  destruct s as [|d s]; simpl; [done|]. case_decide; [|naive_solver]. subst. naive_solver.
Qed.

Lemma chomp_same c s : chomp c (String c s) = Some s.
Proof. by apply chomp_Some. Qed.

Lemma chomp_other c d s : d ≠ c → chomp c (String d s) = None.
Proof. intros. simpl. by rewrite decide_False. Qed.

Lemma chomp_length c s s' : chomp c s = Some s' → (String.length s' < String.length s)%nat.
Proof. intros ->%chomp_Some. simpl. lia. Qed.

Lemma digit_not c d : is_digit c = true → is_digit d = false → c ≠ d.
Proof. by intros H1 H2 ->; rewrite H1 in H2. Qed.

Lemma space_code c : is_space c = true → code c = 32 ∨ code c = 9 ∨ code c = 13 ∨ code c = 10.
Proof. unfold is_space. rewrite !orb_true_iff, !Z.eqb_eq. tauto. Qed.

Lemma plain_spec c : is_plain c = true ↔ 32 ≤ code c ∧ c ≠ dquote ∧ c ≠ backslash.
Proof. unfold is_plain. rewrite !andb_true_iff, !bool_decide_eq_true, Z.leb_le. tauto. Qed.

Lemma escape_spec e : is_escape e = true → e ≠ "u"%char.
Proof. intros He ->. by vm_compute in He. Qed.

Lemma scan_print_string l k :
  wf_string l → scan_string (foldr print_item (String dquote k) l) = Some (l, k).
Proof.
  induction 1 as [|x l Hx _ IH]; [done|]. destruct x as [c|e|h1 h2 h3 h4]; simpl in *.
  - pose proof Hx as (_ & H1 & H2)%plain_spec. rewrite !decide_False, Hx, IH by done. done.
  - by rewrite Hx, IH.
  - by rewrite Hx, IH.
Qed.

(** What may follow a number: nothing that belongs to one. *)
Definition ends_number (k : string) : Prop :=
  match k with
  | EmptyString => True
  | String c _ => is_digit c = false ∧ c ≠ "."%char ∧ c ≠ "e"%char ∧ c ≠ "E"%char
  end.

Definition no_digit (k : string) : Prop :=
  match k with EmptyString => True | String c _ => is_digit c = false end.

Lemma scan_digits_app d k : digits_only d = true → no_digit k → scan_digits (d +:+ k) = (d, k).
Proof.
  intros Hd Hk. induction d as [|c d IH]; simpl in *.
  - destruct k as [|c k]; [done|]. simpl in *. by rewrite Hk.
  - apply andb_true_iff in Hd as [Hc Hd]. rewrite Hc, (IH Hd). done.
Qed.

Lemma scan_digits1_app d k : wf_digits d = true → no_digit k → scan_digits1 (d +:+ k) = Some (d, k).
Proof.
  intros [Hd Hne%bool_decide_eq_true]%andb_true_iff Hk. unfold scan_digits1.
  by rewrite scan_digits_app, decide_False.
Qed.

Lemma scan_int_app d k : wf_int d = true → no_digit k → scan_int (d +:+ k) = Some (d, k).
Proof.
  intros Hd Hk. destruct d as [|c d]; [done|]. revert Hd. unfold wf_int, scan_int. simpl.
  case_decide; [by intros ->%bool_decide_eq_true; subst|]. intros Hd. by apply (scan_digits1_app (String c d)).
Qed.

Lemma int_first c d : wf_int (String c d) = true → is_digit c = true.
Proof.
  unfold wf_int. simpl. case_decide; [by subst|]. by intros [[? _]%andb_true_iff _]%andb_true_iff.
Qed.

Lemma ends_number_no_digit k : ends_number k → no_digit k.
Proof. destruct k; [done|]. by intros [? _]. Qed.

Lemma scan_print_number n k :
  wf_number n = true → ends_number k → scan_number (print_number n k) = Some (n, k).
Proof.
  destruct n as [neg i f e]. unfold wf_number, print_number. simpl.
  intros [[Hi Hf]%andb_true_iff He]%andb_true_iff Hk. pose proof (ends_number_no_digit _ Hk) as Hk0.
  set (k1 := match e with Some _ => _ | None => k end). set (k2 := match f with Some _ => _ | None => k1 end).
  assert (scan_exp k1 = Some (e, k) ∧ no_digit k1 ∧ chomp "." k1 = None) as (He1 & Hd1 & Hdot).
  { subst k1. destruct e as [[[c sign] d]|].
    - apply andb_true_iff in He as [[Hc%bool_decide_eq_true Hs%bool_decide_eq_true]%andb_true_iff Hd].
      split_and!; [|by destruct Hc as [-> | ->]|by destruct Hc as [-> | ->]].
      simpl. rewrite decide_True by done.
      assert (scan_sign (sign +:+ d +:+ k) = (sign, d +:+ k)) as ->; [|by rewrite scan_digits1_app].
      destruct d as [|c' d]; [done|]. apply andb_true_iff in Hd as [[Hc' _]%andb_true_iff _].
      rewrite !elem_of_cons in Hs. destruct Hs as [->|[->|[->|[]%not_elem_of_nil]]]; [|done|done].
      unfold scan_sign. simpl. by rewrite !decide_False by by eapply digit_not.
    - split_and!; [|done|]; destruct k as [|c k]; try done; simpl in *;
        destruct Hk as (? & ? & ? & ?); by rewrite decide_False by tauto. }
  assert (scan_frac k2 = Some (f, k1) ∧ no_digit k2) as (Hf1 & Hd2).
  { subst k2. destruct f as [d|]; [|by unfold scan_frac; rewrite Hdot].
    unfold scan_frac. by rewrite chomp_same, scan_digits1_app. }
  unfold scan_number.
  assert (match chomp "-" (if neg then String "-" (i +:+ k2) else i +:+ k2) with
    | Some s' => (true, s') | None => (false, if neg then String "-" (i +:+ k2) else i +:+ k2) end
    = (neg, i +:+ k2)) as ->.
  { destruct neg; [by rewrite chomp_same|]. destruct (chomp "-" _) as [s|] eqn:E; [|done].
    apply chomp_Some in E. destruct i as [|c i]; [done|]. by injection E as -> _. }
  rewrite scan_int_app by done. simpl. rewrite Hf1. simpl. rewrite He1. done.
Qed.

Lemma print_list_cons {A} (p : A → string → string) x y l k :
  print_list p (x :: y :: l) k = p x (String "," (print_list p (y :: l) k)).
Proof. done. Qed.

Definition print_member (m : list item * json) (k : string) : string :=
  print_string m.1 (String ":" (print m.2 k)).

Lemma print_arr l k : print (JArr l) k = String "[" (print_list print l (String "]" k)).
Proof. done. Qed.

Lemma print_obj l k : print (JObj l) k = String "{" (print_list print_member l (String "}" k)).
Proof. done. Qed.

(** A list's text is at least as long as what follows it, when that holds of its elements. *)
Lemma print_list_length {A} (p : A → string → string) l k :
  Forall (λ x, ∀ k, String.length k ≤ String.length (p x k))%nat l →
  (String.length k ≤ String.length (print_list p l k))%nat.
Proof.
  induction 1 as [|x l Hx _ IH]; [done|]. destruct l as [|y l]; [apply Hx|].
  rewrite print_list_cons. specialize (Hx (String "," (print_list p (y :: l) k))).
  cbn [String.length] in Hx. lia.
Qed.

Lemma print_chars_length l k :
  (String.length k ≤ String.length (foldr print_item (String dquote k) l))%nat.
Proof. induction l as [|x l IH]; [simpl; lia|]. destruct x; simpl; lia. Qed.

(** Every value begins with a character of its own. *)
Lemma print_first depth v k : wf_json depth v →
  ∃ c s, print v k = String c s ∧ is_space c = false ∧ c ≠ "]"%char ∧ (String.length k ≤ String.length s)%nat.
Proof.
  revert depth k. induction v as [|b|n|l|l IHl|l IHl] using json_nested_ind; intros depth k Hv.
  - eexists _, _. split_and!; [done..|simpl; lia].
  - destruct b; (eexists _, _; split_and!; [done..|simpl; lia]).
  - inversion Hv as [| |? ? Hn| | |]; subst. unfold wf_number in Hn.
    apply andb_true_iff in Hn as [[Hi _]%andb_true_iff _]. simpl. unfold print_number.
    set (k1 := match n_exp n with Some _ => _ | None => k end).
    set (k2 := match n_frac n with Some d => String "." (d +:+ k1) | None => k1 end).
    assert (String.length k ≤ String.length k1)%nat as H1.
    { subst k1. destruct (n_exp n) as [[[e sign] d]|]; [|done].
      simpl. rewrite !String_length_app. lia. }
    assert (String.length k1 ≤ String.length k2)%nat as H2.
    { subst k2. destruct (n_frac n); simpl; [rewrite String_length_app|]; lia. }
    destruct (n_neg n).
    + eexists _, _. split_and!; [done..|]. rewrite String_length_app. lia.
    + destruct (n_int n) as [|c i]; [done|]. exists c, (i +:+ k2). split; [done|].
      assert (is_digit c = true) as Hc.
      { by eapply int_first. }
      split_and!; [clear -Hc; by destruct c as [[] [] [] [] [] [] [] []]|by intros ->|].
      rewrite String_length_app. lia.
  - eexists _, _. split_and!; [done..|]. apply print_chars_length.
  - inversion Hv as [| | | |? ? Hd Hl|]; subst. rewrite print_arr. eexists _, _. split_and!; [done..|].
    etrans; [|apply print_list_length]; [simpl; lia|].
    rewrite Forall_forall in IHl, Hl. apply Forall_forall. intros v Hin k'.
    destruct (IHl v Hin (depth + 1) k' (Hl v Hin)) as (c & s & -> & _ & _ & Hlen). simpl. lia.
  - inversion Hv as [| | | | |? ? Hd Hl]; subst. rewrite print_obj. eexists _, _. split_and!; [done..|].
    etrans; [|apply print_list_length]; [simpl; lia|].
    rewrite Forall_forall in IHl, Hl. apply Forall_forall. intros m Hin k'.
    destruct (Hl m Hin) as [_ Hm]. unfold print_member, print_string.
    destruct (IHl m Hin (depth + 1) k' Hm) as (c & s & Hp & _ & _ & Hlen).
    pose proof (print_chars_length m.1 (String ":" (print m.2 k'))) as Hs. rewrite Hp in *. simpl in *. lia.
Qed.

Lemma print_length depth v k : wf_json depth v → (String.length k < String.length (print v k))%nat.
Proof. intros Hv. destruct (print_first depth v k Hv) as (c & s & -> & _ & _ & ?). simpl. lia. Qed.

Lemma print_nonspace depth v k : wf_json depth v → skip_space (print v k) = print v k.
Proof. intros Hv. destruct (print_first depth v k Hv) as (c & s & -> & Hc & _). simpl. by rewrite Hc. Qed.

Lemma print_elements_length depth l k :
  Forall (wf_json depth) l → (String.length k ≤ String.length (print_list print l k))%nat.
Proof.
  intros Hl. apply print_list_length. eapply Forall_impl; [exact Hl|]. intros v Hv k'.
  pose proof (print_length depth v k' Hv). lia.
Qed.

Lemma print_member_length depth m k :
  wf_json depth m.2 → (String.length (print m.2 k) < String.length (print_member m k))%nat.
Proof.
  intros Hm. pose proof (print_chars_length m.1 (String ":" (print m.2 k))) as Hs.
  unfold print_member, print_string. simpl in *. lia.
Qed.

Lemma print_members_length depth l k :
  Forall (λ m, wf_string m.1 ∧ wf_json depth m.2) l →
  (String.length k ≤ String.length (print_list print_member l k))%nat.
Proof.
  intros Hl. apply print_list_length. eapply Forall_impl; [exact Hl|]. intros m [_ Hm] k'.
  pose proof (print_length depth m.2 k' Hm). pose proof (print_member_length depth m k' Hm). lia.
Qed.

(** [v] is read back by any fuel above twice the length of its text. *)
Definition reads_back (depth : Z) (v : json) : Prop := ∀ n k,
  ends_number k → (2 * String.length (print v k) < n + 2 * String.length k)%nat →
  value n depth (print v k) = Some (v, k).

Lemma elements_print l n depth k :
  Forall (wf_json depth) l → Forall (reads_back depth) l → l ≠ [] →
  (2 * String.length (print_list print l (String "]" k)) < S n + 2 * String.length k)%nat →
  elements n depth (print_list print l (String "]" k)) = Some (l, k).
Proof.
  intros Hwf Hall Hne. revert n. induction Hall as [|v l Hp Hall IH]; intros n Hn; [done|].
  pose proof (print_elements_length depth (v :: l) (String "]" k) Hwf) as Hl0.
  apply Forall_cons in Hwf as [Hv Hwf]. cbn [String.length] in Hl0.
  destruct n as [|n]; [lia|]. cbn [elements]. destruct l as [|w l].
  - cbn [print_list] in *. rewrite Hp; [done|by split_and!|]. cbn [String.length]. lia.
  - rewrite print_list_cons in *. set (k' := print_list print (w :: l) (String "]" k)) in *.
    pose proof (print_length depth v (String "," k') Hv) as Hl.
    pose proof (print_elements_length depth (w :: l) (String "]" k) Hwf) as Hk'. fold k' in Hk'.
    cbn [String.length] in *. rewrite Hp; [|by split_and!|cbn [String.length]; lia].
    cbn [mbind option_bind]. change (expect "," (String "," k')) with (Some k').
    cbv iota. rewrite IH; [done|done..|lia].
Qed.

Lemma members_quote n depth s : members (S n) depth (String dquote s) =
  ('(k, s2) ← scan_string s;
  s3 ← expect ":" s2;
  '(v, s4) ← value n depth s3;
  match expect "," s4 with
  | Some s5 => '(l, rest) ← members n depth s5; Some ((k, v) :: l, rest)
  | None => rest ← expect "}" s4; Some ([(k, v)], rest)
  end).
Proof. done. Qed.

Lemma members_print l n depth k :
  Forall (λ m, wf_string m.1 ∧ wf_json depth m.2) l → Forall (λ m, reads_back depth m.2) l → l ≠ [] →
  (2 * String.length (print_list print_member l (String "}" k)) < S n + 2 * String.length k)%nat →
  members n depth (print_list print_member l (String "}" k)) = Some (l, k).
Proof.
  intros Hwf Hall Hne. revert n. induction Hall as [|[key v] l Hp Hall IH]; intros n Hn; [done|].
  pose proof (print_members_length depth ((key, v) :: l) (String "}" k) Hwf) as Hl0.
  apply Forall_cons in Hwf as [[Hkey Hv] Hwf]. simpl in Hp, Hkey, Hv. cbn [String.length] in Hl0.
  destruct n as [|n]; [lia|]. destruct l as [|w l].
  - change (print_list print_member [(key, v)] (String "}" k))
      with (print_member (key, v) (String "}" k)) in *.
    pose proof (print_member_length depth (key, v) (String "}" k) Hv) as Hm.
    unfold print_member, print_string in *. cbn [fst snd] in *.
    rewrite members_quote, scan_print_string by done. cbn [mbind option_bind].
    change (expect ":" (String ":" ?s)) with (Some s). cbn [mbind option_bind].
    rewrite Hp; [done|by split_and!|]. cbn [String.length] in *. lia.
  - rewrite print_list_cons in *. set (k' := print_list print_member (w :: l) (String "}" k)) in *.
    pose proof (print_length depth v (String "," k') Hv) as Hl.
    pose proof (print_member_length depth (key, v) (String "," k') Hv) as Hm.
    pose proof (print_members_length depth (w :: l) (String "}" k) Hwf) as Hk'. fold k' in Hk'.
    clearbody k'.
    unfold print_member, print_string in *. cbn [fst snd String.length] in *.
    rewrite members_quote, scan_print_string by done. cbn [mbind option_bind].
    change (expect ":" (String ":" ?s)) with (Some s). cbn [mbind option_bind].
    rewrite Hp; [|by split_and!|cbn [String.length]; lia]. cbn [mbind option_bind].
    change (expect "," (String "," ?s)) with (Some s). cbv iota.
    rewrite IH; [done|done..|lia].
Qed.

Lemma print_number_first x k : wf_number x = true →
  ∃ c s, print_number x k = String c s ∧ (is_digit c = true ∨ c = "-"%char).
Proof.
  unfold wf_number, print_number. intros [[Hi _]%andb_true_iff _]%andb_true_iff.
  destruct (n_neg x); [by eexists _, _; split; [|right]|].
  destruct (n_int x) as [|c i]; [done|]. eexists c, _. split; [done|]. left.
  by eapply int_first.
Qed.

Lemma value_number n depth c s : is_digit c = true ∨ c = "-"%char →
  value (S n) depth (String c s) = '(x, rest) ← scan_number (String c s); Some (JNum x, rest).
Proof.
  intros Hc. cbn [value skip_space].
  assert (is_space c = false ∧ c ≠ dquote ∧ c ≠ "{"%char ∧ c ≠ "["%char ∧ c ≠ "t"%char ∧ c ≠ "f"%char ∧ c ≠ "n"%char)
    as (-> & H1 & H2 & H3 & H4 & H5 & H6).
  { destruct Hc as [Hc| ->]; [|done]. by destruct c as [[] [] [] [] [] [] [] []]. }
  by rewrite !decide_False by done.
Qed.

Lemma value_array n depth s : depth < max_depth →
  value (S n) depth (String "[" s) =
  match expect "]" s with
  | Some rest => Some (JArr [], rest)
  | None => '(l, rest) ← elements n (depth + 1) s; Some (JArr l, rest)
  end.
Proof.
  intros Hd. transitivity (if max_depth <=? depth then None
    else match expect "]" s with
    | Some rest => Some (JArr [], rest)
    | None => '(l, rest) ← elements n (depth + 1) s; Some (JArr l, rest)
    end); [done|]. by rewrite (proj2 (Z.leb_gt _ _)).
Qed.

Lemma value_object n depth s : depth < max_depth →
  value (S n) depth (String "{" s) =
  match expect "}" s with
  | Some rest => Some (JObj [], rest)
  | None => '(l, rest) ← members n (depth + 1) s; Some (JObj l, rest)
  end.
Proof.
  intros Hd. transitivity (if max_depth <=? depth then None
    else match expect "}" s with
    | Some rest => Some (JObj [], rest)
    | None => '(l, rest) ← members n (depth + 1) s; Some (JObj l, rest)
    end); [done|]. by rewrite (proj2 (Z.leb_gt _ _)).
Qed.

Lemma expect_elements depth v l k :
  wf_json depth v → expect "]" (print_list print (v :: l) (String "]" k)) = None.
Proof.
  intros Hv. unfold expect. assert (∃ k', print_list print (v :: l) (String "]" k) = print v k') as [k' ->].
  { destruct l as [|w l]; [by eexists|]. rewrite print_list_cons. by eexists. }
  destruct (print_first depth v k' Hv) as (c & s & -> & Hc & Hc' & _). simpl. rewrite Hc.
  by apply chomp_other.
Qed.

(** A well-formed value is read back from its text, whatever follows it. *)
Lemma value_print depth v : wf_json depth v → reads_back depth v.
Proof.
  revert depth. induction v as [|b|x|l|l IH|l IH] using json_nested_ind; intros depth Hv [|n] k Hk Hn;
    try (pose proof (print_length depth _ k Hv); lia).
  - done.
  - by destruct b.
  - inversion Hv as [| |? ? Hx| | |]; subst. pose proof (scan_print_number x k Hx Hk) as Hs.
    destruct (print_number_first x k Hx) as (c & s & Hp & Hc).
    change (print (JNum x) k) with (print_number x k). rewrite Hp in *. by rewrite value_number, Hs.
  - inversion Hv as [| | |? ? Hl| |]; subst.
    change (value (S n) depth (print (JStr l) k)) with
      ('(l', rest) ← scan_string (foldr print_item (String dquote k) l); Some (JStr l', rest)).
    by rewrite scan_print_string.
  - inversion Hv as [| | | |? ? Hd Hl|]; subst. rewrite print_arr in *. rewrite value_array by done.
    destruct l as [|v l]; [done|]. erewrite expect_elements by exact (Forall_inv Hl).
    rewrite elements_print; [done|done| |done|cbn [String.length] in Hn; lia].
    rewrite Forall_forall in IH, Hl |- *. auto.
  - inversion Hv as [| | | | |? ? Hd Hl]; subst. rewrite print_obj in *. rewrite value_object by done.
    destruct l as [|v l]; [done|].
    assert (expect "}" (print_list print_member (v :: l) (String "}" k)) = None) as -> by by destruct l.
    rewrite members_print; [done|done| |done|cbn [String.length] in Hn; lia].
    rewrite Forall_forall in IH, Hl |- *. intros m Hm. apply IH; [done|]. by apply Hl.
Qed.

(** The text of a value is a text of that value. *)
Lemma parse_print v : wf_json 0 v → parse (print v "") = Some v.
Proof.
  intros Hv. unfold parse, fuel. rewrite (value_print 0 v Hv); [done|done|simpl; lia].
Qed.

(** ** What is read is well-formed, and shorter than its text *)

Lemma skip_space_length s : (String.length (skip_space s) ≤ String.length s)%nat.
Proof. induction s as [|c s IH]; simpl; [done|]. case_match; simpl; lia. Qed.

Lemma scan_string_spec s l rest : scan_string s = Some (l, rest) →
  wf_string l ∧ (String.length rest < String.length s)%nat.
Proof.
  revert l rest. induction s as [s IH] using (induction_ltof1 _ String.length). unfold ltof in IH.
  intros l rest. destruct s as [|c s]; [done|]. cbn [scan_string].
  case_decide; [intros [= <- <-]; split; [constructor|simpl; lia]|].
  assert (∀ x t, wf_item x = true → (String.length t ≤ String.length s)%nat →
    ('(l', rest') ← scan_string t; Some (x :: l', rest')) = Some (l, rest) →
    wf_string l ∧ (String.length rest < String.length (String c s))%nat) as Hnext.
  { intros x t Hx Ht. destruct (scan_string t) as [[l' rest']|] eqn:E; [|done].
    apply IH in E as [Hl Hr]; [|simpl; lia]. intros [= <- <-]. split; [by constructor|simpl; lia]. }
  case_decide.
  - destruct s as [|e s]; [done|]. case_match; [apply Hnext; [done|simpl; lia]|].
    case_decide; [|done]. destruct s as [|h1 [|h2 [|h3 [|h4 s]]]]; try done.
    case_match; [apply Hnext; [done|simpl; lia]|done].
  - case_match; [apply Hnext; [done|lia]|done].
Qed.

Lemma scan_digits_spec s : let '(d, rest) := scan_digits s in
  digits_only d = true ∧ (String.length d + String.length rest)%nat = String.length s.
Proof.
  induction s as [|c s IH]; [done|]. simpl. destruct (is_digit c) eqn:Hc; [|done].
  destruct (scan_digits s) as [d rest]. destruct IH as [Hd Hl]. simpl. rewrite Hc, Hd. split; [done|lia].
Qed.

Lemma scan_digits1_spec s d rest : scan_digits1 s = Some (d, rest) →
  wf_digits d = true ∧ (String.length rest < String.length s)%nat.
Proof.
  unfold scan_digits1. pose proof (scan_digits_spec s) as Hs.
  destruct (scan_digits s) as [d' rest']. case_decide; [done|]. intros [= <- <-].
  destruct Hs as [Hd Hl]. unfold wf_digits. rewrite Hd, bool_decide_true by done.
  destruct d'; [done|]. simpl in Hl. split; [done|lia].
Qed.

Lemma scan_int_spec s d rest : scan_int s = Some (d, rest) →
  wf_int d = true ∧ (String.length rest < String.length s)%nat.
Proof.
  unfold scan_int. destruct (chomp "0" s) as [s'|] eqn:E.
  { intros [= <- <-]. split; [done|by eapply chomp_length]. }
  intros H1. pose proof (scan_digits1_spec s d rest H1) as [Hd Hl]. split; [|done].
  unfold wf_int. destruct (chomp "0" d) as [d'|] eqn:E'; [|done]. apply chomp_Some in E' as ->.
  destruct s as [|c s]; [done|]. revert H1 E. unfold scan_digits1. simpl.
  destruct (is_digit c); [|by case_decide]. destruct (scan_digits s). case_decide; [done|].
  intros [= -> _]. by rewrite decide_True.
Qed.

Lemma scan_frac_spec s f rest : scan_frac s = Some (f, rest) →
  match f with Some d => wf_digits d | None => true end = true ∧ (String.length rest ≤ String.length s)%nat.
Proof.
  unfold scan_frac. destruct (chomp "." s) as [s'|] eqn:E; [|by intros [= <- <-]].
  apply chomp_length in E. simpl. destruct (scan_digits1 s') as [[d r]|] eqn:E1; [|done]. intros [= <- <-].
  apply scan_digits1_spec in E1 as [? ?]. split; [done|lia].
Qed.

Lemma scan_sign_spec s : let '(sign, rest) := scan_sign s in
  sign ∈ [""; "+"; "-"] ∧ (String.length rest ≤ String.length s)%nat.
Proof.
  unfold scan_sign. destruct (chomp "+" s) as [s'|] eqn:E; [|destruct (chomp "-" s) as [s'|] eqn:E'].
  - split; [set_solver|]. apply chomp_length in E. lia.
  - split; [set_solver|]. apply chomp_length in E'. lia.
  - split; [set_solver|done].
Qed.

Lemma scan_exp_spec s e rest : scan_exp s = Some (e, rest) →
  match e with
  | Some (c, sign, d) =>
    bool_decide (c = "e"%char ∨ c = "E"%char) && bool_decide (sign ∈ [""; "+"; "-"]) && wf_digits d
  | None => true
  end = true ∧ (String.length rest ≤ String.length s)%nat.
Proof.
  destruct s as [|c s]; [by intros [= <- <-]|]. simpl. case_decide as Hc; [|by intros [= <- <-]].
  pose proof (scan_sign_spec s) as Hsign. destruct (scan_sign s) as [sign s1]. destruct Hsign as [Hsign Hl].
  destruct (scan_digits1 s1) as [[d r]|] eqn:E; [|done]. intros [= <- <-].
  apply scan_digits1_spec in E as [Hd ?]. rewrite !bool_decide_true by done. split; [done|lia].
Qed.

Lemma scan_number_spec s x rest : scan_number s = Some (x, rest) →
  wf_number x = true ∧ (String.length rest < String.length s)%nat.
Proof.
  unfold scan_number. set (sg := match chomp "-" s with Some s' => (true, s') | None => (false, s) end).
  assert (String.length sg.2 ≤ String.length s)%nat as H0.
  { subst sg. destruct (chomp "-" s) eqn:E; [|done]. apply chomp_length in E. simpl. lia. }
  destruct sg as [neg s0]. simpl in H0.
  destruct (scan_int s0) as [[i s1]|] eqn:Ei; [|done]. simpl.
  destruct (scan_frac s1) as [[f s2]|] eqn:Ef; [|done]. simpl.
  destruct (scan_exp s2) as [[e s3]|] eqn:Ee; [|done]. intros [= <- <-].
  apply scan_int_spec in Ei as [Hi ?]. apply scan_frac_spec in Ef as [Hf ?].
  apply scan_exp_spec in Ee as [He ?]. unfold wf_number. simpl. rewrite Hi, Hf, He. split; [done|lia].
Qed.

Lemma scan_word_length w s rest : scan_word w s = Some rest → (String.length rest ≤ String.length s)%nat.
Proof.
  revert s. induction w as [|a w IH]; intros s; [by intros [= <-]|]. destruct s as [|c s]; [done|].
  simpl. case_decide; [|done]. intros ?%IH. lia.
Qed.

Lemma expect_length c s rest : expect c s = Some rest → (String.length rest < String.length s)%nat.
Proof. intros H%chomp_length. pose proof (skip_space_length s). lia. Qed.

Definition shorter (rest s : string) : Prop := (String.length rest < String.length s)%nat.

(** What the three scanners return: well-formed values, and less text than they were given. *)
Lemma scanned_wf n :
  (∀ depth s v rest, value n depth s = Some (v, rest) → wf_json depth v ∧ shorter rest s) ∧
  (∀ depth s l rest, elements n depth s = Some (l, rest) → Forall (wf_json depth) l ∧ shorter rest s) ∧
  (∀ depth s l rest, members n depth s = Some (l, rest) →
     Forall (λ m, wf_string m.1 ∧ wf_json depth m.2) l ∧ shorter rest s).
Proof.
  unfold shorter. induction n as [|n (IHv & IHe & IHm)]; [done|]. split_and!; intros depth s x rest.
  - cbn [value]. pose proof (skip_space_length s) as Hs. destruct (skip_space s) as [|c s1]; [done|].
    cbn [String.length] in Hs. case_decide.
    { destruct (scan_string s1) as [[l r]|] eqn:E; [|done]. intros [= <- <-].
      apply scan_string_spec in E as [? ?]. split; [by constructor|lia]. }
    case_decide.
    { case_match eqn:Hd; [done|]. apply Z.leb_gt in Hd. destruct (expect "}" s1) as [r|] eqn:E.
      { intros [= <- <-]. apply expect_length in E. split; [by constructor|lia]. }
      destruct (members _ _ _) as [[l r]|] eqn:E'; [|done]. intros [= <- <-].
      apply IHm in E' as [? ?]. split; [by constructor|lia]. }
    case_decide.
    { case_match eqn:Hd; [done|]. apply Z.leb_gt in Hd. destruct (expect "]" s1) as [r|] eqn:E.
      { intros [= <- <-]. apply expect_length in E. split; [by constructor|lia]. }
      destruct (elements _ _ _) as [[l r]|] eqn:E'; [|done]. intros [= <- <-].
      apply IHe in E' as [? ?]. split; [by constructor|lia]. }
    do 3 (case_decide; [destruct (scan_word _ _) as [r|] eqn:E; [|done]; intros [= <- <-];
      apply scan_word_length in E; split; [constructor|lia]|]).
    destruct (scan_number _) as [[y r]|] eqn:E; [|done]. intros [= <- <-].
    apply scan_number_spec in E as [? ?]. cbn [String.length] in *. split; [by constructor|lia].
  - cbn [elements]. destruct (value n depth s) as [[v s1]|] eqn:Ev; [|done]. apply IHv in Ev as [Hv H1].
    cbn [mbind option_bind]. destruct (expect "," s1) as [s2|] eqn:E.
    + apply expect_length in E. destruct (elements n depth s2) as [[l r]|] eqn:El; [|done].
      apply IHe in El as [Hl ?]. intros [= <- <-]. split; [by constructor|lia].
    + destruct (expect "]" s1) as [r|] eqn:E'; [|done]. apply expect_length in E'. intros [= <- <-].
      split; [by repeat constructor|lia].
  - cbn [members]. destruct (expect dquote s) as [s1|] eqn:E1; [|done]. apply expect_length in E1.
    cbn [mbind option_bind]. destruct (scan_string s1) as [[k s2]|] eqn:Ek; [|done].
    apply scan_string_spec in Ek as [Hk ?]. cbn [mbind option_bind].
    destruct (expect ":" s2) as [s3|] eqn:E3; [|done]. apply expect_length in E3. cbn [mbind option_bind].
    destruct (value n depth s3) as [[v s4]|] eqn:Ev; [|done]. apply IHv in Ev as [Hv ?].
    cbn [mbind option_bind]. destruct (expect "," s4) as [s5|] eqn:E.
    + apply expect_length in E. destruct (members n depth s5) as [[l r]|] eqn:El; [|done].
      apply IHm in El as [Hl ?]. intros [= <- <-]. split; [by constructor|lia].
    + destruct (expect "}" s4) as [r|] eqn:E'; [|done]. apply expect_length in E'. intros [= <- <-].
      split; [by repeat constructor|lia].
Qed.

Lemma parse_wf s v : parse s = Some v → wf_json 0 v.
Proof.
  unfold parse. destruct (value _ _ _) as [[v' rest]|] eqn:E; [|done]. simpl. case_decide; [|done].
  intros [= <-]. by apply (proj1 (scanned_wf _)) in E as [? _].
Qed.

(** Printing what was read, and reading it again, gives the same value. *)
Lemma parse_print_parse s v : parse s = Some v → parse (print v "") = Some v.
Proof. intros H%parse_wf. by apply parse_print. Qed.

(** Any fuel of at least [fuel s] gives the same answer. *)
Lemma scanned_fuel n : ∀ m,
  (∀ depth s, (2 * String.length s < n ≤ m)%nat → value n depth s = value m depth s) ∧
  (∀ depth s, (S (2 * String.length s) < n ≤ m)%nat → elements n depth s = elements m depth s) ∧
  (∀ depth s, (S (2 * String.length s) < n ≤ m)%nat → members n depth s = members m depth s).
Proof.
  induction n as [|n IH]; intros m.
  { split_and!; intros; lia. }
  destruct m as [|m]; [split_and!; intros; lia|]. destruct (IH m) as (IHv & IHe & IHm).
  split_and!; intros depth s Hn.
  - cbn [value]. pose proof (skip_space_length s) as Hs. destruct (skip_space s) as [|c s1]; [done|].
    cbn [String.length] in Hs. rewrite IHe, IHm by lia. done.
  - cbn [elements]. rewrite IHv by lia. destruct (value m depth s) as [[v s1]|] eqn:Ev; [|done].
    apply (proj1 (scanned_wf _)) in Ev as [_ Ev]. unfold shorter in Ev. cbn [mbind option_bind].
    destruct (expect "," s1) as [s2|] eqn:E; [|done]. apply expect_length in E. by rewrite IHe by lia.
  - cbn [members]. destruct (expect dquote s) as [s1|] eqn:E1; [|done]. apply expect_length in E1.
    cbn [mbind option_bind]. destruct (scan_string s1) as [[k s2]|] eqn:Ek; [|done].
    apply scan_string_spec in Ek as [_ ?]. cbn [mbind option_bind].
    destruct (expect ":" s2) as [s3|] eqn:E3; [|done]. apply expect_length in E3. cbn [mbind option_bind].
    rewrite IHv by lia. destruct (value m depth s3) as [[v s4]|] eqn:Ev; [|done].
    apply (proj1 (scanned_wf _)) in Ev as [_ Ev]. unfold shorter in Ev. cbn [mbind option_bind].
    destruct (expect "," s4) as [s5|] eqn:E; [|done]. apply expect_length in E. by rewrite IHm by lia.
Qed.

(** [fuel] is enough: more of it changes nothing. *)
Lemma fuel_enough n depth s : (fuel s ≤ n)%nat → value n depth s = value (fuel s) depth s.
Proof. intros Hn. symmetry. apply (scanned_fuel (fuel s) n). unfold fuel in *. lia. Qed.
