(* ===== verification/GoText.v ===== *)
(** * Text of JSON strings

    What encoding/json makes of a string's text and of a string: [decode] is the value of a
    text (escapes, surrogate pairs, bytes that are not UTF-8), [quote_items] the text it
    writes for a string, [compact_items] what it makes of a raw text it copies.  A written
    text decodes to the string it was written for, with U+FFFD for what is not UTF-8, and
    copying does not change what a text decodes to. *)

From S2P Require Import Prelude GoStrings GoJson.
Open Scope Z_scope.
#[local] Set Warnings "-register-all".

Definition byte (z : Z) : ascii := ascii_of_N (Z.to_N z).

(** ** UTF-8 *)

Definition is_cont (c : ascii) : bool := (128 <=? code c) && (code c <=? 191).

Definition within (lo hi z : Z) : bool := (lo <=? z) && (z <=? hi).

(** What the first byte of a sequence asks for: how many continuation bytes, and within
    which bounds the first of them lies. *)
Definition lead (c : ascii) : option (nat * Z * Z) :=
  let b := code c in
  if b <? 128 then Some (0%nat, 128, 191)
  else if within 194 223 b then Some (1%nat, 128, 191)
  else if b =? 224 then Some (2%nat, 160, 191)
  else if b =? 237 then Some (2%nat, 128, 159)
  else if within 225 239 b then Some (2%nat, 128, 191)
  else if b =? 240 then Some (3%nat, 144, 191)
  else if within 241 243 b then Some (3%nat, 128, 191)
  else if b =? 244 then Some (3%nat, 128, 143)
  else None.

(** The number of continuation bytes of the sequence that begins with [c], when [cs] are
    ahead; [None] when there is no valid one. *)
Definition seq_size (c : ascii) (cs : list ascii) : option nat :=
  '(n, lo, hi) ← lead c;
  match n, cs with
  | O, _ => Some O
  | S _, c1 :: _ => if within lo hi (code c1) && (n <=? length cs)%nat then Some n else None
  | S _, [] => None
  end.

(** [utf8.EncodeRune] for a code point that is not a surrogate. *)
Definition encode_rune (r : Z) : string :=
  if r <? 128 then String (byte r) ""
  else if r <? 2048 then String (byte (192 + r / 64)) (String (byte (128 + r mod 64)) "")
  else if r <? 65536 then
    String (byte (224 + r / 4096)) (String (byte (128 + r / 64 mod 64)) (String (byte (128 + r mod 64)) ""))
  else
    String (byte (240 + r / 262144)) (String (byte (128 + r / 4096 mod 64))
      (String (byte (128 + r / 64 mod 64)) (String (byte (128 + r mod 64)) ""))).

Definition replacement : Z := 65533.

(** The continuation bytes at the head of a text. *)
Fixpoint ahead (l : list item) : list ascii :=
  match l with
  | Byte c :: l' => if is_cont c then c :: ahead l' else []
  | _ => []
  end.

(** ** From text to value *)

Definition hex_value (c : ascii) : Z :=
  if is_digit c then code c - 48 else if code c <? 97 then code c - 55 else code c - 87.

Definition hex4 (h1 h2 h3 h4 : ascii) : Z :=
  ((hex_value h1 * 16 + hex_value h2) * 16 + hex_value h3) * 16 + hex_value h4.

Definition escape_byte (e : ascii) : ascii :=
  if decide (e = "b"%char) then byte 8 else if decide (e = "f"%char) then byte 12
  else if decide (e = "n"%char) then byte 10 else if decide (e = "r"%char) then byte 13
  else if decide (e = "t"%char) then byte 9 else e.

(** [utf16.IsSurrogate], and [utf16.DecodeRune] when it succeeds. *)
Definition is_surrogate (r : Z) : bool := within 55296 57343 r.

Definition decode_pair (r1 r2 : Z) : option Z :=
  if within 55296 56319 r1 && within 56320 57343 r2
  then Some ((r1 - 55296) * 1024 + (r2 - 56320) + 65536) else None.

(** The first [n] items are bytes of a sequence already found valid. *)
Fixpoint decode_from (n : nat) (l : list item) : string :=
  match l with
  | [] => ""
  | Byte c :: l1 =>
    match n with
    | S n' => String c (decode_from n' l1)
    | O => match seq_size c (ahead l1) with
           | Some k => String c (decode_from k l1)
           | None => encode_rune replacement +:+ decode_from 0 l1
           end
    end
  | Esc e :: l1 => String (escape_byte e) (decode_from 0 l1)
  | Uni h1 h2 h3 h4 :: l1 =>
    let r := hex4 h1 h2 h3 h4 in
    if is_surrogate r then
      match l1 with
      | Uni g1 g2 g3 g4 :: l2 =>
        match decode_pair r (hex4 g1 g2 g3 g4) with
        | Some r' => encode_rune r' +:+ decode_from 0 l2
        | None => encode_rune replacement +:+ decode_from 0 l1
        end
      | _ => encode_rune replacement +:+ decode_from 0 l1
      end
    else encode_rune r +:+ decode_from 0 l1
  end.

Definition decode (l : list item) : string := decode_from 0 l.

(** ** From value to text *)

(** The bytes of a string as plain text. *)
Fixpoint raw (s : string) : list item :=
  match s with String c s' => Byte c :: raw s' | EmptyString => [] end.

(** A string with U+FFFD for every byte that belongs to no valid sequence. *)
Definition to_valid (s : string) : string := decode (raw s).

Definition hex_digit (z : Z) : ascii := byte (if z <? 10 then 48 + z else 87 + z).

(** \u00XX. *)
Definition low_escape (c : ascii) : item :=
  Uni "0" "0" (hex_digit (code c / 16)) (hex_digit (code c mod 16)).

Definition is_html (c : ascii) : bool := bool_decide (c ∈ ["<"; ">"; "&"]%char).

(** One byte below 128, in a string that is escaped for HTML. *)
Definition quote_ascii (c : ascii) : item :=
  if decide (c = dquote ∨ c = backslash) then Esc c
  else if code c =? 8 then Esc "b"
  else if code c =? 12 then Esc "f"
  else if code c =? 10 then Esc "n"
  else if code c =? 13 then Esc "r"
  else if code c =? 9 then Esc "t"
  else if (code c <? 32) || is_html c then low_escape c
  else Byte c.

(** The bytes of U+2028 and U+2029, and their escapes. *)
Definition is_separator (c c1 c2 : ascii) : bool :=
  (code c =? 226) && (code c1 =? 128) && ((code c2 =? 168) || (code c2 =? 169)).

Definition separator_escape (c2 : ascii) : item :=
  Uni "2" "0" "2" (if code c2 =? 168 then "8"%char else "9"%char).

Fixpoint quote_from (n : nat) (s : string) : list item :=
  match s with
  | EmptyString => []
  | String c s1 =>
    match n with
    | S n' => Byte c :: quote_from n' s1
    | O =>
      if code c <? 128 then quote_ascii c :: quote_from 0 s1
      else match seq_size c (ahead (raw s1)) with
      | None => Uni "f" "f" "f" "d" :: quote_from 0 s1
      | Some k =>
        match s1 with
        | String c1 (String c2 s3) =>
          if is_separator c c1 c2
          then separator_escape c2 :: quote_from 0 s3
          else Byte c :: quote_from k s1
        | _ => Byte c :: quote_from k s1
        end
      end
    end
  end.

Definition quote_items (s : string) : list item := quote_from 0 s.

(** ** Copying a text *)

Fixpoint compact_items (l : list item) : list item :=
  match l with
  | [] => []
  | Byte c :: l1 =>
    if is_html c then low_escape c :: compact_items l1
    else match l1 with
    | Byte c1 :: Byte c2 :: l3 =>
      if is_separator c c1 c2
      then separator_escape c2 :: compact_items l3
      else Byte c :: compact_items l1
    | _ => Byte c :: compact_items l1
    end
  | x :: l1 => x :: compact_items l1
  end.

(** ** Copying does not change the value *)

Lemma code_byte z : 0 ≤ z < 256 → code (byte z) = z.
Proof.
  intros Hz. unfold code, byte. rewrite N_ascii_embedding by lia. lia.
Qed.

Lemma seq_size_spec c cs k : seq_size c cs = Some k ↔
  ∃ lo hi, lead c = Some (k, lo, hi) ∧ (k ≤ length cs)%nat ∧
    (k = 0%nat ∨ ∃ c1 cs', cs = c1 :: cs' ∧ within lo hi (code c1) = true).
Proof.
  unfold seq_size. destruct (lead c) as [[[[|n] lo] hi]|]; cbn [mbind option_bind].
  - split; [intros [= <-]; exists lo, hi; split_and!; [done|lia|by left]|]. by intros (? & ? & [= <-] & _).
  - destruct cs as [|c1 cs]; [split; [done|by intros (? & ? & [= <- <- <-] & ? & [|(? & ? & ? & _)])]|].
    split.
    + case_match eqn:E; [|done]. apply andb_true_iff in E as [E Hl%Nat.leb_le].
      intros [= <-]. exists lo, hi. split_and!; [done|done|right; by eexists _, _].
    + intros (? & ? & [= <- <- <-] & Hl & [|(? & ? & [= <- <-] & ->)]); [done|].
      by rewrite (proj2 (Nat.leb_le _ _) Hl).
  - split; [done|]. by intros (? & ? & ? & _).
Qed.

Lemma seq_size_take c cs k : seq_size c cs = Some k → seq_size c (take k cs) = Some k.
Proof.
  rewrite !seq_size_spec. intros (lo & hi & Hc & Hk & Hb). exists lo, hi. split_and!; [done| |].
  - rewrite length_take. lia.
  - destruct Hb as [?|(c1 & cs' & -> & Hb)]; [by left|]. destruct k as [|k]; [by left|].
    right. simpl. by eexists _, _.
Qed.

Lemma lead_ascii c : code c < 128 → lead c = Some (0%nat, 128, 191).
Proof. intros H. unfold lead. by rewrite (proj2 (Z.ltb_lt _ _) H). Qed.

Lemma seq_size_ascii c cs : code c < 128 → seq_size c cs = Some 0%nat.
Proof. intros H. unfold seq_size. by rewrite lead_ascii. Qed.

(** A continuation byte begins no sequence. *)
Lemma seq_size_cont c cs : is_cont c = true → seq_size c cs = None.
Proof.
  intros Hc. unfold seq_size.
  assert (lead c = None) as ->; [|done]. by destruct c as [[] [] [] [] [] [] [] []].
Qed.

Lemma html_cases c : is_html c = true ↔ c = "<"%char ∨ c = ">"%char ∨ c = "&"%char.
Proof. unfold is_html. rewrite bool_decide_eq_true, !elem_of_cons, elem_of_nil. tauto. Qed.

Lemma is_separator_spec c c1 c2 : is_separator c c1 c2 = true ↔
  c = byte 226 ∧ c1 = byte 128 ∧ (c2 = byte 168 ∨ c2 = byte 169).
Proof.
  assert (∀ c z, 0 ≤ z < 256 → code c = z ↔ c = byte z) as Hc.
  { intros d z Hz. split; [|intros ->; by apply code_byte]. intros <-. unfold byte, code.
    by rewrite N2Z.id, ascii_N_embedding. }
  unfold is_separator. rewrite !andb_true_iff, orb_true_iff, !Z.eqb_eq, !Hc by lia. tauto.
Qed.

Lemma ahead_compact l : ahead (compact_items l) = ahead l.
Proof.
  induction l as [|x l IH]; [done|]. destruct x as [c|e|]; [|done..].
  cbn [compact_items]. destruct (is_html c) eqn:Hh.
  { apply html_cases in Hh as [->|[->| ->]]; done. }
  assert (ahead (Byte c :: compact_items l) = ahead (Byte c :: l)) as Heq by (simpl; by rewrite IH).
  destruct l as [|[c1| |] l]; try done. destruct l as [|[c2| |] l]; try done.
  destruct (is_separator c c1 c2) eqn:Hs; [|done].
  by apply is_separator_spec in Hs as (-> & -> & [-> | ->]).
Qed.

Lemma decode_low_escape c l : is_html c = true → decode_from 0 (low_escape c :: l) = String c (decode_from 0 l).
Proof. by intros [->|[->| ->]]%html_cases. Qed.

Lemma decode_separator c c1 c2 l : is_separator c c1 c2 = true →
  decode_from 0 (separator_escape c2 :: l) = String c (String c1 (String c2 (decode_from 0 l))).
Proof. by intros (-> & -> & [-> | ->])%is_separator_spec. Qed.

Lemma decode_separator_bytes c c1 c2 l : is_separator c c1 c2 = true →
  decode_from 0 (Byte c :: Byte c1 :: Byte c2 :: l) = String c (String c1 (String c2 (decode_from 0 l))).
Proof. by intros (-> & -> & [-> | ->])%is_separator_spec. Qed.

Lemma ahead_zero n c l : (n ≤ length (ahead (Byte c :: l)))%nat → is_cont c = false → n = 0%nat.
Proof. simpl. intros Hn Hc. rewrite Hc in Hn. simpl in Hn. lia. Qed.

(** What follows a surrogate escape pairs with it, or is read on its own. *)
Definition pairs (r : Z) (l : list item) : Prop :=
  match l with Uni g1 g2 g3 g4 :: _ => decode_pair r (hex4 g1 g2 g3 g4) ≠ None | _ => False end.

Lemma decode_lone h1 h2 h3 h4 l :
  is_surrogate (hex4 h1 h2 h3 h4) = true → ¬ pairs (hex4 h1 h2 h3 h4) l →
  decode_from 0 (Uni h1 h2 h3 h4 :: l) = encode_rune replacement +:+ decode_from 0 l.
Proof.
  intros Hs Hp. cbn [decode_from]. rewrite Hs. destruct l as [|[c|e|g1 g2 g3 g4] l]; try done.
  unfold pairs in Hp. destruct (decode_pair _ _); [by destruct Hp|done].
Qed.

Lemma pairs_compact r l : pairs r (compact_items l) → pairs r l.
Proof.
  destruct l as [|[c|e|g1 g2 g3 g4] l]; try done. cbn [compact_items].
  assert (∀ x l', (∃ h1 h2 h3 h4, x = Uni h1 h2 h3 h4 ∧ hex4 h1 h2 h3 h4 < 56320) → ¬ pairs r (x :: l')) as Hlow.
  { intros x l' (h1 & h2 & h3 & h4 & -> & Hx) Hp. apply Hp. unfold decode_pair, within.
    rewrite (proj2 (Z.leb_gt 56320 _)) by lia. by rewrite andb_false_r. }
  destruct (is_html c) eqn:Hh.
  { intros []%Hlow. by apply html_cases in Hh as [->|[->| ->]]; eexists _, _, _, _. }
  destruct l as [|[c1| |] l]; try done. destruct l as [|[c2| |] l]; try done.
  destruct (is_separator c c1 c2) eqn:Hs; [|done].
  intros []%Hlow. apply is_separator_spec in Hs as (_ & _ & [-> | ->]); by eexists _, _, _, _.
Qed.

(** A text that is copied decodes to what it decoded to. *)
Lemma decode_from_compact l : ∀ n,
  (n ≤ length (ahead l))%nat → decode_from n (compact_items l) = decode_from n l.
Proof.
  induction l as [l IH] using (induction_ltof1 _ length). unfold ltof in IH. intros n Hn.
  destruct l as [|x l]; [done|].
  assert (∀ m, (m ≤ length (ahead l))%nat → decode_from m (compact_items l) = decode_from m l) as IHl
    by (intros; apply IH; [simpl; lia|done]).
  destruct x as [c|e|h1 h2 h3 h4].
  - cbn [compact_items]. destruct (is_html c) eqn:Hh.
    { assert (is_cont c = false ∧ code c < 128) as [Hc Ha] by (by apply html_cases in Hh as [->|[->| ->]]).
      assert (n = 0%nat) as -> by by eapply ahead_zero.
      rewrite decode_low_escape, IHl by (done || lia). cbn [decode_from]. rewrite seq_size_ascii by done. done. }
    assert (decode_from n (Byte c :: compact_items l) = decode_from n (Byte c :: l)) as Heq.
    { cbn [decode_from]. rewrite ahead_compact. destruct n as [|n].
      - destruct (seq_size c (ahead l)) as [k|] eqn:Hk; [|by rewrite IHl by lia].
        rewrite IHl; [done|]. apply seq_size_spec in Hk as (? & ? & _ & ? & _). done.
      - rewrite IHl; [done|]. simpl in Hn. destruct (is_cont c); simpl in Hn; lia. }
    destruct l as [|[c1| |] l]; try done. destruct l as [|[c2| |] l]; try done.
    destruct (is_separator c c1 c2) eqn:Hs; [|done].
    assert (is_cont c = false) as Hc by (by apply is_separator_spec in Hs as (-> & _)).
    assert (n = 0%nat) as -> by by eapply ahead_zero.
    rewrite (decode_separator c c1), decode_separator_bytes by done. do 3 f_equal. apply IH; simpl; lia.
  - assert (n = 0%nat) as -> by (simpl in Hn; lia). cbn [compact_items decode_from]. by rewrite IHl by lia.
  - assert (n = 0%nat) as -> by (simpl in Hn; lia). cbn [compact_items].
    destruct (is_surrogate (hex4 h1 h2 h3 h4)) eqn:Hs; [|cbn [decode_from]; rewrite Hs, IHl by lia; done].
    destruct l as [|[c|e|g1 g2 g3 g4] l].
    1-3: rewrite !decode_lone; (done || (by rewrite IHl by lia) || (by intros []) || by intros []%pairs_compact).
    cbn [compact_items decode_from]. rewrite Hs. destruct (decode_pair _ _).
    + rewrite IH; [done|simpl; lia|lia].
    + f_equal. apply (IHl 0%nat). lia.
Qed.

(** ** A written text decodes to its string *)

Lemma ahead_quote_ascii c l : code c < 128 → ahead (quote_ascii c :: l) = [].
Proof. by destruct c as [[] [] [] [] [] [] [] []]. Qed.

Lemma decode_quote_ascii c l : code c < 128 → decode_from 0 (quote_ascii c :: l) = String c (decode_from 0 l).
Proof. by destruct c as [[] [] [] [] [] [] [] []]. Qed.

Lemma seq_size_lead c cs k : seq_size c cs = Some k → is_cont c = false.
Proof. intros H. destruct (is_cont c) eqn:Hc; [|done]. by rewrite seq_size_cont in H. Qed.

Lemma seq_size_ahead c cs k : seq_size c cs = Some k → (k ≤ length cs)%nat.
Proof. by intros (? & ? & _ & ? & _)%seq_size_spec. Qed.

(** What [quote_from] does with a first byte that is not ASCII. *)
Lemma quote_from_lead c s : code c < 128 ∨
  (seq_size c (ahead (raw s)) = None ∧ quote_from 0 (String c s) = Uni "f" "f" "f" "d" :: quote_from 0 s) ∨
  (∃ c1 c2 s3, s = String c1 (String c2 s3) ∧ is_separator c c1 c2 = true ∧
    quote_from 0 (String c s) = separator_escape c2 :: quote_from 0 s3) ∨
  (∃ k, 128 ≤ code c ∧ seq_size c (ahead (raw s)) = Some k ∧ quote_from 0 (String c s) = Byte c :: quote_from k s).
Proof.
  cbn [quote_from]. destruct (Z.ltb_spec (code c) 128); [by left|right].
  destruct (seq_size c (ahead (raw s))) as [k|]; [right|by left].
  destruct s as [|c1 [|c2 s3]]; [right; by exists k..|].
  destruct (is_separator c c1 c2) eqn:Hs; [left; by exists c1, c2, s3|right; by exists k].
Qed.

Lemma ahead_quote s : ∀ k, (k ≤ length (ahead (raw s)))%nat → ahead (quote_from k s) = take k (ahead (raw s)).
Proof.
  induction s as [|c s IH]; intros k Hk; [by destruct k|]. destruct k as [|k].
  - rewrite take_0. destruct (quote_from_lead c s) as [Hc|[[_ ->]|[(c1 & c2 & s3 & _ & _ & ->)|(k & _ & Hk' & ->)]]];
      [|done..|].
    + cbn [quote_from]. rewrite (proj2 (Z.ltb_lt _ _)) by done. by apply ahead_quote_ascii.
    + cbn [ahead]. by rewrite (seq_size_lead _ _ _ Hk').
  - cbn [quote_from ahead raw] in *. destruct (is_cont c); [|simpl in Hk; lia].
    simpl. rewrite IH; [done|]. simpl in Hk. lia.
Qed.

Lemma decode_from_quote s : ∀ n,
  (n ≤ length (ahead (raw s)))%nat → decode_from n (quote_from n s) = decode_from n (raw s).
Proof.
  induction s as [s IH] using (induction_ltof1 _ String.length). unfold ltof in IH. intros n Hn.
  destruct s as [|c s]; [by destruct n|].
  assert (∀ m, (m ≤ length (ahead (raw s)))%nat → decode_from m (quote_from m s) = decode_from m (raw s)) as IHs
    by (intros; apply IH; [simpl; lia|done]).
  destruct n as [|n].
  2: { cbn [quote_from raw decode_from]. rewrite IHs; [done|]. simpl in Hn. destruct (is_cont c); simpl in Hn; lia. }
  destruct (quote_from_lead c s) as [Hc|[[Hk ->]|[(c1 & c2 & s3 & -> & Hs & ->)|(k & _ & Hk & ->)]]].
  - cbn [quote_from raw]. rewrite (proj2 (Z.ltb_lt _ _)) by done.
    rewrite decode_quote_ascii, IHs by (done || lia). cbn [decode_from]. by rewrite seq_size_ascii.
  - cbn [raw decode_from]. rewrite Hk, <- IHs by lia. done.
  - cbn [raw]. rewrite (decode_separator c c1), decode_separator_bytes by done.
    do 3 f_equal. apply IH; simpl; lia.
  - cbn [raw decode_from]. pose proof (seq_size_ahead _ _ _ Hk) as Hl.
    by rewrite Hk, ahead_quote, (seq_size_take _ _ _ Hk), IHs.
Qed.

(** The text written for a string decodes to the string, up to what is not UTF-8. *)
Lemma decode_quote s : decode (quote_items s) = to_valid s.
Proof. apply decode_from_quote. lia. Qed.

Lemma decode_compact l : decode (compact_items l) = decode l.
Proof. apply decode_from_compact. lia. Qed.

(** ** Decoded strings are UTF-8 *)

Lemma is_cont_byte z : 128 ≤ z ≤ 191 → is_cont (byte z) = true.
Proof. intros Hz. unfold is_cont. rewrite code_byte by lia. apply andb_true_iff. by rewrite !Z.leb_le. Qed.

(** One whole UTF-8 sequence. *)
Definition sequence (s : string) : Prop :=
  ∃ c s0, s = String c s0 ∧ is_cont c = false ∧
    ∀ t, ahead (raw t) = [] → seq_size c (ahead (raw (s0 +:+ t))) = Some (String.length s0).

Lemma ahead_byte z s : 128 ≤ z ≤ 191 → ahead (raw (String (byte z) s)) = byte z :: ahead (raw s).
Proof. intros Hz. simpl. by rewrite is_cont_byte. Qed.

Lemma not_cont_byte z : 0 ≤ z < 128 ∨ 192 ≤ z < 256 → is_cont (byte z) = false.
Proof. intros Hz. unfold is_cont. rewrite code_byte by lia. apply andb_false_iff. rewrite !Z.leb_gt. lia. Qed.

#[local] Ltac Zify.zify_post_hook ::= Z.to_euclidean_division_equations.

(** The first byte of an encoded rune, for the three ranges that take continuation bytes. *)
Lemma lead_byte z :
  (194 ≤ z ≤ 223 → lead (byte z) = Some (1%nat, 128, 191)) ∧
  (224 ≤ z ≤ 239 → lead (byte z) = Some (2%nat, if z =? 224 then 160 else 128, if z =? 237 then 159 else 191)) ∧
  (240 ≤ z ≤ 244 → lead (byte z) = Some (3%nat, if z =? 240 then 144 else 128, if z =? 244 then 143 else 191)).
Proof.
  assert (∀ lo hi (P : Z → Prop), (∀ n, (n < Z.to_nat (hi - lo + 1))%nat → P (lo + Z.of_nat n)) →
    lo ≤ z ≤ hi → P z) as Hall.
  { intros lo hi P HP Hz. replace z with (lo + Z.of_nat (Z.to_nat (z - lo))) by lia. apply HP. lia. }
  split_and!.
  - apply (Hall 194 223 (λ z, lead (byte z) = _)). intros n Hn. vm_compute in Hn.
    do 30 (destruct n as [|n]; [done|]). lia.
  - apply (Hall 224 239 (λ z, lead (byte z) = Some (2%nat, if z =? 224 then 160 else 128, if z =? 237 then 159 else 191))).
    intros n Hn. do 16 (destruct n as [|n]; [done|]). lia.
  - apply (Hall 240 244 (λ z, lead (byte z) = Some (3%nat, if z =? 240 then 144 else 128, if z =? 244 then 143 else 191))).
    intros n Hn. do 5 (destruct n as [|n]; [done|]). lia.
Qed.

Lemma sequence_lead z z1 n lo hi s :
  lead (byte z) = Some (S n, lo, hi) → 192 ≤ z < 256 → 128 ≤ z1 ≤ 191 → lo ≤ z1 ≤ hi →
  (∀ t, ahead (raw t) = [] → length (ahead (raw (s +:+ t))) = n) → String.length s = n →
  sequence (String (byte z) (String (byte z1) s)).
Proof.
  intros Hl Hz Hz1 Hb Hs Hn. eexists _, _. split_and!; [done|apply not_cont_byte; lia|].
  intros t Ht. change (String (byte z1) s +:+ t) with (String (byte z1) (s +:+ t)). rewrite ahead_byte by lia.
  apply seq_size_spec. exists lo, hi. simpl. rewrite Hn. split_and!; [done| |].
  - rewrite Hs by done. lia.
  - right. eexists _, _. split; [done|]. unfold within. rewrite code_byte by lia. lia.
Qed.

Lemma encode_rune_sequence r :
  0 ≤ r < 1114112 → is_surrogate r = false → sequence (encode_rune r).
Proof.
  unfold is_surrogate, within. rewrite andb_false_iff, !Z.leb_gt. intros Hr Hs.
  unfold encode_rune. destruct (Z.ltb_spec r 128) as [H1|H1].
  { exists (byte r), "". split_and!; [done|apply not_cont_byte; lia|].
    intros t Ht. apply seq_size_ascii. rewrite code_byte; lia. }
  destruct (Z.ltb_spec r 2048) as [H2|H2].
  { eapply sequence_lead with (n := 0%nat); [apply lead_byte; lia|lia..| |done].
    intros t Ht. change ("" +:+ t) with t. by rewrite Ht. }
  destruct (Z.ltb_spec r 65536) as [H3|H3].
  { eapply sequence_lead with (n := 1%nat); [apply lead_byte; lia|lia|lia|repeat case_match; lia| |done].
    intros t Ht. change (String ?c "" +:+ t) with (String c t). by rewrite ahead_byte, Ht by lia. }
  eapply sequence_lead with (n := 2%nat); [apply lead_byte; lia|lia|lia|repeat case_match; lia| |done].
  intros t Ht. change (String ?c (String ?c' "") +:+ t) with (String c (String c' t)).
  by rewrite !ahead_byte, Ht by lia.
Qed.

Lemma decode_prefix s0 t : decode_from (String.length s0) (raw (s0 +:+ t)) = s0 +:+ decode_from 0 (raw t).
Proof. induction s0 as [|c s0 IH]; [done|]. simpl. by rewrite IH. Qed.

Lemma decode_sequence s t : sequence s → ahead (raw t) = [] →
  decode_from 0 (raw (s +:+ t)) = s +:+ decode_from 0 (raw t) ∧ ahead (raw (s +:+ t)) = [].
Proof.
  intros (c & s0 & -> & Hc & Hs) Ht. change (String c s0 +:+ t) with (String c (s0 +:+ t)).
  cbn [raw decode_from]. rewrite (Hs t Ht), decode_prefix. split; [done|]. simpl. by rewrite Hc.
Qed.

Lemma hex_value_bounds c : is_hex c = true → 0 ≤ hex_value c < 16.
Proof. destruct c as [[] [] [] [] [] [] [] []]; vm_compute; done || (by intros _; split). Qed.

Lemma hex4_bounds h1 h2 h3 h4 : wf_item (Uni h1 h2 h3 h4) = true → 0 ≤ hex4 h1 h2 h3 h4 < 65536.
Proof.
  cbn [wf_item]. intros [[[H1 H2]%andb_true_iff H3]%andb_true_iff H4]%andb_true_iff. unfold hex4.
  apply hex_value_bounds in H1, H2, H3, H4. lia.
Qed.

Lemma replacement_sequence : sequence (encode_rune replacement).
Proof. by apply encode_rune_sequence. Qed.

Lemma decode_pair_sequence r1 r2 r : decode_pair r1 r2 = Some r → sequence (encode_rune r).
Proof.
  unfold decode_pair, within. case_match eqn:E; [|done]. intros [= <-].
  rewrite !andb_true_iff, !Z.leb_le in E.
  apply encode_rune_sequence; [lia|]. unfold is_surrogate, within. apply andb_false_iff.
  rewrite !Z.leb_gt. lia.
Qed.

Lemma escape_byte_ascii e : is_escape e = true → code (escape_byte e) < 128.
Proof. by destruct e as [[] [] [] [] [] [] [] []]. Qed.

Lemma not_cont_ascii c : code c < 128 → is_cont c = false.
Proof. intros Hc. unfold is_cont. apply andb_false_iff. rewrite !Z.leb_gt. lia. Qed.

(** What a text decodes to is read back from its bytes, and begins no earlier sequence. *)
Lemma decode_from_valid l : wf_string l → ∀ n, (n ≤ length (ahead l))%nat →
  decode_from n (raw (decode_from n l)) = decode_from n l ∧ ahead (raw (decode_from n l)) = take n (ahead l).
Proof.
  induction l as [l IH] using (induction_ltof1 _ length). unfold ltof in IH. intros Hwf n Hn.
  destruct l as [|x l]; [by destruct n|]. apply Forall_cons in Hwf as [Hx Hwf].
  assert (∀ m, (m ≤ length (ahead l))%nat → decode_from m (raw (decode_from m l)) = decode_from m l ∧
    ahead (raw (decode_from m l)) = take m (ahead l)) as IHl by (intros; apply IH; [simpl; lia|done..]).
  destruct (IHl 0%nat ltac:(lia)) as [H0 Ha0]. rewrite take_0 in Ha0.
  assert (∀ s, sequence s → decode_from 0 (raw (s +:+ decode_from 0 l)) = s +:+ decode_from 0 l ∧
    ahead (raw (s +:+ decode_from 0 l)) = []) as Hseq.
  { intros s Hs. destruct (decode_sequence _ _ Hs Ha0) as [Hd Ha]. by rewrite Hd, H0. }
  destruct x as [c|e|h1 h2 h3 h4].
  - destruct n as [|n].
    + rewrite take_0. cbn [decode_from]. destruct (seq_size c (ahead l)) as [k|] eqn:Hk.
      * destruct (IHl k (seq_size_ahead _ _ _ Hk)) as [Hd Ha]. cbn [raw decode_from ahead].
        rewrite Ha, (seq_size_take _ _ _ Hk), Hd, (seq_size_lead _ _ _ Hk). done.
      * apply Hseq, replacement_sequence.
    + cbn [decode_from raw ahead] in *. destruct (is_cont c); [|simpl in Hn; lia]. simpl in Hn.
      destruct (IHl n ltac:(lia)) as [-> ->]. done.
  - assert (n = 0%nat) as -> by (simpl in Hn; lia). cbn [decode_from raw ahead].
    pose proof (escape_byte_ascii e Hx) as He. rewrite seq_size_ascii, not_cont_ascii, H0 by done. done.
  - assert (n = 0%nat) as -> by (simpl in Hn; lia). cbn [ahead]. rewrite take_nil. cbn [decode_from].
    destruct (is_surrogate _) eqn:Hs; [|apply Hseq, encode_rune_sequence; [|done]].
    2: { pose proof (hex4_bounds _ _ _ _ Hx). lia. }
    destruct l as [|[c|e|g1 g2 g3 g4] l]; [by apply Hseq, replacement_sequence..|].
    destruct (decode_pair _ _) as [r|] eqn:Hp; [|by apply Hseq, replacement_sequence].
    apply Forall_cons in Hwf as [_ Hwf].
    destruct (IH l ltac:(simpl; lia) Hwf 0%nat ltac:(lia)) as [Hd Ha]. rewrite take_0 in Ha.
    destruct (decode_sequence _ _ (decode_pair_sequence _ _ _ Hp) Ha) as [-> ->]. by rewrite Hd.
Qed.

(** A decoded string is UTF-8: making it valid changes nothing. *)
Lemma to_valid_decode l : wf_string l → to_valid (decode l) = decode l.
Proof. intros Hl. apply decode_from_valid; [done|lia]. Qed.

(** ** What is written is a string's text *)

Lemma low_escape_wf c : wf_item (low_escape c) = true.
Proof. by destruct c as [[] [] [] [] [] [] [] []]. Qed.

Lemma quote_ascii_wf c : code c < 128 → wf_item (quote_ascii c) = true.
Proof. by destruct c as [[] [] [] [] [] [] [] []]. Qed.

Lemma high_wf c : 128 ≤ code c → wf_item (Byte c) = true.
Proof. by destruct c as [[] [] [] [] [] [] [] []]. Qed.

Lemma separator_escape_wf c : wf_item (separator_escape c) = true.
Proof. unfold separator_escape. by case_match. Qed.

Lemma is_cont_high c : is_cont c = true → 128 ≤ code c.
Proof. by intros [H%Z.leb_le _]%andb_true_iff. Qed.

Lemma quote_from_wf s : ∀ n, (n ≤ length (ahead (raw s)))%nat → wf_string (quote_from n s).
Proof.
  induction s as [s IH] using (induction_ltof1 _ String.length). unfold ltof in IH. intros n Hn.
  destruct s as [|c s]; [by destruct n; constructor|]. destruct n as [|n].
  - destruct (quote_from_lead c s) as [Hc|[[Hk ->]|[(c1 & c2 & s3 & -> & Hs & ->)|(k & Hc & Hk & ->)]]].
    + cbn [quote_from]. rewrite (proj2 (Z.ltb_lt _ _)) by done.
      constructor; [by apply quote_ascii_wf|]. apply IH; simpl; lia.
    + constructor; [done|]. apply IH; simpl; lia.
    + constructor; [by apply separator_escape_wf|]. apply IH; simpl; lia.
    + constructor; [by apply high_wf|]. apply IH; [simpl; lia|]. by eapply seq_size_ahead.
  - cbn [quote_from ahead raw] in *. destruct (is_cont c) eqn:Hc; [|simpl in Hn; lia].
    constructor; [by apply high_wf, is_cont_high|]. apply IH; [simpl; lia|]. simpl in Hn. lia.
Qed.

Lemma quote_wf s : wf_string (quote_items s).
Proof. apply quote_from_wf. lia. Qed.

Lemma compact_wf l : wf_string l → wf_string (compact_items l).
Proof.
  induction l as [l IH] using (induction_ltof1 _ length). unfold ltof in IH. intros Hwf.
  destruct Hwf as [|x l Hx Hwf]; [constructor|].
  assert (wf_string (compact_items l)) as Hl by (apply IH; [simpl; lia|done]).
  destruct x as [c|e|]; [|by constructor..]. cbn [compact_items].
  case_match; [constructor; [apply low_escape_wf|done]|].
  destruct l as [|[c1| |] l]; [by constructor| |by constructor..].
  destruct l as [|[c2| |] l]; [by constructor| |by constructor..].
  case_match; [|by constructor]. constructor; [by apply separator_escape_wf|].
  apply IH; [simpl; lia|]. by inversion Hwf as [|? ? _ Hwf']; inversion Hwf'.
Qed.
