(* ===== verification/GoUnmarshal.v ===== *)
(** * Go values of JSON texts

    json.Unmarshal into a struct of strings and booleans, and into a map of raw messages;
    json.Marshal of such a map.  [decoded] is what a text means, whatever way its strings
    are escaped. *)

From S2P Require Import Prelude GoStrings GoJson GoText.
From stdpp Require Import sorting.
Open Scope Z_scope.
#[local] Set Warnings "-register-all".

(** The text of an error of encoding/json for a body it rejects. *)
Class JsonError := json_error : string → string.

(** ** Meaning *)

Inductive data :=
  | DNull
  | DBool (b : bool)
  | DNum (n : number)
  | DStr (s : string)
  | DArr (l : list data)
  | DObj (l : list (string * data)).

Fixpoint decoded (v : json) : data :=
  match v with
  | JNull => DNull
  | JBool b => DBool b
  | JNum n => DNum n
  | JStr l => DStr (decode l)
  | JArr l => DArr (map decoded l)
  | JObj l => DObj (map (λ m, (decode m.1, decoded m.2)) l)
  end.

(** ** Struct fields *)

Definition is_lower (c : ascii) : bool := within 97 122 (code c).

Definition upper (c : ascii) : ascii := if is_lower c then byte (code c - 32) else c.

(** The form under which the names of fields are compared: ASCII letters in upper case, and
    U+017F and U+212A as the letters S and K they fold to.  Other runes fold to no ASCII
    letter and are left alone. *)
Fixpoint fold_name (s : string) : string :=
  match s with
  | String c s1 =>
    match s1 with
    | String c1 s2 =>
      if (code c =? 197) && (code c1 =? 191) then String "S" (fold_name s2)
      else match s2 with
      | String c2 s3 =>
        if (code c =? 226) && (code c1 =? 132) && (code c2 =? 170) then String "K" (fold_name s3)
        else String (upper c) (fold_name s1)
      | EmptyString => String (upper c) (fold_name s1)
      end
    | EmptyString => String (upper c) ""
    end
  | EmptyString => ""
  end.

(** A member's key selects the field: by its exact name or by its folded one. *)
Definition selects (key name : string) : bool :=
  bool_decide (key = name) || bool_decide (fold_name key = fold_name name).

(** A field's new value; [None] is a type error.  null leaves the field alone. *)
Definition store_string (v : json) (old : string) : option string :=
  match v with JStr l => Some (decode l) | JNull => Some old | _ => None end.

Definition store_bool (v : json) (old : bool) : option bool :=
  match v with JBool b => Some b | JNull => Some old | _ => None end.

(** The members of an object, each given to [store]; [store] returns [None] on a type
    error, which the whole decoding then reports. *)
Fixpoint store_members {A} (store : string → json → A → option A) (l : list (list item * json)) (x : A)
    : option A :=
  match l with
  | [] => Some x
  | (k, v) :: l' => x' ← store (decode k) v x; store_members store l' x'
  end.

(** [json.Unmarshal] into a struct whose fields [store] sets. *)
Definition unmarshal_struct {A} (store : string → json → A → option A) (zero : A) (body : string) : option A :=
  match parse body with
  | Some JNull => Some zero
  | Some (JObj l) => store_members store l zero
  | _ => None
  end.

(** ** Maps of raw messages *)

Definition fields_of (l : list (list item * json)) : gmap string json :=
  foldl (λ m kv, <[decode kv.1 := kv.2]> m) ∅ l.

(** [json.Unmarshal] into a nil map: [None] an error, [Some None] the map left nil. *)
Definition unmarshal_fields (body : string) : option (option (gmap string json)) :=
  match parse body with
  | Some JNull => Some None
  | Some (JObj l) => Some (Some (fields_of l))
  | _ => None
  end.

(** A raw message is copied without its white space, its strings escaped for HTML. *)
Fixpoint compact (v : json) : json :=
  match v with
  | JStr l => JStr (compact_items l)
  | JArr l => JArr (map compact l)
  | JObj l => JObj (map (λ m, (compact_items m.1, compact m.2)) l)
  | _ => v
  end.

(** [strings.Compare(a, b) <= 0]. *)
Fixpoint str_leb (a b : string) : bool :=
  match a, b with
  | EmptyString, _ => true
  | String _ _, EmptyString => false
  | String c a', String d b' => (code c <? code d) || ((code c =? code d) && str_leb a' b')
  end.

Definition key_le (m1 m2 : string * json) : Prop := str_leb m1.1 m2.1 = true.

#[export] Instance key_le_dec m1 m2 : Decision (key_le m1 m2).
Proof. unfold key_le. apply _. Defined.

Definition sorted_fields (m : gmap string json) : list (string * json) := merge_sort key_le (map_to_list m).

Definition write_member (m : string * json) : list item * json := (quote_items m.1, compact m.2).

(** The text of an object. *)
Definition object_text (l : list (string * json)) : string := print (JObj (map write_member l)) "".

(** [json.Marshal] of a map: its members in the order of their keys. *)
Definition marshal_fields (m : gmap string json) : string := object_text (sorted_fields m).

(** [json.Marshal] of a string. *)
Definition marshal_string (s : string) : json := JStr (quote_items s).

(** ** Marshalled maps are read back *)

Lemma decoded_compact v : decoded (compact v) = decoded v.
Proof.
  induction v as [|b|n|l|l IH|l IH] using json_nested_ind; simpl; [done..| | |].
  - by rewrite decode_compact.
  - f_equal. rewrite map_map. apply map_ext_Forall. exact IH.
  - f_equal. rewrite map_map. apply map_ext_Forall. eapply Forall_impl; [exact IH|].
    intros m Hm. simpl. by rewrite decode_compact, Hm.
Qed.

Lemma compact_json_wf depth v : wf_json depth v → wf_json depth (compact v).
Proof.
  revert depth. induction v as [|b|n|l|l IH|l IH] using json_nested_ind; intros depth Hv; [done..| | |].
  - inversion Hv; subst. constructor. by apply compact_wf.
  - inversion Hv; subst. constructor; [done|]. apply Forall_fmap. rewrite Forall_forall in *. intros x Hx. by apply IH; auto.
  - inversion Hv; subst. constructor; [done|]. apply Forall_fmap. rewrite Forall_forall in *. intros x Hx. simpl.
    destruct (H2 x Hx). split; [by apply compact_wf|by apply IH].
Qed.

#[export] Instance key_le_trans : Transitive key_le.
Proof.
  intros [a x] [b y] [c z]. unfold key_le. simpl. clear. revert b c.
  induction a as [|ch a IH]; intros [|d b] [|e c]; simpl; try done.
  rewrite !orb_true_iff, !andb_true_iff, !Z.ltb_lt, !Z.eqb_eq.
  intros [?|[? ?]] [?|[? ?]]; [left; lia..|right]. split; [lia|by eapply IH].
Qed.

#[export] Instance key_le_total : Total key_le.
Proof.
  intros [a x] [b y]. unfold key_le. simpl. clear. revert b.
  induction a as [|ch a IH]; intros [|d b]; simpl; auto.
  rewrite !orb_true_iff, !andb_true_iff, !Z.ltb_lt, !Z.eqb_eq.
  destruct (Z.lt_trichotomy (code ch) (code d)) as [?|[?|?]]; auto.
  destruct (IH b); auto.
Qed.

Lemma sorted_fields_perm m : sorted_fields m ≡ₚ map_to_list m.
Proof. apply merge_sort_Permutation. Qed.

Lemma sorted_fields_sorted m : StronglySorted key_le (sorted_fields m).
Proof. apply Sorted_StronglySorted; [apply _|]. apply Sorted_merge_sort. apply _. Qed.

Lemma sorted_fields_nodup m : NoDup (sorted_fields m).*1.
Proof. rewrite sorted_fields_perm. apply NoDup_fst_map_to_list. Qed.

Lemma elem_of_sorted_fields m k v : (k, v) ∈ sorted_fields m ↔ m !! k = Some v.
Proof. by rewrite sorted_fields_perm, elem_of_map_to_list. Qed.

(** *** The fields of an object *)

Lemma fields_of_app l1 l2 :
  fields_of (l1 ++ l2) = foldl (λ m kv, <[decode kv.1 := kv.2]> m) (fields_of l1) l2.
Proof. apply foldl_app. Qed.

(** A field's value is that of its last member. *)
Lemma fields_of_Some l k v : fields_of l !! k = Some v → ∃ x, (x, v) ∈ l ∧ decode x = k.
Proof.
  induction l as [|[x w] l IH] using rev_ind; [done|]. rewrite fields_of_app. simpl.
  destruct (decide (decode x = k)) as [<-|Hk].
  - rewrite lookup_insert_eq. intros [= ->]. exists x. split; [|done]. apply elem_of_app. right. by left.
  - rewrite lookup_insert_ne by done. intros (y & Hy & ?)%IH. exists y. split; [|done].
    apply elem_of_app. by left.
Qed.

Lemma fields_of_None l k : fields_of l !! k = None ↔ ∀ m, m ∈ l → decode m.1 ≠ k.
Proof.
  induction l as [|[x w] l IH] using rev_ind; [by split; [intros _ m []%not_elem_of_nil|]|].
  rewrite fields_of_app. simpl. destruct (decide (decode x = k)) as [<-|Hk].
  - rewrite lookup_insert_eq. split; [done|]. intros H. destruct (H (x, w)); [|done]. apply elem_of_app. right. by left.
  - rewrite lookup_insert_ne, IH by done. setoid_rewrite elem_of_app. setoid_rewrite list_elem_of_singleton.
    split; [intros H m [Hm| ->]; [by apply H|exact Hk]|intros H m Hm; apply H; by left].
Qed.

(** An object with distinct keys. *)
Lemma fields_of_nodup l k x v :
  NoDup ((λ m, decode m.1) <$> l) → (x, v) ∈ l → decode x = k → fields_of l !! k = Some v.
Proof.
  intros Hnd Hin Hx. destruct (fields_of l !! k) as [w|] eqn:E.
  - apply fields_of_Some in E as (y & Hy & Hyk). f_equal.
    assert (∀ m1 m2, m1 ∈ l → m2 ∈ l → decode m1.1 = decode m2.1 → m1 = m2) as Hinj.
    { clear -Hnd. intros m1 m2 [i Hi]%list_elem_of_lookup [j Hj]%list_elem_of_lookup Heq.
      assert (i = j) as ->; [|congruence].
      eapply (NoDup_lookup _ i j (decode m1.1)); [exact Hnd|..]; rewrite list_lookup_fmap.
      - by rewrite Hi.
      - by rewrite Hj, Heq. }
    by specialize (Hinj (y, w) (x, v) Hy Hin (eq_trans Hyk (eq_sym Hx))) as [= _ ->].
  - rewrite fields_of_None in E. by destruct (E (x, v)).
Qed.

(** The keys of a map that was read, and its values. *)
Definition wf_fields (m : gmap string json) : Prop :=
  map_Forall (λ k v, to_valid k = k ∧ wf_json 1 v) m.

Lemma fields_of_wf l : Forall (λ m, wf_string m.1 ∧ wf_json 1 m.2) l → wf_fields (fields_of l).
Proof.
  intros Hl k v (x & Hx & <-)%fields_of_Some. rewrite Forall_forall in Hl. apply Hl in Hx as [? ?].
  split; [by apply to_valid_decode|done].
Qed.

Lemma unmarshal_fields_wf body m : unmarshal_fields body = Some (Some m) → wf_fields m.
Proof.
  unfold unmarshal_fields. destruct (parse body) as [[]|] eqn:E; try done. intros [= <-].
  apply parse_wf in E. inversion E. by apply fields_of_wf.
Qed.

Lemma write_members_wf m : wf_fields m → wf_json 0 (JObj (map write_member (sorted_fields m))).
Proof.
  intros Hm. constructor; [done|]. apply Forall_fmap, Forall_forall. intros [k v] Hk%elem_of_sorted_fields.
  destruct (Hm k v Hk) as [_ Hv]. split; [apply quote_wf|by apply compact_json_wf].
Qed.

Lemma parse_marshal m : wf_fields m →
  parse (marshal_fields m) = Some (JObj (map write_member (sorted_fields m))).
Proof. intros Hm. by apply parse_print, write_members_wf. Qed.

Lemma decode_written k v m : wf_fields m → m !! k = Some v → decode (quote_items k) = k.
Proof. intros Hm Hk. rewrite decode_quote. by destruct (Hm k v Hk). Qed.

Lemma written_keys m : wf_fields m →
  (λ x, decode x.1) <$> map write_member (sorted_fields m) = (sorted_fields m).*1.
Proof.
  intros Hm. change (map write_member) with (fmap (M := list) write_member). rewrite <- list_fmap_compose.
  apply list_fmap_ext. intros i [k v] Hi%list_elem_of_lookup_2. apply elem_of_sorted_fields in Hi. simpl.
  by eapply decode_written.
Qed.

(** A marshalled map is read back, its values compacted. *)
Lemma unmarshal_marshal m : wf_fields m → unmarshal_fields (marshal_fields m) = Some (Some (compact <$> m)).
Proof.
  intros Hm. unfold unmarshal_fields. rewrite parse_marshal by done. do 2 f_equal. apply map_eq. intros k.
  rewrite lookup_fmap. set (l := map write_member (sorted_fields m)).
  assert (NoDup ((λ x, decode x.1) <$> l)) as Hnd by (subst l; rewrite written_keys by done; apply sorted_fields_nodup).
  destruct (m !! k) as [v|] eqn:Hk.
  - apply (fields_of_nodup l k (quote_items k)); [done| |by eapply decode_written].
    apply list_elem_of_fmap. exists (k, v). split; [done|by apply elem_of_sorted_fields].
  - apply fields_of_None. subst l. intros m0 ([k' v] & -> & Hin)%list_elem_of_fmap. simpl.
    apply elem_of_sorted_fields in Hin. erewrite decode_written by done. congruence.
Qed.

(** *** Decoding into a struct *)

Lemma store_members_app {A} (store : string → json → A → option A) l1 l2 x :
  store_members store (l1 ++ l2) x = store_members store l1 x ≫= store_members store l2.
Proof.
  revert x. induction l1 as [|[k v] l1 IH]; intros x; [done|]. simpl.
  destruct (store _ _ _); [apply IH|done].
Qed.
