(* ===== verification/GoMux.v ===== *)
(** * http.ServeMux and JSON responses

    What the admin APIs use of net/http's ServeMux: patterns of a method and a path whose
    segments are literal or wildcards, matched against the cleaned and escaped path of a
    request; and of json.Encoder, the values they encode. *)

From S2P Require Import Prelude GoFloat GoStrings GoHttp GoJson GoText GoUnmarshal.
Open Scope Z_scope.

(** ** Paths *)

Definition slash : ascii := "/".

(** url.PathUnescape: [None] on a percent sign without two hexadecimal digits. *)
Fixpoint PathUnescape (s : string) : option string :=
  match s with
  | EmptyString => Some ""
  | String c s1 =>
    if decide (c = "%"%char) then
      match s1 with
      | String h (String l s2) =>
        if is_hex h && is_hex l then String (byte (hex_value h * 16 + hex_value l)) <$> PathUnescape s2 else None
      | _ => None
      end
    else String c <$> PathUnescape s1
  end.

(** A segment that cannot be unescaped stands for itself. *)
Definition pathUnescape (s : string) : string := default s (PathUnescape s).

(** The segments of a rooted path: what follows each slash. *)
Definition segments (path : string) : list string :=
  match Split path slash with [] => [] | _ :: segs => segs end.

(** path.Clean on the segments of a rooted path, the last one first. *)
Definition clean_segment (acc : list string) (seg : string) : list string :=
  if decide (seg = "" ∨ seg = ".") then acc
  else if decide (seg = "..") then match acc with [] => [] | _ :: acc' => acc' end
  else seg :: acc.

Definition rooted (segs : list string) : string := String slash (Join segs slash).

Definition ends_in_slash (path : string) : bool := bool_decide (list.last (segments path) = Some "").

(** net/http's cleanPath, which keeps a trailing slash. *)
Definition cleanPath (p : string) : string :=
  let p' := match p with
    | EmptyString => String slash ""
    | String c _ => if decide (c = slash) then p else String slash p
    end in
  let segs := rev (foldl clean_segment [] (segments p')) in
  if ends_in_slash p' then match segs with [] => rooted [] | _ => rooted (segs ++ [""]) end
  else rooted segs.

(** ** Patterns *)

Inductive Segment :=
  | Literal (s : string)
  | Wildcard.

Record Pattern := {
  pat_method : string;
  pat_path : list Segment;
}.

(** The values of the wildcards when the path fits.  A wildcard stands for one segment and
    not for a lone slash. *)
Fixpoint fits (pat : list Segment) (segs : list string) : option (list string) :=
  match pat, segs with
  | [], [] => Some []
  | Literal s :: pat', seg :: segs' => if decide (pathUnescape seg = s) then fits pat' segs' else None
  | Wildcard :: pat', seg :: segs' =>
    let v := pathUnescape seg in
    if decide (v = "" ∨ v = String slash "") then None else (cons v) <$> fits pat' segs'
  | _, _ => None
  end.

(** GET patterns serve HEAD too. *)
Definition method_fits (m method : string) : bool :=
  bool_decide (m = method) || (bool_decide (m = "GET") && bool_decide (method = "HEAD")).

Fixpoint find_pattern {H} (mux : list (Pattern * H)) (method : string) (segs : list string)
    : option (H * list string) :=
  match mux with
  | [] => None
  | (p, h) :: mux' =>
    match (if method_fits (pat_method p) method then fits (pat_path p) segs else None) with
    | Some vars => Some (h, vars)
    | None => find_pattern mux' method segs
    end
  end.

(** The methods a path would be served for, sorted. *)
Definition allowed_methods {H} (mux : list (Pattern * H)) (segs : list string) : list string :=
  filter (λ m, existsb (λ ph : Pattern * H, method_fits (pat_method ph.1) m && bool_decide (is_Some (fits (pat_path ph.1) segs)))
                 mux = true)
    ["GET"; "HEAD"; "POST"].

Inductive Routed (H : Type) :=
  | Handled (h : H) (vars : list string)
  | Moved (path : string)
  | NotAllowed (methods : list string)
  | Unmatched.
Arguments Handled {H}.
Arguments Moved {H}.
Arguments NotAllowed {H}.
Arguments Unmatched {H}.

(** [path] is the request's escaped path.  A path that is not clean is redirected to the
    clean one, whether or not that is served. *)
Definition route {H} (mux : list (Pattern * H)) (method path : string) : Routed H :=
  let path' := if decide (method = "CONNECT") then path else cleanPath path in
  if decide (path' = path) then
    match find_pattern mux method (segments path) with
    | Some (h, vars) => Handled h vars
    | None => match allowed_methods mux (segments path) with [] => Unmatched | ms => NotAllowed ms end
    end
  else Moved path'.

(** What the mux itself answers. *)
Definition method_not_allowed (methods : list string) (w : Writer) : Writer :=
  Error "Method Not Allowed" StatusMethodNotAllowed (SetHeader "Allow" (String.concat ", " methods) w).

Definition not_found (w : Writer) : Writer := Error "404 page not found" StatusNotFound w.

(** *** Lemmas *)

Lemma find_pattern_Some {H} (mux : list (Pattern * H)) method segs h vars :
  find_pattern mux method segs = Some (h, vars) →
  ∃ p, (p, h) ∈ mux ∧ method_fits (pat_method p) method = true ∧ fits (pat_path p) segs = Some vars.
Proof.
  induction mux as [|[p h'] mux IH]; simpl; [done|]. destruct (method_fits (pat_method p) method) eqn:Hm.
  - destruct (fits (pat_path p) segs) as [v|] eqn:Hf.
    + intros [= <- <-]. exists p. split; [by left|done].
    + intros (q & Hq & ?)%IH. exists q. split; [by right|done].
  - intros (q & Hq & ?)%IH. exists q. split; [by right|done].
Qed.

Lemma route_Handled {H} (mux : list (Pattern * H)) method path h vars :
  route mux method path = Handled h vars →
  ∃ p, (p, h) ∈ mux ∧ method_fits (pat_method p) method = true ∧ fits (pat_path p) (segments path) = Some vars.
Proof.
  unfold route. case_decide; [|done].
  destruct (find_pattern mux method (segments path)) as [[h' v]|] eqn:Hf.
  - intros [= -> ->]. by apply find_pattern_Some.
  - by destruct (allowed_methods _ _).
Qed.

(** Segments that cleaning leaves alone. *)
Definition kept (seg : string) : Prop := seg ≠ "" ∧ seg ≠ "." ∧ seg ≠ ".." ∧ avoids slash seg.

Lemma segments_rooted segs : segs ≠ [] → Forall (avoids slash) segs → segments (rooted segs) = segs.
Proof.
  intros Hne Hall. unfold segments, rooted.
  change (Split (String slash (Join segs slash)) slash) with
    (if decide (slash = slash) then "" :: Split (Join segs slash) slash
     else match Split (Join segs slash) slash with [] => [String slash ""] | w :: ws => String slash w :: ws end).
  rewrite decide_True by done. by apply Split_Join.
Qed.

Lemma clean_kept acc segs : Forall kept segs → foldl clean_segment acc segs = rev segs ++ acc.
Proof.
  intros Hall. revert acc. induction Hall as [|seg segs (H1 & H2 & H3 & _) _ IH]; intros acc; [done|].
  simpl. unfold clean_segment at 2. rewrite decide_False by tauto. rewrite decide_False by done.
  rewrite IH. by rewrite <- app_assoc.
Qed.

Lemma cleanPath_kept segs : segs ≠ [] → Forall kept segs → cleanPath (rooted segs) = rooted segs.
Proof.
  intros Hne Hall. assert (Forall (avoids slash) segs) as Hav.
  { eapply Forall_impl; [exact Hall|]. by intros seg (_ & _ & _ & ?). }
  unfold cleanPath. cbn [rooted]. fold (rooted segs). rewrite decide_True by done. fold (rooted segs).
  unfold ends_in_slash. rewrite segments_rooted by done. rewrite clean_kept, app_nil_r, rev_involutive by done.
  rewrite bool_decide_false; [done|]. intros Hl. apply last_Some in Hl as [l' ->].
  apply Forall_app in Hall as [_ Hall]. inversion Hall as [|? ? (? & _) _]. done.
Qed.

#[export] Instance kept_dec seg : Decision (kept seg).
Proof. unfold kept. apply _. Defined.

Lemma route_rooted {H} (mux : list (Pattern * H)) method segs :
  method ≠ "CONNECT" → segs ≠ [] → Forall kept segs →
  route mux method (rooted segs) =
    match find_pattern mux method segs with
    | Some (h, vars) => Handled h vars
    | None => match allowed_methods mux segs with [] => Unmatched | ms => NotAllowed ms end
    end.
Proof.
  intros Hm Hne Hall. unfold route. cbv zeta.
  rewrite (decide_False (P := method = "CONNECT")) by done. rewrite cleanPath_kept, decide_True by done.
  rewrite segments_rooted; [done|done|]. eapply Forall_impl; [exact Hall|]. by intros ? (_ & _ & _ & ?).
Qed.
