(* ===== verification/Router.v ===== *)
(** * The inference router (control-plane/router/router.go)

    [pickWorker] and the handler with its retry loop.  Between two reads of an
    in-flight counter other requests may change it, so the values read are an
    argument: [reads k id] is what the [k]-th call of [getInFlight] in one
    [pickWorker] returns.  A worker's answer to a forwarded request comes from
    outside the program and is an argument too ([Exchange]).  The handler returns
    the events other parts can observe, in order, and the response. *)

From S2P Require Import Prelude GoFloat Proto GoTimer Registry GoHttp GoStrings GoJson GoUnmarshal.
Open Scope Z_scope.

(** ** Worker selection *)

Abbreviation id_of e := (WorkerId (Info e)).
Abbreviation cost_of e := (CostPerHour (Info e)).

(** The loop over [workers[1:]]; [k] numbers the next [getInFlight] call. *)
Fixpoint min_flight (reads : nat → string → Z) (k : nat) (cur : Z) (ws : list WorkerEntry) : Z :=
  match ws with
  | [] => cur
  | w :: ws' =>
    let f := reads k (id_of w) in
    min_flight reads (S k) (if f <? cur then f else cur) ws'
  end.

(** The loop that keeps the workers at the minimum. *)
Fixpoint at_flight (reads : nat → string → Z) (k : nat) (m : Z) (ws : list WorkerEntry)
    : list WorkerEntry :=
  match ws with
  | [] => []
  | w :: ws' =>
    let rest := at_flight reads (S k) m ws' in
    if reads k (id_of w) =? m then w :: rest else rest
  end.

Fixpoint min_cost (cur : float64) (ws : list WorkerEntry) : float64 :=
  match ws with
  | [] => cur
  | w :: ws' => min_cost (if f_ltb (cost_of w) cur then cost_of w else cur) ws'
  end.

Definition at_cost (m : float64) (ws : list WorkerEntry) : list WorkerEntry :=
  filter (λ w, f_eqb (cost_of w) m) ws.

(** The new value of the round-robin counter and the worker, or the panic of an
    index or a remainder by zero. *)
Definition pickWorker (workers : list WorkerEntry) (counter : Z) (reads : nat → string → Z)
    : Z * res WorkerEntry :=
  match workers with
  | [] => (counter, Panic IndexOutOfRange)
  | [w] => (counter, Ok w)
  | w0 :: ws =>
    let minFlight := min_flight reads 1 (reads 0%nat (id_of w0)) ws in
    let flight := at_flight reads (length workers) minFlight workers in
    match flight with
    | [] => (counter, Panic IndexOutOfRange)
    | [w] => (counter, Ok w)
    | f0 :: fs =>
      let cheapest := at_cost (min_cost (cost_of f0) fs) flight in
      let counter' := uint64 (counter + 1) in
      (counter',
       if decide (cheapest = []) then Panic DivideByZero
       else match cheapest !! Z.to_nat (counter' mod Z.of_nat (length cheapest)) with
            | Some w => Ok w
            | None => Panic IndexOutOfRange
            end)
    end
  end.

(** ** In-flight counters *)

(** [counter64] creates a missing counter at 0. *)
Definition counter64 (id : string) (m : gmap string Z) : Z * gmap string Z :=
  match m !! id with
  | Some c => (c, m)
  | None => (0, <[id := 0]> m)
  end.

Definition add_flight (d : Z) (id : string) (m : gmap string Z) : gmap string Z :=
  let '(c, m') := counter64 id m in <[id := int64 (c + d)]> m'.

Definition inc : string → gmap string Z → gmap string Z := add_flight 1.
Definition dec : string → gmap string Z → gmap string Z := add_flight (-1).

Definition getInFlight (m : gmap string Z) (id : string) : Z := default 0 (m !! id).

Definition InFlightSnapshot (m : gmap string Z) : gmap string Z := m.

(** ** Proxy *)

Record ProxyRequest := {
  pr_method : string;
  pr_target : string;
  pr_header : Header;
  pr_body : string;
}.

(** What the HTTP client gives back for a forwarded request: it cannot be built,
    the worker cannot be reached, or the worker answers with a status, a content
    type and a body whose copy may break off. *)
Inductive Exchange :=
  | BuildError (err : string)
  | Unreachable (err : string)
  | Responded (status : Z) (ctype : string) (body : string) (broken : option string).

Definition copy_header (from : Header) (to : Header) (h : string) : Header :=
  if decide (Get from h = "") then to else <[h := Get from h]> to.

Definition proxy_request (orig : Request) (target body : string) : ProxyRequest :=
  {| pr_method := Method orig; pr_target := target;
     pr_header := <["Content-Type" := "application/json"]>
       (foldl (copy_header (ReqHeader orig)) ∅ ["Content-Type"; "Accept"; "Authorization"]);
     pr_body := body |}.

(** [(retryable, err)] and the writer after [proxy], or the panic of [WriteHeader]. *)
Definition proxy (w : Writer) (x : Exchange) : res (bool * option string * Writer) :=
  match x with
  | BuildError err => Ok (true, Some ("build request: " +:+ err), w)
  | Unreachable err => Ok (true, Some ("upstream unreachable: " +:+ err), w)
  | Responded status ctype body broken =>
    if header_panics status w then Panic InvalidWriteHeaderCode
    else
      let w' := Write body (WriteHeader status (SetHeader "Content-Type" ctype w)) in
      match broken with
      | Some err => Ok (false, Some ("stream interrupted: " +:+ err), w')
      | None => Ok (false, None, w')
      end
  end.

(** ** The handler *)

Inductive Event :=
  | EvInc (id : string)
  | EvForward (r : ProxyRequest)
  | EvDec (id : string)
  | EvHook (model result : string).

Inductive Flow :=
  | Finished (w : Writer)
  | Panicked (p : GoPanic).

(** What one attempt sees of its surroundings. *)
Record AttemptEnv := {
  env_counter : Z;
  env_reads : nat → string → Z;
  env_exchange : ProxyRequest → Exchange;
}.

(** The struct with the one field [model] that the body is decoded into; [None] when
    decoding fails. *)
Definition model_field (key : string) (v : json) (model : string) : option string :=
  if selects key "model" then store_string v model else Some model.

Definition decode_model (body : string) : option string := unmarshal_struct model_field "" body.

(** The package's own [min] on ints. *)
Definition min (a b : Z) : Z := if a <? b then a else b.

Section handler.
Context (env : nat → AttemptEnv) (hook : bool).

Definition call_hook (model result : string) : list Event :=
  if hook then [EvHook model result] else [].

(** The retry loop from [attempt] on, with [n] attempts left.  The call of [dec] is not
    deferred: a panic of [proxy] skips it. *)
Fixpoint attempts (n attempt : nat) (req : Request) (model body : string)
    (workers : list WorkerEntry) (tried : list string) (w : Writer) : list Event * Flow :=
  let failed := (call_hook model "error",
    Finished (Error "all workers failed or unavailable" StatusBadGateway w)) in
  match n with
  | O => failed
  | S n' =>
    let candidates := filter (λ e, id_of e ∉ tried) workers in
    if decide (candidates = []) then failed
    else match pickWorker candidates (env_counter (env attempt)) (env_reads (env attempt)) with
    | (_, Panic p) => ([], Panicked p)
    | (_, Ok chosen) =>
      let r := proxy_request req ("http://" +:+ Address (Info chosen) +:+ Path req) body in
      let evs := [EvInc (id_of chosen); EvForward r; EvDec (id_of chosen)] in
      match proxy w (env_exchange (env attempt) r) with
      | Panic p => ([EvInc (id_of chosen); EvForward r], Panicked p)
      | Ok (_, None, w') => (evs ++ call_hook model "success", Finished w')
      | Ok (false, Some _, w') => (evs ++ call_hook model "error", Finished w')
      | Ok (true, Some _, w') =>
        let '(evs', flow) := attempts n' (S attempt) req model body workers (id_of chosen :: tried) w' in
        (evs ++ evs', flow)
      end
    end
  end.

Context `{FmtQuote} `{MapRange}.

(** [i] numbers the loop over the registry's map. *)
Definition handleInference (i : nat) (r : Registry) (req : Request) (w : Writer) : list Event * Flow :=
  if decide (Method req ≠ "POST") then
    ([], Finished (Error "method not allowed" StatusMethodNotAllowed w))
  else match ReqBody req with
  | None => ([], Finished (Error "failed to read request body" StatusBadRequest w))
  | Some body =>
    match decode_model body with
    | None | Some "" =>
      ([], Finished (Error "request body must contain a valid 'model' field" StatusBadRequest w))
    | Some model =>
      let workers := HealthyWorkersForModel i model r in
      if decide (workers = []) then
        ([], Finished (Error ("no healthy workers available for model " +:+ quote model)
               StatusServiceUnavailable w))
      else
        let maxAttempts := min (Z.of_nat (length workers)) 3 in
        attempts (Z.to_nat maxAttempts) 1 req model body workers [] w
    end
  end.

Definition ServeHTTP (i : nat) (r : Registry) (req : Request) (w : Writer) : list Event * Flow :=
  if decide (Path req = "/v1/chat/completions" ∨ Path req = "/v1/completions") then
    handleInference i r req w
  else if decide (Path req = "/healthz") then
    ([], Finished (Write "ok" (WriteHeader StatusOK w)))
  else ([], Finished (Error "not found" StatusNotFound w)).

End handler.

(** ** Lemmas on the selection loops *)

Section selection.
Context (fl : string → Z).

(** The reads numbered [lo] to [hi - 1] all see the counters [fl]. *)
Definition stable_on (lo hi : nat) (reads : nat → string → Z) : Prop :=
  ∀ k id, (lo ≤ k < hi)%nat → reads k id = fl id.

(** No other request changes a counter during the selection. *)
Definition stable (reads : nat → string → Z) : Prop := ∀ k id, reads k id = fl id.

Lemma stable_stable_on lo hi reads : stable reads → stable_on lo hi reads.
Proof. by intros H k id _. Qed.

Lemma min_flight_spec reads k cur ws :
  stable_on k (k + length ws) reads →
  let m := min_flight reads k cur ws in
  m ≤ cur ∧ (∀ w, w ∈ ws → m ≤ fl (id_of w)) ∧ (m = cur ∨ ∃ w, w ∈ ws ∧ m = fl (id_of w)).
Proof.
  revert k cur. induction ws as [|w ws IH]; intros k cur Hst; simpl.
  { split_and!; [lia|set_solver|by left]. }
  cbv zeta. assert (reads k (id_of w) = fl (id_of w)) as -> by (apply Hst; simpl; lia).
  set (cur' := if fl (id_of w) <? cur then fl (id_of w) else cur).
  assert (cur' ≤ cur ∧ cur' ≤ fl (id_of w) ∧ (cur' = cur ∨ cur' = fl (id_of w))) as (H1 & H2 & H3).
  { unfold cur'. destruct (Z.ltb_spec (fl (id_of w)) cur); split_and!; auto; lia. }
  destruct (IH (S k) cur') as (Ha & Hb & Hc); [intros j id Hj; apply Hst; simpl; lia|].
  split_and!.
  - lia.
  - intros v [->|Hv]%elem_of_cons; [lia|auto].
  - destruct Hc as [->|(v & Hv & ->)]; [|right; exists v; split; [by right|done]].
    destruct H3 as [->| ->]; [by left|right; exists w; split; [by left|done]].
Qed.

Lemma at_flight_stable reads k m ws :
  stable_on k (k + length ws) reads →
  at_flight reads k m ws = filter (λ w, fl (id_of w) = m) ws.
Proof.
  revert k. induction ws as [|w ws IH]; intros k Hst; [done|]. simpl.
  rewrite Hst by (simpl; lia).
  rewrite filter_cons, IH by (intros j id Hj; apply Hst; simpl; lia).
  destruct (Z.eqb_spec (fl (id_of w)) m).
  - by rewrite decide_True.
  - by rewrite decide_False.
Qed.

(** The workers with the fewest requests in flight: some worker attains the minimum. *)
Lemma flight_minimal reads w0 ws m :
  stable_on 0 (length (w0 :: ws)) reads → m = min_flight reads 1 (reads 0%nat (id_of w0)) ws →
  (∀ v, v ∈ w0 :: ws → m ≤ fl (id_of v)) ∧ ∃ v, v ∈ w0 :: ws ∧ fl (id_of v) = m.
Proof.
  intros Hst ->. rewrite (Hst 0%nat) by (simpl; lia).
  destruct (min_flight_spec reads 1 (fl (id_of w0)) ws) as (H1 & H2 & H3);
    [intros j id Hj; apply Hst; simpl; lia|]. split.
  - intros v [->|?]%elem_of_cons; auto.
  - destruct H3 as [->|(v & Hv & ->)]; [exists w0|exists v]; split; auto using list_elem_of_here, list_elem_of_further.
Qed.

End selection.

Lemma min_cost_spec cur ws :
  f_isnan cur = false → (∀ w, w ∈ ws → f_isnan (cost_of w) = false) →
  let m := min_cost cur ws in
  f_isnan m = false ∧ f_leb m cur = true ∧ (∀ w, w ∈ ws → f_leb m (cost_of w) = true) ∧
  (m = cur ∨ ∃ w, w ∈ ws ∧ m = cost_of w).
Proof.
  revert cur. induction ws as [|w ws IH]; intros cur Hcur Hws; simpl.
  { split_and!; [done|by apply f_leb_refl|set_solver|by left]. }
  assert (f_isnan (cost_of w) = false) as Hw by (apply Hws; by left).
  set (cur' := if f_ltb (cost_of w) cur then cost_of w else cur).
  assert (f_isnan cur' = false ∧ f_leb cur' cur = true ∧ f_leb cur' (cost_of w) = true ∧
    (cur' = cur ∨ cur' = cost_of w)) as (H1 & H2 & H3 & H4).
  { unfold cur'. destruct (f_ltb (cost_of w) cur) eqn:E.
    - split_and!; auto using f_ltb_leb_weak, f_leb_refl.
    - rewrite f_ltb_leb, negb_false_iff in E by done. split_and!; auto using f_leb_refl. }
  destruct (IH cur' H1) as (Ha & Hb & Hc & Hd); [intros; apply Hws; by right|]. split_and!.
  - done.
  - by eapply f_leb_trans; [|exact Hb|exact H2].
  - intros v [->|Hv]%elem_of_cons; [by eapply f_leb_trans; [|exact Hb|exact H3]|auto].
  - destruct Hd as [->|(v & Hv & ->)]; [|right; exists v; split; [by right|done]].
    destruct H4 as [->| ->]; [by left|right; exists w; split; [by left|done]].
Qed.

Lemma f_ltb_nan x : f_ltb x S754_nan = false.
Proof. by destruct x. Qed.

Lemma min_cost_nan ws : min_cost S754_nan ws = S754_nan.
Proof. induction ws as [|w ws IH]; [done|]. simpl. by rewrite f_ltb_nan. Qed.

Lemma at_cost_nan ws : at_cost S754_nan ws = [].
Proof. unfold at_cost. apply list_filter_none. intros w _ H. by destruct (cost_of w). Qed.

(** Among workers without a NaN cost some are at the minimum, and no cost is below. *)
Lemma cheapest_spec f0 fs :
  (∀ w, w ∈ f0 :: fs → f_isnan (cost_of w) = false) →
  let cheapest := at_cost (min_cost (cost_of f0) fs) (f0 :: fs) in
  cheapest ≠ [] ∧ ∀ w v, w ∈ cheapest → v ∈ f0 :: fs →
    w ∈ f0 :: fs ∧ f_leb (cost_of w) (cost_of v) = true.
Proof.
  intros Hnan. set (m := min_cost (cost_of f0) fs). simpl.
  destruct (min_cost_spec (cost_of f0) fs) as (Hm & H0 & Hle & Hin);
    [apply Hnan; by left|intros; apply Hnan; by right|]. fold m in Hm, H0, Hle, Hin.
  assert (∀ w, w ∈ at_cost m (f0 :: fs) ↔ w ∈ f0 :: fs ∧ f_eqb (cost_of w) m = true) as Hel.
  { intros w. unfold at_cost. rewrite list_elem_of_filter, Is_true_true. tauto. }
  split.
  - assert (∃ w, w ∈ f0 :: fs ∧ m = cost_of w) as (w & Hw & Hmw).
    { destruct Hin as [?|(w & ? & ?)]; [exists f0|exists w]; (split; [|done]); [by left|by right]. }
    assert (w ∈ at_cost m (f0 :: fs)) as Hc; [|by destruct (at_cost _ _); [set_solver|]].
    apply Hel. split; [done|]. rewrite <- Hmw, f_eqb_leb. by rewrite f_leb_refl.
  - intros w v [Hw Heq]%Hel Hv. split; [done|].
    rewrite f_eqb_leb in Heq. apply andb_true_iff in Heq as [Heq _].
    eapply f_leb_trans; [exact Hm|exact Heq|].
    apply elem_of_cons in Hv as [->|Hv]; auto.
Qed.

Lemma mod_length_lookup {A} (l : list A) c :
  l ≠ [] → ∃ x, l !! Z.to_nat (c mod Z.of_nat (length l)) = Some x ∧ x ∈ l.
Proof.
  intros Hl. assert (0 < Z.of_nat (length l)) by (destruct l; [done|simpl; lia]).
  pose proof (Z.mod_pos_bound c (Z.of_nat (length l)) ltac:(lia)).
  destruct (lookup_lt_is_Some_2 l (Z.to_nat (c mod Z.of_nat (length l)))) as [x Hx]; [lia|].
  exists x. split; [done|]. by eapply list_elem_of_lookup_2.
Qed.

Lemma pickWorker_in ws c reads c' w : pickWorker ws c reads = (c', Ok w) → w ∈ ws.
Proof.
  assert (∀ k m l v, v ∈ at_flight reads k m l → v ∈ l) as Hsub.
  { intros k m l. revert k. induction l as [|x l IH]; intros k v; simpl; [done|].
    case_goal; [intros [->|?%IH]%elem_of_cons; [by left|by right]|intros ?%IH; by right]. }
  unfold pickWorker. destruct ws as [|w0 [|w1 ws]]; [done|intros [= <- <-]; by left|].
  set (fl := at_flight _ _ _ _). assert (∀ v, v ∈ fl → v ∈ w0 :: w1 :: ws) as Hfl by apply Hsub.
  destruct fl as [|f0 [|f1 fs]]; [done|intros [= _ <-]; apply Hfl; by left|].
  case_decide; [done|]. destruct (_ !! _) as [v|] eqn:E; [|done]. intros [= _ <-].
  apply Hfl. apply list_elem_of_lookup_2 in E. unfold at_cost in E.
  by apply list_elem_of_filter in E as [_ ?].
Qed.
