(* ===== verification/RouterProps.v ===== *)
(** * Properties of the inference router

    Selection: optimality, fairness of the tie-break, and the two inputs on which
    it panics.  Handler: which workers are tried and in which order, what the
    client receives and what the metrics hook is told. *)

From S2P Require Import Prelude GoFloat Proto GoTimer Registry GoHttp GoJson GoUnmarshal Router.
Open Scope Z_scope.

(** ** Selection *)

Section selection_props.
Context (fl : string → Z).
Implicit Types (ws : list WorkerEntry) (reads : nat → string → Z).

(** When no counter changes during the selection and no cost is NaN, a
    selection among at least one worker never panics and returns one of them
    with the fewest requests in flight and, among those, the lowest cost. *)
Lemma pickWorker_optimal ws c reads :
  stable fl reads → ws ≠ [] → (∀ w, w ∈ ws → f_isnan (cost_of w) = false) →
  ∃ c' w, pickWorker ws c reads = (c', Ok w) ∧ w ∈ ws ∧
    (∀ v, v ∈ ws → fl (id_of w) ≤ fl (id_of v)) ∧
    (∀ v, v ∈ ws → fl (id_of v) = fl (id_of w) → f_leb (cost_of w) (cost_of v) = true).
Proof.
  intros Hst Hne Hnan. unfold pickWorker. destruct ws as [|w0 [|w1 ws]]; [done| |].
  { exists c, w0. split_and!; [done|by left|intros v ->%list_elem_of_singleton; lia|].
    intros v ->%list_elem_of_singleton _. apply f_leb_refl, Hnan. by left. }
  set (m := min_flight _ _ _ _).
  destruct (flight_minimal fl reads w0 (w1 :: ws) m) as (Hmin & v0 & Hv0 & Hm);
    [by apply stable_stable_on|done|].
  rewrite (at_flight_stable fl) by (by apply stable_stable_on). set (l := filter _ _).
  assert (∀ v, v ∈ l ↔ fl (id_of v) = m ∧ v ∈ w0 :: w1 :: ws) as Hl
    by (intros v; unfold l; by rewrite list_elem_of_filter).
  clearbody l m. assert (v0 ∈ l) as Hv0l by (by apply Hl).
  destruct l as [|f0 [|f1 fs]]; [set_solver| |].
  - destruct (proj1 (Hl f0)) as [Hf0 Hin]; [by left|].
    exists c, f0. split_and!; [done|done|intros v Hv; rewrite Hf0; auto|].
    intros v Hv Heq. rewrite Hf0 in Heq. assert (v ∈ [f0]) as ->%list_elem_of_singleton by (by apply Hl).
    by apply f_leb_refl, Hnan.
  - destruct (cheapest_spec f0 (f1 :: fs)) as [Hc Hcs].
    { intros w Hw. apply Hnan. by apply Hl. }
    rewrite decide_False by done.
    destruct (mod_length_lookup _ (uint64 (c + 1)) Hc) as (w & Hw & Hwin). rewrite Hw.
    exists (uint64 (c + 1)), w. split; [done|].
    destruct (Hcs w f0 Hwin) as [[Hfw Hwws]%Hl _]; [by left|].
    split_and!; [done|intros v Hv; rewrite Hfw; auto|].
    intros v Hv Heq. apply Hcs; [done|]. apply Hl. by rewrite Heq.
Qed.

(** One selection after another, each from the counter the last one left. *)
Fixpoint picks (n : nat) (ws : list WorkerEntry) (c : Z) (reads : nat → string → Z)
    : list (res WorkerEntry) :=
  match n with
  | O => []
  | S n' => let '(c', r) := pickWorker ws c reads in r :: picks n' ws c' reads
  end.

Lemma length_picks n ws c reads : length (picks n ws c reads) = n.
Proof.
  revert c. induction n as [|n IH]; intros c; [done|]. simpl.
  destruct (pickWorker ws c reads). simpl. by rewrite IH.
Qed.

(** Workers that tie in load and cost. *)
Definition tied ws : Prop :=
  (2 ≤ length ws)%nat ∧
  ∀ v w, v ∈ ws → w ∈ ws → fl (id_of v) = fl (id_of w) ∧ f_leb (cost_of v) (cost_of w) = true.

Lemma pickWorker_tied ws c reads :
  stable fl reads → tied ws →
  pickWorker ws c reads =
    (uint64 (c + 1), from_option Ok (Panic IndexOutOfRange)
       (ws !! Z.to_nat (uint64 (c + 1) mod Z.of_nat (length ws)))).
Proof.
  intros Hst [Hlen Htie]. unfold pickWorker. destruct ws as [|w0 [|w1 ws]]; [simpl in Hlen; lia..|].
  set (m := min_flight _ _ _ _).
  destruct (flight_minimal fl reads w0 (w1 :: ws) m) as (_ & v0 & Hv0 & Hm);
    [by apply stable_stable_on|done|].
  assert (∀ w, w ∈ w0 :: w1 :: ws → f_isnan (cost_of w) = false) as Hnan.
  { intros w Hw. destruct (Htie w w Hw Hw) as [_ H]. by destruct (cost_of w). }
  rewrite (at_flight_stable fl) by (by apply stable_stable_on). rewrite list_filter_all.
  2: { intros w Hw. rewrite <- Hm. by apply Htie. }
  unfold at_cost. rewrite (list_filter_all (λ w, Is_true (f_eqb _ _))).
  2: { intros w Hw. rewrite Is_true_true. destruct (min_cost_spec (cost_of w0) (w1 :: ws)) as (_ & _ & _ & Hin);
         [apply Hnan; by left|intros; apply Hnan; by right|].
       rewrite f_eqb_leb, andb_true_iff.
       destruct Hin as [->|(v & Hv & ->)]; split; apply Htie; auto using list_elem_of_here, list_elem_of_further. }
  rewrite decide_False by done. by destruct (_ !! _).
Qed.

(** The tie-break is fair: among n >= 2 workers with equal load and equal cost, n
    selections in a row pick every one of them exactly once. *)
Theorem pickWorker_round_robin ws c reads :
  stable fl reads → tied ws → 0 ≤ c → c + Z.of_nat (length ws) < 2 ^ 64 →
  picks (length ws) ws c reads ≡ₚ Ok <$> ws.
Proof.
  intros Hst Htie Hc Hover.
  assert (0 < length ws)%nat as Hpos by (destruct Htie; lia).
  assert (∀ n c0, 0 ≤ c0 → c0 + Z.of_nat n < 2 ^ 64 → ∀ j, (j < n)%nat →
    picks n ws c0 reads !! j = Ok <$> ws !! Z.to_nat ((c0 + 1 + Z.of_nat j) mod Z.of_nat (length ws))) as Hp.
  { induction n as [|n IH]; intros c0 Hc0 Hn j Hj; [lia|]. simpl.
    rewrite (pickWorker_tied ws) by done. rewrite uint64_id by lia.
    destruct j as [|j]; simpl.
    - rewrite Z.add_0_r. pose proof (Z.mod_pos_bound (c0 + 1) (Z.of_nat (length ws))).
      destruct (lookup_lt_is_Some_2 ws (Z.to_nat ((c0 + 1) mod Z.of_nat (length ws)))) as [w ->]; [lia|done].
    - rewrite IH by lia. do 4 f_equal. lia. }
  assert (picks (length ws) ws c reads = Ok <$> rotate (Z.to_nat (c + 1)) ws) as ->.
  { apply list_eq. intros j. rewrite list_lookup_fmap.
    destruct (decide (j < length ws)%nat) as [Hj|Hj].
    - rewrite Hp by lia. rewrite lookup_rotate_r by done. unfold rotate_nat_add. do 4 f_equal. lia.
    - rewrite !lookup_ge_None_2; [done|rewrite length_rotate; lia|].
      rewrite length_picks. lia. }
  apply fmap_Permutation. apply rotate_Permutation.
Qed.

(** A NaN price breaks the selection: when at least two workers tie for the fewest
    requests in flight and the first of them registered a NaN cost, no worker equals
    the minimum cost and the remainder by the empty list's length panics. *)
Theorem pickWorker_nan_panics ws c reads :
  stable fl reads → (2 ≤ length ws)%nat →
  (∀ v w, v ∈ ws → w ∈ ws → fl (id_of v) = fl (id_of w)) →
  (∃ w, head ws = Some w ∧ f_isnan (cost_of w) = true) →
  pickWorker ws c reads = (uint64 (c + 1), Panic DivideByZero).
Proof.
  intros Hst Hlen Htie (w & Hw & Hnan). unfold pickWorker.
  destruct ws as [|w0 [|w1 ws]]; [simpl in Hlen; lia..|]. injection Hw as ->.
  set (m := min_flight _ _ _ _).
  destruct (flight_minimal fl reads w (w1 :: ws) m) as (_ & v0 & Hv0 & Hm);
    [by apply stable_stable_on|done|].
  rewrite (at_flight_stable fl) by (by apply stable_stable_on). rewrite list_filter_all.
  2: { intros v Hv. rewrite <- Hm. by apply Htie. }
  destruct (cost_of w); try discriminate Hnan. rewrite min_cost_nan, at_cost_nan. done.
Qed.

(** Concurrent requests can break it too: if between its two passes over the
    counters every candidate gains requests above the minimum found by the first
    pass, the second pass keeps nobody and indexing the empty list panics. *)
Theorem pickWorker_race_panics fl' ws c reads :
  stable_on fl 0 (length ws) reads →
  stable_on fl' (length ws) (length ws + length ws) reads →
  (2 ≤ length ws)%nat →
  (∀ v w, v ∈ ws → w ∈ ws → fl (id_of v) < fl' (id_of w)) →
  pickWorker ws c reads = (c, Panic IndexOutOfRange).
Proof.
  intros Hst Hst' Hlen Hlt. unfold pickWorker.
  destruct ws as [|w0 [|w1 ws]]; [simpl in Hlen; lia..|].
  set (m := min_flight _ _ _ _).
  destruct (flight_minimal fl reads w0 (w1 :: ws) m) as (_ & v0 & Hv0 & Hm); [done..|].
  rewrite (at_flight_stable fl') by done. rewrite list_filter_none; [done|].
  intros w Hw. specialize (Hlt v0 w Hv0 Hw). lia.
Qed.

(** *** What a selection reads *)

Lemma min_flight_ext reads reads' k cur ws :
  (∀ j w, ws !! j = Some w → reads (k + j)%nat (id_of w) = reads' (k + j)%nat (id_of w)) →
  min_flight reads k cur ws = min_flight reads' k cur ws.
Proof.
  revert k cur. induction ws as [|w ws IH]; intros k cur Hr; [done|]. simpl.
  pose proof (Hr 0%nat w eq_refl) as H0. rewrite Nat.add_0_r in H0. rewrite H0. apply IH.
  intros j v Hj. replace (S k + j)%nat with (k + S j)%nat by lia. by apply Hr.
Qed.

Lemma at_flight_ext reads reads' k m ws :
  (∀ j w, ws !! j = Some w → reads (k + j)%nat (id_of w) = reads' (k + j)%nat (id_of w)) →
  at_flight reads k m ws = at_flight reads' k m ws.
Proof.
  revert k. induction ws as [|w ws IH]; intros k Hr; [done|]. simpl.
  pose proof (Hr 0%nat w eq_refl) as H0. rewrite Nat.add_0_r in H0. rewrite H0.
  rewrite (IH (S k)); [done|].
  intros j v Hj. replace (S k + j)%nat with (k + S j)%nat by lia. by apply Hr.
Qed.

(** A selection among [n >= 2] workers looks at [2 n] reads: each worker's counter in order,
    twice. *)
Lemma pickWorker_ext ws c reads reads' :
  (∀ k w, (2 ≤ length ws)%nat → (k < length ws + length ws)%nat → ws !! (k mod length ws)%nat = Some w →
    reads k (id_of w) = reads' k (id_of w)) →
  pickWorker ws c reads = pickWorker ws c reads'.
Proof.
  intros Hr. destruct ws as [|w0 [|w1 ws]]; [done..|]. unfold pickWorker.
  set (l := w0 :: w1 :: ws) in *.
  assert (∀ k w, l !! k = Some w → reads k (id_of w) = reads' k (id_of w)) as H1.
  { intros k w Hk. pose proof (lookup_lt_Some _ _ _ Hk). apply Hr; [simpl; lia|lia|]. by rewrite Nat.mod_small. }
  rewrite (H1 0%nat w0 eq_refl), (min_flight_ext reads reads' 1) by (intros j w Hj; by apply (H1 (S j))).
  rewrite (at_flight_ext reads reads' (length l)); [done|].
  intros j w Hj. pose proof (lookup_lt_Some _ _ _ Hj). apply Hr; [simpl; lia|lia|].
  replace (length l + j)%nat with (j + 1 * length l)%nat by lia. rewrite Nat.Div0.mod_add by lia.
  by rewrite Nat.mod_small.
Qed.

End selection_props.

(** ** The handler *)

Abbreviation ids l := ((λ v, id_of v) <$> l).

Section handler_props.
Context (env : nat → AttemptEnv) (hook : bool).
Implicit Types (ts ws : list WorkerEntry) (x : Exchange) (e : WorkerEntry).

(** The request an attempt at worker [e] sends, and the events of the attempt. *)
Definition forwarded (req : Request) (body : string) (e : WorkerEntry) : ProxyRequest :=
  proxy_request req ("http://" +:+ Address (Info e) +:+ Path req) body.

Definition attempt_events (req : Request) (body : string) (e : WorkerEntry) : list Event :=
  [EvInc (id_of e); EvForward (forwarded req body e); EvDec (id_of e)].

(** The answer worker [e] gives when it is the target of attempt [k]. *)
Definition answer (req : Request) (body : string) (k : nat) (e : WorkerEntry) : Exchange :=
  env_exchange (env k) (forwarded req body e).

(** No byte reached the client, so another worker can be tried. *)
Definition no_answer x : Prop :=
  match x with BuildError _ | Unreachable _ => True | Responded _ _ _ _ => False end.

(** The workers [ts], tried in order from attempt [k] on, did not answer. *)
Fixpoint all_silent (req : Request) (body : string) (k : nat) ts : Prop :=
  match ts with
  | [] => True
  | e :: ts' => no_answer (answer req body k e) ∧ all_silent req body (S k) ts'
  end.

(** How a routed request can end, [ts] being the workers it was sent to from
    attempt [k] on; [budget] is the number of attempts allowed. *)
Inductive outcome (req : Request) (model body : string) (budget : nat) (w : Writer) (k : nat)
    : list WorkerEntry → list Event → Flow → Prop :=
  | outcome_exhausted ts :
      length ts = budget → all_silent req body k ts →
      outcome req model body budget w k ts
        (concat (attempt_events req body <$> ts) ++ call_hook hook model "error")
        (Finished (Error "all workers failed or unavailable" StatusBadGateway w))
  | outcome_answered ts e status ctype bytes broken :
      (length ts < budget)%nat → all_silent req body k ts →
      answer req body (k + length ts) e = Responded status ctype bytes broken →
      header_panics status w = false →
      outcome req model body budget w k (ts ++ [e])
        (concat (attempt_events req body <$> ts ++ [e]) ++
          call_hook hook model (if broken is Some _ then "error" else "success"))
        (Finished (Write bytes (WriteHeader status (SetHeader "Content-Type" ctype w))))
  | outcome_panicked ts p :
      (length ts < budget)%nat → all_silent req body k ts →
      outcome req model body budget w k ts (concat (attempt_events req body <$> ts)) (Panicked p)
  | outcome_aborted ts e status ctype bytes broken :
      (length ts < budget)%nat → all_silent req body k ts →
      answer req body (k + length ts) e = Responded status ctype bytes broken →
      header_panics status w = true →
      outcome req model body budget w k (ts ++ [e])
        (concat (attempt_events req body <$> ts) ++ [EvInc (id_of e); EvForward (forwarded req body e)])
        (Panicked InvalidWriteHeaderCode).

Lemma outcome_cons req model body n w k e ts evs flow :
  no_answer (answer req body k e) →
  outcome req model body n w (S k) ts evs flow →
  outcome req model body (S n) w k (e :: ts) (attempt_events req body e ++ evs) flow.
Proof.
  intros He [ts' Hl Hs|ts' e' st ct bs br Hl Hs Ha Hv|ts' p Hl Hs|ts' e' st ct bs br Hl Hs Ha Hv].
  - apply (outcome_exhausted req model body (S n) w k (e :: ts')); simpl; auto.
  - apply (outcome_answered req model body (S n) w k (e :: ts') e'); simpl; [lia|done| |done].
    by rewrite Nat.add_succ_r.
  - apply (outcome_panicked req model body (S n) w k (e :: ts')); simpl; [lia|done].
  - eapply (outcome_aborted req model body (S n) w k (e :: ts') e'); simpl; [lia|done| |exact Hv].
    by rewrite Nat.add_succ_r.
Qed.

(** The retry loop, [cands] being the workers not tried yet. *)
Lemma attempts_outcome req model body ws w n k tried cands evs flow :
  cands = filter (λ e, id_of e ∉ tried) ws → NoDup (ids cands) →
  attempts env hook n k req model body ws tried w = (evs, flow) →
  ∃ ts, NoDup (ids ts) ∧ ts ⊆ cands ∧
    outcome req model body (Nat.min n (length cands)) w k ts evs flow.
Proof.
  revert k tried cands evs flow. induction n as [|n IH]; intros k tried cands evs flow Hc Hnd; simpl.
  { intros [= <- <-]. exists []. split_and!; [constructor|apply list_subseteq_nil|by apply (outcome_exhausted _ _ _ _ _ _ [])]. }
  rewrite <- Hc. case_decide as Hne.
  { rewrite Hne. intros [= <- <-]. exists []. split_and!; [constructor|apply list_subseteq_nil|].
    by apply (outcome_exhausted _ _ _ _ _ _ []). }
  destruct (pickWorker _ _ _) as [c' [e|p]] eqn:Hp.
  2: { intros [= <- <-]. exists []. split_and!; [constructor|apply list_subseteq_nil|].
       apply (outcome_panicked _ _ _ _ _ _ []); [|done]. destruct cands; simpl; [done|lia]. }
  pose proof (pickWorker_in _ _ _ _ _ Hp) as He.
  pose proof (filter_key_ne_length (λ v, id_of v) cands e Hnd He) as Hlen. rewrite <- Hlen.
  set (cands' := filter (λ v, id_of v ≠ id_of e) cands) in *.
  fold (forwarded req body e). fold (answer req body k e). unfold proxy.
  destruct (answer req body k e) as [err|err|st ct bs br] eqn:Ha; [| |destruct (header_panics st w) eqn:Hv].
  1, 2: destruct (attempts _ _ _ _ _ _ _ _ _ _) as [evs' flow'] eqn:Hrest; intros [= <- <-];
    destruct (IH (S k) (id_of e :: tried) cands' evs' flow') as (ts & Hnts & Hsub & Hout);
    [|by eapply sublist_NoDup; [|apply fmap_sublist, sublist_filter]|done|].
  1, 3: unfold cands'; rewrite Hc, list_filter_filter; apply list_filter_iff; intros v;
    rewrite not_elem_of_cons; tauto.
  1, 2: exists (e :: ts); split_and!;
    [|intros v [->|Hv]%elem_of_cons; [done|]; apply Hsub in Hv; unfold cands' in Hv;
      by apply list_elem_of_filter in Hv as [_ ?]
     |by apply outcome_cons; [rewrite Ha|]].
  1, 2: simpl; apply NoDup_cons; (split; [|done]); intros (v & Heq & Hv)%list_elem_of_fmap;
    apply Hsub in Hv; unfold cands' in Hv; apply list_elem_of_filter in Hv as [Hv _]; by apply Hv.
  - intros [= <- <-]. exists [e]. split_and!; [apply NoDup_singleton|by intros v ->%list_elem_of_singleton|].
    eapply (outcome_aborted req model body _ w k [] e); [simpl; lia|done| |exact Hv]. by rewrite Nat.add_0_r.
  - intros Hrun. exists [e]. split_and!; [apply NoDup_singleton|by intros v ->%list_elem_of_singleton|].
    pose proof (outcome_answered req model body (S (Nat.min n (length cands'))) w k [] e st ct bs br) as Hout.
    destruct br as [err|]; injection Hrun as <- <-; apply Hout; try done; by (simpl; rewrite ?Nat.add_0_r; try lia).
Qed.

(** The status a handler commits has three digits. *)
Definition commits_valid (w : Writer) : Prop := ∃ code, Written w = Some code ∧ valid_code code = true.

Lemma Error_commits msg code w : Written w = None → valid_code code = true → commits_valid (Error msg code w).
Proof. intros Hw Hc. exists code. by rewrite Error_status. Qed.

Lemma attempts_status n k req model body ws tried w evs w' :
  Written w = None → attempts env hook n k req model body ws tried w = (evs, Finished w') → commits_valid w'.
Proof.
  intros Hw. revert k tried evs. induction n as [|n IH]; intros k tried evs; simpl.
  { intros [= _ <-]. by apply Error_commits. }
  case_decide; [intros [= _ <-]; by apply Error_commits|].
  destruct (pickWorker _ _ _) as [c [e|p]]; [|done]. unfold proxy.
  destruct (env_exchange _ _) as [err|err|st ct bs br].
  1, 2: destruct (attempts _ _ _ _ _ _ _ _ _ _) as [evs' flow] eqn:Hr; intros [= _ ->]; by eapply IH.
  destruct (header_panics st w) eqn:Hv; [done|].
  assert (commits_valid (Write bs (WriteHeader st (SetHeader "Content-Type" ct w)))) as Hdone.
  { exists st. simpl. rewrite SetHeader_written, Hw. split; [done|].
    unfold header_panics in Hv. rewrite Hw in Hv. by apply negb_false_iff in Hv. }
  by destruct br; intros [= _ <-].
Qed.

Lemma ServeHTTP_status `{FmtQuote} `{MapRange} i r req w evs w' :
  Written w = None → ServeHTTP env hook i r req w = (evs, Finished w') → commits_valid w'.
Proof.
  intros Hw. unfold ServeHTTP, handleInference.
  repeat case_decide; try (intros [= _ <-]; by (apply Error_commits || (exists 200; simpl; by rewrite Hw))).
  all: destruct (ReqBody req) as [body|]; [|intros [= _ <-]; by apply Error_commits].
  all: destruct (decode_model body) as [[|a model]|]; try (intros [= _ <-]; by apply Error_commits).
  all: cbv zeta; case_decide; [intros [= _ <-]; by apply Error_commits|by apply attempts_status].
Qed.

(** Every request forwarded is the client's, retargeted. *)
Lemma attempts_events_forwards req body ts r :
  EvForward r ∈ concat (attempt_events req body <$> ts) → ∃ e, r = forwarded req body e.
Proof.
  induction ts as [|e ts IH]; simpl; [intros ?%not_elem_of_nil; done|].
  intros [?|[?|[?|?]%elem_of_cons]%elem_of_cons]%elem_of_cons; simplify_eq; eauto.
Qed.

Lemma outcome_forwards req model body budget w k ts evs flow r :
  outcome req model body budget w k ts evs flow → EvForward r ∈ evs →
  ∃ e, r = forwarded req body e.
Proof.
  unfold call_hook. intros Hout Hin. destruct Hout; [apply elem_of_app in Hin as [H'|H']..| |apply elem_of_app in Hin as [Hin|Hin]].
  2, 4: destruct hook; [by apply list_elem_of_singleton in H'|by apply not_elem_of_nil in H'].
  1-4: by eapply attempts_events_forwards.
  apply elem_of_cons in Hin as [?|Hin]; [done|]. apply list_elem_of_singleton in Hin as [= ->]. eauto.
Qed.

(** No worker answers with a status that cannot be passed on. *)
Definition valid_answers (req : Request) (body : string) ws : Prop :=
  ∀ e j status ctype bytes broken, e ∈ ws →
    answer req body j e = Responded status ctype bytes broken → valid_code status = true.

Lemma attempts_no_panic n k req model body ws tried w :
  (∀ j, ∃ fl, stable fl (env_reads (env j))) →
  (∀ e, e ∈ ws → f_isnan (cost_of e) = false) → valid_answers req body ws →
  ∃ evs w', attempts env hook n k req model body ws tried w = (evs, Finished w').
Proof.
  intros Hst Hnan Hvalid. revert k tried. induction n as [|n IH]; intros k tried; simpl; [by eexists _, _|].
  case_decide as Hne; [by eexists _, _|].
  destruct (Hst k) as [fl Hfl].
  destruct (pickWorker_optimal fl (filter (λ e, id_of e ∉ tried) ws) (env_counter (env k))
    (env_reads (env k))) as (c & e & -> & He & _); [done|done| |].
  { intros e He. apply Hnan. by apply list_elem_of_filter in He as [_ ?]. }
  apply list_elem_of_filter in He as [_ He]. fold (forwarded req body e). fold (answer req body k e).
  destruct (answer req body k e) as [err|err|st ct bs br] eqn:Ha; unfold proxy.
  3: { rewrite header_panics_valid by by eapply Hvalid. destruct br; by eexists _, _. }
  all: destruct (IH (S k) (id_of e :: tried)) as (evs & w' & ->); by eexists _, _.
Qed.

Lemma all_silent_forall req body k ts :
  all_silent req body k ts → ∀ e, e ∈ ts → ∃ j, no_answer (answer req body j e).
Proof.
  revert k. induction ts as [|e ts IH]; intros k; [intros _ e ?%not_elem_of_nil; done|].
  intros [He Hts] v [->|Hv]%elem_of_cons; eauto.
Qed.

Context `{FmtQuote} `{MapRange}.

(** A request the handler routes: its body names a model some worker can serve. *)
Record routed (i : nat) (r : Registry) (req : Request) (model body : string) : Prop := {
  routed_post : Method req = "POST";
  routed_body : ReqBody req = Some body;
  routed_model : decode_model body = Some model;
  routed_named : model ≠ "";
  routed_served : HealthyWorkersForModel i model r ≠ [];
}.

Lemma routed_attempts i r req model body w :
  routed i r req model body →
  handleInference env hook i r req w =
    attempts env hook (Nat.min (length (HealthyWorkersForModel i model r)) 3) 1 req model body
      (HealthyWorkersForModel i model r) [] w.
Proof.
  intros [HP HB Hm Hn Hs]. unfold handleInference. rewrite decide_False by (intros H'; by apply H').
  rewrite HB, Hm. destruct model as [|a model]; [done|]. rewrite decide_False by done. f_equal.
  unfold min. case_goal; lia.
Qed.

Lemma NoDup_candidates T timeout s i model :
  reachable T timeout s → NoDup (ids (HealthyWorkersForModel i model (reg s))).
Proof.
  intros Hwf%reachable_wf. eapply sublist_NoDup; [|apply fmap_sublist, sublist_filter].
  apply (NoDup_ListWorkers i). intros id e He. by destruct (wf_workers _ Hwf _ _ He) as [[] _].
Qed.

(** The run of a routed request, seen as an outcome. *)
Lemma routed_outcome T timeout s i req model body w evs flow :
  reachable T timeout s → routed i (reg s) req model body →
  handleInference env hook i (reg s) req w = (evs, flow) →
  let ws := HealthyWorkersForModel i model (reg s) in
  ∃ ts, NoDup (ids ts) ∧ ts ⊆ ws ∧
    outcome req model body (Nat.min (length ws) 3) w 1 ts evs flow.
Proof.
  intros Hr Hrt Hrun ws. rewrite (routed_attempts _ _ _ _ _ _ Hrt) in Hrun. fold ws in Hrun.
  pose proof (NoDup_candidates _ _ _ i model Hr) as Hnd. fold ws in Hnd.
  assert (ws = filter (λ e, id_of e ∉ []) ws) as Hws
    by (symmetry; apply list_filter_all; intros; apply not_elem_of_nil).
  replace (Nat.min (length ws) 3) with (Nat.min (Nat.min (length ws) 3) (length ws)) by lia.
  by eapply attempts_outcome.
Qed.

(** C7: A routed request is tried on pairwise distinct READY or BUSY workers that serve
    its model, at most min(n, 3) of the n there are.  Each try brackets one forwarded
    copy of the body with the in-flight counter.  A further worker is tried only
    while the earlier ones gave no answer; the first answer goes to the client as
    it is; a 502 is sent only when the whole budget went to silent workers; and the
    metrics hook is told once, unless the handler panicked: in the selection, or on an
    answer whose status is no three-digit one, which leaves the counter of its worker
    one up. *)
Theorem handleInference_outcome T timeout s i req model body w evs flow :
  reachable T timeout s → routed i (reg s) req model body →
  handleInference env hook i (reg s) req w = (evs, flow) →
  let ws := HealthyWorkersForModel i model (reg s) in
  ∃ ts, NoDup (ids ts) ∧ ts ⊆ ws ∧
    outcome req model body (Nat.min (length ws) 3) w 1 ts evs flow ∧
    (∀ r, EvForward r ∈ evs → pr_body r = body ∧ pr_method r = "POST").
Proof.
  intros Hr Hrt Hrun ws.
  destruct (routed_outcome _ _ _ _ _ _ _ _ _ _ Hr Hrt Hrun) as (ts & Hnd & Hin & Hout).
  exists ts. split_and!; [done..|]. intros r Hr'.
  destruct (outcome_forwards _ _ _ _ _ _ _ _ _ r Hout Hr') as [e ->].
  split; [done|]. apply (routed_post _ _ _ _ _ Hrt).
Qed.

(** Failover: while no counter changes during a selection, no price is NaN and no worker
    answers with a status that cannot be passed on, a routed
    request is answered by a worker whenever fewer workers are dead than there are
    attempts, min(n, 3), for n candidates. *)
Lemma handleInference_failover T timeout s i req model body w dead :
  reachable T timeout s → routed i (reg s) req model body →
  (∀ j, ∃ fl, stable fl (env_reads (env j))) →
  let ws := HealthyWorkersForModel i model (reg s) in
  (∀ e, e ∈ ws → f_isnan (cost_of e) = false) → valid_answers req body ws →
  (∀ e j, e ∈ ws → id_of e ∉ dead → ¬ no_answer (answer req body j e)) →
  (length dead < Nat.min (length ws) 3)%nat →
  ∃ evs k e status ctype bytes broken, e ∈ ws ∧
    answer req body k e = Responded status ctype bytes broken ∧
    handleInference env hook i (reg s) req w =
      (evs, Finished (Write bytes (WriteHeader status (SetHeader "Content-Type" ctype w)))).
Proof.
  intros Hr Hrt Hst ws Hnan Hvalid Halive Hdead.
  destruct (attempts_no_panic (Nat.min (length ws) 3) 1 req model body ws [] w Hst Hnan Hvalid)
    as (evs & w' & Hrun). rewrite <- (routed_attempts _ _ _ _ _ _ Hrt) in Hrun. rewrite Hrun.
  destruct (routed_outcome _ _ _ _ _ _ _ _ _ _ Hr Hrt Hrun) as (ts & Hnd & Hin & Hout).
  fold ws in Hin, Hout.
  inversion Hout as [ts' Hl Hs|ts' e st ct bs br Hl Hs Ha Hv| |]; subst.
  - exfalso. assert (ids ts ⊆ dead) as Hsub.
    { intros id (e & -> & He)%list_elem_of_fmap. destruct (decide (id_of e ∈ dead)); [done|].
      destruct (all_silent_forall _ _ _ _ Hs e He) as [j Hj]. exfalso. by eapply Halive; eauto. }
    apply (NoDup_submseteq _ _ Hnd), submseteq_length in Hsub. rewrite length_fmap in Hsub. lia.
  - eexists _, (1 + length ts')%nat, e, st, ct, bs, br. split_and!; [|done|reflexivity].
    apply Hin. rewrite elem_of_app. right. by left.
Qed.

End handler_props.

(** *** Witnesses *)

Definition demo_worker (id : string) (cost : float64) : WorkerEntry := {|
  Info := {| WorkerId := id; Address := "host-" +:+ id; GpuType := ""; VramBytes := 0;
             ModelsLoaded := ["llama3"]; Backend := ""; Provider := ""; Hardware := "";
             CostPerHour := cost |};
  State := READY; LastHeartbeat := 0; RegisteredAt := 0; Load := emptyLoadReport id;
  DrainRequested := false; MarkedDeadAt := None; deadlineTimer := 0 |}.

Definition idle : string → Z := λ _, 0.

Lemma pickWorker_optimal_witness :
  ∃ c' w, pickWorker [demo_worker "a" (f_of_Z 3); demo_worker "b" (f_of_Z 1)] 0 (λ _, idle)
    = (c', Ok w) ∧ f_leb (cost_of w) (f_of_Z 1) = true.
Proof.
  destruct (pickWorker_optimal idle [demo_worker "a" (f_of_Z 3); demo_worker "b" (f_of_Z 1)] 0
    (λ _, idle)) as (c' & w & H & _ & _ & Hmin); [done|done| |].
  { intros w [->|[->|?%not_elem_of_nil]%elem_of_cons]%elem_of_cons; done. }
  exists c', w. split; [exact H|]. apply (Hmin (demo_worker "b" (f_of_Z 1))); [|reflexivity].
  right. left.
Defined.

Lemma pickWorker_round_robin_witness :
  picks 2 [demo_worker "a" (f_of_Z 1); demo_worker "b" (f_of_Z 1)] 7 (λ _, idle)
    ≡ₚ Ok <$> [demo_worker "a" (f_of_Z 1); demo_worker "b" (f_of_Z 1)].
Proof.
  apply (pickWorker_round_robin idle [demo_worker "a" (f_of_Z 1); demo_worker "b" (f_of_Z 1)] 7);
    [done| |lia|simpl; lia].
  split; [simpl; lia|].
  intros v w [->|[->|?%not_elem_of_nil]%elem_of_cons]%elem_of_cons
    [->|[->|?%not_elem_of_nil]%elem_of_cons]%elem_of_cons; done.
Defined.

Lemma pickWorker_nan_panics_witness :
  pickWorker [demo_worker "a" S754_nan; demo_worker "b" (f_of_Z 1)] 0 (λ _, idle)
    = (1, Panic DivideByZero).
Proof.
  apply (pickWorker_nan_panics idle [demo_worker "a" S754_nan; demo_worker "b" (f_of_Z 1)] 0);
    [done|simpl; lia|done|]. by eexists.
Defined.

(** Two other requests arrive between the passes and are sent to [a] and to [b]. *)
Lemma pickWorker_race_panics_witness :
  let m := inc "a" (inc "b" ∅) in
  pickWorker [demo_worker "a" (f_of_Z 1); demo_worker "b" (f_of_Z 1)] 0
    (λ k, if decide (k < 2)%nat then getInFlight ∅ else getInFlight m)
    = (0, Panic IndexOutOfRange).
Proof.
  intros m. apply (pickWorker_race_panics (getInFlight ∅) (getInFlight m)).
  - intros k id Hk. simpl in Hk. by rewrite decide_True by lia.
  - intros k id Hk. simpl in Hk. by rewrite decide_False by lia.
  - simpl. lia.
  - intros v w [->|[->|?%not_elem_of_nil]%elem_of_cons]%elem_of_cons
      [->|[->|?%not_elem_of_nil]%elem_of_cons]%elem_of_cons; done.
Defined.


(** Two workers, the first one down. *)
Definition demo_answer (r : ProxyRequest) : Exchange :=
  if decide (pr_target r = "http://localhost:9001/v1/completions")
  then Responded 200 "application/json" "{}" None else Unreachable "refused".

Definition demo_env (k : nat) : AttemptEnv :=
  {| env_counter := 0; env_reads := λ _, idle; env_exchange := demo_answer |}.

Definition demo_text : string := object_text [("model", marshal_string "llama3"); ("stream", JBool false)].

Definition demo_post : Request :=
  {| Method := "POST"; Path := "/v1/completions"; ReqHeader := ∅; ReqBody := Some demo_text |}.

Lemma demo_routed :
  @routed map_to_list_range 0 (reg (demo_sys 1 2)) demo_post "llama3" demo_text.
Proof. split; [done|done|by vm_compute|done|done]. Qed.

Lemma handleInference_outcome_witness :
  let ws := @HealthyWorkersForModel map_to_list_range 0 "llama3" (reg (demo_sys 1 2)) in
  ∃ ts evs flow, ts ⊆ ws ∧
    outcome demo_env true demo_post "llama3" demo_text (Nat.min (length ws) 3) newWriter 1 ts evs flow.
Proof.
  destruct (@handleInference demo_env true (λ s, s) map_to_list_range 0
    (reg (demo_sys 1 2)) demo_post newWriter) as [evs flow] eqn:Hrun.
  destruct (@handleInference_outcome demo_env true (λ s, s) map_to_list_range
    {| gap := 1; latency := 0; insert_delay := 0 |} DefaultDeadTimeout
    (demo_sys 1 2) 0 demo_post "llama3" demo_text newWriter evs flow) as (ts & _ & Hin & Hout & _).
  - apply demo_reachable; simpl; lia.
  - exact demo_routed.
  - exact Hrun.
  - exists ts, evs, flow. split; [exact Hin|exact Hout].
Defined.

Lemma handleInference_failover_witness :
  ∃ evs status ctype bytes,
    @handleInference demo_env true (λ s, s) map_to_list_range 0
      (reg (demo_sys 1 2)) demo_post newWriter =
    (evs, Finished (Write bytes (WriteHeader status (SetHeader "Content-Type" ctype newWriter)))).
Proof.
  destruct (@handleInference_failover demo_env true (λ s, s) map_to_list_range
    {| gap := 1; latency := 0; insert_delay := 0 |} DefaultDeadTimeout
    (demo_sys 1 2) 0 demo_post "llama3" demo_text newWriter [])
    as (evs & k & e & st & ct & bs & br & _ & _ & H).
  - apply demo_reachable; simpl; lia.
  - exact demo_routed.
  - intros j. exists idle. intros ??. reflexivity.
  - intros e He. apply list_elem_of_singleton in He as ->. reflexivity.
  - intros e j st ct bs br He Ha. apply list_elem_of_singleton in He as ->. by injection Ha as <- _ _ _.
  - intros e j He _. apply list_elem_of_singleton in He as ->. exact (λ x, x).
  - apply Nat.ltb_lt. reflexivity.
  - exists evs, st, ct, bs. exact H.
Defined.
