(* ===== verification/RouterLive.v ===== *)
(** * The running router (control-plane/router/router.go)

    Any number of handlers run at the same time, next to the running registry.  What a
    handler shares with the others - the in-flight counters, the round-robin counter and
    the registry - it reads and writes in single steps: one read of a counter in a
    selection is a step, the choice that ends the selection another.  A handler keeps what
    it read and what the workers answered ([h_log]); the theorems show that its events and
    its response are those of [Router.ServeHTTP] in the surroundings so recorded, what the
    counters are worth at every moment, and that every handler ends. *)

From S2P Require Import Prelude GoFloat Proto GoTimer Registry RegistryProps GoHttp GoStrings GoJson GoUnmarshal Router RouterProps.
Open Scope Z_scope.

(** ** Handlers *)

(** What an attempt met: the round-robin counter and the counters of the workers as its
    selection read them, and the worker's answer. *)
Record Look := {
  lk_counter : Z;
  lk_reads : list Z;
  lk_answer : Exchange;
}.

(** The variables of [handleInference] during an attempt: [t_left] attempts are left, this
    one included. *)
Record Try := {
  t_model : string;
  t_body : string;
  t_workers : list WorkerEntry;
  t_tried : list string;
  t_attempt : nat;
  t_left : nat;
  t_writer : Writer;
}.

Definition candidates (t : Try) : list WorkerEntry := filter (λ e, id_of e ∉ t_tried t) (t_workers t).

(** Where a handler stands.  [Selecting t seen]: in [pickWorker], the counters read by now.
    [Chosen]: before [inc]; [Sent]: the request is with the worker; [Heard]: [proxy] has
    returned, before [dec]; [Crashed]: [proxy] panicked. *)
Inductive Stage :=
  | Arrived
  | Selecting (t : Try) (seen : list Z)
  | Chosen (t : Try) (c : Z) (seen : list Z) (e : WorkerEntry)
  | Sent (t : Try) (c : Z) (seen : list Z) (e : WorkerEntry)
  | Heard (t : Try) (e : WorkerEntry) (retryable : bool) (err : option string) (w : Writer)
  | Ended (w : Writer)
  | Panicking (p : GoPanic)
  | Crashed (e : WorkerEntry).

(** [h_events] are the events so far; [h_met] the registry [HealthyWorkersForModel] read. *)
Record Handler := {
  h_req : Request;
  h_stage : Stage;
  h_events : list Event;
  h_met : option (nat * Registry);
  h_log : list Look;
}.

Definition new_handler (req : Request) : Handler :=
  {| h_req := req; h_stage := Arrived; h_events := []; h_met := None; h_log := [] |}.

Definition goto (evs : list Event) (st : Stage) (h : Handler) : Handler :=
  {| h_req := h_req h; h_stage := st; h_events := h_events h ++ evs; h_met := h_met h; h_log := h_log h |}.

Definition note (l : Look) (h : Handler) : Handler :=
  {| h_req := h_req h; h_stage := h_stage h; h_events := h_events h; h_met := h_met h; h_log := h_log h ++ [l] |}.

Definition meet_registry (i : nat) (r : Registry) (h : Handler) : Handler :=
  {| h_req := h_req h; h_stage := h_stage h; h_events := h_events h; h_met := Some (i, r); h_log := h_log h |}.

(** ** The steps of a handler *)

Section steps.
Context (hook : bool) `{FmtQuote} `{MapRange}.

(** The head of the retry loop. *)
Definition next_attempt (t : Try) : list Event * Stage :=
  if decide (t_left t = 0%nat ∨ candidates t = []) then
    (call_hook hook (t_model t) "error",
     Ended (Error "all workers failed or unavailable" StatusBadGateway (t_writer t)))
  else ([], Selecting t []).

(** The handler up to its first selection; [i] numbers the loop over the registry's map. *)
Definition enter (i : nat) (r : Registry) (req : Request) (w : Writer) : list Event * Stage :=
  if decide (Path req = "/v1/chat/completions" ∨ Path req = "/v1/completions") then
    if decide (Method req ≠ "POST") then
      ([], Ended (Error "method not allowed" StatusMethodNotAllowed w))
    else match ReqBody req with
    | None => ([], Ended (Error "failed to read request body" StatusBadRequest w))
    | Some body =>
      match decode_model body with
      | None | Some "" =>
        ([], Ended (Error "request body must contain a valid 'model' field" StatusBadRequest w))
      | Some model =>
        let workers := HealthyWorkersForModel i model r in
        if decide (workers = []) then
          ([], Ended (Error ("no healthy workers available for model " +:+ quote model) StatusServiceUnavailable w))
        else
          next_attempt {| t_model := model; t_body := body; t_workers := workers; t_tried := [];
            t_attempt := 1; t_left := Z.to_nat (min (Z.of_nat (length workers)) 3); t_writer := w |}
      end
    end
  else if decide (Path req = "/healthz") then
    ([], Ended (Write "ok" (WriteHeader StatusOK w)))
  else ([], Ended (Error "not found" StatusNotFound w)).

(** The counters one selection reads: none for a single candidate, each of the others'
    twice. *)
Definition reads_needed (t : Try) : nat :=
  match candidates t with
  | [] | [_] => 0%nat
  | cs => (length cs + length cs)%nat
  end.

(** The candidate whose counter is the [k]-th to be read. *)
Definition to_read (t : Try) (k : nat) : option WorkerEntry :=
  candidates t !! (k mod length (candidates t))%nat.

Definition seen_reads (seen : list Z) : nat → string → Z := λ k _, seen !!! k.

(** The next attempt after worker [e] could not be reached. *)
Definition retry (t : Try) (e : WorkerEntry) (w : Writer) : Try :=
  {| t_model := t_model t; t_body := t_body t; t_workers := t_workers t; t_tried := id_of e :: t_tried t;
     t_attempt := S (t_attempt t); t_left := pred (t_left t); t_writer := w |}.

(** [dec] is done: what is left of the loop's body. *)
Definition conclude (t : Try) (e : WorkerEntry) (retryable : bool) (err : option string) (w : Writer) : list Event * Stage :=
  match err with
  | None => (call_hook hook (t_model t) "success", Ended w)
  | Some _ =>
    if retryable then next_attempt (retry t e w)
    else (call_hook hook (t_model t) "error", Ended w)
  end.

(** The counters all handlers share. *)
Record Shared := {
  sh_counter : Z;
  sh_flight : gmap string Z;
}.

Definition set_flight (m : gmap string Z) (s : Shared) : Shared := {| sh_counter := sh_counter s; sh_flight := m |}.

Definition set_counter (c : Z) (s : Shared) : Shared := {| sh_counter := c; sh_flight := sh_flight s |}.

(** One step of a handler when the registry is [r]. *)
Inductive handler_step (r : Registry) (s : Shared) (h : Handler) : Shared → Handler → Prop :=
  | hs_enter i evs st :
      h_stage h = Arrived → enter i r (h_req h) newWriter = (evs, st) →
      handler_step r s h s (goto evs st (meet_registry i r h))
  | hs_read t seen e :
      h_stage h = Selecting t seen → (length seen < reads_needed t)%nat →
      to_read t (length seen) = Some e →
      handler_step r s h s (goto [] (Selecting t (seen ++ [getInFlight (sh_flight s) (id_of e)])) h)
  | hs_pick t seen c chosen :
      h_stage h = Selecting t seen → length seen = reads_needed t →
      pickWorker (candidates t) (sh_counter s) (seen_reads seen) = (c, chosen) →
      handler_step r s h (set_counter c s)
        (match chosen with
         | Ok e => goto [] (Chosen t (sh_counter s) seen e) h
         | Panic p => goto [] (Panicking p)
             (note {| lk_counter := sh_counter s; lk_reads := seen; lk_answer := Unreachable "" |} h)
         end)
  | hs_send t c seen e :
      h_stage h = Chosen t c seen e →
      handler_step r s h (set_flight (inc (id_of e) (sh_flight s)) s)
        (goto [EvInc (id_of e); EvForward (forwarded (h_req h) (t_body t) e)] (Sent t c seen e) h)
  | hs_answer t c seen e x :
      h_stage h = Sent t c seen e →
      handler_step r s h s
        (goto [] (match proxy (t_writer t) x with
                  | Ok (retryable, err, w) => Heard t e retryable err w
                  | Panic _ => Crashed e
                  end)
          (note {| lk_counter := c; lk_reads := seen; lk_answer := x |} h))
  | hs_dec t e retryable err w evs st :
      h_stage h = Heard t e retryable err w → conclude t e retryable err w = (evs, st) →
      handler_step r s h (set_flight (dec (id_of e) (sh_flight s)) s) (goto (EvDec (id_of e) :: evs) st h).

End steps.

(** ** The router among its handlers *)

Record RouterSys := {
  rs_fleet : Sys;
  rs_shared : Shared;
  rs_handlers : list Handler;
}.

Section running.
Context (hook : bool) `{FmtQuote} `{MapRange} (T : Timing) (timeout : Z).
Implicit Types (s : RouterSys) (h : Handler).

(** Handler [n] takes a step. *)
Inductive turn (n : nat) s : RouterSys → Prop :=
  | handler_turn h sh h' :
      rs_handlers s !! n = Some h → handler_step hook (reg (rs_fleet s)) (rs_shared s) h sh h' →
      turn n s {| rs_fleet := rs_fleet s; rs_shared := sh; rs_handlers := <[n := h']> (rs_handlers s) |}.

(** A request arrives, the registry takes a step, or a handler does. *)
Inductive router_step s : RouterSys → Prop :=
  | router_arrives req :
      router_step s {| rs_fleet := rs_fleet s; rs_shared := rs_shared s;
                       rs_handlers := rs_handlers s ++ [new_handler req] |}
  | router_registry f :
      step T (rs_fleet s) f →
      router_step s {| rs_fleet := f; rs_shared := rs_shared s; rs_handlers := rs_handlers s |}
  | router_turn n s' : turn n s s' → router_step s s'.

(** [NewRouter] and [New] have run. *)
Definition router_init (t0 : Z) : RouterSys :=
  {| rs_fleet := init timeout t0; rs_shared := {| sh_counter := 0; sh_flight := ∅ |}; rs_handlers := [] |}.

Definition router_reachable s : Prop := ∃ t0, rtc router_step (router_init t0) s.

(** *** One handler's run is a run of ServeHTTP *)

Definition look_env (l : Look) : AttemptEnv :=
  {| env_counter := lk_counter l; env_reads := seen_reads (lk_reads l); env_exchange := λ _, lk_answer l |}.

(** The surroundings a log records, attempt 1 first; attempts it does not reach are not
    looked at. *)
Definition log_env (log : list Look) (k : nat) : AttemptEnv :=
  look_env (default {| lk_counter := 0; lk_reads := []; lk_answer := Unreachable "" |} (log !! pred k)).

(** [env] is as [h] has found it so far. *)
Definition agrees (env : nat → AttemptEnv) h : Prop :=
  (∀ k l, h_log h !! k = Some l → env (S k) = look_env l) ∧
  match h_stage h with
  | Chosen t c seen _ | Sent t c seen _ =>
    env_counter (env (t_attempt t)) = c ∧ env_reads (env (t_attempt t)) = seen_reads seen
  | _ => True
  end.

(** What [ServeHTTP] has still to do from a stage on. *)
Definition loop_from (env : nat → AttemptEnv) (req : Request) (t : Try) : list Event * Flow :=
  attempts env hook (t_left t) (t_attempt t) req (t_model t) (t_body t) (t_workers t) (t_tried t) (t_writer t).

Definition after_dec (env : nat → AttemptEnv) (req : Request) (t : Try) (e : WorkerEntry)
    (retryable : bool) (err : option string) (w : Writer) : list Event * Flow :=
  match err with
  | None => (call_hook hook (t_model t) "success", Finished w)
  | Some _ =>
    if retryable then loop_from env req (retry t e w)
    else (call_hook hook (t_model t) "error", Finished w)
  end.

Definition before_dec (env : nat → AttemptEnv) (req : Request) (t : Try) (e : WorkerEntry)
    (retryable : bool) (err : option string) (w : Writer) : list Event * Flow :=
  let '(evs, f) := after_dec env req t e retryable err w in (EvDec (id_of e) :: evs, f).

Definition after_send (env : nat → AttemptEnv) (req : Request) (t : Try) (e : WorkerEntry) : list Event * Flow :=
  match proxy (t_writer t) (answer env req (t_body t) (t_attempt t) e) with
  | Panic p => ([], Panicked p)
  | Ok (retryable, err, w) => before_dec env req t e retryable err w
  end.

Definition before_send (env : nat → AttemptEnv) (req : Request) (t : Try) (e : WorkerEntry) : list Event * Flow :=
  let '(evs, f) := after_send env req t e in
  (EvInc (id_of e) :: EvForward (forwarded req (t_body t) e) :: evs, f).

Definition resume (env : nat → AttemptEnv) (req : Request) (st : Stage) : option (list Event * Flow) :=
  match st with
  | Arrived => None
  | Selecting t _ => Some (loop_from env req t)
  | Chosen t _ _ e => Some (before_send env req t e)
  | Sent t _ _ e => Some (after_send env req t e)
  | Heard t e retryable err w => Some (before_dec env req t e retryable err w)
  | Ended w => Some ([], Finished w)
  | Panicking p => Some ([], Panicked p)
  | Crashed _ => Some ([], Panicked InvalidWriteHeaderCode)
  end.

(** What the stages carry from one step to the next. *)
Definition stage_ok (log : list Look) (st : Stage) : Prop :=
  match st with
  | Arrived => log = []
  | Selecting t seen =>
    S (length log) = t_attempt t ∧ t_left t ≠ 0%nat ∧ candidates t ≠ [] ∧ (length seen ≤ reads_needed t)%nat
  | Chosen t _ _ _ | Sent t _ _ _ => S (length log) = t_attempt t
  | Heard t _ _ _ _ => length log = t_attempt t
  | Ended _ | Panicking _ | Crashed _ => True
  end.

(** [h] has done so far what [ServeHTTP] does first, and will do the rest. *)
Record handler_ok h : Prop := {
  ho_stage : stage_ok (h_log h) (h_stage h);
  ho_new : h_stage h = Arrived → h_events h = [];
  ho_met : h_stage h ≠ Arrived → ∃ i f, h_met h = Some (i, reg f) ∧ reachable T timeout f;
  ho_run : ∀ env i r, agrees env h → h_stage h ≠ Arrived → h_met h = Some (i, r) →
    ∃ evs f, resume env (h_req h) (h_stage h) = Some (evs, f) ∧
      ServeHTTP env hook i r (h_req h) newWriter = (h_events h ++ evs, f);
}.

(** The retry loop as the stages split it. *)
Lemma next_attempt_resume env req t evs st :
  next_attempt hook t = (evs, st) →
  ∃ evs' f, resume env req st = Some (evs', f) ∧ loop_from env req t = (evs ++ evs', f).
Proof.
  unfold next_attempt, loop_from. case_decide as Hd; intros [= <- <-].
  - exists [], (Finished (Error "all workers failed or unavailable" StatusBadGateway (t_writer t))).
    split; [done|]. rewrite app_nil_r. destruct (t_left t) as [|n]; [done|]. destruct Hd as [?|Hd]; [done|].
    simpl. by rewrite decide_True.
  - simpl. unfold loop_from. destruct (attempts _ _ _ _ _ _ _ _ _ _) as [evs f]. by exists evs, f.
Qed.

Lemma next_attempt_ok log t :
  S (length log) = t_attempt t → stage_ok log (next_attempt hook t).2.
Proof.
  intros Hl. unfold next_attempt. case_decide as Hd; [done|]. simpl.
  split_and!; [done|by intros ?; apply Hd; left|by intros ?; apply Hd; right|lia].
Qed.

Lemma loop_from_picks env req t c chosen :
  t_left t ≠ 0%nat → candidates t ≠ [] →
  pickWorker (candidates t) (env_counter (env (t_attempt t))) (env_reads (env (t_attempt t))) = (c, chosen) →
  loop_from env req t = match chosen with Ok e => before_send env req t e | Panic p => ([], Panicked p) end.
Proof.
  intros Hl Hc Hp. unfold loop_from. destruct (t_left t) as [|n] eqn:En; [done|]. cbn [attempts].
  fold (candidates t). rewrite decide_False by done. rewrite Hp. destruct chosen as [e|p]; [|done].
  unfold before_send, after_send, before_dec, after_dec. fold (forwarded req (t_body t) e).
  fold (answer env req (t_body t) (t_attempt t) e).
  destruct (proxy _ _) as [[[retryable [err|]] w]|p]; [|destruct retryable; done|done].
  destruct retryable; [|done].
  unfold loop_from, retry. cbn [t_left t_attempt t_model t_body t_workers t_tried t_writer]. rewrite En.
  by destruct (attempts _ _ _ _ _ _ _ _ _ _).
Qed.

Lemma enter_resume env i r req w evs st :
  enter hook i r req w = (evs, st) →
  ∃ evs' f, resume env req st = Some (evs', f) ∧ ServeHTTP env hook i r req w = (evs ++ evs', f).
Proof.
  unfold enter, ServeHTTP, handleInference. intros He.
  repeat case_decide; try (injection He as <- <-; by eexists _, _).
  all: destruct (ReqBody req) as [body|]; [|injection He as <- <-; by eexists _, _].
  all: destruct (decode_model body) as [[|a model]|]; [injection He as <- <-; by eexists _, _| |injection He as <- <-; by eexists _, _].
  all: revert He; cbv zeta; case_decide; intros He; [injection He as <- <-; by eexists _, _|].
  all: by apply next_attempt_resume with (env := env) (req := req) in He.
Qed.

Lemma enter_ok i r req w : stage_ok [] (enter hook i r req w).2.
Proof.
  unfold enter. repeat case_decide; try done.
  all: destruct (ReqBody req) as [body|]; [|done].
  all: destruct (decode_model body) as [[|a model]|]; [done| |done].
  all: cbv zeta; case_decide; [done|by apply next_attempt_ok].
Qed.

Lemma conclude_resume env req t e retryable err w evs st :
  conclude hook t e retryable err w = (evs, st) →
  ∃ evs' f, resume env req st = Some (evs', f) ∧ after_dec env req t e retryable err w = (evs ++ evs', f).
Proof.
  unfold conclude, after_dec. destruct err as [err|].
  - destruct retryable; [apply next_attempt_resume|]. intros [= <- <-]. eexists [], _. by rewrite app_nil_r.
  - intros [= <- <-]. eexists [], _. by rewrite app_nil_r.
Qed.

Lemma conclude_ok log t e retryable err w :
  length log = t_attempt t → stage_ok log (conclude hook t e retryable err w).2.
Proof.
  intros Hl. unfold conclude. destruct err; [destruct retryable|]; [|done..].
  apply next_attempt_ok. simpl. by rewrite Hl.
Qed.

Lemma resume_stage env req st l : resume env req st = Some l → st ≠ Arrived.
Proof. by destruct st. Qed.

(** A handler that has met the registry takes a step: its new stage, given what the step
    added to the events and to the log, resumes where the old one did. *)
Lemma handler_ok_next h h' evs :
  handler_ok h → h_stage h ≠ Arrived → h_stage h' ≠ Arrived →
  h_req h' = h_req h → h_met h' = h_met h → h_events h' = h_events h ++ evs → stage_ok (h_log h') (h_stage h') →
  (∀ env, agrees env h' → agrees env h ∧
    ∀ l f, resume env (h_req h) (h_stage h) = Some (l, f) →
    ∃ l', resume env (h_req h) (h_stage h') = Some (l', f) ∧ l = evs ++ l') →
  handler_ok h'.
Proof.
  intros [Hst Hnew Hmet Hrun] Hne Hne' Hreq Hm Hev Hst' Hres.
  split; [done|done|intros _; rewrite Hm; by apply Hmet|].
  intros env i r Ha _ Hi. rewrite Hm in Hi. destruct (Hres env Ha) as [Ha0 Hn].
  destruct (Hrun env i r Ha0 Hne Hi) as (l & f & Hl & Hs). destruct (Hn l f Hl) as (l' & Hl' & ->).
  exists l', f. rewrite Hreq, Hev. split; [done|]. by rewrite Hs, app_assoc.
Qed.

(** A note in the log pins down the surroundings of its attempt. *)
Lemma agrees_note env evs l st h :
  agrees env (goto evs st (note l h)) →
  (∀ k l', h_log h !! k = Some l' → env (S k) = look_env l') ∧ env (S (length (h_log h))) = look_env l.
Proof.
  intros [Hl _]. simpl in Hl. split.
  - intros k l' Hk. apply Hl. by apply lookup_app_l_Some.
  - apply Hl. by rewrite lookup_app_r, Nat.sub_diag by lia.
Qed.

Lemma handler_ok_enter f i h evs st :
  reachable T timeout f → handler_ok h → h_stage h = Arrived → enter hook i (reg f) (h_req h) newWriter = (evs, st) →
  handler_ok (goto evs st (meet_registry i (reg f) h)).
Proof.
  intros Hf Hok Ha He. pose proof (ho_stage _ Hok) as Hst. rewrite Ha in Hst. simpl in Hst.
  pose proof (enter_ok i (reg f) (h_req h) newWriter) as Hok'. rewrite He in Hok'. simpl in Hok'.
  assert (∀ env, ∃ evs' fl, resume env (h_req h) st = Some (evs', fl) ∧
    ServeHTTP env hook i (reg f) (h_req h) newWriter = (evs ++ evs', fl)) as Hres
    by (intros env; by apply enter_resume).
  split; simpl.
  - by rewrite Hst.
  - intros ->. by destruct (Hres (log_env [])) as (? & ? & ? & _).
  - eauto.
  - intros env i' r _ _ [= <- <-]. rewrite (ho_new _ Hok Ha). apply Hres.
Qed.

Lemma proxy_panic w x p : proxy w x = Panic p → p = InvalidWriteHeaderCode.
Proof. unfold proxy. destruct x as [|?|? ? ? []]; try done; destruct (header_panics _ _); try done; by injection 1. Qed.

Lemma handler_ok_answer h t c seen e x :
  handler_ok h → h_stage h = Sent t c seen e →
  handler_ok (goto [] (match proxy (t_writer t) x with
                       | Ok (retryable, err, w) => Heard t e retryable err w
                       | Panic _ => Crashed e
                       end) (note {| lk_counter := c; lk_reads := seen; lk_answer := x |} h)).
Proof.
  intros Hok Ha. pose proof (ho_stage _ Hok) as Hst. rewrite Ha in Hst. simpl in Hst.
  set (st := match proxy (t_writer t) x with Ok _ => _ | Panic _ => _ end).
  assert (∀ env l f, after_send env (h_req h) t e = (l, f) → answer env (h_req h) (t_body t) (t_attempt t) e = x →
    resume env (h_req h) st = Some (l, f) ∧ st ≠ Arrived ∧ stage_ok (h_log h ++ [{| lk_counter := c; lk_reads := seen; lk_answer := x |}]) st) as Hres.
  { intros env l fl Hb Hx. unfold after_send in Hb. rewrite Hx in Hb. unfold st.
    destruct (proxy (t_writer t) x) as [[[retryable err] w]|p] eqn:Hp; simpl.
    - rewrite Hb, length_app. simpl. split_and!; [done|done|lia].
    - apply proxy_panic in Hp as ->. by rewrite Hb. }
  assert (st ≠ Arrived ∧ stage_ok (h_log h ++ [{| lk_counter := c; lk_reads := seen; lk_answer := x |}]) st) as [Hne Hok'].
  { set (env := λ _ : nat, look_env {| lk_counter := c; lk_reads := seen; lk_answer := x |}).
    destruct (after_send env (h_req h) t e) as [l fl] eqn:Hb. by apply (Hres env l fl). }
  eapply (handler_ok_next _ _ []); [exact Hok|by rewrite Ha|exact Hne|done|done|done|exact Hok'|].
  intros env Hag. destruct (agrees_note _ _ _ _ _ Hag) as [Hl Henv]. rewrite Hst in Henv.
  split; [split; [done|rewrite Ha; by rewrite Henv]|]. rewrite Ha. intros l fl [= Hb].
  exists l. split; [|done]. apply (Hres env l fl Hb). unfold answer. by rewrite Henv.
Qed.

Lemma handler_ok_step f sh h sh' h' :
  reachable T timeout f → handler_step hook (reg f) sh h sh' h' → handler_ok h → handler_ok h'.
Proof.
  intros Hf Hs Hok. pose proof (ho_stage _ Hok) as Hst.
  destruct Hs as [i evs st Ha He|t seen e Ha Hlt Hr|t seen c chosen Ha Hlen Hp|t c seen e Ha
    |t c seen e x Ha|t e retryable err w evs st Ha He]; rewrite Ha in Hst; simpl in Hst.
  - by apply handler_ok_enter.
  - eapply (handler_ok_next _ _ []); [exact Hok|by rewrite Ha|done|done|done|done| |].
    + simpl. destruct Hst as (? & ? & ? & ?). rewrite length_app. simpl. split_and!; [done..|lia].
    + intros env [Hl _]. split; [split; [done|by rewrite Ha]|]. rewrite Ha. simpl. eauto.
  - destruct Hst as (Hlog & Hleft & Hc & _). destruct chosen as [e|p].
    + eapply (handler_ok_next _ _ []); [exact Hok|by rewrite Ha|done|done|done|done|done|].
      intros env [Hl [Hcount Hreads]]. simpl in *. split; [split; [done|by rewrite Ha]|].
      rewrite Ha. intros l fl [= Hloop]. eexists. split; [|reflexivity]. rewrite <- Hloop.
      rewrite <- Hcount, <- Hreads in Hp. by rewrite (loop_from_picks _ _ _ _ _ Hleft Hc Hp).
    + eapply (handler_ok_next _ _ []); [exact Hok|by rewrite Ha|done|done|done|done|done|].
      intros env Hag. destruct (agrees_note _ _ _ _ _ Hag) as [Hl Henv]. split; [split; [done|by rewrite Ha]|].
      rewrite Ha. intros l fl [= Hloop]. simpl.
      rewrite Hlog in Henv. rewrite (loop_from_picks env _ _ c (Panic p) Hleft Hc) in Hloop by (by rewrite Henv).
      injection Hloop as <- <-. by eexists.
  - eapply (handler_ok_next _ _ [_; _]); [exact Hok|by rewrite Ha|done|done|done|done|done|].
    intros env [Hl Hag]. split; [split; [done|by rewrite Ha]|]. rewrite Ha. simpl. intros l fl [= Hb].
    unfold before_send in Hb. destruct (after_send _ _ _ _) as [evs fl']. injection Hb as <- <-. by eexists.
  - by apply handler_ok_answer.
  - pose proof (conclude_ok (h_log h) t e retryable err w Hst) as Hok'. rewrite He in Hok'. simpl in Hok'.
    eapply (handler_ok_next _ _ (EvDec (id_of e) :: evs)); [exact Hok|by rewrite Ha| |done|done|done|done|].
    + intros Harr. simpl in Harr. subst st. unfold conclude, next_attempt in He.
      destruct err; [destruct retryable; [case_decide|]|]; discriminate He.
    + intros env Hag. split; [split; [by apply Hag|by rewrite Ha]|]. rewrite Ha. simpl. intros l fl [= Hb].
      destruct (conclude_resume env (h_req h) _ _ _ _ _ _ _ He) as (l' & fl' & Hr & Had).
      unfold before_dec in Hb. rewrite Had in Hb. injection Hb as <- <-. by exists l'.
Qed.

(** *** What the counters are worth *)

(** Handler [h] has its request with worker [id]. *)
Definition forwarding_to (id : string) h : bool :=
  match h_stage h with
  | Sent _ _ _ e | Heard _ e _ _ _ => bool_decide (id_of e = id)
  | _ => false
  end.

(** [h] panicked over an answer of worker [id]. *)
Definition crashed_on (id : string) h : bool :=
  match h_stage h with Crashed e => bool_decide (id_of e = id) | _ => false end.

Definition in_flight_to (id : string) s : nat := sum_list_with (λ h, Nat.b2n (forwarding_to id h)) (rs_handlers s).

Definition crashes_on (id : string) s : nat := sum_list_with (λ h, Nat.b2n (crashed_on id h)) (rs_handlers s).

Definition flight s : gmap string Z := sh_flight (rs_shared s).

Definition held (id : string) h : nat := (Nat.b2n (forwarding_to id h) + Nat.b2n (crashed_on id h))%nat.

Lemma held_total id s : sum_list_with (held id) (rs_handlers s) = (in_flight_to id s + crashes_on id s)%nat.
Proof. unfold held, in_flight_to, crashes_on. induction (rs_handlers s); simpl; lia. Qed.

(** The worker a stage's counter stands for. *)
Definition counted (st : Stage) : option string :=
  match st with
  | Sent _ _ _ e | Heard _ e _ _ _ | Crashed e => Some (id_of e)
  | _ => None
  end.

Lemma held_counted id h : held id h = Nat.b2n (bool_decide (counted (h_stage h) = Some id)).
Proof.
  unfold held, forwarding_to, crashed_on. destruct (h_stage h); simpl; try done;
    rewrite (bool_decide_ext (id_of e = id) (Some (id_of e) = Some id)) by (split; congruence); lia.
Qed.

Lemma next_attempt_uncounted t : counted (next_attempt hook t).2 = None.
Proof. unfold next_attempt. by case_decide. Qed.

Lemma conclude_uncounted t e retryable err w : counted (conclude hook t e retryable err w).2 = None.
Proof. unfold conclude. destruct err; [destruct retryable|]; [apply next_attempt_uncounted|done..]. Qed.

Lemma enter_uncounted i r req w : counted (enter hook i r req w).2 = None.
Proof.
  unfold enter. repeat case_decide; try done.
  all: destruct (ReqBody req) as [body|]; [|done].
  all: destruct (decode_model body) as [[|a model]|]; [done| |done].
  all: cbv zeta; case_decide; [done|apply next_attempt_uncounted].
Qed.

Lemma getInFlight_add d id id' m :
  getInFlight (add_flight d id m) id' =
    if decide (id = id') then int64 (getInFlight m id + d) else getInFlight m id'.
Proof.
  unfold getInFlight, add_flight, counter64. destruct (m !! id) as [c|] eqn:E.
  - destruct (decide (id = id')) as [<-|Hne]; [by rewrite lookup_insert_eq|by rewrite lookup_insert_ne].
  - destruct (decide (id = id')) as [<-|Hne]; [by rewrite lookup_insert_eq|].
    by rewrite !lookup_insert_ne.
Qed.

Lemma handler_step_held r sh h sh' h' id c :
  handler_step hook r sh h sh' h' →
  getInFlight (sh_flight sh) id = int64 (c + Z.of_nat (held id h)) →
  getInFlight (sh_flight sh') id = int64 (c + Z.of_nat (held id h')).
Proof.
  rewrite !held_counted. intros Hs Hc.
  destruct Hs as [i evs st Ha He|t seen e Ha Hlt Hr|t seen c' chosen Ha Hlen Hp|t c' seen e Ha
    |t c' seen e x Ha|t e retryable err w evs st Ha He]; rewrite Ha in Hc; simpl in *; try done.
  - pose proof (enter_uncounted i r (h_req h) newWriter) as Hu. rewrite He in Hu. simpl in Hu. by rewrite Hu.
  - by destruct chosen.
  - unfold inc. rewrite getInFlight_add. destruct (decide (id_of e = id)) as [<-|Hne].
    + rewrite bool_decide_true by done. rewrite Hc, int64_add_l. f_equal. simpl. lia.
    + rewrite bool_decide_false by congruence. done.
  - by destruct (proxy _ _) as [[[] ?]|].
  - pose proof (conclude_uncounted t e retryable err w) as Hu. rewrite He in Hu. simpl in Hu. rewrite Hu.
    unfold dec. rewrite getInFlight_add. destruct (decide (id_of e = id)) as [<-|Hne].
    + rewrite bool_decide_true in Hc by done. rewrite Hc, int64_add_l. f_equal. simpl. lia.
    + rewrite bool_decide_false in Hc by congruence. done.
Qed.

(** *** The invariant of the running router *)

Record router_inv s : Prop := {
  ri_fleet : reachable T timeout (rs_fleet s);
  ri_handlers : ∀ h, h ∈ rs_handlers s → handler_ok h;
  ri_flight : ∀ id, getInFlight (flight s) id = int64 (Z.of_nat (in_flight_to id s + crashes_on id s));
}.

Lemma handler_ok_new req : handler_ok (new_handler req).
Proof. by split. Qed.

Lemma router_inv_init t0 : router_inv (router_init t0).
Proof. split; [by exists t0|by intros h ?%not_elem_of_nil|done]. Qed.

Lemma held_turn id (l : list Handler) n h h' :
  l !! n = Some h →
  (sum_list_with (held id) (<[n := h']> l) + held id h = sum_list_with (held id) l + held id h')%nat.
Proof. apply sum_list_insert. Qed.

Lemma turn_inv n s s' : turn n s s' → router_inv s → router_inv s'.
Proof.
  intros [h sh h' Hn Hs] [Hf Hh Hc]. pose proof (Hh h (list_elem_of_lookup_2 _ _ _ Hn)) as Hok.
  split; simpl; [done| |].
  - intros h0 (m & Hm)%list_elem_of_lookup. apply list_lookup_insert_Some in Hm as [(_ & <- & _)|[_ Hm]].
    + by eapply handler_ok_step.
    + apply Hh. by eapply list_elem_of_lookup_2.
  - intros id. rewrite <- held_total. simpl. pose proof (held_turn id _ _ _ h' Hn) as Hsum.
    specialize (Hc id). rewrite <- held_total in Hc.
    set (a := sum_list_with (held id) (rs_handlers s)) in *.
    set (b := sum_list_with (held id) (<[n := h']> (rs_handlers s))) in *.
    replace (Z.of_nat b) with (Z.of_nat a - Z.of_nat (held id h) + Z.of_nat (held id h')) by lia.
    unfold flight. simpl. eapply handler_step_held; [exact Hs|].
    unfold flight in Hc. rewrite Hc. f_equal. lia.
Qed.

Lemma router_step_inv s s' : router_step s s' → router_inv s → router_inv s'.
Proof.
  intros [req|f Hf|n s1 Ht] Hi; [|by destruct Hi as [(t0 & Hr) Hh Hc]; split; [exists t0; by eapply rtc_r|..]|by eapply turn_inv].
  destruct Hi as [Hf Hh Hc]. split; simpl; [done| |].
  - intros h [Hin| ->%list_elem_of_singleton]%elem_of_app; [by apply Hh|apply handler_ok_new].
  - intros id. rewrite <- held_total. cbn [rs_handlers]. rewrite sum_list_with_app.
    assert (sum_list_with (held id) [new_handler req] = 0%nat) as -> by (cbn [sum_list_with]; by rewrite held_counted).
    rewrite Nat.add_0_r, held_total. apply Hc.
Qed.

Lemma router_reachable_inv s : router_reachable s → router_inv s.
Proof.
  intros (t0 & Hr). apply (invariant_rtc router_step router_inv router_step_inv _ _ Hr), router_inv_init.
Qed.

(** C11: Under every interleaving of requests with each other and with the registry, the
    in-flight counter of every worker is the number of requests that are with it at that
    moment, plus the number of handlers that ever panicked over an answer of it: no
    increment is lost, and none outlives its request but those of a crash. *)
Theorem in_flight_exact s id :
  router_reachable s → Z.of_nat (in_flight_to id s + crashes_on id s) < 2 ^ 63 →
  getInFlight (flight s) id = Z.of_nat (in_flight_to id s + crashes_on id s).
Proof.
  intros Hi%router_reachable_inv Hb. rewrite (ri_flight _ Hi), int64_id; lia.
Qed.

(** C10: Whatever the interleaving, a handler that has answered or panicked has done exactly
    what [ServeHTTP] does with its request on the registry the handler met - a state the
    registry was in - and in the surroundings its log records: the same calls of workers,
    increments and decrements in the same order, and the same response. *)
Theorem ended_runs_ServeHTTP s h :
  router_reachable s → h ∈ rs_handlers s →
  ∀ flow, match h_stage h with
    | Ended w => flow = Finished w
    | Panicking p => flow = Panicked p
    | Crashed _ => flow = Panicked InvalidWriteHeaderCode
    | _ => False
    end →
  ∃ i f, h_met h = Some (i, reg f) ∧ reachable T timeout f ∧
    ServeHTTP (log_env (h_log h)) hook i (reg f) (h_req h) newWriter = (h_events h, flow).
Proof.
  intros Hi%router_reachable_inv Hh flow Hflow. destruct (ri_handlers _ Hi h Hh) as [_ _ Hmet Hrun].
  destruct Hmet as (i & f & Hm & Hf); [intros Ha; by rewrite Ha in Hflow|]. exists i, f. split_and!; [done..|].
  destruct (Hrun (log_env (h_log h)) i (reg f)) as (evs & fl & Hr & ->); [|intros Ha; by rewrite Ha in Hflow|done|].
  - split; [|by destruct (h_stage h)]. intros k l Hk. unfold log_env. simpl. by rewrite Hk.
  - destruct (h_stage h); try done; injection Hr as <- <-; by rewrite app_nil_r, Hflow.
Qed.

End running.
