(* ===== verification/RouterRuns.v ===== *)
(** * Runs of the running router

    On the invariant of RouterLive: a selection that nobody disturbs picks the least
    loaded candidate by the counters' true values; handlers come to an end; what a crash
    leaves behind; and concrete runs, among them one in which a selection panics. *)

From S2P Require Import Prelude GoFloat Proto GoTimer Registry RegistryProps GoHttp GoStrings GoJson GoUnmarshal Router RouterProps RouterLive.
Open Scope Z_scope.

Section runs.
Context (hook : bool) `{FmtQuote} `{MapRange} (T : Timing) (timeout : Z).
Implicit Types (s : RouterSys) (h : Handler).

Abbreviation turn := (turn hook).
Abbreviation router_step := (router_step hook T).
Abbreviation router_reachable := (router_reachable hook T timeout).

(** ** After a crash *)

(** A handler that has ended takes no step. *)
Definition ended h : bool :=
  match h_stage h with Ended _ | Panicking _ | Crashed _ => true | _ => false end.

Lemma ended_stuck r sh h sh' h' : ended h = true → ¬ handler_step hook r sh h sh' h'.
Proof. unfold ended. intros He Hs. by destruct Hs as [??? Ha|??? Ha|???? Ha|???? Ha|????? Ha|??????? Ha]; rewrite Ha in He. Qed.

Lemma crashes_grow s s' id : router_step s s' → (crashes_on id s ≤ crashes_on id s')%nat.
Proof.
  intros [req|f _|n s1 [h sh h' Hn Hs]]; unfold crashes_on; simpl; [rewrite sum_list_with_app; lia|done|].
  pose proof (sum_list_insert (λ h, Nat.b2n (crashed_on id h)) _ _ _ h' Hn) as Hsum.
  assert (crashed_on id h = false) as Hc; [|cbn beta in Hsum; rewrite Hc in Hsum; simpl in Hsum; lia].
  unfold crashed_on. destruct (h_stage h) eqn:E; try done. exfalso.
  eapply ended_stuck; [|exact Hs]. unfold ended. by rewrite E.
Qed.

(** C37: A crash is never made good: once a handler has panicked over an answer of a worker - a
    status of no three digits, which net/http reads but does not write - the worker's
    in-flight counter stays above the number of its requests for as long as the router
    runs. *)
Theorem crash_leaks s s' id :
  router_reachable s → (0 < crashes_on id s)%nat → rtc router_step s s' →
  Z.of_nat (in_flight_to id s' + crashes_on id s') < 2 ^ 63 →
  Z.of_nat (in_flight_to id s') < getInFlight (flight s') id.
Proof.
  intros Hr Hc Hrtc Hb.
  assert (crashes_on id s ≤ crashes_on id s')%nat as Hle.
  { apply (invariant_rtc router_step (λ q, crashes_on id s ≤ crashes_on id q)%nat) in Hrtc; [done| |done].
    intros q q' Hq ?. pose proof (crashes_grow _ _ id Hq). lia. }
  assert (router_reachable s') as Hr' by (destruct Hr as [t0 Hr]; exists t0; by etrans).
  pose proof (ri_flight _ _ _ _ (router_reachable_inv _ _ _ _ Hr') id) as Hf. rewrite Hf, int64_id; lia.
Qed.

(** ** Handlers come to an end *)

Definition arrived (st : Stage) : bool := match st with Arrived => true | _ => false end.

(** An upper bound on the steps of the attempts behind this one. *)
Definition later_steps (t : Try) : nat := (pred (t_left t) * (5 + 2 * length (t_workers t)))%nat.

(** An upper bound on the steps an entered handler has left. *)
Definition steps_left (st : Stage) : nat :=
  match st with
  | Selecting t seen => (later_steps t + (2 * length (t_workers t) - length seen) + 4)%nat
  | Chosen t _ _ _ => (later_steps t + 3)%nat
  | Sent t _ _ _ => (later_steps t + 2)%nat
  | Heard t _ _ _ _ => (later_steps t + 1)%nat
  | Arrived | Ended _ | Panicking _ | Crashed _ => 0%nat
  end.

Lemma reads_needed_bound t : (reads_needed t ≤ 2 * length (t_workers t))%nat.
Proof.
  unfold reads_needed. pose proof (length_filter (λ e, id_of e ∉ t_tried t) (t_workers t)) as Hl.
  fold (candidates t) in Hl. destruct (candidates t) as [|? []]; simpl in *; lia.
Qed.

Lemma next_attempt_arrived t : arrived (next_attempt hook t).2 = false.
Proof. unfold next_attempt. by case_decide. Qed.

Lemma conclude_steps t e retryable err w :
  arrived (conclude hook t e retryable err w).2 = false ∧
  (steps_left (conclude hook t e retryable err w).2 < steps_left (Heard t e retryable err w))%nat.
Proof.
  unfold conclude. destruct err as [err|]; [destruct retryable|]; [|simpl; split; [done|lia]..].
  split; [apply next_attempt_arrived|]. unfold next_attempt. case_decide as Hd; simpl; [lia|].
  unfold later_steps. simpl in *. destruct (t_left t) as [|[|n]]; [by destruct Hd; left..|]. simpl. lia.
Qed.

Lemma enter_arrived i r req w : arrived (enter hook i r req w).2 = false.
Proof.
  unfold enter. repeat case_decide; try done.
  all: destruct (ReqBody req) as [body|]; [|done].
  all: destruct (decode_model body) as [[|a model]|]; [done| |done].
  all: cbv zeta; case_decide; [done|apply next_attempt_arrived].
Qed.

(** A step enters the handler or brings it nearer to its end. *)
Lemma handler_step_nearer r sh h sh' h' :
  handler_step hook r sh h sh' h' →
  arrived (h_stage h') = false ∧
  (arrived (h_stage h) = true ∨
   arrived (h_stage h) = false ∧ (steps_left (h_stage h') < steps_left (h_stage h))%nat).
Proof.
  intros Hs. destruct Hs as [i evs st Ha He|t seen e Ha Hlt Hr|t seen c' chosen Ha Hlen Hp|t c' seen e Ha
    |t c' seen e x Ha|t e retryable err w evs st Ha He]; rewrite Ha; simpl.
  - split; [|by left]. pose proof (enter_arrived i r (h_req h) newWriter) as Hu. by rewrite He in Hu.
  - split; [done|right]. split; [done|]. pose proof (reads_needed_bound t). rewrite length_app. simpl. lia.
  - destruct chosen; simpl; (split; [done|right]); (split; [done|lia]).
  - split; [done|right]. split; [done|lia].
  - destruct (proxy _ _) as [[[] ?]|]; simpl; (split; [done|right]); (split; [done|lia]).
  - destruct (conclude_steps t e retryable err w) as [Hu Hlt]. rewrite He in Hu, Hlt. simpl in Hu, Hlt.
    split; [done|right]. by split.
Qed.

Definition waiting s : nat := sum_list_with (λ h, Nat.b2n (arrived (h_stage h))) (rs_handlers s).

Definition work s : nat := sum_list_with (λ h, steps_left (h_stage h)) (rs_handlers s).

(** The registry does what it likes, then some handler takes a step. *)
Inductive served s : RouterSys → Prop :=
  | handler_served f n s' :
      rtc (step T) (rs_fleet s) f →
      turn n {| rs_fleet := f; rs_shared := rs_shared s; rs_handlers := rs_handlers s |} s' →
      served s s'.

Lemma served_nearer s s' : served s s' →
  (waiting s' < waiting s)%nat ∨ waiting s' = waiting s ∧ (work s' < work s)%nat.
Proof.
  intros [f n s1 _ [h sh h' Hn Hs]]. simpl in *. destruct (handler_step_nearer _ _ _ _ _ Hs) as [Hu Hcase].
  pose proof (sum_list_insert (λ h, Nat.b2n (arrived (h_stage h))) _ _ _ h' Hn) as Hw.
  pose proof (sum_list_insert (λ h, steps_left (h_stage h)) _ _ _ h' Hn) as Hl. cbn beta in Hw, Hl.
  rewrite Hu in Hw. unfold waiting, work. simpl.
  destruct Hcase as [Ha|[Ha Hlt]]; rewrite Ha in Hw; simpl in Hw; [left; lia|right; split; lia].
Qed.

Lemma served_sn s : sn served s.
Proof.
  remember (waiting s) as a eqn:Ha. revert s Ha. induction (lt_wf a) as [a _ IHa].
  intros s Ha. remember (work s) as b eqn:Hb. revert s Ha Hb. induction (lt_wf b) as [b _ IHb].
  intros s Ha Hb. constructor. intros s' Hs.
  destruct (served_nearer _ _ Hs) as [Hlt|[Heq Hlt]]; [eapply IHa; [|reflexivity]; lia|].
  eapply IHb; [|congruence|reflexivity]. lia.
Qed.

Lemma at_rest s : forallb ended (rs_handlers s) = true → nf served s.
Proof.
  intros He [s' [f n s1 _ [h sh h' Hn Hs]]]. eapply ended_stuck; [|exact Hs].
  rewrite forallb_forall in He. apply He, list_elem_of_In. by eapply list_elem_of_lookup_2.
Qed.

(** A handler that has not ended can take a step. *)
Lemma handler_can_step r sh h :
  handler_ok hook T timeout h → ended h = false → ∃ sh' h', handler_step hook r sh h sh' h'.
Proof.
  intros Hok He. pose proof (ho_stage _ _ _ _ Hok) as Hst. unfold ended in He.
  destruct (h_stage h) as [|t seen|t c seen e|t c seen e|t e rt err w|w|p|e] eqn:E; try done; simpl in Hst.
  - destruct (enter hook 0 r (h_req h) newWriter) as [evs st] eqn:Hent. eexists _, _. by eapply hs_enter.
  - destruct Hst as (_ & _ & Hc & Hle). destruct (decide (length seen = reads_needed t)) as [Heq|Hne].
    + destruct (pickWorker (candidates t) (sh_counter sh) (seen_reads seen)) as [c chosen] eqn:Hp.
      eexists _, _. by eapply hs_pick.
    + destruct (lookup_lt_is_Some_2 (candidates t) (length seen mod length (candidates t))%nat) as [e Hin].
      { apply Nat.mod_upper_bound. by destruct (candidates t). }
      eexists _, _. eapply hs_read; [done|lia|exact Hin].
  - eexists _, _. by eapply hs_send.
  - eexists _, _. eapply (hs_answer _ _ _ _ _ _ _ _ (Unreachable "")). done.
  - destruct (conclude hook t e rt err w) as [evs st] eqn:Hcon. eexists _, _. by eapply hs_dec.
Qed.

(** The router comes to rest: however the registry goes on meanwhile, the handlers of a
    reachable router have finitely many steps left once no more requests arrive, and one
    that has not ended can always take one - in case it has sent its request, when the
    worker answers or the connection fails.  When none is left no worker's counter stands
    for a request any more: each is back at zero, unless an answer of that worker crashed a
    handler. *)
Theorem router_rests s :
  router_reachable s →
  sn served s ∧
  (nf served s → (∀ h, h ∈ rs_handlers s → ended h = true) ∧
    ∀ id, crashes_on id s = 0%nat → getInFlight (flight s) id = 0).
Proof.
  intros Hi%router_reachable_inv. split; [apply served_sn|]. intros Hnf.
  assert (∀ h, h ∈ rs_handlers s → ended h = true) as Hend.
  { intros h Hh. apply not_false_iff_true. intros He. apply list_elem_of_lookup in Hh as [n Hn].
    destruct (handler_can_step (reg (rs_fleet s)) (rs_shared s) h) as (sh & h' & Hs);
      [by eapply ri_handlers, list_elem_of_lookup_2|done|].
    apply Hnf. eexists. eapply (handler_served s (rs_fleet s) n); [done|by econstructor]. }
  split; [done|]. intros id Hc. rewrite (ri_flight _ _ _ _ Hi), Hc.
  assert (in_flight_to id s = 0%nat) as ->; [|done].
  unfold in_flight_to. clear -Hend. induction (rs_handlers s) as [|h l IH]; [done|].
  simpl. rewrite IH by (intros h' Hh'; apply Hend; by right).
  pose proof (Hend h (list_elem_of_here _ _)) as He. unfold ended in He. unfold forwarding_to.
  by destruct (h_stage h).
Qed.

(** ** A selection nobody disturbs *)

(** The number of requests a worker's counter stands for. *)
Definition load id s : nat := (in_flight_to id s + crashes_on id s)%nat.

Lemma load_bound id s : (load id s ≤ length (rs_handlers s))%nat.
Proof.
  unfold load. rewrite <- held_total. induction (rs_handlers s) as [|h l IH]; [done|].
  simpl. rewrite held_counted. case_bool_decide; simpl; lia.
Qed.

(** Handler [n], running alone since it began to select, has made [m] reads of the counters
    [fl]. *)
Record reading (n : nat) (t : Try) (fl : gmap string Z) (m : nat) s : Prop := {
  rd_handler : ∃ h seen, rs_handlers s !! n = Some h ∧ h_stage h = Selecting t seen ∧ length seen = m ∧
    ∀ k e, (k < m)%nat → to_read t k = Some e → seen !!! k = getInFlight fl (id_of e);
  rd_flight : flight s = fl;
}.

Lemma reading_turn n t fl m s s' :
  reading n t fl m s → (m < reads_needed t)%nat → turn n s s' → reading n t fl (S m) s'.
Proof.
  intros [(h & seen & Hn & Hst & Hlen & Hseen) Hfl] Hm [h0 sh h' Hn' Hs]. rewrite Hn in Hn'. injection Hn' as <-.
  destruct Hs as [??? Ha|t' seen' e Ha Hlt Hr|t' seen' ?? Ha Hl|???? Ha|????? Ha|??????? Ha]; rewrite Hst in Ha;
    try discriminate Ha; injection Ha as <- <-; [|lia].
  split; simpl; [|done].
  eexists _, _. split; [apply list_lookup_insert_eq; by eapply lookup_lt_Some|]. split; [done|].
  split; [rewrite length_app; simpl; lia|]. intros k v Hk Hv.
  destruct (decide (k < m)%nat) as [Hlt'|Hge].
  - rewrite lookup_total_app_l by lia. by apply Hseen.
  - assert (k = length seen) as -> by lia. rewrite list_lookup_total_middle by done. unfold flight in Hfl. rewrite Hfl.
    rewrite Hr in Hv. by injection Hv as ->.
Qed.

Lemma reading_can_turn n t fl m s :
  reading n t fl m s → candidates t ≠ [] → (m ≤ reads_needed t)%nat → ∃ s', turn n s s'.
Proof.
  intros [(h & seen & Hn & Hst & Hlen & Hseen) Hfl] Hc Hm.
  destruct (decide (m = reads_needed t)) as [->|Hne].
  - destruct (pickWorker (candidates t) (sh_counter (rs_shared s)) (seen_reads seen)) as [c chosen] eqn:Hp.
    eexists. econstructor; [done|]. by eapply hs_pick.
  - destruct (lookup_lt_is_Some_2 (candidates t) (m mod length (candidates t))%nat) as [e Hin].
    { apply Nat.mod_upper_bound. by destruct (candidates t). }
    eexists. econstructor; [done|]. eapply hs_read; [done|lia|]. unfold to_read. by rewrite Hlen.
Qed.

(** The last turn of the selection. *)
Lemma reading_picks n t fl s s' :
  reading n t fl (reads_needed t) s → turn n s s' →
  ∃ h' c seen chosen, rs_handlers s' !! n = Some h' ∧
    pickWorker (candidates t) (sh_counter (rs_shared s)) (λ _, getInFlight fl) = (c, chosen) ∧
    h_stage h' = match chosen with
      | Ok e => Chosen t (sh_counter (rs_shared s)) seen e
      | Panic p => Panicking p
      end.
Proof.
  intros [(h & seen & Hn & Hst & Hlen & Hseen) Hfl] [h0 sh h' Hn' Hs]. rewrite Hn in Hn'. injection Hn' as <-.
  destruct Hs as [??? Ha|t' seen' e Ha Hlt Hr|t' seen' c chosen Ha Hl Hp|???? Ha|????? Ha|??????? Ha]; rewrite Hst in Ha;
    try discriminate Ha; injection Ha as <- <-; [lia|].
  eexists _, c, seen, chosen. split; [apply list_lookup_insert_eq; by eapply lookup_lt_Some|].
  split; [|by destruct chosen]. rewrite <- Hp. apply pickWorker_ext.
  intros k w Hlen2 Hk Hw. unfold seen_reads. symmetry. apply Hseen; [|done].
  unfold reads_needed. by destruct (candidates t) as [|? [|? l]]; simpl in *; [lia..|].
Qed.

Lemma reading_turns n t fl s : candidates t ≠ [] →
  ∀ k m, reading n t fl m s → (m + k = reads_needed t)%nat →
  (∃ s', nsteps (turn n) (S k) s s') ∧
  ∀ s', nsteps (turn n) (S k) s s' → ∃ s1, reading n t fl (reads_needed t) s1 ∧ turn n s1 s'.
Proof.
  intros Hc k. revert s. induction k as [|k IH]; intros s m Hrd Hk.
  - rewrite Nat.add_0_r in Hk. subst m. split.
    + destruct (reading_can_turn n t fl _ s Hrd Hc ltac:(lia)) as [s' Hs']. exists s'. by apply nsteps_once.
    + intros s' Hs'%nsteps_once_inv. by exists s.
  - split.
    + destruct (reading_can_turn n t fl _ s Hrd Hc ltac:(lia)) as [s1 Hs1].
      destruct (IH s1 (S m)) as [[s' Hs'] _]; [eapply reading_turn; [done|lia|done]|lia|].
      exists s'. by eapply nsteps_l.
    + intros s' Hs'. inversion Hs' as [|? ? s1 ? Hs1 Hrest]; subst.
      destruct (IH s1 (S m)) as [_ Hall]; [eapply reading_turn; [done|lia|done]|lia|]. by apply Hall.
Qed.


End runs.

(** ** Concrete runs *)

Section execution.
Context (hook : bool) `{FmtQuote} `{MapRange} (T : Timing) (timeout : Z).

(** The step of a handler as a computation; [x] is what a worker answers. *)
Definition exec_step (r : Registry) (x : Exchange) (sh : Shared) (h : Handler) : option (Shared * Handler) :=
  match h_stage h with
  | Arrived =>
    let '(evs, st) := enter hook 0 r (h_req h) newWriter in Some (sh, goto evs st (meet_registry 0 r h))
  | Selecting t seen =>
    if decide (length seen = reads_needed t) then
      let '(c, chosen) := pickWorker (candidates t) (sh_counter sh) (seen_reads seen) in
      Some (set_counter c sh, match chosen with
        | Ok e => goto [] (Chosen t (sh_counter sh) seen e) h
        | Panic p => goto [] (Panicking p)
            (note {| lk_counter := sh_counter sh; lk_reads := seen; lk_answer := Unreachable "" |} h)
        end)
    else if decide (length seen < reads_needed t)%nat then
      (λ e, (sh, goto [] (Selecting t (seen ++ [getInFlight (sh_flight sh) (id_of e)])) h)) <$> to_read t (length seen)
    else None
  | Chosen t c seen e =>
    Some (set_flight (inc (id_of e) (sh_flight sh)) sh,
      goto [EvInc (id_of e); EvForward (forwarded (h_req h) (t_body t) e)] (Sent t c seen e) h)
  | Sent t c seen e =>
    Some (sh, goto [] (match proxy (t_writer t) x with
        | Ok (retryable, err, w) => Heard t e retryable err w
        | Panic _ => Crashed e
        end) (note {| lk_counter := c; lk_reads := seen; lk_answer := x |} h))
  | Heard t e retryable err w =>
    let '(evs, st) := conclude hook t e retryable err w in
    Some (set_flight (dec (id_of e) (sh_flight sh)) sh, goto (EvDec (id_of e) :: evs) st h)
  | Ended _ | Panicking _ | Crashed _ => None
  end.

Lemma exec_step_sound r x sh h sh' h' :
  exec_step r x sh h = Some (sh', h') → handler_step hook r sh h sh' h'.
Proof.
  unfold exec_step. destruct (h_stage h) as [|t seen|t c seen e|t c seen e|t e rt err w|w|p|e] eqn:E; try done.
  - destruct (enter _ _ _ _ _) as [evs st] eqn:He. intros [= <- <-]. by eapply hs_enter.
  - case_decide as Hl; [|case_decide as Hlt; [|done]].
    + destruct (pickWorker _ _ _) as [c chosen] eqn:Hp. intros [= <- <-]. by eapply hs_pick.
    + intros (e & He & [= -> ->])%fmap_Some. by eapply hs_read.
  - intros [= <- <-]. by eapply hs_send.
  - intros [= <- <-]. by eapply hs_answer.
  - destruct (conclude _ _ _ _ _ _) as [evs st] eqn:Hc. intros [= <- <-]. by eapply hs_dec.
Qed.

(** A request arrives, or handler [n] moves, being answered [x] if that is what it waits for. *)
Inductive Move :=
  | Arrive (req : Request)
  | Go (n : nat) (x : Exchange).

Definition exec_move (m : Move) (s : RouterSys) : option RouterSys :=
  match m with
  | Arrive req => Some {| rs_fleet := rs_fleet s; rs_shared := rs_shared s;
                          rs_handlers := rs_handlers s ++ [new_handler req] |}
  | Go n x =>
    match rs_handlers s !! n with
    | None => None
    | Some h =>
      (λ '(sh, h'), {| rs_fleet := rs_fleet s; rs_shared := sh; rs_handlers := <[n := h']> (rs_handlers s) |})
        <$> exec_step (reg (rs_fleet s)) x (rs_shared s) h
    end
  end.

Lemma exec_go_sound n x s s' : exec_move (Go n x) s = Some s' → turn hook n s s'.
Proof.
  simpl. destruct (rs_handlers s !! n) as [h|] eqn:Hn; [|done].
  intros ([sh h'] & Hs & ->)%fmap_Some. econstructor; [done|]. by eapply exec_step_sound.
Qed.

Lemma exec_move_sound m s s' : exec_move m s = Some s' → router_step hook T s s'.
Proof.
  destruct m as [req|n x]; [intros [= <-]; constructor|]. intros Hm%exec_go_sound. by eapply router_turn.
Qed.

Fixpoint exec_moves (ms : list Move) (s : RouterSys) : option RouterSys :=
  match ms with
  | [] => Some s
  | m :: ms' => exec_move m s ≫= exec_moves ms'
  end.

Lemma exec_moves_sound ms s s' : exec_moves ms s = Some s' → rtc (router_step hook T) s s'.
Proof.
  revert s. induction ms as [|m ms IH]; intros s; simpl; [intros [= <-]; apply rtc_refl|].
  intros (s1 & Hm & Hr)%bind_Some. eapply rtc_l; [by eapply exec_move_sound|by apply IH].
Qed.

Definition with_fleet (f : Sys) : RouterSys :=
  {| rs_fleet := f; rs_shared := {| sh_counter := 0; sh_flight := ∅ |}; rs_handlers := [] |}.

Lemma exec_reachable f ms s :
  reachable T timeout f → exec_moves ms (with_fleet f) = Some s → router_reachable hook T timeout s.
Proof.
  intros [t0 Hf] Hm. exists t0. trans (with_fleet f); [|by eapply exec_moves_sound].
  change (router_init timeout t0) with (with_fleet (init timeout t0)). clear Hm.
  induction Hf as [f|f f1 f2 Hs Hf IH]; [apply rtc_refl|].
  eapply rtc_l; [|exact IH]. apply (router_registry hook T (with_fleet f)). exact Hs.
Qed.

End execution.

(** A fleet that two workers have joined. *)
Definition pair_info (id : string) (cost : float64) : WorkerInfo := Info (demo_worker id cost).

Definition join (id : string) (cost : float64) (s : Sys) : Sys :=
  let '(r, _) := Register (clock s) (clock s) (pair_info id cost) (reg s) in
  advance (fst (Heartbeat (clock s) (clock s) {| hb_WorkerId := id; hb_State := READY |} r)) (clock s) s.

Lemma join_steps T id cost s :
  0 ≤ gap T → 0 ≤ insert_delay T → id ≠ "" → starting s = [] → rtc (step T) s (join id cost s).
Proof.
  intros Hg Hd Hid Hst. unfold join, Register.
  destruct (Register_start (clock s) (clock s) (pair_info id cost) (reg s)) as [r [e|err]] eqn:Hr.
  2: { exfalso. unfold Register_start in Hr. simpl in Hr. by rewrite decide_False in Hr. }
  destruct (Register_finish e r) as [r' resp] eqn:Hf.
  eapply rtc_l; [by eapply (step_register_start T s (clock s) (clock s) (pair_info id cost)); [lia|lia|]|].
  eapply rtc_l; [eapply (step_register_finish T _ 0%nat e)|].
  - done.
  - unfold Register_start in Hr. simpl in Hr. rewrite decide_False in Hr by done. injection Hr as _ <-. simpl. lia.
  - exact Hf.
  - rewrite Hst. apply rtc_once. unfold advance. rewrite Hst. simpl.
    by eapply (run_heartbeat T _ (clock s) (clock s) {| hb_WorkerId := id; hb_State := READY |}); [simpl; lia|lia|].
Qed.

Definition pair_sys : Sys := join "b" (f_of_Z 1) (join "a" (f_of_Z 1) (init DefaultDeadTimeout 0)).

Definition pair_timing : Timing := {| gap := 1; latency := 0; insert_delay := 0 |}.

Lemma pair_reachable : reachable pair_timing DefaultDeadTimeout pair_sys.
Proof. exists 0. etrans; by apply join_steps. Qed.

#[local] Instance plain_quote : FmtQuote := λ s, s.

Definition served_200 : Exchange := Responded 200 "application/json" "{}" None.

(** Two requests in flight at once: the first has its answer, the second selects. *)
Definition demo_moves : list Move :=
  [Arrive demo_post] ++ replicate 7 (Go 0 served_200) ++ [Arrive demo_post; Go 1 served_200].

Definition demo_run (ms : list Move) : RouterSys :=
  default (with_fleet pair_sys) (exec_moves true ms (with_fleet pair_sys)).

Lemma demo_run_reachable ms : router_reachable true pair_timing DefaultDeadTimeout (demo_run ms).
Proof.
  unfold demo_run. destruct (exec_moves _ _ _) as [s|] eqn:E.
  - eapply exec_reachable; [exact pair_reachable|exact E].
  - by eapply (exec_reachable _ _ _ _ []); [exact pair_reachable|].
Qed.

Definition demo_handler (n : nat) (s : RouterSys) : Handler := default (new_handler demo_post) (rs_handlers s !! n).

Lemma demo_handler_lookup n s : (n < length (rs_handlers s))%nat → rs_handlers s !! n = Some (demo_handler n s).
Proof. intros [h Hh]%lookup_lt_is_Some_2. unfold demo_handler. by rewrite Hh. Qed.

(** One request with worker [b]. *)
Definition sent_run : RouterSys := demo_run (Arrive demo_post :: replicate 7 (Go 0 served_200)).

Lemma in_flight_exact_witness : getInFlight (flight sent_run) "b" = 1 ∧ in_flight_to "b" sent_run = 1%nat.
Proof.
  assert (in_flight_to "b" sent_run = 1%nat) as Hf by (vm_compute; reflexivity).
  assert (crashes_on "b" sent_run = 0%nat) as Hc by (vm_compute; reflexivity).
  split; [|exact Hf].
  rewrite (in_flight_exact true pair_timing DefaultDeadTimeout sent_run "b" (demo_run_reachable _)).
  - rewrite Hf, Hc. reflexivity.
  - rewrite Hf, Hc. reflexivity.
Defined.

(** It is answered. *)
Definition answered_run : RouterSys := demo_run (Arrive demo_post :: replicate 9 (Go 0 served_200)).

Lemma ended_runs_ServeHTTP_witness :
  ∃ i f w, ServeHTTP (log_env (h_log (demo_handler 0 answered_run))) true i (reg f) demo_post newWriter =
    (h_events (demo_handler 0 answered_run), Finished w) ∧ Written w = Some 200.
Proof.
  assert (∃ w, h_stage (demo_handler 0 answered_run) = Ended w ∧ Written w = Some 200) as (w & Hst & Hw).
  { eexists. split; vm_compute; reflexivity. }
  destruct (ended_runs_ServeHTTP true pair_timing DefaultDeadTimeout answered_run (demo_handler 0 answered_run)
    (demo_run_reachable _)) with (flow := Finished w) as (i & f & _ & _ & H).
  - eapply list_elem_of_lookup_2, (demo_handler_lookup 0). apply Nat.ltb_lt. vm_compute. reflexivity.
  - rewrite Hst. reflexivity.
  - exists i, f, w. split; [|exact Hw].
    assert (h_req (demo_handler 0 answered_run) = demo_post) as Hreq by (vm_compute; reflexivity).
    rewrite Hreq in H. exact H.
Defined.

(** Its answer has the status 099. *)
Definition crashed_run : RouterSys :=
  demo_run (Arrive demo_post :: replicate 8 (Go 0 (Responded 99 "" "" None))).

Lemma crash_leaks_witness :
  Z.of_nat (in_flight_to "b" crashed_run) < getInFlight (flight crashed_run) "b" ∧ in_flight_to "b" crashed_run = 0%nat.
Proof.
  split; [|vm_compute; reflexivity].
  apply (crash_leaks true pair_timing DefaultDeadTimeout crashed_run crashed_run "b" (demo_run_reachable _)).
  - apply Nat.ltb_lt. vm_compute. reflexivity.
  - apply rtc_refl.
  - vm_compute. reflexivity.
Defined.

Lemma router_rests_witness : getInFlight (flight answered_run) "b" = 0.
Proof.
  destruct (router_rests true pair_timing DefaultDeadTimeout answered_run (demo_run_reachable _)) as [_ Hnf].
  apply Hnf; [|vm_compute; reflexivity].
  apply at_rest. vm_compute. reflexivity.
Defined.

(** A second request selects while the first is with [b]: it chooses [a]. *)
Definition selecting_run : RouterSys := demo_run demo_moves.


(** C36: A selection can panic in a run of the router itself, prices being equal numbers: two
    requests are sent while a third one is between its two passes over the counters, one to
    each of the fleet's two workers, and the third finds no worker at the minimum. *)
Theorem race_run_panics :
  ∃ s h, router_reachable true pair_timing DefaultDeadTimeout s ∧ h ∈ rs_handlers s ∧
    h_stage h = Panicking IndexOutOfRange ∧ in_flight_to "a" s = 1%nat ∧ in_flight_to "b" s = 1%nat.
Proof.
  set (s := demo_run (replicate 3 (Arrive demo_post) ++ replicate 3 (Go 0 served_200) ++
    replicate 7 (Go 1 served_200) ++ replicate 7 (Go 2 served_200) ++ replicate 3 (Go 0 served_200))).
  exists s, (demo_handler 0 s). split; [apply demo_run_reachable|]. split.
  { eapply list_elem_of_lookup_2, (demo_handler_lookup 0). apply Nat.ltb_lt. vm_compute. reflexivity. }
  split_and!; vm_compute; reflexivity.
Qed.
