(* ===== verification/Scaler.v ===== *)
(** * The fleet scaler (control-plane/scaler/scaler.go)

    One sweep takes a snapshot of the registry, visits the snapshot's entries and
    then looks at the registry twice more for its warnings.  Every look at the
    registry is its own lock section: other goroutines run in between.  [Sweep]
    takes what they do as an argument; [scaler_step] interleaves the visits with
    the registry's own steps.  Log lines are the values of [Report]. *)

From S2P Require Import Prelude GoFloat Proto GoTimer Registry.
Open Scope Z_scope.

Definition DefaultSweepInterval : Z := 30 * Second.
Definition DefaultDeadGrace : Z := 30 * Second.
Definition DefaultMinHealthy : Z := 1.

(** [hasCallback]: [OnWorkerEvicted] is not nil. *)
Record Scaler := {
  sweepEvery : Z;
  deadGrace : Z;
  minHealthy : Z;
  hasCallback : bool;
}.

Inductive Opt :=
  | WithSweepInterval (d : Z)
  | WithDeadGrace (d : Z)
  | WithMinHealthy (n : Z)
  | WithOnWorkerEvicted.

Definition apply_option (s : Scaler) (o : Opt) : Scaler :=
  match o with
  | WithSweepInterval d => {| sweepEvery := d; deadGrace := deadGrace s;
      minHealthy := minHealthy s; hasCallback := hasCallback s |}
  | WithDeadGrace d => {| sweepEvery := sweepEvery s; deadGrace := d;
      minHealthy := minHealthy s; hasCallback := hasCallback s |}
  | WithMinHealthy n => {| sweepEvery := sweepEvery s; deadGrace := deadGrace s;
      minHealthy := n; hasCallback := hasCallback s |}
  | WithOnWorkerEvicted => {| sweepEvery := sweepEvery s; deadGrace := deadGrace s;
      minHealthy := minHealthy s; hasCallback := true |}
  end.

Definition NewScaler (opts : list Opt) : Scaler :=
  foldl apply_option
    {| sweepEvery := DefaultSweepInterval; deadGrace := DefaultDeadGrace;
       minHealthy := DefaultMinHealthy; hasCallback := false |} opts.

(** A call of [OnWorkerEvicted]. *)
Record Eviction := {
  ev_worker : string;
  ev_models : list string;
}.

Section sweep.
Context (s : Scaler).

(** [now] is the clock reading of [time.Since].  Returns the callback's call. *)
Definition handleDead (now : Z) (w : WorkerEntry) (r : Registry) : Registry * list Eviction :=
  match MarkedDeadAt w with
  | None => (r, [])
  | Some dead_at =>
    if now - dead_at <? deadGrace s then (r, [])
    else match Evict (WorkerId (Info w)) r with
    | (r', Some _) => (r', [])
    | (r', None) =>
      (r', if hasCallback s
           then [{| ev_worker := WorkerId (Info w); ev_models := ModelsLoaded (Info w) |}] else [])
    end
  end.

(** The body of the loop. *)
Definition visit (now : Z) (w : WorkerEntry) (r : Registry) : Registry * list Eviction :=
  if decide (State w = DEAD) then handleDead now w r else (r, []).

(** [others k] is what the rest of the program does to the registry before visit [k]
    reads the clock as [clock k]. *)
Fixpoint visits (clock : nat → Z) (others : nat → Registry → Registry) (k : nat)
    (ws : list WorkerEntry) (r : Registry) : Registry * list Eviction :=
  match ws with
  | [] => (others k r, [])
  | w :: ws' =>
    let '(r1, calls) := visit (clock k) w (others k r) in
    let '(r2, calls') := visits clock others (S k) ws' r1 in
    (r2, calls ++ calls')
  end.

Record Report := {
  below_minimum : option nat;
  unserved : list (string * nat);
}.

Context `{MapRange}.

(** The two warnings, from one [WorkerCount] and one [ModelsServed]. *)
Definition warnings (i j k : nat) (r1 r2 : Registry) : Report :=
  let '(total, currentHealthy) := WorkerCount i r1 in
  {| below_minimum :=
       if bool_decide (0 < total)%nat && (Z.of_nat currentHealthy <? minHealthy s)
       then Some currentHealthy else None;
     unserved := omap (λ ms, if decide (HealthyWorkers ms = 0%nat)
                             then Some (Model ms, TotalWorkers ms) else None)
                   (ModelsServed j k r2) |}.

(** [l] numbers the loop of the snapshot. *)
Definition Sweep (clock : nat → Z) (others : nat → Registry → Registry) (i j k l : nat) (r : Registry)
    : Registry * list Eviction * Report :=
  let workers := ListWorkers l r in
  let '(r1, calls) := visits clock others 0 workers r in
  let r2 := others (S (length workers)) r1 in
  (r2, calls, warnings i j k r1 r2).

End sweep.

(** ** The scaler next to the running registry *)

(** [snapshot]: the entries the current sweep has still to visit. *)
Record ScalerSys := {
  base : Sys;
  snapshot : list WorkerEntry;
}.

Inductive scaler_step `{MapRange} (sc : Scaler) (T : Timing) (s : ScalerSys) : ScalerSys → Prop :=
  | registry_runs b :
      step T (base s) b → scaler_step sc T s {| base := b; snapshot := snapshot s |}
  | sweep_starts i :
      snapshot s = [] →
      scaler_step sc T s {| base := base s; snapshot := ListWorkers i (reg (base s)) |}
  | sweep_visits now w ws r calls :
      clock (base s) ≤ now → snapshot s = w :: ws →
      visit sc now w (reg (base s)) = (r, calls) →
      scaler_step sc T s {| base := advance r now (base s); snapshot := ws |}.

(** ** Lemmas *)

Section sweep_lemmas.
Context (sc : Scaler) `{MapRange}.

(** The visit would evict: the snapshot shows the worker dead for the grace period. *)
Definition overdue (now : Z) (w : WorkerEntry) : Prop :=
  State w = DEAD ∧ ∃ d, MarkedDeadAt w = Some d ∧ d + deadGrace sc ≤ now.

#[export] Instance overdue_dec now w : Decision (overdue now w).
Proof.
  destruct (decide (State w = DEAD)) as [HD|HD]; [|by right; intros [? _]].
  destruct (MarkedDeadAt w) as [d|] eqn:E; [|right; intros (_ & ? & ? & _); congruence].
  destruct (decide (d + deadGrace sc ≤ now)) as [Hd|Hd]; [left; split; eauto|].
  right. intros (_ & d' & Hd' & ?). rewrite E in Hd'. simplify_eq. lia.
Defined.

Definition call_of (w : WorkerEntry) : Eviction :=
  {| ev_worker := WorkerId (Info w); ev_models := ModelsLoaded (Info w) |}.

Definition calls_of (w : WorkerEntry) : list Eviction :=
  if hasCallback sc then [call_of w] else [].

Lemma visit_overdue now w r :
  overdue now w →
  visit sc now w r =
    match workers r !! WorkerId (Info w) with
    | Some e => (remove_worker (WorkerId (Info w)) e r, calls_of w)
    | None => (r, [])
    end.
Proof.
  intros (HD & d & Hd & Hle). unfold visit. rewrite decide_True by done.
  unfold handleDead. rewrite Hd. destruct (Z.ltb_spec (now - d) (deadGrace sc)); [lia|].
  unfold Evict. by destruct (workers r !! _).
Qed.

Lemma visit_spared now w r : ¬ overdue now w → visit sc now w r = (r, []).
Proof.
  intros Hn. unfold visit. destruct (decide (State w = DEAD)) as [HD|]; [|done].
  unfold handleDead. destruct (MarkedDeadAt w) as [d|] eqn:Hd; [|done].
  destruct (Z.ltb_spec (now - d) (deadGrace sc)); [done|].
  exfalso. apply Hn. split; [done|]. exists d. split; [done|lia].
Qed.

(** The workers visits [k], [k + 1], ... find overdue. *)
Fixpoint removed (clock : nat → Z) (k : nat) (ws : list WorkerEntry) : list WorkerEntry :=
  match ws with
  | [] => []
  | w :: ws' =>
    if decide (overdue (clock k) w) then w :: removed clock (S k) ws' else removed clock (S k) ws'
  end.

Lemma removed_sublist clock k ws : removed clock k ws `sublist_of` ws.
Proof.
  revert k. induction ws as [|w ws IH]; intros k; simpl; [constructor|].
  case_decide; by constructor.
Qed.

Lemma removed_overdue clock k ws hi w :
  (∀ j, clock j ≤ hi) → w ∈ removed clock k ws → overdue hi w.
Proof.
  intros Hhi. revert k. induction ws as [|v ws IH]; intros k; simpl.
  { intros ?%not_elem_of_nil. done. }
  destruct (decide (overdue (clock k) v)) as [(HD & d & Hd & Hle)|]; [|apply IH].
  intros [->|Hw]%elem_of_cons; [|by eapply IH].
  split; [done|]. exists d. split; [done|]. specialize (Hhi k). lia.
Qed.

Lemma overdue_removed clock k ws lo w :
  (∀ j, lo ≤ clock j) → w ∈ ws → overdue lo w → w ∈ removed clock k ws.
Proof.
  intros Hlo. revert k. induction ws as [|v ws IH]; intros k; simpl.
  { intros ?%not_elem_of_nil. done. }
  intros [->|Hw]%elem_of_cons Hov.
  - rewrite decide_True; [by left|]. destruct Hov as (HD & d & Hd & Hle). split; [done|].
    exists d. split; [done|]. specialize (Hlo k). lia.
  - case_decide; [right|]; by apply IH.
Qed.

Abbreviation ids l := ((λ e, WorkerId (Info e)) <$> l).

(** Uninterrupted visits remove the overdue workers and nothing else. *)
Lemma visits_alone clock k ws r r' calls :
  NoDup (ids ws) →
  (∀ w, w ∈ ws → workers r !! WorkerId (Info w) = Some w) →
  visits sc clock (λ _ r, r) k ws r = (r', calls) →
  (∀ id, workers r' !! id =
    if decide (id ∈ ids (removed clock k ws)) then None else workers r !! id) ∧
  calls = concat (calls_of <$> removed clock k ws).
Proof.
  revert k r r' calls. induction ws as [|w ws IH]; intros k r r' calls Hnd Hws; simpl.
  { by intros [= <- <-]. }
  simpl in Hnd. apply NoDup_cons in Hnd as [Hw Hnd].
  destruct (decide (overdue (clock k) w)) as [Hov|Hov].
  - rewrite (visit_overdue _ _ _ Hov), (Hws w) by (by left).
    destruct (visits _ _ _ _ _ _) as [r2 calls'] eqn:Hrest. intros [= <- <-].
    apply IH in Hrest as [Hr2 ->]; [|done|].
    + split; [|done]. intros id. rewrite Hr2. simpl. destruct (decide (id = WorkerId (Info w))) as [->|Hne].
      * rewrite lookup_delete_eq. rewrite (decide_True _ _ (P := _ ∈ _ :: _)) by (by left). by case_decide.
      * rewrite lookup_delete_ne by done. apply decide_ext. rewrite elem_of_cons. tauto.
    + intros v Hv. simpl. rewrite lookup_delete_ne; [apply Hws; by right|].
      intros Heq. apply Hw. rewrite Heq. apply list_elem_of_fmap. eauto.
  - rewrite (visit_spared _ _ _ Hov).
    destruct (visits _ _ _ _ _ _) as [r2 calls'] eqn:Hrest. intros [= <- <-].
    by apply IH in Hrest as [Hr2 ->]; [|done|intros v Hv; apply Hws; by right].
Qed.

(** A sweep no one interrupts, whose clock readings lie between [lo] and [hi], evicts every
    worker that has been dead for the grace period at [lo] and no worker that has not been
    at [hi]; it leaves every other entry as it was and calls the callback once per evicted
    worker, with its models. *)
Lemma sweep_alone T timeout s clock lo hi i j k l r' calls report :
  reachable T timeout s → (∀ n, lo ≤ clock n ≤ hi) →
  Sweep sc clock (λ _ r, r) i j k l (reg s) = (r', calls, report) →
  let out := removed clock 0 (ListWorkers l (reg s)) in
  NoDup (ids out) ∧
  (∀ w, w ∈ out → workers (reg s) !! WorkerId (Info w) = Some w ∧ overdue hi w) ∧
  (∀ id w, workers (reg s) !! id = Some w → overdue lo w → w ∈ out) ∧
  (∀ id, workers r' !! id = if decide (id ∈ ids out) then None else workers (reg s) !! id) ∧
  calls = if hasCallback sc then call_of <$> out else [].
Proof.
  intros Hwf%reachable_wf Hclk. unfold Sweep.
  destruct (visits _ _ _ _ _ _) as [r1 calls1] eqn:Hv. intros [= <- <- _].
  assert (∀ id e, workers (reg s) !! id = Some e → WorkerId (Info e) = id) as Hid.
  { intros id e He. by destruct (wf_workers _ Hwf _ _ He) as [[] _]. }
  assert (∀ w, w ∈ ListWorkers l (reg s) → workers (reg s) !! WorkerId (Info w) = Some w) as Hin.
  { intros w (id & Hw)%elem_of_ListWorkers. by rewrite (Hid _ _ Hw). }
  pose proof (NoDup_ListWorkers l _ Hid) as Hnd.
  destruct (visits_alone _ _ _ _ _ _ Hnd Hin Hv) as [Hr1 ->].
  pose proof (removed_sublist clock 0 (ListWorkers l (reg s))) as Hsub. cbv zeta. split_and!.
  - eapply sublist_NoDup; [exact Hnd|]. by apply fmap_sublist.
  - intros w Hw. split; [|eapply removed_overdue; [|done]; apply Hclk].
    apply Hin. by eapply elem_of_sublist.
  - intros id w Hw Hov. eapply overdue_removed; [apply Hclk|apply elem_of_ListWorkers; eauto|done].
  - exact Hr1.
  - unfold calls_of. destruct (hasCallback sc).
    + clear. induction (removed _ _ _) as [|w ws IH]; [done|]. simpl. by f_equal.
    + clear. by induction (removed _ _ _).
Qed.

(** ** Properties *)

(** The sweep's warnings describe the registry they were computed from: the fleet is
    reported below its minimum exactly when there are workers but fewer healthy ones
    than the minimum, and a model is reported exactly when some worker lists it and
    the router would find no candidate for it. *)
Theorem warnings_accurate i j k l r1 r2 :
  let rep := warnings sc i j k r1 r2 in
  (∀ n, below_minimum rep = Some n ↔
    workers r1 ≠ ∅ ∧ n = length (filter (λ e, is_healthy (State e)) (ListWorkers l r1)) ∧
    Z.of_nat n < minHealthy sc) ∧
  ∀ m, m ∈ (unserved rep).*1 ↔
    (∃ id e, workers r2 !! id = Some e ∧ m ∈ ModelsLoaded (Info e)) ∧
    HealthyWorkersForModel l m r2 = [].
Proof.
  unfold warnings. rewrite WorkerCount_spec. simpl. split.
  - intros n.
    assert (length (filter (λ e, is_healthy (State e)) (map_to_list (workers r1)).*2) =
      length (filter (λ e, is_healthy (State e)) (ListWorkers l r1))) as ->
      by (by rewrite (ListWorkers_perm l r1)).
    set (h := length _). clearbody h.
    rewrite <- (map_size_non_empty_iff (workers r1)).
    destruct (bool_decide_reflect (0 < size (workers r1))%nat), (Z.ltb_spec (Z.of_nat h) (minHealthy sc));
      simpl; (split; [intros [= <-]; lia|intros (? & -> & ?); try lia; done]).
  - intros m. rewrite list_elem_of_fmap. setoid_rewrite list_elem_of_omap.
    assert ((∃ id e, workers r2 !! id = Some e ∧ m ∈ ModelsLoaded (Info e)) ↔
      fst (tally m (ListWorkers l r2)) ≠ 0%nat) as ->.
    { rewrite tally_served. setoid_rewrite elem_of_ListWorkers.
      split; [intros (id & e & ? & ?)|intros (e & (id & ?) & ?)]; eauto. }
    assert (HealthyWorkersForModel l m r2 = [] ↔ snd (tally m (ListWorkers l r2)) = 0%nat) as ->.
    { destruct (decide (snd (tally m (ListWorkers l r2)) = 0%nat)) as [H0|H0].
      - split; [done|]. intros _. apply elem_of_nil_inv. intros e He.
        apply elem_of_HealthyWorkersForModel in He as (id & He & Hh & Hm).
        apply (proj2 (tally_healthy m (ListWorkers l r2))); [|done].
        exists e. split; [|done]. apply elem_of_ListWorkers. eauto.
      - split; [|done]. apply tally_healthy in H0 as (e & (id & He)%elem_of_ListWorkers & Hh & Hm).
        intros Hnil. exfalso. apply (not_elem_of_nil e). rewrite <- Hnil.
        apply elem_of_HealthyWorkersForModel. eauto. }
    rewrite (tally_perm _ _ _ (ListWorkers_perm l r2)). split.
    + intros ([m' t] & -> & ms & (c & Hc & Ht & Hn)%elem_of_ModelsServed & Hms). simpl.
      destruct (decide (HealthyWorkers ms = 0%nat)) as [H0|]; [|done]. injection Hms as <- _.
      unfold tally_opt in Hc. destruct (decide (_ = _)) as [|Hf]; [done|]. injection Hc as <-.
      split; [done|]. by rewrite H0 in Hn.
    + intros [Hf Hs]. set (c := tally m _) in *.
      exists (m, fst c). split; [done|].
      exists {| Model := m; TotalWorkers := fst c; HealthyWorkers := snd c |}. simpl.
      rewrite decide_True by done. split; [|done]. apply elem_of_ModelsServed.
      exists c. unfold tally_opt. simpl. fold c. by rewrite decide_False.
Qed.

End sweep_lemmas.

(** ** A sweep among the registry's other activity *)

Section interleaved.
Context (sc : Scaler) `{MapRange}.

Definition start_sys (timeout t0 : Z) : ScalerSys := {| base := init timeout t0; snapshot := [] |}.

(** Every entry of the snapshot was in the registry at some earlier moment. *)
Definition seen (T : Timing) (timeout : Z) (s : ScalerSys) : Prop :=
  reachable T timeout (base s) ∧
  ∀ w, w ∈ snapshot s → ∃ s0, reachable T timeout s0 ∧ rtc (step T) s0 (base s) ∧
    workers (reg s0) !! WorkerId (Info w) = Some w.

(** A visit does what [Evict] does, or nothing. *)
Lemma visit_steps T s now w r calls :
  clock s ≤ now → visit sc now w (reg s) = (r, calls) → rtc (step T) s (advance r now s).
Proof.
  intros Ht Hv. destruct (decide (overdue sc now w)) as [Hov|Hov].
  - rewrite visit_overdue in Hv by done.
    destruct (workers (reg s) !! _) as [e|] eqn:He; injection Hv as <- <-.
    + eapply rtc_l; [by apply (step_tick T s now)|]. apply rtc_once.
      apply (step_evict T (advance (reg s) now s) (WorkerId (Info w)) _ None). unfold Evict. simpl. by rewrite He.
    + apply rtc_once. by apply step_tick.
  - rewrite visit_spared in Hv by done. injection Hv as <- <-. apply rtc_once. by apply step_tick.
Qed.

Lemma reachable_rtc T timeout s s' : reachable T timeout s → rtc (step T) s s' → reachable T timeout s'.
Proof. intros [t0 Hr] Hs. exists t0. by eapply (transitivity (y := s)). Qed.

Lemma seen_later T timeout s b ws :
  seen T timeout s → rtc (step T) (base s) b → ws ⊆ snapshot s →
  seen T timeout {| base := b; snapshot := ws |}.
Proof.
  intros [Hr Hs] Hb Hws. split; simpl; [by eapply reachable_rtc|].
  intros w Hw%Hws. destruct (Hs w Hw) as (s0 & Hr0 & Hb0 & Hw0). exists s0.
  split_and!; [done|by eapply (transitivity (y := base s))|done].
Qed.

Lemma scaler_step_seen T timeout s s' : scaler_step sc T s s' → seen T timeout s → seen T timeout s'.
Proof.
  intros Hstep Hs. destruct Hstep as [b Hb|i Hempty|now w ws r calls Ht Hsn Hv].
  - by eapply seen_later; [|apply rtc_once|].
  - destruct Hs as [Hr _]. split; simpl; [done|]. intros w (id & Hw)%elem_of_ListWorkers.
    exists (base s). split_and!; [done|done|].
    destruct (wf_workers _ (reachable_wf _ _ _ Hr) _ _ Hw) as [[Hid] _]. by rewrite Hid.
  - eapply seen_later; [done|by eapply visit_steps|]. rewrite Hsn. intros v Hv'. by right.
Qed.

Lemma scaler_seen T timeout t0 s :
  rtc (scaler_step sc T) (start_sys timeout t0) s → seen T timeout s.
Proof.
  intros Hr. apply (invariant_rtc (scaler_step sc T) (seen T timeout)) in Hr; [done| |].
  - intros ??. apply scaler_step_seen.
  - split; [by exists t0|]. intros w ?%not_elem_of_nil. done.
Qed.

(** Whatever else happens to the registry during a sweep, a visit removes at most the
    worker of the entry it visits, and if that worker has not registered again since the
    snapshot, it is dead and has been for the grace period. *)
Theorem visit_evicts_dead T timeout t0 s now w ws r calls id e :
  rtc (scaler_step sc T) (start_sys timeout t0) s → snapshot s = w :: ws →
  visit sc now w (reg (base s)) = (r, calls) →
  workers (reg (base s)) !! id = Some e → workers r !! id = None →
  id = WorkerId (Info w) ∧ calls = calls_of sc w ∧
  (deadlineTimer e = deadlineTimer w →
    State e = DEAD ∧ ∃ d, MarkedDeadAt e = Some d ∧ d + deadGrace sc ≤ now).
Proof.
  intros Hr Hsn Hv He Hnone. destruct (scaler_seen _ _ _ _ Hr) as [_ Hseen].
  destruct (Hseen w) as (s0 & Hr0 & Hb0 & Hw0); [rewrite Hsn; by left|].
  destruct (decide (overdue sc now w)) as [Hov|Hov].
  2: { rewrite visit_spared in Hv by done. injection Hv as <- <-. congruence. }
  rewrite visit_overdue in Hv by done.
  destruct (workers (reg (base s)) !! WorkerId (Info w)) as [e0|] eqn:He0;
    injection Hv as <- <-; [|congruence].
  simpl in Hnone. apply lookup_delete_None in Hnone as [Hid|?]; [|congruence].
  split_and!; [done..|]. intros Hd. rewrite Hid in Hw0.
  destruct Hov as (HD & d & Hm & Hle).
  destruct (dead_stamp_rtc _ _ _ _ _ _ (reachable_wf _ _ _ Hr0) Hb0 Hw0 He Hd HD) as [? Hm'].
  split; [done|]. exists d. by rewrite Hm'.
Qed.

End interleaved.

(** *** Concrete runs *)

Definition default_scaler : Scaler := NewScaler [WithOnWorkerEvicted].

Definition prompt : Timing := {| gap := 0; latency := 0; insert_delay := 0 |}.

(** The worker of the demonstration run has been silent for the timeout and is found
    dead, and the grace period has passed. *)
Definition silent_entry : WorkerEntry := with_dead DefaultDeadTimeout (demo_entry 0 READY 0).

Definition silent_sys : Sys := {|
  reg := {| workers := {["w1" := silent_entry]}; deadTimeout := DefaultDeadTimeout;
            heap := {| timers := {[0%nat := {| t_when := None; t_arg := "w1" |}]};
                       nextTimer := 1; callbacks := [] |} |};
  clock := DefaultDeadTimeout + DefaultDeadGrace; starting := [] |}.

Lemma silent_rtc : ∃ t0, rtc (step prompt) (init DefaultDeadTimeout t0) silent_sys.
Proof.
  destruct (demo_reachable prompt 0 0) as [t0 Hr]; [done..|]. exists t0.
  eapply (transitivity (y := demo_sys 0 0)); [exact Hr|].
  eapply rtc_l; [by apply (step_tick _ _ DefaultDeadTimeout)|].
  eapply rtc_l; [by eapply (run_expire _ _ 0%nat)|].
  eapply rtc_l; [by eapply (run_mark_dead _ _ 0%nat _ _ DefaultDeadTimeout DefaultDeadTimeout)|].
  apply rtc_once. by eapply (run_tick _ _ (DefaultDeadTimeout + DefaultDeadGrace)).
Qed.

Lemma silent_reachable : reachable prompt DefaultDeadTimeout silent_sys.
Proof. destruct silent_rtc as [t0 Hr]. by exists t0. Qed.

Lemma base_rtc sc T b b' ws :
  rtc (step T) b b' →
  rtc (@scaler_step map_to_list_range sc T) {| base := b; snapshot := ws |} {| base := b'; snapshot := ws |}.
Proof.
  induction 1 as [b|b b1 b' Hs _ IH]; [apply rtc_refl|].
  eapply rtc_l; [|exact IH]. by apply (registry_runs sc T {| base := b; snapshot := ws |}).
Qed.

(** The sweep has taken its snapshot of the dead worker. *)
Lemma sweeping_rtc :
  ∃ t0, rtc (@scaler_step map_to_list_range default_scaler prompt)
    (start_sys DefaultDeadTimeout t0) {| base := silent_sys; snapshot := [silent_entry] |}.
Proof.
  destruct silent_rtc as [t0 Hr]. exists t0.
  eapply (transitivity (y := {| base := silent_sys; snapshot := [] |})); [by apply base_rtc|].
  apply rtc_once.
  replace [silent_entry] with (ListWorkers 0 (reg silent_sys)) by (vm_compute; reflexivity).
  by apply (sweep_starts default_scaler prompt {| base := silent_sys; snapshot := [] |} 0).
Qed.

(** The worker restarts: it registers again and reports READY. *)
Definition back_entry : WorkerEntry := {|
  Info := demo_info; State := READY; LastHeartbeat := clock silent_sys;
  RegisteredAt := clock silent_sys; Load := emptyLoadReport "w1"; DrainRequested := false;
  MarkedDeadAt := None; deadlineTimer := 1 |}.

(** C38: A worker that registers again while a sweep is under way is lost: the sweep
    decided from its snapshot that the worker's previous registration is dead, evicts
    by name, and removes the new READY registration; the callback then starts a
    replacement for a worker that is alive. *)
Theorem sweep_evicts_reregistered :
  ∃ t0 s r calls,
    rtc (@scaler_step map_to_list_range default_scaler prompt) (start_sys DefaultDeadTimeout t0) s ∧
    snapshot s = [silent_entry] ∧
    visit default_scaler (clock (base s)) silent_entry (reg (base s)) = (r, calls) ∧
    workers (reg (base s)) !! "w1" = Some back_entry ∧ State back_entry = READY ∧
    workers r !! "w1" = None ∧ calls = [{| ev_worker := "w1"; ev_models := ["llama3"] |}].
Proof.
  destruct sweeping_rtc as [t0 Hr].
  set (now := clock silent_sys).
  set (r1 := fst (Register now now demo_info (reg silent_sys))).
  set (b1 := advance r1 now silent_sys).
  set (r2 := fst (Heartbeat now now {| hb_WorkerId := "w1"; hb_State := READY |} r1)).
  exists t0, {| base := advance r2 now silent_sys; snapshot := [silent_entry] |}.
  eexists _, _. split_and!; [|done|by rewrite <- surjective_pairing|reflexivity..].
  eapply (transitivity (y := _)); [exact Hr|]. apply base_rtc.
  eapply rtc_l; [by eapply (step_register_start prompt silent_sys now now demo_info)|].
  eapply rtc_l; [by eapply (step_register_finish prompt _ 0)|].
  apply rtc_once.
  by eapply (run_heartbeat prompt _ now now {| hb_WorkerId := "w1"; hb_State := READY |}).
Qed.

(** *** Witnesses *)

Lemma visit_evicts_dead_witness :
  ∃ d, MarkedDeadAt silent_entry = Some d ∧ d + DefaultDeadGrace ≤ clock silent_sys.
Proof.
  destruct sweeping_rtc as [t0 Hr].
  apply (visit_evicts_dead default_scaler prompt DefaultDeadTimeout t0
    {| base := silent_sys; snapshot := [silent_entry] |} (clock silent_sys) silent_entry []
    (fst (visit default_scaler (clock silent_sys) silent_entry (reg silent_sys)))
    (snd (visit default_scaler (clock silent_sys) silent_entry (reg silent_sys)))
    "w1" silent_entry Hr eq_refl (surjective_pairing _)); reflexivity.
Defined.
