(* ===== verification/Sweeps.v ===== *)
(** * Sweeps over a running registry (control-plane/scaler/scaler.go, [Run])

    The scaler's loop next to the registry: [scaler_step] starts a sweep whenever none is
    under way - the ticker may fire at any time - and between its visits everything else
    goes on.  What every sweep achieves however it is interleaved. *)

From S2P Require Import Prelude GoFloat Proto GoTimer Registry Scaler.
Open Scope Z_scope.

Section sweeps.
Context (sc : Scaler) `{MapRange} (T : Timing).

Lemma keeps_or_gone_rtc s s' id e :
  wf s → rtc (step T) s s' → workers (reg s) !! id = Some e →
  (∃ e', workers (reg s') !! id = Some e' ∧ deadlineTimer e' = deadlineTimer e) ∨ gone (deadlineTimer e) s'.
Proof.
  intros Hwf Hr. revert e Hwf. induction Hr as [s|s s1 s' Hs Hr IH]; intros e Hwf He; [left; eauto|].
  pose proof (wf_step _ _ _ Hs Hwf) as Hwf1.
  destruct (step_keeps_or_gone _ _ _ _ _ Hwf Hs He) as [(e1 & He1 & Hd1)|Hg].
  - destruct (IH e1 Hwf1 He1) as [(e' & He' & ?)|?]; [left; exists e'; split; [done|congruence]|right; congruence].
  - right. by eapply gone_rtc.
Qed.

(** Every step of the loop is a run of the registry's own steps. *)
Lemma scaler_step_base s s' : scaler_step sc T s s' → rtc (step T) (base s) (base s').
Proof.
  intros [b Hb|i Hempty|now w ws r calls Ht Hsn Hv]; simpl; [by apply rtc_once|done|by eapply visit_steps].
Qed.

Lemma step_clock s s' : step T s s' → clock s ≤ clock s'.
Proof. destruct 1; simpl; lia. Qed.

Lemma overdue_later now now' w : now ≤ now' → overdue sc now w → overdue sc now' w.
Proof. intros Hle (HD & d & Hd & Hg). split; [done|]. exists d. split; [done|lia]. Qed.

(** The sweep has still to visit the dead registration [e], or the registration is gone. *)
Record pending (e : WorkerEntry) (s : ScalerSys) : Prop := {
  pe_wf : wf (base s);
  pe_state : gone (deadlineTimer e) (base s) ∨
    e ∈ snapshot s ∧ overdue sc (clock (base s)) e ∧
    ∃ e', workers (reg (base s)) !! WorkerId (Info e) = Some e' ∧ deadlineTimer e' = deadlineTimer e;
}.

Lemma pending_base e s b ws :
  pending e s → rtc (step T) (base s) b → clock (base s) ≤ clock b →
  (e ∈ snapshot s → overdue sc (clock (base s)) e → e ∈ ws ∨ workers (reg b) !! WorkerId (Info e) = None) →
  pending e {| base := b; snapshot := ws |}.
Proof.
  intros [Hwf Hst] Hb Hclk Hws.
  split; simpl; [eapply invariant_rtc; [|exact Hb|exact Hwf]; intros; by eapply wf_step|].
  destruct Hst as [Hg|(Hin & Hov & e' & He' & Hd)]; [left; by eapply gone_rtc|].
  rewrite <- Hd. destruct (keeps_or_gone_rtc _ _ _ _ Hwf Hb He') as [(e1 & He1 & Hd1)|Hg]; [|by left].
  destruct (Hws Hin Hov) as [?|Hnone]; [|congruence].
  right. split_and!; [done|by eapply overdue_later|eauto].
Qed.

Lemma pending_step e s s' : scaler_step sc T s s' → pending e s → pending e s'.
Proof.
  intros Hs Hp. destruct Hs as [b Hb|i Hempty|now w ws r calls Ht Hsn Hv].
  - eapply pending_base; [done|by apply rtc_once|by apply step_clock|auto].
  - eapply pending_base; [done|done|done|]. rewrite Hempty. by intros ?%not_elem_of_nil.
  - eapply pending_base; [done|by eapply visit_steps|done|]. rewrite Hsn.
    intros [->|?]%elem_of_cons Hov; [right|by left]. simpl.
    rewrite visit_overdue in Hv by by eapply overdue_later.
    destruct (workers (reg (base s)) !! _) eqn:He; injection Hv as <- _; [|done].
    simpl. apply lookup_delete_eq.
Qed.

(** A sweep that is under way can be finished. *)
Lemma sweep_ends s : ∃ s', rtc (scaler_step sc T) s s' ∧ snapshot s' = [].
Proof.
  destruct s as [b ws]. revert b. induction ws as [|w ws IH]; intros b; [by eexists|].
  destruct (visit sc (clock b) w (reg b)) as [r calls] eqn:Hv.
  destruct (IH (advance r (clock b) b)) as (s' & Hr & Hs'). exists s'. split; [|done].
  eapply rtc_l; [|exact Hr].
  apply (sweep_visits sc T {| base := b; snapshot := w :: ws |} (clock b) w ws r calls); done.
Qed.

(** C14: No dead worker survives a sweep: whatever the registry does in between - heartbeats,
    load reports, other workers' registrations - a registration that has been dead for the
    grace period when a sweep starts is out of the registry for good when the sweep is over;
    an entry of the same name is then a later registration.  And a sweep that has started
    can always be finished. *)
Theorem dead_worker_evicted timeout t0 s i s' id e :
  rtc (scaler_step sc T) (start_sys timeout t0) s → snapshot s = [] →
  workers (reg (base s)) !! id = Some e → overdue sc (clock (base s)) e →
  let s1 := {| base := base s; snapshot := ListWorkers i (reg (base s)) |} in
  scaler_step sc T s s1 ∧
  (rtc (scaler_step sc T) s1 s' → snapshot s' = [] → gone (deadlineTimer e) (base s')) ∧
  (rtc (scaler_step sc T) s1 s' → ∃ s'', rtc (scaler_step sc T) s' s'' ∧ snapshot s'' = []).
Proof.
  intros Hr Hempty He Hov s1. split; [by apply sweep_starts|]. split; [|intros _; apply sweep_ends].
  intros Hs' Hdone. destruct (scaler_seen _ _ _ _ _ Hr) as [Hreach _].
  pose proof (reachable_wf _ _ _ Hreach) as Hwf. destruct (wf_workers _ Hwf _ _ He) as [[Hid] _].
  assert (pending e s1) as Hp.
  { split; [done|]. right. split_and!; [apply elem_of_ListWorkers; eauto|done|].
    exists e. by rewrite Hid. }
  apply (invariant_rtc (scaler_step sc T) (pending e)) in Hs' as [_ [?|(Hin & _)]]; [done| |by intros; eapply pending_step|done].
  rewrite Hdone in Hin. by apply not_elem_of_nil in Hin.
Qed.

End sweeps.

(** *** Witness *)

Lemma dead_worker_evicted_witness :
  ∃ s', rtc (@scaler_step map_to_list_range default_scaler prompt) {| base := silent_sys; snapshot := [silent_entry] |} s' ∧
    snapshot s' = [] ∧ gone (deadlineTimer silent_entry) (base s').
Proof.
  destruct silent_rtc as [t0 Hr].
  assert (rtc (@scaler_step map_to_list_range default_scaler prompt) (start_sys DefaultDeadTimeout t0)
    {| base := silent_sys; snapshot := [] |}) as Hs by (apply base_rtc; exact Hr).
  assert (overdue default_scaler (clock silent_sys) silent_entry) as Hov.
  { split; [reflexivity|]. exists DefaultDeadTimeout. split; [reflexivity|]. vm_compute. discriminate. }
  destruct (sweep_ends default_scaler prompt {| base := silent_sys; snapshot := [silent_entry] |}) as (s' & Hend & Hdone).
  exists s'. split; [exact Hend|]. split; [exact Hdone|].
  apply (dead_worker_evicted default_scaler prompt DefaultDeadTimeout t0 {| base := silent_sys; snapshot := [] |}
    0 s' "w1" silent_entry Hs eq_refl eq_refl Hov); [|exact Hdone].
  assert (ListWorkers 0 (reg silent_sys) = [silent_entry]) as Hl by (vm_compute; reflexivity).
  cbn [base]. rewrite Hl. exact Hend.
Defined.
