(* ===== verification/Provisioner.v ===== *)
(** * The Docker provisioner (control-plane/provisioner/provisioner.go)

    [docker] runs the docker program on an argument list and gives what it printed and its
    error; [None] is a nil error.  The operations return the command lines they executed. *)

From S2P Require Import Prelude GoStrings.
Open Scope Z_scope.

Definition comma : ascii := Ascii.ascii_of_nat 44.

Record DockerProvisioner := {
  Image : string;
  ControlPlane : string;
  ExtraArgs : list string;
  run : option (list string → option string);
}.

Definition line_feed : string := String (Ascii.ascii_of_nat 10) "".

Inductive ProvisionLog :=
  | ReplacementStarted (new_id replaced : string) (models : list string)
  | ProvisionFailed (evicted err : string).

Section docker.
Context (p : DockerProvisioner) (docker : list string → string * option string).

(** [args] starts with a docker command, as [docker_args] does. *)
Definition executor : list string → option string :=
  match run p with
  | Some f => f
  | None => λ args,
    match docker args with
    | (out, Some err) =>
      Some ("docker " +:+ default "" (head args) +:+ ": " +:+ err +:+ line_feed +:+ "output: " +:+ out)
    | (_, None) => None
    end
  end.

Definition docker_args (workerID : string) (models : list string) : list string :=
  ["run"; "--rm"; "--detach"; "--name"; workerID; Image p; "--control-plane"; ControlPlane p;
   "--id"; workerID; "--models"; Join models comma] ++ ExtraArgs p.

Definition Provision (workerID : string) (models : list string) : list string * option string :=
  let args := docker_args workerID models in (args, executor args).

(** [now] is [time.Now().UnixMilli()]. *)
Definition replacement_id (now : Z) (evictedID : string) : string :=
  evictedID +:+ "-r" +:+ FormatInt (Z.rem now 100000).

Definition OnEvicted (now : Z) (evictedID : string) (models : list string)
    : list string * ProvisionLog :=
  let newID := replacement_id now evictedID in
  match Provision newID models with
  | (args, Some err) => (args, ProvisionFailed evictedID err)
  | (args, None) => (args, ReplacementStarted newID evictedID models)
  end.

End docker.

(** [NoopProvisioner] succeeds without a command. *)
Inductive NoopProvisioner := Noop.

Definition noop_Provision (_ : NoopProvisioner) (evictedID : string) (models : list string) : option string := None.

(** The interface, as far as the error goes, and its two implementations. *)
Class WorkerProvisioner (P : Type) := provision : P → string → list string → option string.

#[export] Instance docker_provisioner docker : WorkerProvisioner DockerProvisioner :=
  λ p workerID models, snd (Provision p docker workerID models).

#[export] Instance noop_provisioner : WorkerProvisioner NoopProvisioner := noop_Provision.

(** Whatever docker does, no failed start is reported as a started replacement. *)
Lemma OnEvicted_reports p docker now evicted models :
  run p = None →
  snd (OnEvicted p docker now evicted models) = ReplacementStarted (replacement_id now evicted) evicted models ↔
  snd (docker (docker_args p (replacement_id now evicted) models)) = None.
Proof.
  intros Hr. unfold OnEvicted, Provision, executor. rewrite Hr. by destruct (docker _) as [out [err|]].
Qed.

(** A replacement never takes the evicted worker's name. *)
Lemma replacement_id_fresh now id : replacement_id now id ≠ id.
Proof.
  intros H. apply (f_equal String.length) in H. unfold replacement_id in H.
  rewrite String_length_app in H. simpl in H. lia.
Qed.

Definition dash : ascii := Ascii.ascii_of_nat 45.

Lemma last_separator sep s t d d' :
  avoids sep d → avoids sep d' → s +:+ String sep d = t +:+ String sep d' → s = t.
Proof.
  intros Hd Hd'. revert t. induction s as [|c s IH]; intros [|c' t]; simpl; intros Heq; [done|..].
  - injection Heq as _ ->. exfalso. by apply avoids_app in Hd as [_ [? _]].
  - injection Heq as _ <-. exfalso. by apply avoids_app in Hd' as [_ [? _]].
  - injection Heq as -> Heq. f_equal. by apply IH.
Qed.

(** Replacements of different workers have different names. *)
Lemma replacement_id_inj now now' a b :
  0 ≤ now → 0 ≤ now' → replacement_id now a = replacement_id now' b → a = b.
Proof.
  intros Hn Hn'. apply last_separator; simpl; (split; [done|]); apply FormatInt_avoids;
    first [done|by apply Z.rem_nonneg].
Qed.
