(* ===== verification/Worker.v ===== *)
(** * The workers (worker/cmd/mock/main.go, worker/cmd/ollama/main.go)

    A worker's side of the registry protocol: its flags, what it registers, one tick
    of its heartbeat loop, its reaction to a drain request, and the load it reports.
    A call to the control plane is the registry operation itself, on the registry of
    that moment, and nothing happens in between; the goroutines one by one, and calls
    that fail, are WorkerProc's. *)

From S2P Require Import Prelude GoFloat Proto GoTimer Registry GoStrings Provisioner.
Open Scope Z_scope.

(** ** Registration *)

(** The flags of the mock worker that reach the registry. *)
Record Flags := {
  fl_id : string;
  fl_addr : string;
  fl_models : string;
  fl_backend : string;
  fl_provider : string;
  fl_hardware : string;
  fl_vram : Z;
  fl_cost : float64;
}.

Definition default_flags : Flags :=
  {| fl_id := "mock-worker-1"; fl_addr := "localhost:8080"; fl_models := "llama3.2:3b";
     fl_backend := "mock"; fl_provider := "local"; fl_hardware := "cpu"; fl_vram := 0;
     fl_cost := S754_zero false |}.

(** One [--name value] pair: the string flags; [None] for any other name. *)
Definition set_flag (name value : string) (f : Flags) : option Flags :=
  if decide (name = "--control-plane") then Some f
  else if decide (name = "--id") then Some
    {| fl_id := value; fl_addr := fl_addr f; fl_models := fl_models f; fl_backend := fl_backend f;
       fl_provider := fl_provider f; fl_hardware := fl_hardware f; fl_vram := fl_vram f; fl_cost := fl_cost f |}
  else if decide (name = "--addr") then Some
    {| fl_id := fl_id f; fl_addr := value; fl_models := fl_models f; fl_backend := fl_backend f;
       fl_provider := fl_provider f; fl_hardware := fl_hardware f; fl_vram := fl_vram f; fl_cost := fl_cost f |}
  else if decide (name = "--models") then Some
    {| fl_id := fl_id f; fl_addr := fl_addr f; fl_models := value; fl_backend := fl_backend f;
       fl_provider := fl_provider f; fl_hardware := fl_hardware f; fl_vram := fl_vram f; fl_cost := fl_cost f |}
  else if decide (name = "--backend") then Some
    {| fl_id := fl_id f; fl_addr := fl_addr f; fl_models := fl_models f; fl_backend := value;
       fl_provider := fl_provider f; fl_hardware := fl_hardware f; fl_vram := fl_vram f; fl_cost := fl_cost f |}
  else if decide (name = "--provider") then Some
    {| fl_id := fl_id f; fl_addr := fl_addr f; fl_models := fl_models f; fl_backend := fl_backend f;
       fl_provider := value; fl_hardware := fl_hardware f; fl_vram := fl_vram f; fl_cost := fl_cost f |}
  else if decide (name = "--hardware") then Some
    {| fl_id := fl_id f; fl_addr := fl_addr f; fl_models := fl_models f; fl_backend := fl_backend f;
       fl_provider := fl_provider f; fl_hardware := value; fl_vram := fl_vram f; fl_cost := fl_cost f |}
  else None.

(** A command line of such pairs; [None] for one of another form. *)
Fixpoint parse_flags (args : list string) (f : Flags) : option Flags :=
  match args with
  | [] => Some f
  | name :: value :: rest => set_flag name value f ≫= parse_flags rest
  | [_] => None
  end.

(** The [WorkerInfo] the mock worker sends. *)
Definition mock_info (f : Flags) : WorkerInfo := {|
  WorkerId := fl_id f; Address := fl_addr f; GpuType := fl_hardware f; VramBytes := fl_vram f;
  ModelsLoaded := Split (fl_models f) comma; Backend := fl_backend f; Provider := fl_provider f;
  Hardware := fl_hardware f; CostPerHour := fl_cost f |}.

(** The [WorkerInfo] the Ollama worker sends, [models] being Ollama's answer. *)
Definition ollama_info (id ollamaAddr : string) (models : list string) (provider hardware : string)
    (vram : Z) (cost : float64) : WorkerInfo := {|
  WorkerId := id; Address := ollamaAddr; GpuType := ""; VramBytes := vram;
  ModelsLoaded := models; Backend := "ollama"; Provider := provider;
  Hardware := hardware; CostPerHour := cost |}.

(** ** The heartbeat loop *)

(** [looping] until a drain request ends the loop; [drained] tells main. *)
Record Worker := {
  w_id : string;
  currentState : WorkerState;
  looping : bool;
  drained : bool;
}.

Definition mock_start (id : string) : Worker :=
  {| w_id := id; currentState := STARTING; looping := true; drained := false |}.

Definition ollama_start (id : string) : Worker :=
  {| w_id := id; currentState := READY; looping := true; drained := false |}.

Definition setState (s : WorkerState) (w : Worker) : Worker :=
  {| w_id := w_id w; currentState := s; looping := looping w; drained := drained w |}.

Definition stop_draining (w : Worker) : Worker :=
  {| w_id := w_id w; currentState := currentState w; looping := false; drained := true |}.

(** The clock readings of the two heartbeats a tick may send. *)
Record TickTimes := { t_reset : Z; t_now : Z; t_reset' : Z; t_now' : Z }.

(** One tick of the loop. *)
Definition tick (t : TickTimes) (w : Worker) (r : Registry) : Worker * Registry :=
  if looping w then
    match Heartbeat (t_reset t) (t_now t) {| hb_WorkerId := w_id w; hb_State := currentState w |} r with
    | (r1, inr _) => (w, r1)
    | (r1, inl resp) =>
      if Drain resp then
        let w1 := setState DRAINING w in
        let '(r2, _) := Heartbeat (t_reset' t) (t_now' t)
          {| hb_WorkerId := w_id w; hb_State := DRAINING |} r1 in
        (stop_draining w1, r2)
      else (w, r1)
    end
  else (w, r).

(** The goroutine that simulates the loading of the model ends. *)
Definition model_loaded (w : Worker) : Worker := setState READY w.

(** Main, once drained or told to quit: stop the loop and deregister. *)
Definition shutdown (w : Worker) (r : Registry) : Worker * Registry :=
  let '(r', _) := Deregister {| dereg_WorkerId := w_id w |} r in
  ({| w_id := w_id w; currentState := currentState w; looping := false; drained := drained w |}, r').

(** ** Load reports *)

(** The random draws of one report, in the order they are made: two [Float64] and
    one or two [Intn]. *)
Record Draws := { draw_rps : float64; draw_latency : float64; draw_queue : Z; draw_vram : Z }.

Definition fakeLoad (d : Draws) (workerID : string) (state : WorkerState) (vramBytes : Z) : LoadReport :=
  match state with
  | READY => {| load_WorkerId := workerID; QueueDepth := 0;
      RequestsPerSec := f_mul (draw_rps d) (f_of_Z 2);
      AvgLatencyMs := f_add (f_of_Z 80) (f_mul (draw_latency d) (f_of_Z 40));
      VramUsedBytes := uint64 (vramBytes * (30 + draw_vram d)) / 100 |}
  | BUSY => {| load_WorkerId := workerID; QueueDepth := uint32 (1 + draw_queue d);
      RequestsPerSec := f_add (f_of_Z 5) (f_mul (draw_rps d) (f_of_Z 15));
      AvgLatencyMs := f_add (f_of_Z 200) (f_mul (draw_latency d) (f_of_Z 300));
      VramUsedBytes := uint64 (vramBytes * (60 + draw_vram d)) / 100 |}
  | _ => emptyLoadReport workerID
  end.

(** [sizes]: the VRAM sizes in Ollama's answer, [None] when the call fails. *)
Definition ollamaLoad (workerID : string) (sizes : option (list Z)) : LoadReport :=
  match sizes with
  | None => emptyLoadReport workerID
  | Some l => {| load_WorkerId := workerID; QueueDepth := 0; RequestsPerSec := S754_zero false;
                 AvgLatencyMs := S754_zero false;
                 VramUsedBytes := foldl (λ t v, uint64 (t + v)) 0 l |}
  end.

(** ** The protocol *)

(** Everything the worker does with the registry short of shutting down. *)
Inductive act :=
  | act_tick (t : TickTimes)
  | act_loaded
  | act_report (l : LoadReport).

Definition do_act (a : act) (s : Worker * Registry) : Worker * Registry :=
  let '(w, r) := s in
  match a with
  | act_tick t => tick t w r
  | act_loaded => (model_loaded w, r)
  | act_report l => (w, fst (ReportLoad l r))
  end.

Lemma healthy_transition s s' :
  is_healthy s = true → is_healthy s' = true → validTransition s s' = true.
Proof. by intros [-> | ->]%is_healthy_iff [-> | ->]%is_healthy_iff. Qed.

Lemma healthy_drains s : is_healthy s = true → validTransition s DRAINING = true.
Proof. by intros [-> | ->]%is_healthy_iff. Qed.

(** A heartbeat that is accepted. *)
Lemma Heartbeat_accepted a b req r e :
  workers r !! hb_WorkerId req = Some e → validTransition (State e) (hb_State req) = true →
  ∃ r', Heartbeat a b req r = (r', inl {| hb_Ok := true; Drain := DrainRequested e |}) ∧
    workers r' = <[hb_WorkerId req := with_heartbeat b (hb_State req) e]> (workers r).
Proof. intros He Hv. unfold Heartbeat. rewrite He, Hv. by eexists. Qed.

(** A drain request is carried out: at its next tick a worker that is in service
    tells the registry it is draining and ends its loop; from then on the router does
    not see it, and the shutdown that follows removes it and nobody else. *)
Theorem drain_completes `{MapRange} T timeout s t w e i m :
  reachable T timeout s →
  workers (reg s) !! w_id w = Some e → DrainRequested e = true → looping w = true →
  is_healthy (currentState w) = true → is_healthy (State e) = true →
  let '(w', r') := tick t w (reg s) in
  drained w' = true ∧ looping w' = false ∧
  (∃ e', workers r' !! w_id w = Some e' ∧ State e' = DRAINING) ∧
  (∀ e', e' ∈ HealthyWorkersForModel i m r' → WorkerId (Info e') ≠ w_id w) ∧
  workers (snd (shutdown w' r')) = delete (w_id w) (workers (reg s)).
Proof.
  intros Hr He HD Hl Hw Hs. unfold tick. rewrite Hl.
  destruct (Heartbeat_accepted (t_reset t) (t_now t)
    {| hb_WorkerId := w_id w; hb_State := currentState w |} (reg s) e) as (r1 & -> & Hr1);
    [done|by apply healthy_transition|]. simpl in *. rewrite HD.
  destruct (Heartbeat_accepted (t_reset' t) (t_now' t)
    {| hb_WorkerId := w_id w; hb_State := DRAINING |} r1
    (with_heartbeat (t_now t) (currentState w) e)) as (r2 & -> & Hr2);
    [by rewrite Hr1, lookup_insert_eq|by apply healthy_drains|].
  rewrite Hr1, insert_insert_eq in Hr2. simpl in *. split_and!; [done|done| | |].
  - eexists. by rewrite Hr2, lookup_insert_eq.
  - intros e' (id & He' & Hh & _)%elem_of_HealthyWorkersForModel Hid.
    rewrite Hr2 in He'. apply lookup_insert_Some in He' as [[_ <-]|[Hne He']]; [done|].
    destruct (wf_workers _ (reachable_wf _ _ _ Hr) _ _ He') as [[Hk] _]. congruence.
  - unfold shutdown, Deregister. simpl. rewrite Hr2, lookup_insert_eq. simpl.
    by rewrite Hr2, delete_insert_eq.
Qed.

(** A worker the registry holds for dead, or no longer holds, is never in service again
    for as long as it runs: every heartbeat of a worker that is up is refused, the loop
    goes on, and the worker does not register anew. *)
Theorem refused_worker_locked_out acts w r :
  looping w = true → is_healthy (currentState w) = true ∨ currentState w = STARTING →
  (∀ e, workers r !! w_id w = Some e → State e = DEAD) →
  let '(w', r') := foldl (λ s a, do_act a s) (w, r) acts in
  looping w' = true ∧ drained w' = drained w ∧
  (∀ e, workers r' !! w_id w = Some e → State e = DEAD) ∧
  (workers r !! w_id w = None → workers r' !! w_id w = None).
Proof.
  revert w r. induction acts as [|a acts IH]; intros w r Hl Hst Hd; simpl; [done|].
  assert (∀ e, workers r !! w_id w = Some e → validTransition (State e) (currentState w) = false) as Hv.
  { intros e He. rewrite (Hd e He). destruct Hst as [[-> | ->]%is_healthy_iff | ->]; done. }
  destruct a as [t| |l]; simpl.
  - unfold tick. rewrite Hl. unfold Heartbeat. simpl. destruct (workers r !! w_id w) as [e|] eqn:He.
    + rewrite (Hv e) by done. pose proof (IH w r Hl Hst) as IH'. rewrite He in IH'. by apply IH'.
    + pose proof (IH w r Hl Hst) as IH'. rewrite He in IH'. by apply IH'.
  - apply (IH (model_loaded w) r); simpl; auto.
  - unfold ReportLoad. destruct (workers r !! load_WorkerId l) as [e|] eqn:He; simpl; [|by apply IH].
    pose proof (IH w (set_workers (<[load_WorkerId l := with_load l e]> (workers r)) r) Hl Hst) as IH'.
    simpl in IH'. destruct (foldl _ _ _) as [w' r'].
    destruct IH' as (H1 & H2 & H3 & H4).
    { intros e'. rewrite lookup_insert. case_decide; [|by apply Hd]. intros [= <-]. simpl.
      apply Hd. congruence. }
    split_and!; [done..|]. intros Hn. apply H4. rewrite lookup_insert. case_decide; [congruence|done].
Qed.

(** A registration and a first READY heartbeat. *)
Lemma registers_ready t a b info r :
  WorkerId info ≠ "" → Address info ≠ "" →
  let '(r1, _) := Register t a info r in
  let '(r2, _) := Heartbeat a b {| hb_WorkerId := WorkerId info; hb_State := READY |} r1 in
  ∃ e, workers r2 !! WorkerId info = Some e ∧ State e = READY ∧ Info e = info.
Proof.
  intros Hid Haddr. unfold Register, Register_start. rewrite !decide_False by done. simpl.
  unfold Heartbeat. simpl. rewrite lookup_insert_eq. simpl.
  eexists. by rewrite lookup_insert_eq.
Qed.

(** What the mock worker reads from the provisioner's command line: the new name and the
    evicted worker's models, and an address that the line does not set. *)
Lemma command_line_flags p docker now evicted models : ExtraArgs p = [] →
  ∃ flags, parse_flags (drop 6 (fst (OnEvicted p docker now evicted models))) default_flags = Some flags ∧
    let info := mock_info flags in
    WorkerId info = replacement_id now evicted ∧ Address info = fl_addr default_flags ∧
    (models ≠ [] → Forall (avoids comma) models → ModelsLoaded info = models).
Proof.
  intros Hx. unfold OnEvicted, Provision, docker_args. rewrite Hx.
  destruct (executor p docker _); (eexists; split; [reflexivity|]); (split_and!; [done|done|]); by apply Split_Join.
Qed.

(** *** Witnesses *)

Definition tick_at (z : Z) : TickTimes := {| t_reset := z; t_now := z; t_reset' := z; t_now' := z |}.

Definition demo_worker : Worker := setState READY (mock_start "w1").

Definition demo_timing : Timing := {| gap := 1; latency := 0; insert_delay := 0 |}.

(** The worker of the demonstration run, asked to drain. *)
Definition draining_sys : Sys :=
  advance (fst (RequestDrain "w1" (reg (demo_sys 1 2)))) 2 (demo_sys 1 2).

Lemma draining_reachable : reachable demo_timing DefaultDeadTimeout draining_sys.
Proof.
  destruct (demo_reachable demo_timing 1 2) as [t0 Hr]; [done..|]. exists t0.
  eapply (transitivity (y := demo_sys 1 2)); [exact Hr|]. apply rtc_once.
  by apply (run_drain _ _ "w1").
Qed.

Lemma drain_completes_witness :
  let '(w', r') := tick (tick_at 3) demo_worker (reg draining_sys) in
  drained w' = true ∧ workers (snd (shutdown w' r')) = delete "w1" (workers (reg draining_sys)).
Proof.
  pose proof (drain_completes demo_timing DefaultDeadTimeout draining_sys (tick_at 3) demo_worker
    (with_drain (demo_entry 0 READY 2)) 0 "llama3" draining_reachable eq_refl eq_refl eq_refl
    eq_refl eq_refl) as H.
  destruct (tick _ _ _) as [w' r']. destruct H as (H1 & _ & _ & _ & H2). split; [exact H1|exact H2].
Defined.

Lemma refused_worker_locked_out_witness :
  let '(w', r') := foldl (λ s a, do_act a s) (demo_worker, New DefaultDeadTimeout)
    [act_tick (tick_at 3); act_loaded; act_tick (tick_at 8)] in
  looping w' = true ∧ (workers (New DefaultDeadTimeout) !! "w1" = None → workers r' !! "w1" = None).
Proof.
  pose proof (refused_worker_locked_out [act_tick (tick_at 3); act_loaded; act_tick (tick_at 8)]
    demo_worker (New DefaultDeadTimeout) eq_refl (or_introl eq_refl)) as H.
  destruct (foldl _ _ _) as [w' r']. destruct H as (H1 & _ & _ & H2).
  - intros e He. simpl in He. rewrite lookup_empty in He. discriminate He.
  - split; [exact H1|exact H2].
Defined.

Definition demo_docker : DockerProvisioner :=
  {| Image := "llm-worker:latest"; ControlPlane := "host.docker.internal:50051"; ExtraArgs := []; run := None |}.
