(* ===== verification/WorkerProc.v ===== *)
(** * The worker process (worker/cmd/mock/main.go, worker/cmd/ollama/main.go)

    The goroutines both workers start once they are registered, and main: a call to the
    control plane may fail, be carried out, or be carried out with its answer lost; between
    any two steps of one goroutine the others and the rest of the fleet go on; the process
    may be killed at any moment.  The operations one tick consists of are those of Worker;
    here they are taken apart where another goroutine can come in between.  Also what the
    Ollama worker makes of Ollama's answers. *)

From S2P Require Import Prelude GoFloat Proto GoTimer GoStrings GoHttp GoJson GoText GoUnmarshal Registry RegistryProps Worker.
Open Scope Z_scope.

(** ** Ollama's answers *)

(** [Decoder.Decode] reads the first value of the body and ignores what follows. *)
Definition first_value (body : string) : option json := fst <$> value (fuel body) 0 body.

(** Decoding into an element of a slice: the slice keeps its backing array, so an element of
    a second array is decoded over the element of the first. *)
Fixpoint store_elems {A} (elem : json → A → option A) (zero : A) (l : list json) (old : list A) : option (list A) :=
  match l with
  | [] => Some old
  | v :: l' =>
    x ← elem v (default zero (head old));
    xs ← store_elems elem zero l' (tail old);
    Some (x :: xs)
  end.

(** A slice: its backing array as far as it was written, and its length. *)
Definition store_slice {A} (elem : json → A → option A) (zero : A) (v : json) (s : list A * nat)
    : option (list A * nat) :=
  match v with
  | JNull | JArr [] => Some ([], 0%nat)
  | JArr l => xs ← store_elems elem zero l (fst s); Some (xs, length l)
  | _ => None
  end.

Definition store_object {A} (field : string → json → A → option A) (v : json) (x : A) : option A :=
  match v with JNull => Some x | JObj l => store_members field l x | _ => None end.

(** The struct with the one field [models]. *)
Definition models_field {A} (elem : json → A → option A) (zero : A) (key : string) (v : json) (s : list A * nat)
    : option (list A * nat) :=
  if selects key "models" then store_slice elem zero v s else Some s.

Definition decode_models {A} (elem : json → A → option A) (zero : A) (body : string) : option (list A) :=
  v ← first_value body;
  '(xs, n) ← store_object (models_field elem zero) v ([], 0%nat);
  Some (take n xs).

Definition name_field (key : string) (v : json) (name : string) : option string :=
  if selects key "name" then store_string v name else Some name.

(** [answer]: the body of Ollama's answer to GET /api/tags, [None] when the call fails;
    [None] is an error. *)
Definition ollamaModels (answer : option string) : option (list string) :=
  body ← answer; decode_models (store_object name_field) "" body.

(** [strconv.ParseUint] of a number's text, for a [uint64] field. *)
Definition store_uint64 (v : json) (old : Z) : option Z :=
  match v with
  | JNull => Some old
  | JNum n =>
    match n_neg n, n_frac n, n_exp n with
    | false, None, None =>
      z ← is_digits (n_int n); if z <? 2 ^ 64 then Some z else None
    | _, _, _ => None
    end
  | _ => None
  end.

Definition vram_field (key : string) (v : json) (size : Z) : option Z :=
  if selects key "size_vram" then store_uint64 v size else Some size.

(** The sizes in the answer to GET /api/ps. *)
Definition running_sizes (answer : option string) : option (list Z) :=
  body ← answer; decode_models (store_object vram_field) 0 body.

Definition ollama_report (workerID : string) (answer : option string) : LoadReport :=
  ollamaLoad workerID (running_sizes answer).

(** ** Starting up *)

Record OllamaFlags := {
  of_id : string;
  of_addr : string;
  of_provider : string;
  of_hardware : string;
  of_vram : Z;
  of_cost : float64;
}.

Definition default_ollama_flags : OllamaFlags :=
  {| of_id := "ollama-worker-1"; of_addr := "localhost:11434"; of_provider := "local"; of_hardware := "cpu";
     of_vram := 0; of_cost := S754_zero false |}.

(** What the Ollama worker registers; [None] when it gives up before that. *)
Definition ollama_registration (f : OllamaFlags) (tags : option string) : option WorkerInfo :=
  match ollamaModels tags with
  | None | Some [] => None
  | Some models => Some (ollama_info (of_id f) (of_addr f) models (of_provider f) (of_hardware f) (of_vram f) (of_cost f))
  end.

(** ** The process *)

Inductive Kind :=
  | MockWorker (vram : Z)
  | OllamaWorker.

(** Where the heartbeat goroutine is: in its select, calling with the state it has read,
    told to drain, calling for the last time, or returned. *)
Inductive HbLoop :=
  | hb_select
  | hb_call (st : WorkerState)
  | hb_told
  | hb_final
  | hb_done.

Inductive LdLoop :=
  | ld_select
  | ld_call (l : LoadReport)
  | ld_done.

(** Main: waiting, stopped and about to deregister, waiting for the answer, gone. *)
Inductive Main :=
  | main_wait
  | main_stop
  | main_last
  | main_exit.

#[export] Instance HbLoop_eq_dec : EqDecision HbLoop.
Proof. solve_decision. Defined.

#[export] Instance Main_eq_dec : EqDecision Main.
Proof. solve_decision. Defined.

(** [p_loading]: the goroutine that loads the model has not finished; [p_stop] and
    [p_drained]: the channels are closed; [p_left]: a Deregister of this process has reached
    the registry (history). *)
Record Proc := {
  p_state : WorkerState;
  p_hb : HbLoop;
  p_ld : LdLoop;
  p_loading : bool;
  p_stop : bool;
  p_drained : bool;
  p_main : Main;
  p_left : bool;
}.

(** Just registered. *)
Definition started (k : Kind) : Proc :=
  {| p_state := match k with MockWorker _ => STARTING | OllamaWorker => READY end;
     p_hb := hb_select; p_ld := ld_select;
     p_loading := match k with MockWorker _ => true | OllamaWorker => false end;
     p_stop := false; p_drained := false; p_main := main_wait; p_left := false |}.

Definition set_hb (h : HbLoop) (p : Proc) : Proc :=
  {| p_state := p_state p; p_hb := h; p_ld := p_ld p; p_loading := p_loading p; p_stop := p_stop p;
     p_drained := p_drained p; p_main := p_main p; p_left := p_left p |}.

Definition set_ld (l : LdLoop) (p : Proc) : Proc :=
  {| p_state := p_state p; p_hb := p_hb p; p_ld := l; p_loading := p_loading p; p_stop := p_stop p;
     p_drained := p_drained p; p_main := p_main p; p_left := p_left p |}.

(** [setState], by the heartbeat goroutine or by the one that has loaded the model. *)
Definition set_draining (p : Proc) : Proc :=
  {| p_state := DRAINING; p_hb := hb_final; p_ld := p_ld p; p_loading := p_loading p; p_stop := p_stop p;
     p_drained := p_drained p; p_main := p_main p; p_left := p_left p |}.

Definition set_ready (p : Proc) : Proc :=
  {| p_state := READY; p_hb := p_hb p; p_ld := p_ld p; p_loading := false; p_stop := p_stop p;
     p_drained := p_drained p; p_main := p_main p; p_left := p_left p |}.

(** [close(drained)], and the goroutine returns. *)
Definition finish_drain (p : Proc) : Proc :=
  {| p_state := p_state p; p_hb := hb_done; p_ld := p_ld p; p_loading := p_loading p; p_stop := p_stop p;
     p_drained := true; p_main := p_main p; p_left := p_left p |}.

(** [stopHB], on a signal or once drained. *)
Definition stop_loops (p : Proc) : Proc :=
  {| p_state := p_state p; p_hb := p_hb p; p_ld := p_ld p; p_loading := p_loading p; p_stop := true;
     p_drained := p_drained p; p_main := main_stop; p_left := p_left p |}.

Definition set_main (m : Main) (left : bool) (p : Proc) : Proc :=
  {| p_state := p_state p; p_hb := p_hb p; p_ld := p_ld p; p_loading := p_loading p; p_stop := p_stop p;
     p_drained := p_drained p; p_main := m; p_left := left |}.

(** What the loop does with the answer to a heartbeat; [None]: no answer came. *)
Definition after_heartbeat (answer : option (HeartbeatResponse + Status)) : HbLoop :=
  match answer with
  | Some (inl resp) => if Drain resp then hb_told else hb_select
  | _ => hb_select
  end.

(** The load reported in state [st]. *)
Definition reports_load (k : Kind) (id : string) (st : WorkerState) (l : LoadReport) : Prop :=
  match k with
  | MockWorker vram => ∃ d, l = fakeLoad d id st vram
  | OllamaWorker => ∃ answer, l = ollama_report id answer
  end.

Section process.
Context (T : Timing) (k : Kind) (id : string).

(** Steps of the process that do not concern the registry, a call that does not reach it
    included. *)
Inductive own_step (p : Proc) : Proc → Prop :=
  | own_tick : p_hb p = hb_select → own_step p (set_hb (hb_call (p_state p)) p)
  | own_hb_stop : p_hb p = hb_select → p_stop p = true → own_step p (set_hb hb_done p)
  | own_hb_lost st : p_hb p = hb_call st → own_step p (set_hb (after_heartbeat None) p)
  | own_drain : p_hb p = hb_told → own_step p (set_draining p)
  | own_final_lost : p_hb p = hb_final → own_step p (finish_drain p)
  | own_loaded : p_loading p = true → own_step p (set_ready p)
  | own_ld_tick l : p_ld p = ld_select → reports_load k id (p_state p) l → own_step p (set_ld (ld_call l) p)
  | own_ld_stop : p_ld p = ld_select → p_stop p = true → own_step p (set_ld ld_done p)
  | own_ld_lost l : p_ld p = ld_call l → own_step p (set_ld ld_select p)
  | own_signal : p_main p = main_wait → own_step p (stop_loops p)
  | own_drained : p_main p = main_wait → p_drained p = true → own_step p (stop_loops p)
  | own_dereg_lost : p_main p = main_stop → own_step p (set_main main_last (p_left p) p)
  | own_exit : p_main p = main_last → own_step p (set_main main_exit (p_left p) p).

(** What somebody else does to this worker's entry: it may be declared dead, asked to drain
    or evicted, but nobody registers or reports a state in its name. *)
Definition foreign (s s' : Sys) : Prop :=
  match workers (reg s) !! id, workers (reg s') !! id with
  | None, e' => e' = None
  | Some e, Some e' => State e' = State e ∨ State e' = DEAD
  | Some _, None => True
  end.

(** One step of the process among the rest of the fleet.  [answered] tells whether the
    answer of a call that was carried out arrives. *)
Inductive world_step (w : Proc * Sys) : Proc * Sys → Prop :=
  | w_own p' : p_main (fst w) ≠ main_exit → own_step (fst w) p' → world_step w (p', snd w)
  | w_heartbeat st reset_at now r resp (answered : bool) :
      p_main (fst w) ≠ main_exit → p_hb (fst w) = hb_call st →
      clock (snd w) ≤ reset_at ≤ now → now ≤ reset_at + gap T →
      Heartbeat reset_at now {| hb_WorkerId := id; hb_State := st |} (reg (snd w)) = (r, resp) →
      world_step w (set_hb (after_heartbeat (if answered then Some resp else None)) (fst w),
                    advance r now (snd w))
  | w_final reset_at now r resp :
      p_main (fst w) ≠ main_exit → p_hb (fst w) = hb_final →
      clock (snd w) ≤ reset_at ≤ now → now ≤ reset_at + gap T →
      Heartbeat reset_at now {| hb_WorkerId := id; hb_State := DRAINING |} (reg (snd w)) = (r, resp) →
      world_step w (finish_drain (fst w), advance r now (snd w))
  | w_report l r resp :
      p_main (fst w) ≠ main_exit → p_ld (fst w) = ld_call l → ReportLoad l (reg (snd w)) = (r, resp) →
      world_step w (set_ld ld_select (fst w), advance r (clock (snd w)) (snd w))
  | w_deregister r resp :
      p_main (fst w) ≠ main_exit → p_main (fst w) = main_stop →
      Deregister {| dereg_WorkerId := id |} (reg (snd w)) = (r, resp) →
      world_step w (set_main main_last true (fst w), advance r (clock (snd w)) (snd w))
  | w_killed : world_step w (set_main main_exit (p_left (fst w)) (fst w), snd w)
  | w_fleet s' : step T (snd w) s' → foreign (snd w) s' → world_step w (fst w, s').

(** The moment after the registration. *)
Definition registered (w : Proc * Sys) : Prop :=
  fst w = started k ∧ ∀ e, workers (reg (snd w)) !! id = Some e → State e = STARTING ∨ State e = DEAD.

Definition lives (w : Proc * Sys) : Prop := ∃ w0, registered w0 ∧ rtc world_step w0 w.

(** ** What the process can say *)

Lemma heartbeat_entry a b st r r' resp :
  Heartbeat a b {| hb_WorkerId := id; hb_State := st |} r = (r', resp) →
  (workers r !! id = None ∧ workers r' = workers r ∧ ∃ s, resp = inr s) ∨
  ∃ e, workers r !! id = Some e ∧
    ((validTransition (State e) st = true ∧ workers r' !! id = Some (with_heartbeat b st e) ∧
        resp = inl {| hb_Ok := true; Drain := DrainRequested e |}) ∨
     (validTransition (State e) st = false ∧ workers r' = workers r ∧ ∃ s, resp = inr s)).
Proof.
  unfold Heartbeat. simpl. destruct (workers r !! id) as [e|]; [|intros [= <- <-]; left; by eauto].
  destruct (validTransition (State e) st) eqn:Hv; intros [= <- <-]; right; exists e; (split; [done|]).
  - left. split_and!; [done|simpl; by rewrite lookup_insert_eq|done].
  - right. by eauto.
Qed.

(** The states the registry may hold this worker in, as far as they are the worker's own
    doing. *)
Definition entry_state (p : Proc) (st : WorkerState) : Prop :=
  st = DEAD ∨ st = STARTING ∨ (st = READY ∧ p_loading p = false ∧ p_hb p ≠ hb_call STARTING) ∨
  (st = DRAINING ∧ p_hb p = hb_done).

Record conforms (w : Proc * Sys) : Prop := {
  cf_entry e : workers (reg (snd w)) !! id = Some e → entry_state (fst w) (State e);
  cf_state : p_hb (fst w) = hb_select ∨ (∃ st, p_hb (fst w) = hb_call st) ∨ p_hb (fst w) = hb_told →
    p_state (fst w) = if p_loading (fst w) then STARTING else READY;
  cf_call st : p_hb (fst w) = hb_call st → st = STARTING ∨ (st = READY ∧ p_loading (fst w) = false);
  cf_left : p_left (fst w) = true → workers (reg (snd w)) !! id = None;
}.

Lemma registered_conforms w : registered w → conforms w.
Proof.
  destruct w as [p s]. intros [Hp He]. simpl in *. subst p. split; simpl.
  - intros e [->| ->]%He; unfold entry_state; auto.
  - by destruct k.
  - done.
  - done.
Qed.

(** Steps that leave the heartbeat goroutine and the model as they are. *)
Lemma conforms_same p p' s :
  p_state p' = p_state p → p_hb p' = p_hb p → p_loading p' = p_loading p → p_left p' = p_left p →
  conforms (p, s) → conforms (p', s).
Proof.
  intros H1 H2 H3 H4 [He Hst Hc Hl]. split; simpl in *; unfold entry_state in *; rewrite ?H1, ?H2, ?H3, ?H4; auto.
Qed.

(** The heartbeat goroutine moves without a call that reaches the registry. *)
Lemma conforms_hb p p' s :
  p_loading p' = p_loading p → p_left p' = p_left p → p_hb p ≠ hb_done → p_hb p' ≠ hb_call STARTING →
  (p_hb p' = hb_select ∨ (∃ st, p_hb p' = hb_call st) ∨ p_hb p' = hb_told →
     p_state p' = if p_loading p then STARTING else READY) →
  (∀ st, p_hb p' = hb_call st → st = READY ∧ p_loading p = false) →
  conforms (p, s) → conforms (p', s).
Proof.
  intros H1 H2 H3 H4 Hs Hc' [He _ _ Hl]. split; simpl in *.
  - intros e Hent. destruct (He e Hent) as [->|[->|[(-> & Hld & _)|[-> Hd]]]]; unfold entry_state; rewrite H1; tauto || done.
  - rewrite H1. auto.
  - rewrite H1. intros st Hst. right. auto.
  - by rewrite H2.
Qed.

Lemma own_step_conforms p p' s : own_step p p' → conforms (p, s) → conforms (p', s).
Proof.
  intros Hs Hc. pose proof Hc as [He Hst Hcall Hl]. simpl in *.
  destruct Hs as [Hhb|Hhb Hstop|st Hhb|Hhb|Hhb|Hld|l Hld Hrep|Hld Hstop|l Hld|Hm|Hm Hd|Hm|Hm];
    try by apply (conforms_same p).
  - (* the tick reads the state *)
    pose proof (Hst (or_introl Hhb)) as Hps. destruct (p_loading p) eqn:El.
    + split; simpl.
      * intros e Hent. destruct (He e Hent) as [->|[->|[(-> & ? & _)|[-> Hd]]]]; unfold entry_state; simpl;
          tauto || congruence.
      * by rewrite El.
      * rewrite Hps. intros st [= <-]. by left.
      * done.
    + apply (conforms_hb p); simpl; rewrite ?Hps, ?El, ?Hhb; done || by intros st [= <-].
  - by apply (conforms_hb p); simpl; rewrite ?Hhb; try done; intros [?|[[? ?]|?]].
  - apply (conforms_hb p); simpl; rewrite ?Hhb; try done. intros _. apply Hst. right. left. by exists st.
  - by apply (conforms_hb p); simpl; rewrite ?Hhb; try done; intros [?|[[? ?]|?]].
  - by apply (conforms_hb p); simpl; rewrite ?Hhb; try done; intros [?|[[? ?]|?]].
  - (* the model is loaded *)
    split; simpl.
    + intros e Hent. destruct (He e Hent) as [->|[->|[(-> & ? & _)|[-> Hd]]]]; unfold entry_state; simpl;
        tauto || congruence.
    + done.
    + intros st Hc0. destruct (Hcall st Hc0) as [->|[-> ?]]; tauto.
    + done.
Qed.

Lemma conforms_foreign p s s' : foreign s s' → conforms (p, s) → conforms (p, s').
Proof.
  intros Hf [He Hst Hc Hl]. unfold foreign in Hf. split; simpl in *; auto.
  - intros e' He'. rewrite He' in Hf. destruct (workers (reg s) !! id) as [e|] eqn:E; [|done].
    destruct Hf as [-> | ->]; [by apply He|by left].
  - intros Hleft. specialize (Hl Hleft). by rewrite Hl in Hf.
Qed.

Lemma foreign_same s r t : workers r !! id = workers (reg s) !! id → foreign s (advance r t s).
Proof. intros Hw. unfold foreign. simpl. rewrite Hw. destruct (workers (reg s) !! id); auto. Qed.

Lemma ReportLoad_foreign s l r resp t : ReportLoad l (reg s) = (r, resp) → foreign s (advance r t s).
Proof.
  unfold ReportLoad. destruct (workers (reg s) !! load_WorkerId l) as [e|] eqn:He; intros [= <- <-];
    [|by apply foreign_same].
  unfold foreign. simpl. destruct (decide (load_WorkerId l = id)) as [Hid|Hne].
  - rewrite Hid in *. rewrite He, lookup_insert_eq. by left.
  - rewrite lookup_insert_ne by done. destruct (workers (reg s) !! id); auto.
Qed.

Lemma heartbeat_conforms p s st a b r resp answered :
  p_hb p = hb_call st → Heartbeat a b {| hb_WorkerId := id; hb_State := st |} (reg s) = (r, resp) →
  conforms (p, s) →
  conforms (set_hb (after_heartbeat (if answered : bool then Some resp else None)) p, advance r b s).
Proof.
  intros Hhb Hr Hc. pose proof Hc as [He Hst Hcall Hl]. simpl in *.
  set (h := after_heartbeat _). assert (h = hb_select ∨ h = hb_told) as Hh.
  { subst h. destruct answered; simpl; [|by left]. destruct resp as [hr|]; simpl; [|by left].
    destruct (Drain hr); auto. }
  assert (conforms (p, advance r b s) → conforms (set_hb h p, advance r b s)) as Hnext.
  { apply conforms_hb; simpl; rewrite ?Hhb; try done; destruct Hh as [-> | ->]; try done;
      intros _; apply Hst; right; left; by exists st. }
  destruct (heartbeat_entry _ _ _ _ _ _ Hr) as [(_ & Hw & _)|(e & Hent & [(Hv & Hw & _)|(_ & Hw & _)])].
  - apply Hnext, (conforms_foreign p s); [apply foreign_same; by rewrite Hw|done].
  - split; simpl.
    + rewrite Hw. intros e' [= <-]. unfold entry_state. simpl.
      destruct (Hcall st Hhb) as [->|[-> Hld]]; [tauto|]. right. right. left. split_and!; [done|done|].
      by destruct Hh as [-> | ->].
    + intros _. apply Hst. right. left. by exists st.
    + by destruct Hh as [-> | ->].
    + intros Hleft. by rewrite (Hl Hleft) in Hent.
  - apply Hnext, (conforms_foreign p s); [apply foreign_same; by rewrite Hw|done].
Qed.

Lemma final_conforms p s a b r resp :
  p_hb p = hb_final → Heartbeat a b {| hb_WorkerId := id; hb_State := DRAINING |} (reg s) = (r, resp) →
  conforms (p, s) → conforms (finish_drain p, advance r b s).
Proof.
  intros Hhb Hr Hc. pose proof Hc as [He _ _ Hl]. simpl in *.
  assert (conforms (p, advance r b s) → conforms (finish_drain p, advance r b s)) as Hnext.
  { apply conforms_hb; simpl; rewrite ?Hhb; try done. intros [?|[[? ?]|?]]; done. }
  destruct (heartbeat_entry _ _ _ _ _ _ Hr) as [(_ & Hw & _)|(e & Hent & [(Hv & Hw & _)|(_ & Hw & _)])].
  - apply Hnext, (conforms_foreign p s); [apply foreign_same; by rewrite Hw|done].
  - split; simpl; [|by intros [?|[[? ?]|?]]|done|intros Hleft; by rewrite (Hl Hleft) in Hent].
    rewrite Hw. intros e' [= <-]. unfold entry_state. simpl. tauto.
  - apply Hnext, (conforms_foreign p s); [apply foreign_same; by rewrite Hw|done].
Qed.

Lemma world_step_conforms w w' : world_step w w' → conforms w → conforms w'.
Proof.
  destruct w as [p s]. intros Hs Hc. pose proof Hc as [He Hst Hcall Hl]. simpl in *.
  destruct Hs as [p' _ Hown|st a b r resp answered _ Hhb _ _ Hr|a b r resp _ Hhb _ _ Hr|l r resp _ Hld Hr
    |r resp _ Hm Hr| |s' Hstep Hf]; simpl in *.
  - by eapply own_step_conforms.
  - by eapply heartbeat_conforms.
  - by eapply final_conforms.
  - apply (conforms_same p); [done..|]. apply (conforms_foreign p s); [by eapply ReportLoad_foreign|done].
  - assert (workers r !! id = None) as Hgone.
    { unfold Deregister in Hr. simpl in Hr. destruct (workers (reg s) !! id) eqn:E; injection Hr as <- _; [|done].
      simpl. apply lookup_delete_eq. }
    split; simpl; [by rewrite Hgone|done|done|done].
  - by apply (conforms_same p).
  - by eapply conforms_foreign.
Qed.

Lemma lives_conforms w : lives w → conforms w.
Proof.
  intros (w0 & Hw0 & Hr). eapply invariant_rtc; [|exact Hr|by apply registered_conforms].
  intros; by eapply world_step_conforms.
Qed.

(** C16: A worker follows the registry's protocol under every interleaving of its goroutines
    with the fleet, lost calls and lost answers included: each heartbeat it sends reports
    STARTING or READY and is a transition the registry allows, unless the registry holds
    the worker for dead or no longer holds it; its last one reports DRAINING, and is
    refused besides only when the worker was told to drain before its first READY
    arrived. *)
Theorem heartbeats_conform w :
  lives w →
  (∀ st, p_hb (fst w) = hb_call st → (st = STARTING ∨ st = READY) ∧
     ∀ e, workers (reg (snd w)) !! id = Some e → State e = DEAD ∨ validTransition (State e) st = true) ∧
  (p_hb (fst w) = hb_final → ∀ e, workers (reg (snd w)) !! id = Some e →
     State e = DEAD ∨ State e = STARTING ∨ validTransition (State e) DRAINING = true).
Proof.
  intros Hl. destruct (lives_conforms w Hl) as [He Hst Hcall _]. split.
  - intros st Hhb. destruct (Hcall st Hhb) as [->|[-> Hld]]; (split; [tauto|]); intros e Hent;
      destruct (He e Hent) as [->|[->|[(-> & Hld' & Hne)|[-> Hd]]]]; auto; congruence.
  - intros Hhb e Hent. destruct (He e Hent) as [->|[->|[(-> & _)|[-> _]]]]; auto.
Qed.

(** A worker that has deregistered stays out: from the moment its Deregister reaches the
    registry, whatever its other goroutines still send and however the fleet goes on, no
    entry of its name is in the registry. *)
Lemma left_for_good w : lives w → p_left (fst w) = true → workers (reg (snd w)) !! id = None.
Proof. intros Hl. by apply lives_conforms. Qed.

(** ** A drain request is carried out *)

(** What the two goroutines can do without a signal: the heartbeat goroutine unless it has
    returned - its ticker goes on, and a call ends somehow - and main unless it waits. *)
Definition hb_runnable (p : Proc) : bool :=
  negb (bool_decide (p_main p = main_exit)) && negb (bool_decide (p_hb p = hb_done)).

Definition main_runnable (p : Proc) : bool :=
  match p_main p with main_wait => p_drained p | main_stop | main_last => true | main_exit => false end.

Lemma hb_runnable_step p :
  hb_runnable p = true ↔ p_main p ≠ main_exit ∧ ∃ p', own_step p p' ∧ p_hb p' ≠ p_hb p.
Proof.
  unfold hb_runnable. rewrite andb_true_iff, !negb_true_iff, !bool_decide_eq_false. split.
  - intros [Hm Hh]. split; [done|]. destruct (p_hb p) as [|st| | |] eqn:E; [..|done].
    + exists (set_hb (hb_call (p_state p)) p). by split; [constructor|].
    + exists (set_hb hb_select p). by split; [apply (own_hb_lost p st)|].
    + exists (set_draining p). by split; [constructor|].
    + exists (finish_drain p). by split; [constructor|].
  - intros (Hm & p' & Hs & Hne). split; [done|]. intros Hd. destruct Hs; simpl in Hne; congruence.
Qed.

Lemma main_runnable_step p :
  main_runnable p = true →
  ∃ p', own_step p p' ∧ p_main p' ≠ p_main p.
Proof.
  unfold main_runnable. destruct (p_main p) eqn:E; [intros Hd|intros _..|done].
  - exists (stop_loops p). by split; [apply own_drained|].
  - exists (set_main main_last (p_left p) p). by split; [apply own_dereg_lost|].
  - exists (set_main main_exit (p_left p) p). by split; [apply own_exit|].
Qed.

(** An endless run of the process and the fleet in which neither goroutine is left out for
    ever: one that is runnable moves at some time, or stops being runnable. *)
Record fair_run (w : nat → Proc * Sys) : Prop := {
  fr_step n : world_step (w n) (w (S n));
  fr_hb n : hb_runnable (fst (w n)) = true → ∃ m, (n ≤ m)%nat ∧
    (p_hb (fst (w (S m))) ≠ p_hb (fst (w m)) ∨ hb_runnable (fst (w m)) = false);
  fr_main n : main_runnable (fst (w n)) = true → ∃ m, (n ≤ m)%nat ∧
    (p_main (fst (w (S m))) ≠ p_main (fst (w m)) ∨ main_runnable (fst (w m)) = false);
}.

(** Told to drain, and not yet done with it. *)
Definition draining (p : Proc) : Prop :=
  p_hb p = hb_told ∨ p_hb p = hb_final ∨ (p_hb p = hb_done ∧ p_drained p = true).

(** How far each goroutine is from its end, for the proof. *)
Definition hb_left (p : Proc) : nat := match p_hb p with hb_told => 2 | hb_final => 1 | _ => 0 end.

Definition main_left (p : Proc) : nat :=
  match p_main p with main_wait => 3 | main_stop => 2 | main_last => 1 | main_exit => 0 end.

(** A goroutine that moves comes nearer to its end. *)
Definition nearer (p p' : Proc) : Prop :=
  (if decide (p_hb p' = p_hb p) then hb_left p' = hb_left p else hb_left p' < hb_left p)%nat ∧
  (if decide (p_main p' = p_main p) then main_left p' = main_left p else main_left p' < main_left p)%nat.

Lemma nearer_intro p p' :
  (p_hb p' = p_hb p ∨ hb_left p' < hb_left p)%nat → (p_main p' = p_main p ∨ main_left p' < main_left p)%nat →
  nearer p p'.
Proof.
  unfold nearer, hb_left, main_left. intros [Hh|Hh] [Hm|Hm]; rewrite ?Hh, ?Hm, ?decide_True by done; split; try done;
    case_decide as E; try done; rewrite E in *; lia.
Qed.

Lemma own_step_nearer p p' : own_step p p' → draining p → draining p' ∧ nearer p p'.
Proof.
  unfold draining. destruct 1; simpl;
    repeat match goal with E : p_hb p = _ |- _ => rewrite E in *
                         | E : p_main p = _ |- _ => rewrite E in * end;
    intros [Hp|[Hp|[Hp Hd]]]; try discriminate Hp; (split; [by auto|]);
    apply nearer_intro; unfold hb_left, main_left; simpl; rewrite ?Hp;
    repeat match goal with E : p_hb p = _ |- _ => rewrite E
                         | E : p_main p = _ |- _ => rewrite E end; auto; right; lia.
Qed.

Lemma world_step_nearer w w' : world_step w w' → draining (fst w) → draining (fst w') ∧ nearer (fst w) (fst w').
Proof.
  assert (∀ p, nearer p p) as Hrefl by (intros p; apply nearer_intro; by left).
  destruct 1 as [p' _ Hown|st a b r resp answered _ Hhb _ _ Hr|a b r resp _ Hhb _ _ Hr|l r resp _ Hld Hr
    |r resp _ Hm Hr| |s' Hstep Hf]; simpl.
  - by apply own_step_nearer.
  - unfold draining. rewrite Hhb. intros [?|[?|[? ?]]]; done.
  - intros _. split; [right; right; done|]. apply nearer_intro; [right|by left]. unfold hb_left. simpl. rewrite Hhb. lia.
  - intros Hd. split; [exact Hd|]. apply nearer_intro; by left.
  - intros Hd. split; [exact Hd|]. apply nearer_intro; [by left|right]. unfold main_left. simpl. rewrite Hm. lia.
  - intros Hd. split; [exact Hd|]. apply nearer_intro; [by left|]. unfold main_left. simpl.
    destruct (p_main (fst w)); [(right; lia)..|by left].
  - done.
Qed.

Lemma world_step_exit w w' : world_step w w' → p_main (fst w) = main_exit → p_main (fst w') = main_exit.
Proof. by destruct 1. Qed.

Section fair.
Context (w : nat → Proc * Sys) (Hfair : fair_run w).

Lemma fair_nearer n m : (n ≤ m)%nat → draining (fst (w n)) →
  draining (fst (w m)) ∧ (hb_left (fst (w m)) ≤ hb_left (fst (w n)))%nat ∧
  (main_left (fst (w m)) ≤ main_left (fst (w n)))%nat.
Proof.
  intros Hle Hd. induction Hle as [|m Hle (Hdm & Hh & Hm)]; [done|].
  destruct (world_step_nearer _ _ (fr_step _ Hfair m) Hdm) as (Hd' & Hh' & Hm'). split; [done|].
  split; repeat case_decide; lia.
Qed.

(** Somebody moves. *)
Lemma fair_progress n : draining (fst (w n)) → p_main (fst (w n)) ≠ main_exit →
  ∃ m, (n ≤ m)%nat ∧ draining (fst (w m)) ∧
    (hb_left (fst (w m)) + main_left (fst (w m)) < hb_left (fst (w n)) + main_left (fst (w n)))%nat.
Proof.
  intros Hd Hne. destruct (decide (p_hb (fst (w n)) = hb_done)) as [Hh|Hh].
  - assert (p_drained (fst (w n)) = true) as Hdr by (destruct Hd as [?|[?|[_ ?]]]; congruence).
    destruct (fr_main _ Hfair n) as (m & Hle & Hmv).
    { unfold main_runnable. by destruct (p_main (fst (w n))). }
    destruct (fair_nearer n m Hle Hd) as (Hdm & H1 & H2).
    assert (hb_left (fst (w n)) = 0%nat) as H0 by (unfold hb_left; by rewrite Hh).
    destruct Hmv as [Hmv|Hmv].
    + destruct (world_step_nearer _ _ (fr_step _ Hfair m) Hdm) as (Hd' & Hh' & Hm').
      rewrite decide_False in Hm' by done. exists (S m). split_and!; [lia|done|]. repeat case_decide; lia.
    + exists m. split_and!; [done|done|]. unfold main_runnable, main_left in *.
      assert (p_hb (fst (w m)) = hb_done ∧ p_drained (fst (w m)) = true) as [_ Hdr'].
      { rewrite H0 in H1. unfold hb_left in H1. destruct Hdm as [Hx|[Hx|Hx]]; [(rewrite Hx in H1; lia)..|done]. }
      destruct (p_main (fst (w m))); [congruence|done|done|]. by destruct (p_main (fst (w n))); [lia..|done].
  - destruct (fr_hb _ Hfair n) as (m & Hle & Hmv).
    { apply hb_runnable_step. split; [done|]. destruct Hd as [Hx|[Hx|[Hx _]]]; [..|done].
      - exists (set_draining (fst (w n))). split; [by apply own_drain|by rewrite Hx].
      - exists (finish_drain (fst (w n))). split; [by apply own_final_lost|by rewrite Hx]. }
    destruct (fair_nearer n m Hle Hd) as (Hdm & H1 & H2). destruct Hmv as [Hmv|Hmv].
    + destruct (world_step_nearer _ _ (fr_step _ Hfair m) Hdm) as (Hd' & Hh' & Hm').
      rewrite decide_False in Hh' by done. exists (S m). split_and!; [lia|done|]. repeat case_decide; lia.
    + exists m. split_and!; [done|done|]. unfold hb_runnable in Hmv.
      apply andb_false_iff in Hmv as [Hx|Hx]; apply negb_false_iff, bool_decide_eq_true in Hx.
      * unfold main_left at 1. rewrite Hx. unfold main_left. by destruct (p_main (fst (w n))); [lia..|done].
      * unfold hb_left at 1. rewrite Hx. unfold hb_left.
        destruct Hd as [Hy|[Hy|[Hy _]]]; [(rewrite Hy; lia)..|done].
Qed.

Lemma fair_exit n : draining (fst (w n)) → ∃ m, (n ≤ m)%nat ∧ p_main (fst (w m)) = main_exit.
Proof.
  remember (hb_left (fst (w n)) + main_left (fst (w n)))%nat as j eqn:Hj. revert n Hj.
  induction (lt_wf j) as [j _ IH]. intros n -> Hd.
  destruct (decide (p_main (fst (w n)) = main_exit)) as [Hx|Hx]; [by exists n|].
  destruct (fair_progress n Hd Hx) as (m & Hle & Hdm & Hlt).
  destruct (IH _ Hlt m eq_refl Hdm) as (m' & ? & ?). exists m'. split; [lia|done].
Qed.

End fair.

(** C27: A worker told to drain goes: in every endless run of its goroutines and the fleet in
    which neither its heartbeat goroutine nor main is left out for ever, the process is gone
    from some moment on - whatever the load loop, the model's loading and the fleet do in
    between, without a signal, and even when no call to the registry gets through. *)
Theorem drain_runs_out w n :
  fair_run w → p_hb (fst (w n)) = hb_told →
  ∃ last, (n ≤ last)%nat ∧ ∀ m, (last ≤ m)%nat → p_main (fst (w m)) = main_exit.
Proof.
  intros Hf Htold. destruct (fair_exit w Hf n) as (j & Hle & Hj); [by left|]. exists j. split; [done|].
  intros m Hm. induction Hm as [|m _ IH]; [done|]. by eapply world_step_exit; [apply (fr_step _ Hf)|].
Qed.

(** What the fleet does is foreign: drain requests, evictions and the deadline callback. *)
Lemma RequestDrain_foreign s i r err t : RequestDrain i (reg s) = (r, err) → foreign s (advance r t s).
Proof.
  unfold RequestDrain. destruct (workers (reg s) !! i) as [e|] eqn:He; intros [= <- <-]; [|by apply foreign_same].
  unfold foreign. simpl. destruct (decide (i = id)) as [Hid|Hne].
  - rewrite Hid in *. rewrite He, lookup_insert_eq. by left.
  - rewrite lookup_insert_ne by done. destruct (workers (reg s) !! id); auto.
Qed.

Lemma Evict_foreign s i r err t : Evict i (reg s) = (r, err) → foreign s (advance r t s).
Proof.
  unfold Evict. destruct (workers (reg s) !! i) as [e|]; intros [= <- <-]; [|by apply foreign_same].
  unfold foreign. simpl. destruct (decide (i = id)) as [->|Hne].
  - rewrite lookup_delete_eq. by destruct (workers (reg s) !! id).
  - rewrite lookup_delete_ne by done. destruct (workers (reg s) !! id); auto.
Qed.

Lemma markDead_foreign s since now i h t :
  foreign s (advance (markDead since now i (set_heap h (reg s))) t s).
Proof.
  unfold markDead. simpl. destruct (workers (reg s) !! i) as [e|] eqn:He; [|by apply foreign_same].
  case_decide; [by apply foreign_same|]. case_match; [by apply foreign_same|].
  unfold foreign. simpl. destruct (decide (i = id)) as [Hid|Hne].
  - rewrite Hid in *. rewrite He, lookup_insert_eq. by right.
  - rewrite lookup_insert_ne by done. destruct (workers (reg s) !! id); auto.
Qed.

End process.

(** ** Ollama's models *)

(** Ollama's answer: an object that lists the names. *)
Definition tag_entry (n : string) : json :=
  JObj [(quote_items "name", marshal_string n);
        (quote_items "size", JNum {| n_neg := false; n_int := "42"; n_frac := None; n_exp := None |})].

Definition tags_value (names : list string) : json :=
  JObj [(quote_items "models", JArr (map tag_entry names))].

Lemma tag_entry_wf depth n : depth < max_depth → wf_json depth (tag_entry n).
Proof.
  intros Hd. constructor; [done|]. repeat (constructor; [split; [apply quote_wf|constructor]|]);
    [apply quote_wf|done|constructor].
Qed.

Lemma tags_wf names : wf_json 0 (tags_value names).
Proof.
  constructor; [done|]. apply Forall_singleton. split; [apply quote_wf|]. constructor; [done|].
  apply Forall_fmap, Forall_forall. intros n _. by apply tag_entry_wf.
Qed.

Lemma first_value_print v k : wf_json 0 v → ends_number k → first_value (print v k) = Some v.
Proof.
  intros Hv Hk. unfold first_value, fuel. by rewrite (value_print 0 v Hv) by (done || lia).
Qed.

Lemma store_tag n : store_object name_field (tag_entry n) "" = Some (to_valid n).
Proof.
  unfold tag_entry. cbn [store_object store_members].
  assert (decode (quote_items "name") = "name") as -> by by vm_compute.
  assert (decode (quote_items "size") = "size") as -> by by vm_compute.
  change (name_field "name" (marshal_string n) "") with (Some (decode (quote_items n))).
  by rewrite decode_quote.
Qed.

Lemma store_names names :
  store_elems (store_object name_field) "" (map tag_entry names) [] = Some (map to_valid names).
Proof.
  induction names as [|n names IH]; [done|]. cbn [map store_elems head tail].
  change (default "" None) with "". rewrite store_tag. cbn [mbind option_bind]. by rewrite IH.
Qed.

(** The Ollama worker registers the models Ollama lists: from an answer that lists
    [names], whatever follows it in the stream, main builds a registration with exactly
    these models in this order; it gives up when there are none or the answer cannot be
    read. *)
Theorem ollama_registers_models f names rest :
  ends_number rest →
  ollamaModels (Some (print (tags_value names) rest)) = Some (map to_valid names) ∧
  match ollama_registration f (Some (print (tags_value names) rest)) with
  | Some info => names ≠ [] ∧ ModelsLoaded info = map to_valid names ∧ WorkerId info = of_id f ∧
                 Address info = of_addr f
  | None => names = []
  end ∧ ollama_registration f None = None.
Proof.
  intros Hrest.
  assert (ollamaModels (Some (print (tags_value names) rest)) = Some (map to_valid names)) as Hm.
  { unfold ollamaModels, decode_models. cbn [mbind option_bind].
    rewrite first_value_print by (done || apply tags_wf). cbn [mbind option_bind tags_value store_object store_members].
    assert (decode (quote_items "models") = "models") as -> by by vm_compute.
    unfold models_field at 1. change (selects "models" "models") with true. cbv iota.
    destruct names as [|n names]; [done|]. pose proof (store_names (n :: names)) as Hs.
    cbn [map] in Hs |- *. unfold store_slice. cbn [fst]. rewrite Hs. cbn [mbind option_bind].
    rewrite take_ge; [done|]. simpl. by rewrite !length_map. }
  split; [done|]. split; [|done]. unfold ollama_registration. rewrite Hm. by destruct names.
Qed.

(** *** Witnesses *)

Definition demo_registered : Sys :=
  {| reg := set_workers {["w1" := demo_entry 0 STARTING 0]} (New DefaultDeadTimeout); clock := 0; starting := [] |}.

Definition demo_mock : Kind := MockWorker 1024.

Lemma demo_start : registered demo_mock "w1" (started demo_mock, demo_registered).
Proof. split; [done|]. intros e He. left. vm_compute in He. by injection He as <-. Qed.

Lemma heartbeats_conform_witness :
  lives demo_timing demo_mock "w1" (set_hb (hb_call STARTING) (started demo_mock), demo_registered) ∧
  (State (demo_entry 0 STARTING 0) = DEAD ∨ validTransition STARTING STARTING = true).
Proof.
  assert (lives demo_timing demo_mock "w1" (set_hb (hb_call STARTING) (started demo_mock), demo_registered)) as Hl.
  { exists (started demo_mock, demo_registered). split; [exact demo_start|]. apply rtc_once.
    apply (w_own _ _ _ (started demo_mock, demo_registered)); [done|]. by apply (own_tick _ _ (started demo_mock)). }
  split; [exact Hl|]. destruct (heartbeats_conform _ _ _ _ Hl) as [Hc _].
  destruct (Hc STARTING eq_refl) as [_ He]. apply (He (demo_entry 0 STARTING 0)). vm_compute. reflexivity.
Defined.

(** A worker asked to drain before it has loaded its model: its last heartbeat reports a change
    from STARTING to DRAINING, which the registry refuses. *)
Lemma early_drain_refused :
  ∃ w e, lives demo_timing demo_mock "w1" w ∧ p_hb (fst w) = hb_final ∧
    workers (reg (snd w)) !! "w1" = Some e ∧ State e = STARTING ∧ validTransition (State e) DRAINING = false.
Proof.
  set (s1 := advance (fst (RequestDrain "w1" (reg demo_registered))) 0 demo_registered).
  set (p1 := set_hb (hb_call STARTING) (started demo_mock)).
  set (s2 := advance (fst (Heartbeat 1 1 {| hb_WorkerId := "w1"; hb_State := STARTING |} (reg s1))) 1 s1).
  exists (set_draining (set_hb hb_told p1), s2). eexists. split; [|split_and!; vm_compute; reflexivity].
  exists (started demo_mock, demo_registered). split; [exact demo_start|].
  eapply rtc_l; [apply (w_fleet _ _ _ (started demo_mock, demo_registered) s1)|].
  { by apply (run_drain _ _ "w1"). }
  { by eapply (RequestDrain_foreign "w1" demo_registered "w1"). }
  eapply rtc_l; [apply (w_own _ _ _ (started demo_mock, s1)); [done|by apply own_tick]|].
  eapply rtc_l; [by eapply (w_heartbeat _ _ _ (p1, s1) STARTING 1 1 _ (inl {| hb_Ok := true; Drain := true |}) true)|].
  apply rtc_once. apply (w_own _ _ _ (set_hb hb_told p1, s2)); [done|by apply own_drain].
Qed.

Lemma left_for_good_witness :
  ∃ w, lives demo_timing demo_mock "w1" w ∧ p_left (fst w) = true ∧ workers (reg (snd w)) !! "w1" = None.
Proof.
  assert (∃ w, lives demo_timing demo_mock "w1" w ∧ p_left (fst w) = true) as (w & Hl & Hp).
  { eexists. split.
    - exists (started demo_mock, demo_registered). split; [exact demo_start|].
      eapply rtc_l; [apply (w_own _ _ _ (started demo_mock, demo_registered)); [done|by apply own_signal]|].
      eapply rtc_l; [by eapply (w_deregister _ _ _ (stop_loops (started demo_mock), demo_registered))|].
      apply rtc_refl.
    - done. }
  exists w. split; [exact Hl|]. split; [exact Hp|]. apply (left_for_good _ _ _ _ Hl Hp).
Defined.

(** Told to drain while no call gets through. *)
Definition demo_told : Proc := set_hb hb_told (started demo_mock).

Definition demo_drain_run (n : nat) : Proc * Sys :=
  (match n with
   | 0%nat => demo_told
   | 1%nat => set_draining demo_told
   | 2%nat => finish_drain (set_draining demo_told)
   | 3%nat => stop_loops (finish_drain (set_draining demo_told))
   | 4%nat => set_main main_last false (stop_loops (finish_drain (set_draining demo_told)))
   | _ => set_main main_exit false (stop_loops (finish_drain (set_draining demo_told)))
   end, demo_registered).

Lemma demo_drain_fair : fair_run demo_timing demo_mock "w1" demo_drain_run.
Proof.
  split.
  - intros [|[|[|[|[|n]]]]].
    + by apply (w_own _ _ _ (demo_drain_run 0)); [|apply own_drain].
    + by apply (w_own _ _ _ (demo_drain_run 1)); [|apply own_final_lost].
    + by apply (w_own _ _ _ (demo_drain_run 2)); [|apply own_drained].
    + by apply (w_own _ _ _ (demo_drain_run 3)); [|apply (own_dereg_lost _ _ (fst (demo_drain_run 3)))].
    + by apply (w_own _ _ _ (demo_drain_run 4)); [|apply (own_exit _ _ (fst (demo_drain_run 4)))].
    + apply (w_killed _ _ _ (demo_drain_run (5 + n))).
  - intros n Hn. exists n. split; [done|]. destruct n as [|[|[|[|[|n]]]]]; by left || right.
  - intros n Hn. exists n. split; [done|]. destruct n as [|[|[|[|[|n]]]]]; by left || right.
Qed.

Lemma drain_runs_out_witness :
  p_hb (fst (demo_drain_run 0)) = hb_told ∧
  ∃ k, ∀ m, (k ≤ m)%nat → p_main (fst (demo_drain_run m)) = main_exit.
Proof.
  split; [reflexivity|].
  destruct (drain_runs_out demo_timing demo_mock "w1" demo_drain_run 0 demo_drain_fair eq_refl) as (k & _ & Hk).
  exists k. exact Hk.
Defined.

Lemma ollama_registers_models_witness :
  match ollama_registration default_ollama_flags (Some (print (tags_value ["llama3.2:3b"; "phi3"]) newline)) with
  | Some info => ModelsLoaded info = ["llama3.2:3b"; "phi3"] | None => False end.
Proof.
  destruct (ollama_registers_models default_ollama_flags ["llama3.2:3b"; "phi3"] newline) as (_ & H & _); [done|].
  destruct (ollama_registration _ _) as [info|]; [|discriminate H]. destruct H as (_ & Hm & _). rewrite Hm.
  vm_compute. reflexivity.
Defined.
