(* ===== verification/Queue.v ===== *)
(** * The request queue (request-plane/queue/queue.go)

    The lanes are the three channels of the map [lanes]; a channel is the list of
    the requests it buffers.  The operations are given for a caller no one
    interrupts, and then for any number of concurrent callers as a step relation
    whose atomic steps are the channel operations. *)

From S2P Require Import Prelude.
Open Scope Z_scope.

(** ** Data *)

Definition PriorityNormal : Z := 0.
Definition PriorityHigh : Z := 1.
Definition PriorityLow : Z := 2.

Definition Priority_String (p : Z) : string :=
  if p =? PriorityHigh then "high" else if p =? PriorityLow then "low" else "normal".

(** [ResultCh] and [Chunks] belong to the dispatcher and the gateway. *)
Record Request := {
  ID : string;
  Body : string;
  ReqModel : string;
  Priority : Z;
  EnqueuedAt : Z;
  KeyID : string;
  Stream : bool;
}.

Record Result := {
  StatusCode : Z;
  ResBody : string;
  Err : option string;
  ServedModel : string;
  Streaming : bool;
  ContentType : string;
}.

(** The map [lanes] has three keys; every lane has the same capacity. *)
Record Queue := {
  high : list Request;
  normal : list Request;
  low : list Request;
  capacity : nat;
}.

(** [make] panics on a negative size. *)
Definition NewQueue (capacityPerLane : Z) : res Queue :=
  if capacityPerLane <? 0 then Panic MakeChanSize
  else Ok {| high := []; normal := []; low := []; capacity := Z.to_nat capacityPerLane |}.

(** [q.lanes[p]]: a nil channel for a priority without a lane. *)
Definition lane (p : Z) (q : Queue) : option (list Request) :=
  if p =? PriorityHigh then Some (high q)
  else if p =? PriorityNormal then Some (normal q)
  else if p =? PriorityLow then Some (low q)
  else None.

Definition set_lane (p : Z) (l : list Request) (q : Queue) : Queue :=
  if p =? PriorityHigh then
    {| high := l; normal := normal q; low := low q; capacity := capacity q |}
  else if p =? PriorityNormal then
    {| high := high q; normal := l; low := low q; capacity := capacity q |}
  else if p =? PriorityLow then
    {| high := high q; normal := normal q; low := l; capacity := capacity q |}
  else q.

Definition popOrder : list Z := [PriorityHigh; PriorityNormal; PriorityLow].

(** ** Operations *)

(** No receiver is waiting.  A send on a nil channel never proceeds. *)
Definition TryPush (r : Request) (q : Queue) : Queue * bool :=
  match lane (Priority r) q with
  | Some l =>
    if decide (length l < capacity q)%nat then (set_lane (Priority r) (l ++ [r]) q, true)
    else (q, false)
  | None => (q, false)
  end.

(** A non-blocking receive from one lane. *)
Definition try_receive (p : Z) (q : Queue) : option (Request * Queue) :=
  match lane p q with
  | Some (r :: l) => Some (r, set_lane p l q)
  | _ => None
  end.

Fixpoint try_lanes (ps : list Z) (q : Queue) : option (Request * Queue) :=
  match ps with
  | [] => None
  | p :: ps' =>
    match try_receive p q with
    | Some x => Some x
    | None => try_lanes ps' q
    end
  end.

Definition tryPopHighestPriority (q : Queue) : option (Request * Queue) := try_lanes popOrder q.

Inductive PopResult :=
  | Popped (r : Request) (q : Queue)
  | Cancelled
  | Blocked.

(** [done]: the context is cancelled.  With every lane empty only the context can
    end the blocking select. *)
Definition Pop (done : bool) (q : Queue) : PopResult :=
  match tryPopHighestPriority q with
  | Some (r, q') => Popped r q'
  | None => if done then Cancelled else Blocked
  end.

Definition Len (q : Queue) : nat := length (high q) + length (normal q) + length (low q).

(** [len] of a nil channel is 0. *)
Definition LenByPriority (p : Z) (q : Queue) : nat := from_option length 0%nat (lane p q).

Fixpoint ahead_of (ps : list Z) (p : Z) (q : Queue) : nat :=
  match ps with
  | [] => 0
  | lane :: ps' =>
    LenByPriority lane q + if lane =? p then 0 else ahead_of ps' p q
  end.

Definition AheadOf (p : Z) (q : Queue) : nat := ahead_of popOrder p q.

Definition Cap (q : Queue) : nat := 3 * capacity q.

(** ** Concurrent callers *)

(** Where a call of [Pop] is: about to try the lanes [ps], in the blocking select,
    or done. *)
Inductive Popper :=
  | Trying (ps : list Z)
  | Waiting
  | Returned (r : option Request).

(** [accepted]: the pushed requests in order; [served]: the popped ones. *)
Record QueueSys := {
  q : Queue;
  poppers : list Popper;
  cancelled : bool;
  accepted : list Request;
  served : list Request;
}.

Definition with_popper (n : nat) (p : Popper) (s : QueueSys) : QueueSys :=
  {| q := q s; poppers := <[n := p]> (poppers s); cancelled := cancelled s;
     accepted := accepted s; served := served s |}.

(** Popper [n] takes [r], leaving the queue [q']. *)
Definition takes (n : nat) (r : Request) (q' : Queue) (s : QueueSys) : QueueSys :=
  {| q := q'; poppers := <[n := Returned (Some r)]> (poppers s); cancelled := cancelled s;
     accepted := accepted s; served := served s ++ [r] |}.

Inductive queue_step (s : QueueSys) : QueueSys → Prop :=
  | q_push r q' :
      TryPush r (q s) = (q', true) →
      queue_step s {| q := q'; poppers := poppers s; cancelled := cancelled s;
                      accepted := accepted s ++ [r]; served := served s |}
  | q_push_rejected r :
      TryPush r (q s) = (q s, false) → queue_step s s
  | q_handoff r n :
      poppers s !! n = Some Waiting → lane (Priority r) (q s) = Some [] →
      queue_step s {| q := q s; poppers := <[n := Returned (Some r)]> (poppers s);
                      cancelled := cancelled s; accepted := accepted s ++ [r];
                      served := served s ++ [r] |}
  | q_pop_called :
      queue_step s {| q := q s; poppers := Trying popOrder :: poppers s; cancelled := cancelled s;
                      accepted := accepted s; served := served s |}
  | q_try_takes n p ps r q' :
      poppers s !! n = Some (Trying (p :: ps)) → try_receive p (q s) = Some (r, q') →
      queue_step s (takes n r q' s)
  | q_try_empty n p ps :
      poppers s !! n = Some (Trying (p :: ps)) → try_receive p (q s) = None →
      queue_step s (with_popper n (Trying ps) s)
  | q_blocks n :
      poppers s !! n = Some (Trying []) → queue_step s (with_popper n Waiting s)
  | q_wakes n p r q' :
      poppers s !! n = Some Waiting → try_receive p (q s) = Some (r, q') →
      queue_step s (takes n r q' s)
  | q_gives_up n :
      poppers s !! n = Some Waiting → cancelled s = true →
      queue_step s (with_popper n (Returned None) s)
  | q_cancel :
      queue_step s {| q := q s; poppers := poppers s; cancelled := true;
                      accepted := accepted s; served := served s |}.

Definition new_sys (c : nat) : QueueSys :=
  {| q := {| high := []; normal := []; low := []; capacity := c |}; poppers := [];
     cancelled := false; accepted := []; served := [] |}.

(** ** Lemmas *)

Lemma lane_set p l q0 p' :
  lane p' (set_lane p l q0) = if decide (p' = p ∧ is_Some (lane p q0)) then Some l else lane p' q0.
Proof.
  destruct (decide _) as [[-> [l0 Hl]]|Hn]; unfold lane, set_lane in *.
  - by repeat (case_match; simplify_eq/=).
  - assert (p' = p → ¬ is_Some (lane p q0)) as Hne by (intros ??; by apply Hn).
    destruct (Z.eqb_spec p PriorityHigh), (Z.eqb_spec p PriorityNormal),
      (Z.eqb_spec p PriorityLow); subst; simpl; try done;
      repeat (case_match; simpl in *; try done);
      by destruct Hne; [lia|eexists].
Qed.

Lemma capacity_set p l q0 : capacity (set_lane p l q0) = capacity q0.
Proof. unfold set_lane. by repeat case_match. Qed.

Lemma TryPush_accepts r q0 q' :
  TryPush r q0 = (q', true) ↔
  ∃ l, lane (Priority r) q0 = Some l ∧ (length l < capacity q0)%nat ∧
    q' = set_lane (Priority r) (l ++ [r]) q0.
Proof.
  unfold TryPush. destruct (lane _ q0) as [l|]; [|split; [done|by intros (? & ? & _)]].
  case_decide; split; [intros [= <-]; eauto|by intros (? & [= <-] & _ & ->)|done|].
  intros (? & [= <-] & ? & _). lia.
Qed.

Lemma try_receive_spec p q0 r q' :
  try_receive p q0 = Some (r, q') ↔ ∃ l, lane p q0 = Some (r :: l) ∧ q' = set_lane p l q0.
Proof.
  unfold try_receive. destruct (lane p q0) as [[|r0 l]|]; split; try done;
    try (by intros (? & ? & _)); [by intros [= -> <-]; eauto|].
  by intros (? & [= -> ->] & ->).
Qed.

(** ** Conservation and order *)

Definition of_priority (p : Z) (rs : list Request) : list Request :=
  filter (λ r, Priority r = p) rs.

Definition returned (x : Popper) : option Request :=
  match x with Returned r => r | _ => None end.

Lemma of_priority_snoc p rs r :
  of_priority p (rs ++ [r]) = of_priority p rs ++ (if decide (Priority r = p) then [r] else []).
Proof. unfold of_priority. rewrite filter_app, filter_cons. by case_decide. Qed.

Record conserving (c : nat) (s : QueueSys) : Prop := {
  con_capacity : capacity (q s) = c;
  con_bound p l : lane p (q s) = Some l → (length l ≤ c)%nat;
  con_order p l : lane p (q s) = Some l →
    of_priority p (accepted s) = of_priority p (served s) ++ l;
  con_returned : omap returned (poppers s) ≡ₚ served s;
}.

Lemma returned_insert (l : list Popper) n x y :
  l !! n = Some x → returned x = None →
  omap returned (<[n := y]> l) ≡ₚ option_list (returned y) ++ omap returned l.
Proof. intros Hx Hn. pose proof (omap_insert_Permutation returned l n x y Hx) as H. by rewrite Hn in H. Qed.

Lemma conserving_popper c n x y s :
  poppers s !! n = Some x → returned x = None → returned y = None →
  conserving c s → conserving c (with_popper n y s).
Proof.
  intros Hx Hn Hy []. split; simpl; auto.
  rewrite (returned_insert _ _ _ y Hx Hn), Hy. done.
Qed.

Lemma conserving_takes c n x p r q' s :
  poppers s !! n = Some x → returned x = None → try_receive p (q s) = Some (r, q') →
  conserving c s → conserving c (takes n r q' s).
Proof.
  intros Hx Hn (l & Hl & ->)%try_receive_spec [Hc Hb Ho Hret].
  assert (Priority r = p) as Hp.
  { assert (r ∈ of_priority p (accepted s)) as [? _]%list_elem_of_filter; [|done].
    rewrite (Ho _ _ Hl). apply elem_of_app. right. by left. }
  split; simpl.
  - by rewrite capacity_set.
  - intros p' l'. rewrite lane_set. case_decide as Hd; [|apply Hb].
    intros [= <-]. specialize (Hb _ _ Hl). simpl in Hb. lia.
  - intros p' l'. rewrite lane_set, of_priority_snoc, Hp. case_decide as Hd.
    + destruct Hd as [-> _]. intros [= <-]. rewrite decide_True by done.
      rewrite (Ho _ _ Hl), <- app_assoc. done.
    + intros Hl'. rewrite decide_False, app_nil_r; [by apply Ho|].
      intros ->. apply Hd. rewrite Hl. split; [done|by eexists].
  - rewrite (returned_insert _ _ _ _ Hx Hn), Hret. simpl.
    by rewrite (Permutation_app_comm (served s)).
Qed.

Lemma queue_step_conserving c s s' : queue_step s s' → conserving c s → conserving c s'.
Proof.
  intros Hstep Hcon. destruct Hstep as [r q' Hp|r Hp|r n Hn Hl| |n p ps r q' Hn Hr|n p ps Hn Hr|n Hn
    |n p r q' Hn Hr|n Hn Hd|].
  - apply TryPush_accepts in Hp as (l & Hl & Hlen & ->). destruct Hcon as [Hc Hb Ho Hret]. split; simpl.
    + by rewrite capacity_set.
    + intros p' l'. rewrite lane_set. case_decide; [|apply Hb]. intros [= <-].
      rewrite length_app. simpl. lia.
    + intros p' l'. rewrite lane_set, of_priority_snoc. case_decide as Hd.
      * destruct Hd as [-> _]. intros [= <-]. rewrite decide_True by done.
        by rewrite (Ho _ _ Hl), app_assoc.
      * intros Hl'. rewrite decide_False, app_nil_r; [by apply Ho|].
        intros <-. apply Hd. rewrite Hl. split; [done|by eexists].
    + done.
  - done.
  - destruct Hcon as [Hc Hb Ho Hret]. split; simpl; [done|done| |].
    + intros p l' Hl'. rewrite !of_priority_snoc, (Ho _ _ Hl'). case_decide as Hd.
      * rewrite Hd in Hl. simplify_eq. by rewrite !app_nil_r.
      * by rewrite !app_nil_r.
    + rewrite (returned_insert _ _ _ _ Hn) by done. simpl.
      by rewrite Hret, (Permutation_app_comm (served s)).
  - destruct Hcon. by split.
  - by eapply conserving_takes.
  - by eapply conserving_popper.
  - by eapply conserving_popper.
  - by eapply conserving_takes.
  - by eapply conserving_popper.
  - destruct Hcon. by split.
Qed.

Lemma new_conserving c : conserving c (new_sys c).
Proof.
  assert (∀ p l, lane p (q (new_sys c)) = Some l → l = []) as Hnil.
  { intros p l. unfold lane. simpl. repeat case_match; congruence. }
  split; simpl; [done| |intros p l ->%Hnil; done|done]. intros p l ->%Hnil. simpl. lia.
Qed.

Lemma reachable_conserving c s : rtc queue_step (new_sys c) s → conserving c s.
Proof.
  intros Hr. apply (invariant_rtc queue_step (conserving c)) in Hr; [done| |apply new_conserving].
  intros ??. apply queue_step_conserving.
Qed.

(** C9: However pushes and pops interleave, each lane is a bounded FIFO: the accepted
    requests of one priority are, in the order they were pushed, the popped ones
    followed by those still queued, and there are at most [c] of the latter; and
    every popped request was returned by exactly one call of [Pop].  So no accepted
    request is lost, duplicated or overtaken within its lane. *)
Theorem lanes_are_fifo c s :
  rtc queue_step (new_sys c) s →
  (∀ p l, lane p (q s) = Some l →
    of_priority p (accepted s) = of_priority p (served s) ++ l ∧ (length l ≤ c)%nat) ∧
  omap returned (poppers s) ≡ₚ served s.
Proof.
  intros [Hc Hb Ho Hret]%reachable_conserving.
  split; [|done]. intros p l Hl. split; [by apply Ho|by eapply Hb].
Qed.

(** ** Order of service *)

(** The queued requests in the order an undisturbed consumer gets them. *)
Definition service_order (q0 : Queue) : list Request := high q0 ++ normal q0 ++ low q0.

Lemma tryPop_order q0 :
  match service_order q0 with
  | [] => tryPopHighestPriority q0 = None
  | r :: l => ∃ q', tryPopHighestPriority q0 = Some (r, q') ∧ service_order q' = l
  end.
Proof. by destruct q0 as [[|h hs] [|m ms] [|l ls] c]; try (eexists; split; [reflexivity|]). Qed.

(** [n] undisturbed pops: the requests in order, and the queue after them. *)
Fixpoint pops (n : nat) (q0 : Queue) : list Request * Queue :=
  match n with
  | O => ([], q0)
  | S n' =>
    match Pop false q0 with
    | Popped r q' => let '(rs, q'') := pops n' q' in (r :: rs, q'')
    | Cancelled | Blocked => ([], q0)
    end
  end.

Lemma pops_order n q0 :
  fst (pops n q0) = take n (service_order q0) ∧
  service_order (snd (pops n q0)) = drop n (service_order q0).
Proof.
  revert q0. induction n as [|n IH]; intros q0; [done|]. simpl. unfold Pop.
  pose proof (tryPop_order q0) as Ho. destruct (service_order q0) as [|r l] eqn:E.
  - by rewrite Ho.
  - destruct Ho as (q' & -> & Hq'). specialize (IH q'). destruct (pops n q') as [rs q'']. simpl in *.
    destruct IH as [-> ->]. by rewrite Hq'.
Qed.

(** A pushed request stands right behind the requests [AheadOf] counts. *)
Lemma TryPush_order r q0 q' :
  TryPush r q0 = (q', true) →
  service_order q' =
    take (AheadOf (Priority r) q0) (service_order q0) ++ r ::
    drop (AheadOf (Priority r) q0) (service_order q0) ∧
  (AheadOf (Priority r) q0 ≤ length (service_order q0))%nat.
Proof.
  intros (l & Hl & _ & ->)%TryPush_accepts. unfold lane in Hl. unfold set_lane, AheadOf, service_order. simpl.
  destruct (Z.eqb_spec (Priority r) PriorityHigh) as [Hp|_];
    [|destruct (Z.eqb_spec (Priority r) PriorityNormal) as [Hp|_];
    [|destruct (Z.eqb_spec (Priority r) PriorityLow) as [Hp|_]; [|done]]];
    rewrite Hp; simplify_eq; unfold LenByPriority; simpl; rewrite !length_app.
  - rewrite !Nat.add_0_r, take_app_length, drop_app_length, <- !app_assoc. split; [done|lia].
  - rewrite !Nat.add_0_r, (app_assoc (high q0) (normal q0) (low q0)), <- length_app, take_app_length, drop_app_length.
    split; [by rewrite <- !app_assoc|rewrite length_app; lia].
  - rewrite !Nat.add_0_r, take_ge, drop_ge by (rewrite !length_app; lia).
    split; [by rewrite <- !app_assoc|lia].
Qed.

(** [AheadOf] is exact: after a request is pushed and while nobody else pushes, the
    pops that [AheadOf] counted before the push return the first requests that were
    queued before it, and the next pop returns the request itself. *)
Theorem AheadOf_exact r q0 q' :
  TryPush r q0 = (q', true) →
  let n := AheadOf (Priority r) q0 in
  let '(before, q1) := pops n q' in
  before = take n (service_order q0) ∧ length before = n ∧
  ∃ q2, Pop false q1 = Popped r q2 ∧ service_order q2 = drop n (service_order q0).
Proof.
  intros Hp n. destruct (TryPush_order _ _ _ Hp) as [Ho Hn]. fold n in Ho, Hn.
  destruct (pops_order n q') as [H1 H2]. destruct (pops n q') as [before q1]. simpl in *.
  rewrite Ho in H1, H2. pose proof (length_take_le (service_order q0) n Hn) as Hlen.
  rewrite take_app_le, take_take, Nat.min_id in H1 by lia.
  rewrite drop_app_ge, Hlen, Nat.sub_diag in H2 by lia. simpl in H2.
  split_and!; [done|by rewrite H1|].
  pose proof (tryPop_order q1) as Hq1. rewrite H2 in Hq1. destruct Hq1 as (q2 & Hq2 & Hs2).
  exists q2. unfold Pop. by rewrite Hq2.
Qed.

(** Numbers that rise as priority falls. *)
Definition rank (p : Z) : Z := if p =? PriorityHigh then 0 else if p =? PriorityNormal then 1 else 2.

(** A lane holds requests of its own priority. *)
Lemma lane_priority c s p l r : conserving c s → lane p (q s) = Some l → r ∈ l → Priority r = p.
Proof.
  intros [_ _ Ho _] Hl Hin.
  assert (r ∈ of_priority p (accepted s)) as [? _]%list_elem_of_filter; [|done].
  rewrite (Ho _ _ Hl). apply elem_of_app. by right.
Qed.

Lemma service_rank c s r :
  conserving c s → r ∈ service_order (q s) →
  (r ∈ high (q s) ∧ rank (Priority r) = 0) ∨ (r ∈ normal (q s) ∧ rank (Priority r) = 1) ∨
  (r ∈ low (q s) ∧ rank (Priority r) = 2).
Proof.
  intros Hc. unfold service_order. rewrite !elem_of_app. intros [Hr|[Hr|Hr]].
  - left. by rewrite (lane_priority c s PriorityHigh _ r Hc eq_refl Hr).
  - right. left. by rewrite (lane_priority c s PriorityNormal _ r Hc eq_refl Hr).
  - right. right. by rewrite (lane_priority c s PriorityLow _ r Hc eq_refl Hr).
Qed.

(** An undisturbed pop is strict about priority: from any queue a run can reach it
    returns a request such that no queued one has a higher priority, and it blocks
    only on an empty queue. *)
Theorem Pop_strict c s done :
  rtc queue_step (new_sys c) s →
  match Pop done (q s) with
  | Popped r q' => service_order (q s) = r :: service_order q' ∧
      ∀ r', r' ∈ service_order (q s) → rank (Priority r) ≤ rank (Priority r')
  | Cancelled | Blocked => Len (q s) = 0%nat
  end.
Proof.
  intros Hc%reachable_conserving. pose proof (service_rank c s) as Hrank. specialize (λ r, Hrank r Hc).
  unfold Pop. pose proof (tryPop_order (q s)) as Ho.
  destruct (service_order (q s)) as [|r l] eqn:E.
  - rewrite Ho. assert (Len (q s) = length (service_order (q s))) as Hlen.
    { unfold Len, service_order. rewrite !length_app. lia. }
    rewrite E in Hlen. by destruct done.
  - destruct Ho as (q' & -> & ->). split; [done|]. intros r' Hr'.
    assert (r ∈ high (q s) ∨ (high (q s) = [] ∧ r ∈ normal (q s)) ∨
      (high (q s) = [] ∧ normal (q s) = [] ∧ r ∈ low (q s))) as Hhead.
    { unfold service_order in E. clear -E.
      destruct (high (q s)); [|injection E as -> _; left; by left].
      destruct (normal (q s)); simpl in E; [|injection E as -> _; right; left; split; [done|by left]].
      right. right. rewrite E. split_and!; [done..|by left]. }
    assert (0 ≤ rank (Priority r')) by (by destruct (Hrank r' Hr') as [[_ ->]|[[_ ->]|[_ ->]]]).
    destruct Hhead as [Hr|[[Hh Hr]|(Hh & Hm & Hr)]].
    + by rewrite (lane_priority c s PriorityHigh _ r Hc eq_refl Hr).
    + rewrite (lane_priority c s PriorityNormal _ r Hc eq_refl Hr). change (rank PriorityNormal) with 1.
      destruct (Hrank r' Hr') as [[Hh' _]|[[_ ->]|[_ ->]]]; [|lia..].
      rewrite Hh in Hh'. by apply not_elem_of_nil in Hh'.
    + rewrite (lane_priority c s PriorityLow _ r Hc eq_refl Hr). change (rank PriorityLow) with 2.
      destruct (Hrank r' Hr') as [[Hh' _]|[[Hm' _]|[_ ->]]]; [| |lia].
      * rewrite Hh in Hh'. by apply not_elem_of_nil in Hh'.
      * rewrite Hm in Hm'. by apply not_elem_of_nil in Hm'.
Qed.

(** ** Concrete runs *)

Definition demo_request (id : string) (p : Z) : Request :=
  {| ID := id; Body := "{}"; ReqModel := "llama3"; Priority := p; EnqueuedAt := 0; KeyID := "";
     Stream := false |}.

Definition batch : Request := demo_request "batch" PriorityLow.
Definition urgent : Request := demo_request "urgent" PriorityHigh.

(** Concurrent pops are not strict: a pop that finds the high lane empty, and is
    overtaken by an urgent request before it reaches the low lane, returns a batch
    request while the urgent one, accepted before the pop's answer, waits. *)
Theorem Pop_overtaken :
  ∃ s s', rtc queue_step (new_sys 1) s ∧ queue_step s s' ∧
    high (q s) = [urgent] ∧ high (q s') = [urgent] ∧
    poppers s' = [Returned (Some batch)] ∧ served s' = [batch].
Proof.
  eexists _, _. split_and!.
  - eapply rtc_l; [apply (q_push _ batch); reflexivity|].
    eapply rtc_l; [apply q_pop_called|].
    eapply rtc_l; [by apply (q_try_empty _ 0 PriorityHigh [PriorityNormal; PriorityLow])|].
    eapply rtc_l; [by apply (q_try_empty _ 0 PriorityNormal [PriorityLow])|].
    apply rtc_once. apply (q_push _ urgent). reflexivity.
  - eapply (q_try_takes _ 0 PriorityLow []); reflexivity.
  - reflexivity.
  - reflexivity.
  - reflexivity.
  - reflexivity.
Qed.

(** *** Witnesses *)

Lemma lanes_are_fifo_witness :
  ∃ s, served s = [batch] ∧ lane PriorityLow (q s) = Some [] ∧
    of_priority PriorityLow (accepted s) = of_priority PriorityLow (served s) ++ [].
Proof.
  eexists. split_and!; [| |apply (lanes_are_fifo 1)].
  3: { eapply rtc_l; [apply q_pop_called|].
    eapply rtc_l; [by apply (q_try_empty _ 0 PriorityHigh [PriorityNormal; PriorityLow])|].
    eapply rtc_l; [by apply (q_try_empty _ 0 PriorityNormal [PriorityLow])|].
    eapply rtc_l; [by apply (q_try_empty _ 0 PriorityLow [])|].
    eapply rtc_l; [by apply (q_blocks _ 0)|].
    apply rtc_once. by apply (q_handoff _ batch 0). }
  - reflexivity.
  - reflexivity.
  - reflexivity.
Defined.

Lemma AheadOf_exact_witness :
  let q0 := {| high := [urgent]; normal := []; low := [batch]; capacity := 2 |} in
  let r := demo_request "chat" PriorityNormal in
  ∃ q', TryPush r q0 = (q', true) ∧ AheadOf PriorityNormal q0 = 1%nat ∧
    let '(before, q1) := pops 1 q' in before = [urgent] ∧ ∃ q2, Pop false q1 = Popped r q2.
Proof.
  intros q0 r. eexists. split_and!; [reflexivity..|].
  pose proof (AheadOf_exact r q0 _ eq_refl) as H. change (AheadOf (Priority r) q0) with 1%nat in H.
  cbv zeta in H. destruct (pops 1 _) as [before q1]. destruct H as (H1 & _ & q2 & H2 & _).
  split; [exact H1|]. exists q2. exact H2.
Defined.

Lemma Pop_strict_witness :
  ∃ s, rtc queue_step (new_sys 1) s ∧
    match Pop false (q s) with
    | Popped r q' => r = urgent ∧ rank (Priority r) ≤ rank (Priority batch)
    | _ => False
    end.
Proof.
  set (s1 := {| q := {| high := []; normal := []; low := [batch]; capacity := 1 |}; poppers := [];
    cancelled := false; accepted := [batch]; served := [] |}).
  set (s2 := {| q := {| high := [urgent]; normal := []; low := [batch]; capacity := 1 |}; poppers := [];
    cancelled := false; accepted := [batch; urgent]; served := [] |}).
  assert (rtc queue_step (new_sys 1) s2) as Hr.
  { apply (rtc_l _ _ s1); [exact (q_push (new_sys 1) batch _ eq_refl)|].
    apply rtc_once. exact (q_push s1 urgent _ eq_refl). }
  exists s2. split; [exact Hr|]. split; [reflexivity|].
  apply (Pop_strict 1 s2 false Hr). right. left.
Defined.
