(* ===== verification/Auth.v ===== *)
(** * API keys and rate limits (request-plane/auth)

    The key store and the token-bucket limiter, with its behaviour where the floats are
    exact; LimiterRate bounds it where they round.  A call that reads the clock takes
    the reading, in nanoseconds, as an argument; [fused] says whether the compiler
    fuses the refill's multiplication and addition. *)

From S2P Require Import Prelude GoFloat FloatExact.
Open Scope Z_scope.

(** ** keystore.go *)

Record KeyInfo := {
  InfoKeyID : string;
  RequestsPerMin : Z;
}.

Abbreviation KeyStore := (gmap string KeyInfo).

Definition NewKeyStore : KeyStore := ∅.

Definition AddKey (apiKey : string) (info : KeyInfo) (s : KeyStore) : KeyStore := <[apiKey := info]> s.

Definition RemoveKey (apiKey : string) (s : KeyStore) : KeyStore := delete apiKey s.

Definition Lookup (apiKey : string) (s : KeyStore) : option KeyInfo := s !! apiKey.

Definition ListKeys `{MapRange} (i : nat) (s : KeyStore) : list KeyInfo := (range i s).*2.

(** ** ratelimiter.go *)

Record bucket := {
  tokens : float64;
  lastRefill : Z;
}.

Abbreviation RateLimiter := (gmap string bucket).

Definition NewRateLimiter : RateLimiter := ∅.

Definition Nanos : Z := 1000000000.

(** [now.Sub(last)] saturates. *)
Definition Sub (now last : Z) : Z := Z.max (- 2 ^ 63) (Z.min (2 ^ 63 - 1) (now - last)).

(** [d.Seconds()]. *)
Definition Seconds (d : Z) : float64 :=
  f_add (f_of_Z (Z.quot d Nanos)) (f_div (f_of_Z (Z.rem d Nanos)) (f_of_Z Nanos)).

Section limiter.
Context (fused : bool).

Definition refill (now : Z) (cap : float64) (b : bucket) : float64 :=
  let refillPerSec := f_div cap (f_of_Z 60) in
  let elapsed := Seconds (Sub now (lastRefill b)) in
  f_min cap (f_muladd fused elapsed refillPerSec (tokens b)).

Definition Allow (now : Z) (keyID : string) (requestsPerMin : Z) (r : RateLimiter)
    : RateLimiter * bool :=
  if requestsPerMin <=? 0 then (r, true)
  else
    let cap := f_of_Z requestsPerMin in
    match r !! keyID with
    | None => (<[keyID := {| tokens := f_sub cap (f_of_Z 1); lastRefill := now |}]> r, true)
    | Some b =>
      let level := refill now cap b in
      if f_ltb level (f_of_Z 1) then
        (<[keyID := {| tokens := level; lastRefill := now |}]> r, false)
      else (<[keyID := {| tokens := f_sub level (f_of_Z 1); lastRefill := now |}]> r, true)
    end.

(** [(tokens, capacity, tracked)]. *)
Definition Tokens (now : Z) (keyID : string) (requestsPerMin : Z) (r : RateLimiter)
    : float64 * float64 * bool :=
  if requestsPerMin <=? 0 then (S754_zero false, S754_zero false, false)
  else
    let cap := f_of_Z requestsPerMin in
    match r !! keyID with
    | None => (cap, cap, true)
    | Some b => (refill now cap b, cap, true)
    end.

(** Requests of one key at the instants [times], one after another. *)
Fixpoint allows (times : list Z) (keyID : string) (rpm : Z) (r : RateLimiter)
    : list bool * RateLimiter :=
  match times with
  | [] => ([], r)
  | t :: times' =>
    let '(r1, ok) := Allow t keyID rpm r in
    let '(oks, r2) := allows times' keyID rpm r1 in
    (ok :: oks, r2)
  end.

(** ** The limiter and what it shows *)

(** An unlimited key is always allowed and never tracked; a limited one is allowed
    exactly when [Tokens], asked at the same instant, shows at least one token; and a
    request changes no other key's bucket. *)
Theorem Tokens_predicts_Allow now k rpm r :
  rpm < 2 ^ 53 →
  let '(level, cap, tracked) := Tokens now k rpm r in
  let '(r', ok) := Allow now k rpm r in
  tracked = negb (rpm <=? 0) ∧
  (rpm ≤ 0 → ok = true ∧ r' = r) ∧
  (0 < rpm → ok = negb (f_ltb level (f_of_Z 1)) ∧ cap = f_of_Z rpm ∧
    ∃ b, r' !! k = Some b ∧ lastRefill b = now ∧
      tokens b = if ok then f_sub level (f_of_Z 1) else level) ∧
  ∀ k', k' ≠ k → r' !! k' = r !! k'.
Proof.
  intros Hrpm. unfold Tokens, Allow. destruct (Z.leb_spec rpm 0) as [Hle|Hlt]; [split_and!; (done || lia)|].
  destruct (r !! k) as [b|].
  - destruct (f_ltb _ _); (split_and!; [done|lia| |intros; by rewrite lookup_insert_ne]); intros _;
      (split_and!; [done|done|eexists; split; [by rewrite lookup_insert_eq|done]]).
  - split_and!; [done|lia| |intros; by rewrite lookup_insert_ne]. intros _. split_and!.
    + assert (small rpm) by (unfold small; lia). rewrite !f_of_Z_int, f_ltb_int by (done || (unfold small; lia)).
      destruct (Z.ltb_spec rpm 1); [lia|done].
    + done.
    + eexists. by rewrite lookup_insert_eq.
Qed.

(** ** Bursts *)

Lemma Seconds_whole k : 0 ≤ k < 2 ^ 53 → Seconds (k * Nanos) = f_int k.
Proof.
  intros Hk. unfold Seconds. rewrite Z.quot_mul, Z.rem_mul by (unfold Nanos; lia).
  rewrite (f_of_Z_int k) by (unfold small; lia).
  change (f_div (f_of_Z 0) (f_of_Z Nanos)) with (f_int 0).
  rewrite f_add_int by (unfold small; lia). f_equal. lia.
Qed.

(** A bucket with [t] tokens, asked again at the instant of its last refill. *)
Lemma Allow_instant now k rpm t r :
  0 < rpm < 2 ^ 53 → 0 ≤ t ≤ rpm → r !! k = Some {| tokens := f_int t; lastRefill := now |} →
  Allow now k rpm r =
    (<[k := {| tokens := f_int (if 1 <=? t then t - 1 else t); lastRefill := now |}]> r, 1 <=? t).
Proof.
  intros Hrpm Ht Hk. unfold Allow. rewrite Hk. destruct (Z.leb_spec rpm 0); [lia|].
  assert (refill now (f_of_Z rpm) {| tokens := f_int t; lastRefill := now |} = f_int t) as ->.
  { unfold refill. simpl. replace (Sub now now) with (0 * Nanos) by (unfold Sub; lia).
    rewrite Seconds_whole, (f_of_Z_int rpm), (f_of_Z_int 60) by (unfold small; lia).
    rewrite (f_muladd_zero fused) by (apply f_div_moderate; unfold small; lia).
    rewrite f_min_int by (unfold small; lia). f_equal. lia. }
  rewrite f_of_Z_int, f_ltb_int by (unfold small; lia).
  destruct (Z.ltb_spec t 1), (Z.leb_spec 1 t); try lia; [done|].
  by rewrite f_sub_int by (unfold small; lia).
Qed.

Lemma burst_from now k rpm n t r :
  0 < rpm < 2 ^ 53 → 0 ≤ t ≤ rpm → r !! k = Some {| tokens := f_int t; lastRefill := now |} →
  fst (allows (replicate n now) k rpm r) =
    replicate (Nat.min n (Z.to_nat t)) true ++ replicate (n - Z.to_nat t) false.
Proof.
  intros Hrpm. revert t r. induction n as [|n IH]; intros t r Ht Hk; [done|]. simpl.
  rewrite (Allow_instant _ _ _ t) by done.
  destruct (allows _ _ _ _) as [oks r2] eqn:Hrest. simpl.
  assert (oks = fst (allows (replicate n now) k rpm (<[k := {| tokens := f_int (if 1 <=? t then t - 1 else t); lastRefill := now |}]> r)))
    as -> by (by rewrite Hrest).
  rewrite (IH (if 1 <=? t then t - 1 else t)) by (rewrite ?lookup_insert_eq; case_goal; (done || lia)).
  destruct (Z.leb_spec 1 t).
  - replace (Z.to_nat t) with (S (Z.to_nat (t - 1))) by lia. done.
  - replace (Z.to_nat t) with 0%nat by lia. rewrite Nat.min_0_r, Nat.sub_0_r. done.
Qed.

(** A new key may spend its whole budget at once and not one request more: of [n]
    requests at one instant exactly the first [rpm] are allowed, whatever [rpm] below
    2^53 and however the refill is rounded. *)
Theorem burst_is_the_budget now k rpm n r :
  0 < rpm < 2 ^ 53 → r !! k = None →
  fst (allows (replicate n now) k rpm r) =
    replicate (Nat.min n (Z.to_nat rpm)) true ++ replicate (n - Z.to_nat rpm) false.
Proof.
  intros Hrpm Hk. destruct n as [|n]; [done|]. simpl. unfold Allow at 1. rewrite Hk.
  destruct (Z.leb_spec rpm 0); [lia|]. rewrite !f_of_Z_int, f_sub_int by (unfold small; lia).
  destruct (allows _ _ _ _) as [oks r2] eqn:Hrest. simpl.
  pose proof (burst_from now k rpm n (rpm - 1) (<[k := {| tokens := f_int (rpm - 1); lastRefill := now |}]> r)
    ltac:(lia) ltac:(lia)) as Hb.
  rewrite Hrest, lookup_insert_eq in Hb. simpl in Hb. rewrite Hb by done.
  replace (Z.to_nat rpm) with (S (Z.to_nat (rpm - 1))) by lia. done.
Qed.

(** ** Sustained traffic

    With a budget of [60 * r] requests a minute and clock readings on whole seconds
    every number the limiter computes is an integer, and it is an integer token
    bucket that gains [r] tokens a second. *)

Record Bucket := { level : Z; last : Z }.

(** One request to the integer bucket, [cap] tokens large. *)
Definition take (r cap now : Z) (b : Bucket) : bool * Bucket :=
  let l := Z.min cap (level b + (now - last b) * r) in
  if l <? 1 then (false, {| level := l; last := now |})
  else (true, {| level := l - 1; last := now |}).

Fixpoint takes (r cap : Z) (times : list Z) (b : Bucket) : list bool :=
  match times with
  | [] => []
  | t :: times' => let '(ok, b') := take r cap t b in ok :: takes r cap times' b'
  end.

(** The floats are exact as long as a bucket is not left alone for more than 2^33
    seconds or until more than 2^52 tokens would have accrued. *)
Definition soon (r t0 t : Z) : Prop := t0 ≤ t ∧ t - t0 < 2 ^ 33 ∧ (t - t0) * r < 2 ^ 52.

(** [times], in seconds, do not run backward from [t0]. *)
Fixpoint paced (r t0 : Z) (times : list Z) : Prop :=
  match times with
  | [] => True
  | t :: times' => soon r t0 t ∧ paced r t times'
  end.

Definition float_bucket (b : Bucket) : bucket :=
  {| tokens := f_int (level b); lastRefill := last b * Nanos |}.

Lemma refill_whole r now b :
  0 < r → 60 * r < 2 ^ 52 → 0 ≤ level b ≤ 60 * r → soon r (last b) now →
  refill (now * Nanos) (f_of_Z (60 * r)) (float_bucket b) =
    f_int (Z.min (60 * r) (level b + (now - last b) * r)).
Proof.
  unfold soon. intros Hr Hcap Hl (Hn & Hs & Hh).
  assert (0 ≤ (now - last b) * r) by (apply Z.mul_nonneg_nonneg; lia).
  unfold refill. simpl.
  replace (Sub (now * Nanos) (last b * Nanos)) with ((now - last b) * Nanos) by (unfold Sub, Nanos; lia).
  rewrite Seconds_whole, (f_of_Z_int (60 * r)), (f_of_Z_int 60) by (unfold small; lia).
  rewrite (Z.mul_comm 60 r), f_div_int by (unfold small; lia).
  rewrite f_muladd_int, f_min_int by (unfold small; lia). f_equal. lia.
Qed.

Lemma Allow_take r now k b m :
  0 < r → 60 * r < 2 ^ 52 → 0 ≤ level b ≤ 60 * r → soon r (last b) now →
  m !! k = Some (float_bucket b) →
  let '(ok, b') := take r (60 * r) now b in
  Allow (now * Nanos) k (60 * r) m = (<[k := float_bucket b']> m, ok) ∧
  0 ≤ level b' ≤ 60 * r ∧ last b' = now.
Proof.
  intros Hr Hcap Hl Hs Hk. unfold take, Allow. rewrite Hk.
  destruct (Z.leb_spec (60 * r) 0); [lia|]. rewrite (refill_whole r now b) by done.
  assert (0 ≤ (now - last b) * r) by (apply Z.mul_nonneg_nonneg; unfold soon in Hs; lia).
  set (l := Z.min (60 * r) (level b + (now - last b) * r)).
  assert (0 ≤ l ≤ 60 * r) by (unfold l; lia). clearbody l.
  rewrite (f_of_Z_int 1), f_ltb_int by (unfold small; lia).
  destruct (Z.ltb_spec l 1); [by split|]. rewrite f_sub_int by (unfold small; lia).
  split; [done|]. simpl. lia.
Qed.

Lemma bucket_run r k m t times :
  0 < r → 60 * r < 2 ^ 52 → m !! k = None → paced r t times →
  fst (allows ((λ s, s * Nanos) <$> t :: times) k (60 * r) m) =
    takes r (60 * r) (t :: times) {| level := 60 * r; last := t |}.
Proof.
  intros Hr Hcap Hk Hp.
  assert (∀ times b m, 0 ≤ level b ≤ 60 * r → paced r (last b) times → m !! k = Some (float_bucket b) →
    fst (allows ((λ s, s * Nanos) <$> times) k (60 * r) m) = takes r (60 * r) times b) as Hrun.
  { clear -Hr Hcap. intros times. induction times as [|s times IH]; intros b m Hl Hp Hk; [done|].
    destruct Hp as [Hs Hp]. pose proof (Allow_take r s k b m Hr Hcap Hl Hs Hk) as Ht.
    cbn [allows takes fmap list_fmap]. destruct (take _ _ _ _) as [ok b'].
    destruct Ht as (-> & Hl' & Hlast). subst s.
    specialize (IH b' (<[k := float_bucket b']> m) Hl' Hp ltac:(by rewrite lookup_insert_eq)).
    destruct (allows _ _ _ _) as [oks m2]. simpl in *. by f_equal. }
  cbn [allows takes fmap list_fmap]. unfold Allow at 1, take at 1. rewrite Hk.
  destruct (Z.leb_spec (60 * r) 0); [lia|]. cbn [level last]. rewrite Z.sub_diag, Z.add_0_r, Z.min_id.
  destruct (Z.ltb_spec (60 * r) 1); [lia|].
  rewrite (f_of_Z_int (60 * r)), (f_of_Z_int 1), f_sub_int by (unfold small; lia).
  specialize (Hrun times {| level := 60 * r - 1; last := t |} (<[k := float_bucket {| level := 60 * r - 1; last := t |}]> m)
    ltac:(simpl; lia) Hp ltac:(by rewrite lookup_insert_eq)).
  unfold float_bucket in Hrun. cbn [level last] in Hrun.
  destruct (allows _ _ _ _) as [oks m2]. simpl in *. by f_equal.
Qed.

(** With a budget of [60 * r] a minute and requests on whole seconds the limiter is an
    integer token bucket: it answers exactly as the integer bucket does that holds at
    most [60 * r] tokens, starts full and gains [r] a second. *)
Theorem limiter_refines_bucket r k m t times :
  0 < r → 60 * r < 2 ^ 52 → m !! k = None → paced r t times →
  fst (allows ((λ s, s * Nanos) <$> t :: times) k (60 * r) m) =
    takes r (60 * r) (t :: times) {| level := 60 * r; last := t |}.
Proof. apply bucket_run. Qed.

(** *** Counting *)

Definition allowed (oks : list bool) : Z := Z.of_nat (length (filter (λ b : bool, b) oks)).

(** The last of [times], [t0] when there is none. *)
Fixpoint finish (t0 : Z) (times : list Z) : Z :=
  match times with
  | [] => t0
  | t :: times' => finish t times'
  end.

Lemma allowed_cons ok oks : allowed (ok :: oks) = (if ok then 1 else 0) + allowed oks.
Proof. unfold allowed. rewrite filter_cons. destruct ok; simpl; lia. Qed.

End limiter.

(** *** Witnesses *)

Lemma Tokens_predicts_Allow_witness :
  snd (Allow false 0 "k" 0 ∅) = true ∧
  snd (Allow false 0 "k" 60 ∅) = negb (f_ltb (fst (fst (Tokens false 0 "k" 60 ∅))) (f_of_Z 1)).
Proof.
  pose proof (Tokens_predicts_Allow false 0 "k" 0 ∅ ltac:(lia)) as H0.
  pose proof (Tokens_predicts_Allow false 0 "k" 60 ∅ ltac:(lia)) as H60.
  destruct (Tokens false 0 "k" 0 ∅) as [[l c] tr]. destruct (Allow false 0 "k" 0 ∅) as [r ok].
  destruct (Tokens false 0 "k" 60 ∅) as [[l' c'] tr']. destruct (Allow false 0 "k" 60 ∅) as [r' ok'].
  destruct H0 as (_ & H0 & _). destruct H60 as (_ & _ & H60 & _).
  split; [apply H0; lia|apply H60; lia].
Defined.

Lemma burst_is_the_budget_witness :
  fst (allows true (replicate 5 7) "k" 3 ∅) = [true; true; true; false; false].
Proof. apply (burst_is_the_budget true 7 "k" 3 5 ∅); [lia|apply lookup_empty]. Defined.

Lemma limiter_refines_bucket_witness :
  fst (allows true ((λ s, s * Nanos) <$> [10; 10; 11; 70]) "k" (60 * 1) ∅) =
    takes 1 60 [10; 10; 11; 70] {| level := 60; last := 10 |}.
Proof.
  apply (limiter_refines_bucket true 1 "k" ∅ 10 [10; 11; 70]); [lia|lia|apply lookup_empty|].
  unfold paced, soon. lia.
Defined.
