(* ===== verification/LimiterRate.v ===== *)
(** * The rate limiter on any clock

    The token bucket of Auth with arbitrary budgets and clock readings, where the floats do
    round: the level stays a number between zero and the budget, and the requests allowed
    in a window are what the budget and the elapsed time allow, exactly. *)

From Stdlib Require Import Reals Lra.
From S2P Require Import Prelude GoFloat FloatExact FloatError Auth.
Open Scope Z_scope.
#[local] Arguments IZR : simpl never.

(** ** One refill *)

Lemma Seconds_near d :
  0 ≤ d < 2 ^ 62 →
  ∃ v, fin (Seconds d) v ∧
    (Rabs (v - IZR d / IZR Nanos) <= IZR d / IZR Nanos * bpow (-51) + 4 * bpow (-1075))%R.
Proof.
  intros Hd. unfold Seconds.
  pose proof (Z.quot_rem' d Nanos) as Hqr. pose proof (Z.rem_bound_pos d Nanos ltac:(lia) ltac:(done)) as Hr.
  assert (0 ≤ Z.quot d Nanos < 2 ^ 53) as Hq.
  { split; [apply Z.quot_pos; [lia|done]|]. apply Z.quot_lt_upper_bound; unfold Nanos; lia. }
  set (q := Z.quot d Nanos) in *. set (r := Z.rem d Nanos) in *.
  assert (0 < IZR Nanos)%R as HN by (apply IZR_lt; done).
  assert (IZR d / IZR Nanos = IZR q + IZR r / IZR Nanos)%R as ->.
  { rewrite Hqr, plus_IZR, mult_IZR. field. lra. }
  assert (0 <= IZR q)%R as Hq0 by (apply IZR_le; lia).
  assert (0 <= IZR r / IZR Nanos < 1)%R as Hr0.
  { assert (0 <= IZR r)%R by (apply IZR_le; lia). assert (IZR r < IZR Nanos)%R by (apply IZR_lt; lia).
    split; [apply Rle_mult_inv_pos; lra|]. apply Rmult_lt_reg_r with (IZR Nanos); [done|]. field_simplify; lra. }
  assert (IZR q < bpow 53)%R as Hq1 by (rewrite bpow_IZR by lia; apply IZR_lt; lia).
  assert (bpow 53 <= bpow 998)%R as Hp by (apply bpow_le; lia).
  assert (bpow 1000 = 4 * bpow 998)%R as H1000 by (replace 1000 with (2 + 998) by lia; rewrite bpow_add, (bpow_IZR 2) by lia; done).
  assert (8 < bpow 998)%R by (rewrite bpow_IZR by lia; apply IZR_lt; lia).
  assert (bpow (-51) = 4 / 9007199254740992)%R as H51 by (unfold bpow; simpl; lra).
  pose proof (eta_tiny 0 ltac:(lia)) as Heta. rewrite bpow_0, Rmult_1_r in Heta.
  assert (bpow (-75) <= bpow (-1))%R by (apply bpow_le; lia). assert (bpow (-1) = / 2)%R by (unfold bpow; simpl; lra).
  pose proof (bpow_pos (-1075)) as Heta0.
  destruct (f_div_near (f_of_Z r) (f_of_Z Nanos) (IZR r) (IZR Nanos)) as (vd & Hvd & Hnd);
    [apply f_of_Z_fin; unfold Nanos in *; lia|apply f_of_Z_fin; done|done|lra|].
  unfold near in Hnd. rewrite u_value in Hnd. apply Rabs_within in Hnd.
  destruct (f_add_near (f_of_Z q) _ (IZR q) vd (f_of_Z_fin q Hq) Hvd) as (v & Hv & Hn); [lra|].
  unfold near in Hn. rewrite u_value in Hn. apply Rabs_within in Hn.
  exists v. split; [done|]. rewrite H51. apply Rabs_le. lra.
Qed.

Section rate.
Context (fused : bool) (rpm : Z).
Hypothesis Hrpm : 0 < rpm < 2 ^ 53.

(** The level of a bucket: a number between zero and the budget. *)
Definition filled (b : bucket) (t : R) : Prop := fin (tokens b) t ∧ (t <= IZR rpm)%R.

(** What [d] nanoseconds earn, at [rpm] tokens a minute. *)
Definition earned (d : Z) : R := (IZR d / IZR Nanos * (IZR rpm / 60))%R.

Lemma budget_bounds : (1 <= IZR rpm < bpow 53)%R.
Proof. split; [apply IZR_le; lia|rewrite bpow_IZR by lia; apply IZR_lt; lia]. Qed.

Lemma earned_nonneg d : 0 ≤ d → (0 <= earned d)%R.
Proof.
  intros Hd%IZR_le. pose proof budget_bounds. assert (0 < IZR Nanos)%R by (apply IZR_lt; done).
  unfold earned. apply Rmult_le_pos; [apply Rle_mult_inv_pos; lra|lra].
Qed.

(** The product of the two rounded factors. *)
Lemma product_bound d ve vr :
  0 ≤ d < 2 ^ 62 → (0 <= ve)%R → (0 <= vr)%R →
  (Rabs (ve - IZR d / IZR Nanos) <= IZR d / IZR Nanos * bpow (-51) + 4 * bpow (-1075))%R →
  near (IZR rpm / 60) vr →
  (ve * vr <= earned d * (1 + 6 / 9007199254740992) + bpow (-60))%R ∧ (ve * vr < bpow 200)%R.
Proof.
  intros Hd Hve0 Hvr0 Hve Hvr. unfold earned. pose proof budget_bounds as [HP1 HP2].
  unfold near in Hvr. rewrite u_value in Hvr. apply Rabs_within in Hve, Hvr.
  assert (bpow (-51) = 4 / 9007199254740992)%R as H51 by (unfold bpow; simpl; lra). rewrite H51 in Hve.
  pose proof (bpow_pos (-1075)) as Heta0. set (eta := bpow (-1075)) in *.
  assert (0 < IZR Nanos)%R as HN by (apply IZR_lt; done).
  assert (0 <= IZR d / IZR Nanos)%R as HD0 by (apply Rle_mult_inv_pos; [apply IZR_le; lia|done]).
  assert (IZR d / IZR Nanos <= bpow 62)%R as HD1.
  { rewrite bpow_IZR by lia. apply Rmult_le_reg_r with (IZR Nanos); [done|].
    replace (IZR d / IZR Nanos * IZR Nanos)%R with (IZR d) by (field; lra).
    rewrite <- mult_IZR. apply IZR_le. unfold Nanos. lia. }
  set (D := (IZR d / IZR Nanos)%R) in *. set (Q := (IZR rpm / 60)%R) in *.
  assert (0 <= Q <= bpow 53)%R as HQ by (unfold Q; lra).
  assert (D * eta <= bpow (-75))%R as HDe.
  { eapply Rle_trans; [apply Rmult_le_compat_r; [lra|exact HD1]|]. rewrite Rmult_comm. apply eta_tiny. lia. }
  assert (Q * eta <= bpow (-75))%R as HQe.
  { eapply Rle_trans; [apply Rmult_le_compat_r; [lra|apply HQ]|]. rewrite Rmult_comm. apply eta_tiny. lia. }
  assert (eta * eta <= bpow (-75))%R as Hee.
  { unfold eta. rewrite <- bpow_add. apply bpow_le. lia. }
  assert (bpow (-75) = / 32768 * bpow (-60))%R as H75.
  { replace (-75) with (-15 + -60) by lia. rewrite bpow_add. f_equal. unfold bpow. simpl. lra. }
  pose proof (bpow_pos (-60)). assert (0 <= D * Q)%R by (apply Rmult_le_pos; lra).
  assert (ve * vr <= (D * (1 + 4 / 9007199254740992) + 4 * eta) * (Q * (1 + 1 / 9007199254740992) + eta))%R as Hup
    by (apply Rmult_le_compat; lra).
  assert (ve * vr <= D * Q * (1 + 6 / 9007199254740992) + bpow (-60))%R as Hmain by lra.
  split; [done|]. eapply Rle_lt_trans; [exact Hmain|].
  assert (D * Q <= bpow 115)%R.
  { replace 115 with (62 + 53) by lia. rewrite bpow_add. apply Rmult_le_compat; lra. }
  assert (bpow 200 = bpow 85 * bpow 115)%R as H200 by (rewrite <- bpow_add; done).
  assert (4 < bpow 85)%R by (rewrite bpow_IZR by lia; apply IZR_lt; lia).
  assert (bpow (-60) <= bpow 115)%R by (apply bpow_le; lia). pose proof (bpow_pos 115). nra.
Qed.

Lemma refill_near now b t :
  filled b t → 0 ≤ now - lastRefill b < 2 ^ 62 →
  ∃ l, fin (refill fused now (f_of_Z rpm) b) l ∧ (l <= IZR rpm)%R ∧
    (l <= t + earned (now - lastRefill b) * (1 + bpow (-49)) + IZR rpm * bpow (-50))%R.
Proof.
  intros [Ht Htr] Hd. pose proof budget_bounds as [HP1 HP2]. unfold refill.
  replace (Sub now (lastRefill b)) with (now - lastRefill b) by (unfold Sub; lia).
  set (d := now - lastRefill b) in *. pose proof (earned_nonneg d ltac:(lia)) as HX.
  destruct (Seconds_near d Hd) as (ve & Hve & Hne).
  assert (bpow 53 <= bpow 998)%R by (apply bpow_le; lia).
  assert (bpow 200 <= bpow 998)%R by (apply bpow_le; lia).
  assert (bpow 1000 = 4 * bpow 998)%R by (replace 1000 with (2 + 998) by lia; rewrite bpow_add, (bpow_IZR 2) by lia; done).
  assert (bpow 999 = 2 * bpow 998)%R by (replace 999 with (1 + 998) by lia; rewrite bpow_add, bpow_1; done).
  destruct (f_div_near (f_of_Z rpm) (f_of_Z 60) (IZR rpm) 60) as (vr & Hvr & Hnr);
    [apply f_of_Z_fin; lia|apply (f_of_Z_fin 60); lia|lra|lra|].
  destruct (product_bound d ve vr Hd (fin_nonneg _ _ Hve) (fin_nonneg _ _ Hvr) Hne Hnr) as [Hp1 Hp2].
  destruct (f_muladd_near fused _ _ _ _ _ _ Hve Hvr Ht) as (v & Hv & Hn); [lra|].
  exists (Rmin (IZR rpm) v). split; [apply f_min_fin; [apply f_of_Z_fin; lia|done]|].
  split; [apply Rmin_l|]. eapply Rle_trans; [apply Rmin_r|]. apply Rabs_within in Hn as [_ Hn].
  assert (bpow (-51) = 4 / 9007199254740992)%R as H51 by (unfold bpow; simpl; lra).
  assert (bpow (-50) = 8 / 9007199254740992)%R as H50 by (unfold bpow; simpl; lra).
  assert (bpow (-49) = 16 / 9007199254740992)%R as H49 by (unfold bpow; simpl; lra).
  assert (bpow (-60) = 1 / 1152921504606846976)%R as H60 by (unfold bpow; simpl; lra).
  pose proof (eta_tiny 0 ltac:(lia)) as Heta. rewrite bpow_0, Rmult_1_r in Heta.
  assert (bpow (-75) <= bpow (-60))%R by (apply bpow_le; lia).
  rewrite H51 in Hn. rewrite H49, H50. rewrite H60 in *. lra.
Qed.

(** ** Runs *)

Definition spent (ok : bool) : R := if ok then 1%R else 0%R.

(** Rounding error of one request, in tokens. *)
Definition slack : R := (IZR rpm * bpow (-49))%R.

Lemma take_token l lv :
  fin l lv → (1 <= lv <= IZR rpm)%R →
  ∃ t, fin (f_sub l (f_of_Z 1)) t ∧ (t <= IZR rpm)%R ∧ (t + 1 <= lv + IZR rpm * bpow (-50))%R.
Proof.
  intros Hl [H1 H2]. pose proof budget_bounds as [HP1 HP2].
  assert (bpow 53 <= bpow 999)%R by (apply bpow_le; lia).
  assert (bpow 999 < bpow 1000)%R.
  { replace 1000 with (1 + 999) by lia. rewrite bpow_add, bpow_1. pose proof (bpow_pos 999). lra. }
  destruct (f_sub_near l (f_of_Z 1) lv 1 Hl (f_of_Z_fin 1 ltac:(lia))) as (t & Ht & Hn); [lra|].
  exists t. split; [done|]. unfold near in Hn. rewrite u_value in Hn. apply Rabs_within in Hn.
  assert (bpow (-50) = 8 / 9007199254740992)%R as -> by (unfold bpow; simpl; lra).
  assert (bpow 53 = 9007199254740992)%R as H53 by (by rewrite bpow_IZR by lia).
  assert (IZR rpm <= 9007199254740991)%R by (apply IZR_le; lia).
  pose proof (eta_tiny 0 ltac:(lia)) as Heta. rewrite bpow_0, Rmult_1_r in Heta.
  assert (bpow (-75) <= bpow (-60))%R by (apply bpow_le; lia).
  assert (bpow (-60) = 1 / 1152921504606846976)%R by (unfold bpow; simpl; lra). lra.
Qed.

Lemma Allow_step now k b t m :
  m !! k = Some b → filled b t → 0 ≤ now - lastRefill b < 2 ^ 62 →
  let '(m', ok) := Allow fused now k rpm m in
  ∃ b' t', m' !! k = Some b' ∧ filled b' t' ∧ lastRefill b' = now ∧
    (t' + spent ok <= IZR rpm + slack)%R ∧
    (t' + spent ok <= t + earned (now - lastRefill b) * (1 + bpow (-49)) + slack)%R.
Proof.
  intros Hk Hb Hd. unfold Allow. rewrite Hk. destruct (Z.leb_spec rpm 0); [lia|].
  destruct (refill_near now b t Hb Hd) as (l & Hl & Hl1 & Hl2). pose proof budget_bounds as [HP1 HP2].
  assert (slack = 2 * (IZR rpm * bpow (-50)))%R as Hs.
  { unfold slack. replace (-49) with (1 + -50) by lia. rewrite bpow_add, bpow_1. lra. }
  assert (0 < IZR rpm * bpow (-50))%R as Hpos by (apply Rmult_lt_0_compat; [lra|apply bpow_pos]).
  destruct (f_ltb (refill fused now (f_of_Z rpm) b) (f_of_Z 1)) eqn:Hlt.
  - exists {| tokens := refill fused now (f_of_Z rpm) b; lastRefill := now |}, l.
    rewrite lookup_insert_eq. split_and!; [done|by split|done|cbn [spent]; lra|cbn [spent]; lra].
  - apply not_true_iff_false in Hlt. rewrite (f_ltb_fin _ _ l 1 Hl (f_of_Z_fin 1 ltac:(lia))) in Hlt.
    destruct (take_token _ l Hl) as (t' & Ht' & Ht1 & Ht2); [lra|].
    exists {| tokens := f_sub (refill fused now (f_of_Z rpm) b) (f_of_Z 1); lastRefill := now |}, t'.
    rewrite lookup_insert_eq. split_and!; [done|by split|done|cbn [spent]; lra|cbn [spent]; lra].
Qed.

(** The clock does not run backward, and no two requests are a century apart. *)
Fixpoint ticking (t0 : Z) (times : list Z) : Prop :=
  match times with
  | [] => True
  | t :: times' => 0 ≤ t - t0 < 2 ^ 62 ∧ ticking t times'
  end.

Definition in_order (times : list Z) : Prop :=
  match times with [] => True | t :: times' => ticking t times' end.

Lemma earned_add a b : earned (a + b) = (earned a + earned b)%R.
Proof. unfold earned. rewrite plus_IZR. unfold Rdiv. lra. Qed.

Lemma finish_ge t0 times : ticking t0 times → t0 ≤ finish t0 times.
Proof. revert t0. induction times as [|t times IH]; intros t0; simpl; [lia|]. intros [Ht H%IH]. lia. Qed.

(** What a run of requests takes from a bucket. *)
Lemma allows_rate k times b t m :
  m !! k = Some b → filled b t → ticking (lastRefill b) times →
  let '(oks, m') := allows fused times k rpm m in
  ∃ b' t', m' !! k = Some b' ∧ filled b' t' ∧ lastRefill b' = finish (lastRefill b) times ∧
    (t' + IZR (allowed oks) <= t + earned (finish (lastRefill b) times - lastRefill b) * (1 + bpow (-49))
       + IZR (Z.of_nat (length times)) * slack)%R.
Proof.
  revert b t m. induction times as [|now times IH]; intros b t m Hk Hb Hord.
  - exists b, t. split_and!; [done..|]. cbn [finish length]. rewrite Z.sub_diag.
    change (allowed []) with 0. change (Z.of_nat 0) with 0. unfold earned. change (IZR 0) with 0%R.
    unfold Rdiv. rewrite !Rmult_0_l. lra.
  - destruct Hord as [Hd Hord]. cbn [allows]. pose proof (Allow_step now k b t m Hk Hb Hd) as Hstep.
    destruct (Allow fused now k rpm m) as [m1 ok]. destruct Hstep as (b1 & t1 & Hk1 & Hb1 & Hl1 & _ & Ht1).
    rewrite <- Hl1 in Hord. specialize (IH b1 t1 m1 Hk1 Hb1 Hord).
    destruct (allows fused times k rpm m1) as [oks m2]. destruct IH as (b2 & t2 & Hk2 & Hb2 & Hl2 & Ht2).
    exists b2, t2. cbn [finish]. rewrite Hl1 in *. split_and!; [done..|].
    replace (finish now times - lastRefill b) with ((finish now times - now) + (now - lastRefill b)) by lia.
    rewrite earned_add, allowed_cons, plus_IZR. cbn [length]. rewrite Nat2Z.inj_succ, succ_IZR.
    unfold spent in Ht1. destruct ok; lra.
Qed.

Lemma allows_app l1 l2 k m :
  fst (allows fused (l1 ++ l2) k rpm m) =
    fst (allows fused l1 k rpm m) ++ fst (allows fused l2 k rpm (snd (allows fused l1 k rpm m))).
Proof.
  revert m. induction l1 as [|t l1 IH]; intros m; [done|]. cbn [allows app].
  destruct (Allow fused t k rpm m) as [m1 ok]. specialize (IH m1).
  destruct (allows fused (l1 ++ l2) k rpm m1) as [oks m2], (allows fused l1 k rpm m1) as [oks1 m3].
  simpl in *. by rewrite IH.
Qed.

Lemma length_allows l k m : length (fst (allows fused l k rpm m)) = length l.
Proof.
  revert m. induction l as [|t l IH]; intros m; [done|]. cbn [allows].
  destruct (Allow fused t k rpm m) as [m1 ok]. specialize (IH m1).
  destruct (allows fused l k rpm m1). simpl in *. by rewrite IH.
Qed.

Lemma ticking_app t0 l1 l2 : ticking t0 (l1 ++ l2) ↔ ticking t0 l1 ∧ ticking (finish t0 l1) l2.
Proof. revert t0. induction l1 as [|t l1 IH]; intros t0; simpl; [tauto|]. rewrite IH. tauto. Qed.

(** What the limiter keeps of a key: nothing yet, or a level up to the budget. *)
Definition tracked (k : string) (last : Z) (m : RateLimiter) : Prop :=
  match m !! k with
  | None => True
  | Some b => (∃ t, filled b t) ∧ lastRefill b = last
  end.

(** A request at [now], the first of its key or a later one: what is left and what it took are
    together no more than the budget. *)
Lemma Allow_window now last k m :
  tracked k last m → 0 ≤ now - last < 2 ^ 62 →
  let '(m', ok) := Allow fused now k rpm m in
  ∃ b t, m' !! k = Some b ∧ filled b t ∧ lastRefill b = now ∧ (t + spent ok <= IZR rpm + slack)%R.
Proof.
  unfold tracked. intros Hm Hd. destruct (m !! k) as [b|] eqn:Hk.
  - destruct Hm as [[t Hb] <-]. pose proof (Allow_step now k b t m Hk Hb Hd) as Hs.
    destruct (Allow fused now k rpm m) as [m' ok]. destruct Hs as (b' & t' & ? & ? & ? & ? & _). by exists b', t'.
  - unfold Allow. rewrite Hk. destruct (Z.leb_spec rpm 0); [lia|]. pose proof budget_bounds as [HP1 HP2].
    destruct (take_token (f_of_Z rpm) (IZR rpm) (f_of_Z_fin rpm ltac:(lia))) as (t & Ht & Ht1 & Ht2); [lra|].
    exists {| tokens := f_sub (f_of_Z rpm) (f_of_Z 1); lastRefill := now |}, t.
    rewrite lookup_insert_eq. split_and!; [done|by split|done|]. cbn [spent].
    assert (slack = 2 * (IZR rpm * bpow (-50)))%R as ->.
    { unfold slack. replace (-49) with (1 + -50) by lia. rewrite bpow_add, bpow_1. lra. }
    assert (0 < IZR rpm * bpow (-50))%R by (apply Rmult_lt_0_compat; [lra|apply bpow_pos]). lra.
Qed.

Lemma allows_tracked k times last m :
  tracked k last m → ticking last times →
  tracked k (finish last times) (snd (allows fused times k rpm m)).
Proof.
  revert last m. induction times as [|now times IH]; intros last m Hm Hord; [done|]. destruct Hord as [Hd Hord].
  cbn [allows finish]. pose proof (Allow_window now last k m Hm Hd) as Hw.
  destruct (Allow fused now k rpm m) as [m1 ok]. destruct Hw as (b & t & Hk & Hb & Hl & _).
  assert (tracked k now m1) as Hm1 by (unfold tracked; rewrite Hk; eauto).
  specialize (IH now m1 Hm1 Hord). by destruct (allows fused times k rpm m1).
Qed.

(** The rounding errors of a window and the window itself, as fractions of a token. *)
Lemma window_errors n span :
  (n * IZR rpm <= IZR (2 ^ 47))%R → (IZR rpm * IZR span <= IZR (2 ^ 47) * (60 * IZR Nanos))%R →
  (n * slack <= / 4 ∧ earned span * bpow (-49) <= / 4)%R.
Proof.
  intros Hn Hspan.
  assert (bpow (-49) = / 4 * / IZR (2 ^ 47))%R as H49.
  { rewrite <- (bpow_IZR 47) by lia. assert (bpow 47 * bpow (-49) = /4)%R as E by (rewrite <- bpow_add; unfold bpow; simpl; lra).
    rewrite <- E. field. pose proof (bpow_pos 47). lra. }
  assert (0 < IZR (2 ^ 47))%R as H47 by (apply IZR_lt; lia).
  assert (0 < IZR Nanos)%R as HN by (apply IZR_lt; done).
  set (K := IZR (2 ^ 47)) in *. clearbody K. unfold slack, earned. rewrite H49. split.
  - apply Rmult_le_reg_r with K; [done|].
    replace (n * (IZR rpm * (/ 4 * / K)) * K)%R with (n * IZR rpm * / 4)%R by (field; lra). lra.
  - apply Rmult_le_reg_r with (K * (60 * IZR Nanos))%R; [nra|].
    replace (IZR span / IZR Nanos * (IZR rpm / 60) * (/ 4 * / K) * (K * (60 * IZR Nanos)))%R
      with (IZR rpm * IZR span * / 4)%R by (field; lra). lra.
Qed.

(** C17: The budget is a rate limit on every window: whatever requests of a key came before, if
    any, of those made from instant [w] to the end of the window (in nanoseconds, on a clock
    that does not run backward) fewer are allowed than the budget, plus what the rate of
    [rpm] a minute earns in the window, plus one.  The window may begin with the key's first
    request.  The refill may be fused or not, and its rounding errors never add up to a whole
    request as long as the window has at most 2^47 / [rpm] requests and earns at most 2^47
    tokens. *)
Theorem limiter_rate k m before w window :
  m !! k = None → in_order (before ++ w :: window) →
  Z.of_nat (length (w :: window)) * rpm ≤ 2 ^ 47 → rpm * (finish w window - w) ≤ 2 ^ 47 * (60 * Nanos) →
  let oks := fst (allows fused (before ++ w :: window) k rpm m) in
  60 * Nanos * allowed (drop (length before) oks) <
    60 * Nanos * (rpm + 1) + rpm * (finish w window - w).
Proof.
  intros Hk Hord Hn Hspan oks.
  assert (∃ last, tracked k last (snd (allows fused before k rpm m)) ∧ 0 ≤ w - last < 2 ^ 62 ∧ ticking w window)
    as (last & Hm & Hw & Hwindow).
  { destruct before as [|t before]; cbn [app in_order] in Hord.
    - exists w. split_and!; [|lia..|done]. unfold tracked. simpl. by rewrite Hk.
    - apply ticking_app in Hord as [Hbefore [Hw Hwindow]]. exists (finish t before). split_and!; [|lia..|done].
      apply (allows_tracked k (t :: before) t); [unfold tracked; by rewrite Hk|by split; [lia|]]. }
  unfold oks. rewrite allows_app, <- (length_allows before k m), drop_app_length.
  set (m2 := snd (allows fused before k rpm m)) in *. cbn [allows].
  pose proof (Allow_window w last k m2 Hm Hw) as Hs.
  destruct (Allow fused w k rpm m2) as [m3 ok]. destruct Hs as (b3 & t3 & Hk3 & Hb3 & Hl3 & Ht3).
  rewrite <- Hl3 in Hwindow. pose proof (allows_rate k window b3 t3 m3 Hk3 Hb3 Hwindow) as Hr.
  destruct (allows fused window k rpm m3) as [oks2 m4]. destruct Hr as (b4 & t4 & _ & [Hb4 _] & _ & Ht4).
  cbn [fst]. rewrite Hl3 in *. pose proof (fin_nonneg _ _ Hb4) as Ht40. rewrite allowed_cons.
  set (a := allowed oks2) in *. set (span := finish w window - w) in *. cbn [length] in Hn.
  set (n := Z.of_nat (length window)) in *. rewrite Nat2Z.inj_succ in Hn. fold n in Hn.
  apply IZR_le in Hn, Hspan. rewrite !mult_IZR, succ_IZR in Hn. rewrite !mult_IZR in Hspan.
  destruct (window_errors (IZR n + 1) span Hn Hspan) as [Hsl He].
  apply lt_IZR. rewrite !plus_IZR, !mult_IZR, !plus_IZR. replace (IZR (if ok then 1 else 0)) with (spent ok) by by destruct ok.
  assert (0 < IZR Nanos)%R as HN by (apply IZR_lt; done).
  assert (IZR rpm * IZR span = 60 * IZR Nanos * earned span)%R as -> by (unfold earned; field; lra).
  assert (spent ok + IZR a < IZR rpm + 1 + earned span)%R; [lra|nra].
Qed.

End rate.

(** *** Witness *)

Lemma limiter_rate_witness :
  let oks := fst (allows true ([] ++ 1 :: [3; 90000000000]) "k" 7 ∅) in
  60 * Nanos * allowed (drop 0 oks) < 60 * Nanos * (7 + 1) + 7 * (90000000000 - 1).
Proof.
  apply (limiter_rate true 7 ltac:(lia) "k" ∅ [] 1 [3; 90000000000]);
    [apply lookup_empty|simpl; lia|simpl; lia|unfold Nanos; simpl; lia].
Defined.
