(* ===== verification/Dispatcher.v ===== *)
(** * The dispatcher (request-plane/dispatcher/dispatcher.go)

    Forwarding one request with retries and fallback models, buffered and
    streaming.  What the upstream router answers to a call is an argument; the
    operations return the calls made, in order, and what the gateway is sent. *)

From S2P Require Import Prelude GoStrings GoHttp GoJson GoUnmarshal Queue.
Open Scope Z_scope.

(** ** The request body *)

(** [inl] an error, [inr] the new body. *)
Definition setModel `{JsonError} (body model : string) : res (string + string) :=
  match unmarshal_fields body with
  | None => Ok (inl ("unmarshal request body: " +:+ json_error body))
  | Some None => Panic NilMapWrite
  | Some (Some fields) => Ok (inr (marshal_fields (<["model" := marshal_string model]> fields)))
  end.

(** ** Configuration *)

Record Dispatcher := {
  upstream : string;
  concurrency : Z;
  maxAttempts : Z;
  fallbacks : gmap string (list string);
}.

Inductive DispatcherOption :=
  | WithMaxAttempts (n : Z)
  | WithFallbacks (m : gmap string (list string)).

Definition apply_dispatcher_option (d : Dispatcher) (o : DispatcherOption) : Dispatcher :=
  match o with
  | WithMaxAttempts n =>
    {| upstream := upstream d; concurrency := concurrency d;
       maxAttempts := if n <? 1 then 1 else n; fallbacks := fallbacks d |}
  | WithFallbacks m =>
    {| upstream := upstream d; concurrency := concurrency d;
       maxAttempts := maxAttempts d; fallbacks := m |}
  end.

Definition NewDispatcher (upstream : string) (concurrency : Z) (opts : list DispatcherOption) : Dispatcher :=
  foldl apply_dispatcher_option
    {| upstream := upstream; concurrency := concurrency; maxAttempts := 1; fallbacks := ∅ |} opts.

(** ** Calls to the upstream *)

(** The request could not be built, the upstream could not be reached, or it
    answered; the body arrives in [pieces], one per read, and may break off. *)
Inductive Upstream :=
  | NoRequest (err : string)
  | NoConnection (err : string)
  | Answer (status : Z) (ctype : string) (pieces : list string) (broken : option string).

Record Call := {
  call_url : string;
  call_body : string;
}.

(** The path is fixed, whichever endpoint the client used. *)
Definition buildRequest (upstream body : string) : Call :=
  {| call_url := upstream +:+ "/v1/chat/completions"; call_body := body |}.

Definition isRetryableStatus (code : Z) : bool :=
  (code =? StatusServiceUnavailable) || (code =? StatusBadGateway).

Definition error_result (err model : string) : Result :=
  {| StatusCode := 0; ResBody := ""; Err := Some err; ServedModel := model; Streaming := false;
     ContentType := "" |}.

Definition answer_result (status : Z) (body model : string) : Result :=
  {| StatusCode := status; ResBody := body; Err := None; ServedModel := model; Streaming := false;
     ContentType := "" |}.

(** [io.ReadAll]. *)
Definition read_all (pieces : list string) : string := foldr String.append "" pieces.

(** The zero [Result]. *)
Definition no_result : Result := answer_result 0 "" "".

Section dispatch.
Context `{JsonError} `{FmtQuote} (d : Dispatcher).

(** What comes back for the [k]-th call of this request. *)
Context (ask : nat → Call → Upstream).

(** ** Buffered requests *)

Definition attempt (k : nat) (body model : string) : Result * bool :=
  match ask k (buildRequest (upstream d) body) with
  | NoRequest err => (error_result ("build upstream request: " +:+ err) model, false)
  | NoConnection err => (error_result ("upstream unreachable: " +:+ err) model, true)
  | Answer status _ pieces (Some err) =>
    (error_result ("read upstream response: " +:+ err) model, false)
  | Answer status _ pieces None =>
    (answer_result status (read_all pieces) model, isRetryableStatus status)
  end.

(** The inner loop from call [k] on, [n] attempts left: the calls made, [inl] the
    result that ends the dispatch or [inr] the last one. *)
Fixpoint buffered_attempts (n k : nat) (body model : string) (final : Result)
    : list Call * (Result + Result) :=
  match n with
  | O => ([], inr final)
  | S n' =>
    let '(result, retryable) := attempt k body model in
    let call := buildRequest (upstream d) body in
    if retryable then
      let '(calls, r) := buffered_attempts n' (S k) body model result in (call :: calls, r)
    else ([call], inl result)
  end.

(** The loop over the chain. *)
Fixpoint buffered_chain (req : Request) (chain : list string) (k : nat) (final : Result)
    : list Call * res Result :=
  match chain with
  | [] => ([], Ok final)
  | model :: chain' =>
    let rewritten := if decide (model = ReqModel req) then Ok (inr (Body req))
                     else setModel (Body req) model in
    match rewritten with
    | Panic p => ([], Panic p)
    | Ok (inl err) => buffered_chain req chain' k
        (error_result ("rewrite model for fallback " +:+ quote model +:+ ": " +:+ err) "")
    | Ok (inr body) =>
      match buffered_attempts (Z.to_nat (maxAttempts d)) k body model final with
      | (calls, inl result) => (calls, Ok result)
      | (calls, inr result) =>
        let '(calls', r) := buffered_chain req chain' (k + length calls) result in
        (calls ++ calls', r)
      end
    end
  end.

Definition chain_of (req : Request) : list string :=
  ReqModel req :: default [] (fallbacks d !! ReqModel req).

(** The calls made and the one [Result] sent on [ResultCh]. *)
Definition dispatchBuffered (req : Request) : list Call * res Result :=
  buffered_chain req (chain_of req) 0 no_result.

(** ** Streaming requests *)

(** A result sent on [ResultCh] and the chunks sent on [Chunks] before it is closed. *)
Record StreamOut := {
  so_result : Result;
  so_chunks : list string;
}.

(** [streamBody]: one chunk per read that returned bytes. *)
Definition streamBody (pieces : list string) : list string := filter (λ s, s ≠ "") pieces.

Definition commit_result (status : Z) (model ctype : string) : Result :=
  {| StatusCode := status; ResBody := ""; Err := None; ServedModel := model; Streaming := true;
     ContentType := ctype |}.

Fixpoint stream_attempts (n k : nat) (body model : string) (final : Result)
    : list Call * (StreamOut + Result) :=
  match n with
  | O => ([], inr final)
  | S n' =>
    let call := buildRequest (upstream d) body in
    let again result :=
      let '(calls, r) := stream_attempts n' (S k) body model result in (call :: calls, r) in
    match ask k call with
    | NoRequest err => again (error_result ("build upstream request: " +:+ err) model)
    | NoConnection err => again (error_result ("upstream unreachable: " +:+ err) model)
    | Answer status ctype pieces _ =>
      if isRetryableStatus status then again (answer_result status (read_all pieces) model)
      else ([call], inl {| so_result := commit_result status model ctype; so_chunks := streamBody pieces |})
    end
  end.

Fixpoint stream_chain (req : Request) (chain : list string) (k : nat) (final : Result)
    : list Call * res StreamOut :=
  match chain with
  | [] => ([], Ok {| so_result := final; so_chunks := [] |})
  | model :: chain' =>
    let rewritten := if decide (model = ReqModel req) then Ok (inr (Body req))
                     else setModel (Body req) model in
    match rewritten with
    | Panic p => ([], Panic p)
    | Ok (inl err) => stream_chain req chain' k
        (error_result ("rewrite model for fallback " +:+ quote model +:+ ": " +:+ err) "")
    | Ok (inr body) =>
      match stream_attempts (Z.to_nat (maxAttempts d)) k body model final with
      | (calls, inl out) => (calls, Ok out)
      | (calls, inr result) =>
        let '(calls', r) := stream_chain req chain' (k + length calls) result in
        (calls ++ calls', r)
      end
    end
  end.

Definition dispatchStream (req : Request) : list Call * res StreamOut :=
  stream_chain req (chain_of req) 0 no_result.

(** ** The plan

    Both dispatchers walk one flat list: every model of the chain, each as often as
    there are attempts. *)

Inductive Step :=
  | Send (model body : string)
  | Skip (model err : string).

Definition steps_for (req : Request) (model : string) : res (list Step) :=
  let send body := replicate (Z.to_nat (maxAttempts d)) (Send model body) in
  if decide (model = ReqModel req) then Ok (send (Body req))
  else match setModel (Body req) model with
  | Panic p => Panic p
  | Ok (inl err) => Ok [Skip model err]
  | Ok (inr body) => Ok (send body)
  end.

Fixpoint plan_of (req : Request) (chain : list string) : res (list Step) :=
  match chain with
  | [] => Ok []
  | model :: chain' =>
    (l ←! steps_for req model; l' ←! plan_of req chain'; Ok (l ++ l'))%go
  end.

Definition plan (req : Request) : res (list Step) := plan_of req (chain_of req).

(** How a dispatcher reads the upstream's answers: which it tries again after, what it
    reports of one, what it makes of a decisive one, and of a result left when the plan is
    at its end. *)
Record Reading (R : Type) := {
  transient : Upstream → bool;
  report : Upstream → string → Result;
  commit : Upstream → string → R;
  exhausted : Result → R;
}.
Arguments transient {R}.
Arguments report {R}.
Arguments commit {R}.
Arguments exhausted {R}.

(** 502 and 503. *)
Definition no_worker (status : Z) : bool := bool_decide (status = 502 ∨ status = 503).

Definition report_buffered (u : Upstream) (model : string) : Result :=
  match u with
  | NoRequest err => error_result ("build upstream request: " +:+ err) model
  | NoConnection err => error_result ("upstream unreachable: " +:+ err) model
  | Answer _ _ _ (Some err) => error_result ("read upstream response: " +:+ err) model
  | Answer status _ pieces None => answer_result status (read_all pieces) model
  end.

(** A buffered request is tried again when the upstream cannot be reached or has no worker. *)
Definition buffered : Reading Result :=
  {| transient u := match u with
       | NoConnection _ => true
       | Answer status _ _ None => no_worker status
       | _ => false
       end;
     report := report_buffered; commit := report_buffered; exhausted x := x |}.

(** A streaming one also when the request cannot be built or the 502's body breaks off. *)
Definition streaming : Reading StreamOut :=
  {| transient u := match u with Answer status _ _ _ => no_worker status | _ => true end;
     report u model := match u with
       | Answer status _ pieces _ => answer_result status (read_all pieces) model
       | _ => report_buffered u model
       end;
     commit u model := match u with
       | Answer status ctype pieces _ =>
         {| so_result := commit_result status model ctype; so_chunks := streamBody pieces |}
       | _ => {| so_result := report_buffered u model; so_chunks := [] |}
       end;
     exhausted x := {| so_result := x; so_chunks := [] |} |}.

(** The part of a walk over an initial stretch of the plan. *)
Definition stretch {R} (v : Reading R) : Reading (R + Result) :=
  {| transient := transient v; report := report v; commit u model := inl (commit v u model);
     exhausted := inr |}.

Definition skip_result (model err : string) : Result :=
  error_result ("rewrite model for fallback " +:+ quote model +:+ ": " +:+ err) "".

Fixpoint walk {R} (v : Reading R) (steps : list Step) (k : nat) (final : Result) : list Call * R :=
  match steps with
  | [] => ([], exhausted v final)
  | Skip model err :: steps' => walk v steps' k (skip_result model err)
  | Send model body :: steps' =>
    let call := buildRequest (upstream d) body in
    let u := ask k call in
    if transient v u then
      let '(calls, r) := walk v steps' (S k) (report v u model) in (call :: calls, r)
    else ([call], commit v u model)
  end.

(** *** The dispatchers walk the plan *)

Lemma isRetryableStatus_no_worker status : isRetryableStatus status = no_worker status.
Proof.
  unfold isRetryableStatus, no_worker, StatusServiceUnavailable, StatusBadGateway.
  apply eq_true_iff_eq. rewrite orb_true_iff, !Z.eqb_eq, bool_decide_eq_true. tauto.
Qed.

Lemma attempt_reading k body model :
  let u := ask k (buildRequest (upstream d) body) in
  attempt k body model = (report_buffered u model, transient buffered u).
Proof.
  unfold attempt. simpl. destruct (ask k _) as [err|err|status ctype pieces [err|]]; simpl; try done.
  by rewrite isRetryableStatus_no_worker.
Qed.

Lemma walk_app {R} (v : Reading R) l1 l2 k final :
  walk v (l1 ++ l2) k final =
    match walk (stretch v) l1 k final with
    | (calls, inl r) => (calls, r)
    | (calls, inr x) => let '(calls', r) := walk v l2 (k + length calls) x in (calls ++ calls', r)
    end.
Proof.
  revert k final. induction l1 as [|[m b|m err] l1 IH]; intros k final; simpl.
  - rewrite Nat.add_0_r. by destruct (walk _ _ _ _).
  - destruct (transient v _); [|done]. rewrite IH.
    destruct (walk (stretch v) l1 _ _) as [calls [r|y]]; [done|]. simpl. rewrite Nat.add_succ_r. simpl.
    by destruct (walk v _ _ _).
  - apply IH.
Qed.

Lemma walk_replicate_buffered n k body model final :
  walk (stretch buffered) (replicate n (Send model body)) k final = buffered_attempts n k body model final.
Proof.
  revert k final. induction n as [|n IH]; intros k final; [done|]. cbn [buffered_attempts].
  rewrite attempt_reading. simpl. rewrite IH. by destruct (ask k _) as [| |? ? ? []].
Qed.

Lemma walk_replicate_stream n k body model final :
  walk (stretch streaming) (replicate n (Send model body)) k final = stream_attempts n k body model final.
Proof.
  revert k final. induction n as [|n IH]; intros k final; simpl; [done|].
  destruct (ask k _) as [err|err|status ctype pieces broken]; rewrite IH; [done..|].
  by rewrite isRetryableStatus_no_worker.
Qed.

Lemma buffered_chain_walk req chain k final steps :
  plan_of req chain = Ok steps →
  buffered_chain req chain k final =
    (λ '(calls, r), (calls, Ok r)) (walk buffered steps k final).
Proof.
  revert k final steps. induction chain as [|model chain IH]; intros k final steps; simpl; [by intros [= <-]|].
  unfold steps_for. destruct (decide (model = ReqModel req)) as [Hm|Hm].
  2: destruct (setModel (Body req) model) as [[err|body]|p]; [..|done].
  2: { simpl. destruct (plan_of req chain) as [l'|p]; [|done]. intros [= <-]. exact (IH _ _ l' eq_refl). }
  all: simpl; destruct (plan_of req chain) as [l'|p]; [|done]; intros [= <-];
    rewrite walk_app, walk_replicate_buffered;
    destruct (buffered_attempts _ _ _ _ _) as [calls [r|x]]; [done|];
    rewrite (IH _ _ l' eq_refl); by destruct (walk _ _ _ _).
Qed.

Lemma stream_chain_walk req chain k final steps :
  plan_of req chain = Ok steps →
  stream_chain req chain k final =
    (λ '(calls, r), (calls, Ok r)) (walk streaming steps k final).
Proof.
  revert k final steps. induction chain as [|model chain IH]; intros k final steps; simpl; [by intros [= <-]|].
  unfold steps_for. destruct (decide (model = ReqModel req)) as [Hm|Hm].
  2: destruct (setModel (Body req) model) as [[err|body]|p]; [..|done].
  2: { simpl. destruct (plan_of req chain) as [l'|p]; [|done]. intros [= <-]. exact (IH _ _ l' eq_refl). }
  all: simpl; destruct (plan_of req chain) as [l'|p]; [|done]; intros [= <-];
    rewrite walk_app, walk_replicate_stream;
    destruct (stream_attempts _ _ _ _ _) as [calls [r|x]]; [done|];
    rewrite (IH _ _ l' eq_refl); by destruct (walk _ _ _ _).
Qed.

Lemma read_streamBody pieces : read_all (streamBody pieces) = read_all pieces.
Proof.
  unfold read_all, streamBody. induction pieces as [|p ps IH]; [done|]. rewrite filter_cons.
  destruct (decide (p ≠ "")) as [Hp|Hp]; simpl; rewrite IH; [done|].
  by destruct p; [|destruct Hp].
Qed.

(** *** What a walk does *)

Definition as_send (s : Step) : option (string * string) :=
  match s with Send model body => Some (model, body) | Skip _ _ => None end.

Definition send_call (s : string * string) : Call := buildRequest (upstream d) (snd s).

(** The answers to the first [m] sends, from call [k] on, were all transient. *)
Definition undecided {R} (v : Reading R) (k : nat) (sends : list (string * string)) (m : nat) : Prop :=
  ∀ j s, (j < m)%nat → sends !! j = Some s → transient v (ask (k + j)%nat (send_call s)) = true.

Lemma undecided_cons {R} (v : Reading R) k s sends m :
  transient v (ask k (send_call s)) = true → undecided v (S k) sends m → undecided v k (s :: sends) (S m).
Proof.
  intros Hs Hu [|j] s' Hlt Hj.
  - injection Hj as <-. by rewrite Nat.add_0_r.
  - rewrite Nat.add_succ_r. apply (Hu j); [by apply Nat.succ_lt_mono|done].
Qed.

(** What the last step leaves when no answer was decisive. *)
Definition left_over {R} (v : Reading R) (steps : list Step) (k : nat) (final : Result) : Result :=
  match last steps with
  | None => final
  | Some (Skip model err) => skip_result model err
  | Some (Send model body) =>
    report v (ask (k + pred (length (omap as_send steps)))%nat (send_call (model, body))) model
  end.

Lemma left_over_send {R} (v : Reading R) steps k model body final :
  left_over v (Send model body :: steps) k final =
    left_over v steps (S k) (report v (ask k (send_call (model, body))) model).
Proof.
  unfold left_over. rewrite last_cons. destruct (last steps) as [[m b|m err]|] eqn:Hl; [|done|].
  - apply last_Some in Hl as [l' ->].
    assert (length (omap as_send (l' ++ [Send m b])) = S (length (omap as_send l'))) as Hlen
      by (rewrite omap_app, length_app; apply Nat.add_1_r).
    cbn [omap list_omap as_send length pred]. rewrite Hlen. simpl. by rewrite Nat.add_succ_r.
  - apply last_None in Hl as ->. simpl. by rewrite Nat.add_0_r.
Qed.

Lemma left_over_skip {R} (v : Reading R) steps k model err final :
  left_over v (Skip model err :: steps) k final = left_over v steps k (skip_result model err).
Proof. unfold left_over. rewrite last_cons. by destruct (last steps) as [[]|]. Qed.

Lemma walk_spec {R} (v : Reading R) steps k final :
  let sends := omap as_send steps in
  let '(calls, r) := walk v steps k final in
  (∃ n s, sends !! n = Some s ∧ undecided v k sends n ∧
    transient v (ask (k + n)%nat (send_call s)) = false ∧
    r = commit v (ask (k + n)%nat (send_call s)) (fst s) ∧ calls = send_call <$> take (S n) sends) ∨
  (undecided v k sends (length sends) ∧ r = exhausted v (left_over v steps k final) ∧
    calls = send_call <$> sends).
Proof.
  revert k final. induction steps as [|[model body|model err] steps IH]; intros k final; simpl.
  - right. split_and!; [|done|done]. intros j m Hj. lia.
  - destruct (transient v _) eqn:Ht.
    + rewrite left_over_send. specialize (IH (S k) (report v (ask k (send_call (model, body))) model)).
      change (buildRequest (upstream d) body) with (send_call (model, body)).
      destruct (walk v steps (S k) _) as [calls r].
      destruct IH as [(n & s & Hn & Hu & Hd & Hr & ->)|(Hu & -> & ->)].
      * left. exists (S n), s. rewrite Nat.add_succ_r.
        split_and!; [done|by apply undecided_cons|done|done|done].
      * right. split_and!; [by apply undecided_cons|done|done].
    + left. exists 0%nat, (model, body). rewrite Nat.add_0_r. split_and!; [done|intros j ??; lia|done|done|done].
  - rewrite left_over_skip. apply IH.
Qed.

Lemma plan_sends req chain steps :
  plan_of req chain = Ok steps →
  (length (omap as_send steps) ≤ length chain * Z.to_nat (maxAttempts d))%nat ∧
  ∀ model body, (model, body) ∈ omap as_send steps → model ∈ chain ∧
    (if decide (model = ReqModel req) then body = Body req else setModel (Body req) model = Ok (inr body)).
Proof.
  revert steps. induction chain as [|model chain IH]; intros steps; simpl.
  { intros [= <-]. split; [done|]. intros ?? ?%not_elem_of_nil. done. }
  destruct (steps_for req model) as [l|p] eqn:Hl; [|done]. simpl.
  destruct (plan_of req chain) as [l'|p]; [|done]. intros [= <-].
  destruct (IH l' eq_refl) as [IHlen IHin]. rewrite omap_app, length_app.
  assert (∀ n m b, omap as_send (replicate n (Send m b)) = replicate n (m, b)) as Hrep.
  { intros n m b. induction n as [|n IHn]; [done|]. exact (f_equal (cons _) IHn). }
  assert ((length (omap as_send l) ≤ Z.to_nat (maxAttempts d))%nat ∧
    ∀ m b, (m, b) ∈ omap as_send l → m = model ∧
      (if decide (model = ReqModel req) then b = Body req else setModel (Body req) model = Ok (inr b)))
    as [Hlen Hin].
  { unfold steps_for in Hl. destruct (decide (model = ReqModel req)).
    - injection Hl as <-. rewrite Hrep, length_replicate. split; [done|].
      intros m b Hmb%elem_of_replicate_inv. simplify_eq. eauto.
    - destruct (setModel (Body req) model) as [[err|body]|p]; [| |done]; injection Hl as <-.
      + simpl. split; [lia|]. intros ?? ?%not_elem_of_nil. done.
      + rewrite Hrep, length_replicate. split; [done|].
        intros m b Hmb%elem_of_replicate_inv. simplify_eq. eauto. }
  split; [lia|]. intros m b [[-> Hb]%Hin|[? Hb]%IHin]%elem_of_app; (split; [|done]); [by left|by right].
Qed.

(** The body is the text of a JSON object: [setModel] neither fails nor panics on it. *)
Definition object_body (req : Request) : Prop :=
  ∃ fields, unmarshal_fields (Body req) = Some (Some fields).

Lemma plan_total req chain : object_body req → ∃ steps, plan_of req chain = Ok steps.
Proof.
  intros [fields Hf]. induction chain as [|model chain [steps IH]]; [by eexists|]. simpl.
  unfold steps_for. case_decide; simpl; rewrite ?IH; [by eexists|].
  unfold setModel. rewrite Hf. simpl. by eexists.
Qed.

Lemma dispatchBuffered_total req : object_body req → ∃ calls r, dispatchBuffered req = (calls, Ok r).
Proof.
  intros [steps Hp]%(fun h => plan_total req (chain_of req) h). unfold dispatchBuffered.
  rewrite (buffered_chain_walk _ _ _ _ _ Hp). destruct (walk _ _ _ _) as [calls r]. by exists calls, r.
Qed.

Lemma dispatchStream_total req : object_body req → ∃ calls out, dispatchStream req = (calls, Ok out).
Proof.
  intros [steps Hp]%(fun h => plan_total req (chain_of req) h). unfold dispatchStream.
  rewrite (stream_chain_walk _ _ _ _ _ Hp). destruct (walk _ _ _ _) as [calls r]. by exists calls, r.
Qed.

(** Chunks follow only a streaming result. *)
Lemma stream_uncommitted req calls out :
  object_body req → dispatchStream req = (calls, Ok out) → Streaming (so_result out) = false →
  so_chunks out = [].
Proof.
  intros [steps Hp]%(fun h => plan_total req (chain_of req) h). unfold dispatchStream.
  rewrite (stream_chain_walk _ _ _ _ _ Hp). pose proof (walk_spec streaming steps 0 no_result) as Hw.
  cbv zeta in Hw. destruct (walk _ _ _ _) as [calls' r]. intros [= <- <-].
  destruct Hw as [(n & s & _ & _ & _ & -> & _)|(_ & -> & _)]; [|done].
  simpl. by destruct (ask n _).
Qed.

(** A result that announces a stream is no error, and a buffered request has none. *)
Lemma stream_committed req calls out :
  object_body req → dispatchStream req = (calls, Ok out) → Streaming (so_result out) = true →
  Err (so_result out) = None.
Proof.
  intros [steps Hp]%(fun h => plan_total req (chain_of req) h). unfold dispatchStream.
  rewrite (stream_chain_walk _ _ _ _ _ Hp). pose proof (walk_spec streaming steps 0 no_result) as Hw.
  cbv zeta in Hw. destruct (walk _ _ _ _) as [calls' r]. intros [= <- <-].
  destruct Hw as [(n & s & _ & _ & _ & -> & _)|(_ & -> & _)]; simpl.
  - by destruct (ask n _).
  - unfold left_over. destruct (last steps) as [[]|]; try done. simpl. by destruct (ask _ _).
Qed.

Lemma buffered_plain req calls r :
  object_body req → dispatchBuffered req = (calls, Ok r) → Streaming r = false.
Proof.
  intros [steps Hp]%(fun h => plan_total req (chain_of req) h). unfold dispatchBuffered.
  rewrite (buffered_chain_walk _ _ _ _ _ Hp). pose proof (walk_spec buffered steps 0 no_result) as Hw.
  cbv zeta in Hw. destruct (walk _ _ _ _) as [calls' r']. intros [= <- <-].
  destruct Hw as [(n & s & _ & _ & _ & -> & _)|(_ & -> & _)]; simpl.
  - by destruct (ask n _) as [| |? ? ? []].
  - unfold left_over. destruct (last steps) as [[]|]; try done. simpl. by destruct (ask _ _) as [| |? ? ? []].
Qed.

(** C15: A buffered request makes the calls of its plan - each model of its chain, the
    requested one first, [maxAttempts] times - up to the first whose answer is decisive,
    that is neither an unreachable upstream nor a complete 502 or 503.  The one result it
    sends reports that answer, and no call follows it; when every answer is transient, the
    result is what the last step left.  So the calls number at most [maxAttempts] for each
    model of the chain; those for the requested model carry the client's body as it came,
    those for a fallback what [setModel] makes of it. *)
Theorem dispatchBuffered_outcome req steps :
  plan req = Ok steps →
  let sends := omap as_send steps in
  ∃ calls r, dispatchBuffered req = (calls, Ok r) ∧
  ((∃ n s, sends !! n = Some s ∧ undecided buffered 0 sends n ∧
      transient buffered (ask n (send_call s)) = false ∧
      r = report_buffered (ask n (send_call s)) (fst s) ∧ calls = send_call <$> take (S n) sends) ∨
   (undecided buffered 0 sends (length sends) ∧ r = left_over buffered steps 0 no_result ∧
      calls = send_call <$> sends)) ∧
  (length sends ≤ length (chain_of req) * Z.to_nat (maxAttempts d))%nat ∧
  ∀ model body, (model, body) ∈ sends → model ∈ chain_of req ∧
    (if decide (model = ReqModel req) then body = Body req else setModel (Body req) model = Ok (inr body)).
Proof.
  intros Hp sends. destruct (plan_sends _ _ _ Hp) as [Hlen Hin].
  unfold dispatchBuffered. rewrite (buffered_chain_walk _ _ _ _ _ Hp).
  pose proof (walk_spec buffered steps 0 no_result) as Hw. cbv zeta in Hw.
  destruct (walk _ steps 0 no_result) as [calls r]. exists calls, r. by split_and!.
Qed.

(** A streaming request walks the same plan and sends one result too: it commits to
    the first answer whose status is neither 502 nor 503, with a streaming result followed
    by the bytes of the upstream's body in order, and makes no call after that; when no
    answer is decisive it sends what the last step left and no byte. *)
Theorem dispatchStream_outcome req steps :
  plan req = Ok steps →
  let sends := omap as_send steps in
  ∃ calls out, dispatchStream req = (calls, Ok out) ∧
  ((∃ n s status ctype pieces broken, sends !! n = Some s ∧ undecided streaming 0 sends n ∧
      ask n (send_call s) = Answer status ctype pieces broken ∧ no_worker status = false ∧
      so_result out = commit_result status (fst s) ctype ∧
      read_all (so_chunks out) = read_all pieces ∧ calls = send_call <$> take (S n) sends) ∨
   (undecided streaming 0 sends (length sends) ∧
      so_result out = left_over streaming steps 0 no_result ∧ so_chunks out = [] ∧
      calls = send_call <$> sends)) ∧
  (length sends ≤ length (chain_of req) * Z.to_nat (maxAttempts d))%nat.
Proof.
  intros Hp sends. destruct (plan_sends _ _ _ Hp) as [Hlen _].
  unfold dispatchStream. rewrite (stream_chain_walk _ _ _ _ _ Hp).
  pose proof (walk_spec streaming steps 0 no_result) as Hw. cbv zeta in Hw.
  destruct (walk _ steps 0 no_result) as [calls out]. exists calls, out. split_and!; [done| |done].
  destruct Hw as [(n & s & Hn & Hu & Hd & -> & Hc)|(Hu & -> & Hc)]; [left|by right].
  simpl in *. destruct (ask n (send_call s)) as [err|err|status ctype pieces broken] eqn:Ha; [done..|].
  exists n, s, status, ctype, pieces, broken. split_and!; try done. apply read_streamBody.
Qed.

End dispatch.

(** ** The chunk channel

    The dispatcher sends the chunks into a channel of sixteen, closes it and goes on to
    the next request; the gateway's handler receives until the channel is closed, or
    has already answered 504 and receives nothing. *)

Definition chunk_capacity : nat := 16.

Record StreamSys := {
  to_send : list string;
  in_channel : list string;
  closed : bool;
  reading : bool;
  got : list string;
}.

Definition stream_start (chunks : list string) (reader : bool) : StreamSys :=
  {| to_send := chunks; in_channel := []; closed := false; reading := reader; got := [] |}.

Inductive stream_step (s : StreamSys) : StreamSys → Prop :=
  | st_send c rest :
      to_send s = c :: rest → (length (in_channel s) < chunk_capacity)%nat →
      stream_step s {| to_send := rest; in_channel := in_channel s ++ [c]; closed := closed s;
                       reading := reading s; got := got s |}
  | st_close :
      to_send s = [] → closed s = false →
      stream_step s {| to_send := []; in_channel := in_channel s; closed := true;
                       reading := reading s; got := got s |}
  | st_receive c rest :
      reading s = true → in_channel s = c :: rest →
      stream_step s {| to_send := to_send s; in_channel := rest; closed := closed s;
                       reading := true; got := got s ++ [c] |}
  | st_end :
      reading s = true → in_channel s = [] → closed s = true →
      stream_step s {| to_send := to_send s; in_channel := []; closed := true;
                       reading := false; got := got s |}.

(** What the two sides still have to do. *)
Definition work_left (s : StreamSys) : nat :=
  2 * length (to_send s) + length (in_channel s) + (if closed s then 0 else 1) +
  (if reading s then 1 else 0).

Lemma stream_step_work s s' : stream_step s s' → work_left s = S (work_left s').
Proof.
  destruct s as [ts ic [] [] g]; destruct 1; unfold work_left; simpl in *; simplify_eq/=;
    rewrite ?length_app; simpl; lia.
Qed.

(** A run in which the gateway reads. *)
Definition flowing (chunks : list string) (s : StreamSys) : Prop :=
  got s ++ in_channel s ++ to_send s = chunks ∧
  (closed s = true → to_send s = []) ∧ (reading s = false → closed s = true ∧ in_channel s = []).

Lemma stream_step_flowing chunks s s' : stream_step s s' → flowing chunks s → flowing chunks s'.
Proof.
  destruct s as [ts ic cl rd g]. intros Hs (Hg & Hc & Hr). simpl in *.
  destruct Hs as [c rest Ht Hlen|Ht Hcl|c rest Hrd Hic|Hrd Hic Hcl]; unfold flowing; simpl in *; subst;
    (split_and!; [by rewrite <- ?app_assoc in *|..]); try done.
  - by intros ?%Hc.
  - intros [Hcl _]%Hr. by specialize (Hc Hcl).
  - by intros [? ->]%Hr.
Qed.

(** A stream whose client is still there is delivered whole: the gateway's handler and
    the dispatcher together take at most [2 n + 2] steps for [n] chunks, cannot get
    stuck before both are done, and then the client has received exactly the chunks, in
    order. *)
Theorem stream_delivered chunks n s :
  nsteps stream_step n (stream_start chunks true) s →
  (n ≤ 2 * length chunks + 2)%nat ∧
  ((∃ s', stream_step s s') ∨ closed s = true ∧ reading s = false ∧ got s = chunks).
Proof.
  intros Hn. split.
  - assert (work_left (stream_start chunks true) = n + work_left s)%nat as Hw.
    { clear -Hn. remember (stream_start chunks true) as s0 eqn:E. clear E.
      induction Hn as [|n s0 s1 s2 Hs _ IH]; [done|]. rewrite (stream_step_work _ _ Hs), IH. lia. }
    unfold work_left at 1 in Hw. simpl in Hw. lia.
  - assert (flowing chunks s) as (Hg & Hc & Hr).
    { eapply (invariant_rtc stream_step (flowing chunks)); [intros ??; apply stream_step_flowing| |].
      - by eapply rtc_nsteps_2.
      - by split_and!. }
    destruct s as [ts ic cl rd g]. simpl in *. destruct rd.
    + left. destruct ic as [|c ic]; [|eexists; by eapply st_receive].
      destruct cl; [eexists; by apply st_end|].
      destruct ts as [|c ts]; [eexists; by apply st_close|].
      eexists. eapply st_send; [done|]. simpl. unfold chunk_capacity. lia.
    + destruct Hr as [-> ->]; [done|]. right. rewrite Hc in Hg by done.
      by rewrite !app_nil_r in Hg.
Qed.

(** A stream nobody reads, once more than sixteen chunks are to be sent, never gets to
    the end of them. *)
Lemma abandoned_stream chunks s :
  (chunk_capacity < length chunks)%nat →
  rtc stream_step (stream_start chunks false) s →
  to_send s ≠ [] ∧ closed s = false ∧ reading s = false ∧ got s = [].
Proof.
  intros Hlen Hr.
  assert (reading s = false ∧ closed s = false ∧ got s = [] ∧ in_channel s ++ to_send s = chunks ∧
    (length (in_channel s) ≤ chunk_capacity)%nat) as (Hrd & Hc & Hg & Happ & Hcap).
  { eapply (invariant_rtc stream_step (λ s, reading s = false ∧ closed s = false ∧ got s = [] ∧
      in_channel s ++ to_send s = chunks ∧ (length (in_channel s) ≤ chunk_capacity)%nat)); [|exact Hr|].
    - intros s0 s1 Hs (Hrd & Hcl & Hgot & Happ & Hcap).
      destruct Hs as [c rest Ht Hl|Ht Hcl'|c rest Hrd' Hic|Hrd' Hic Hcl']; simpl; try congruence.
      + rewrite Ht in Happ. rewrite <- app_assoc, length_app. simpl. split_and!; try done. lia.
      + exfalso. rewrite Ht, app_nil_r in Happ. subst chunks. lia.
    - simpl. split_and!; try done. lia. }
  split_and!; [|done..]. intros Hnil. rewrite Hnil, app_nil_r in Happ. subst chunks. lia.
Qed.

(** *** Witnesses *)

Definition demo_error : JsonError := λ _, "invalid character".

Definition demo_dispatcher : Dispatcher :=
  NewDispatcher "http://localhost:8080" 1
    [WithMaxAttempts 2; WithFallbacks {["llama3" := ["mistral"]]}].

Definition demo_body : string := object_text [("model", marshal_string "llama3"); ("stream", JBool true)].

Definition demo_buffered : Request :=
  {| ID := "req-1"; Body := demo_body; ReqModel := "llama3"; Priority := PriorityNormal;
     EnqueuedAt := 0; KeyID := ""; Stream := false |}.

(** The requested model has no worker; the fallback answers. *)
Definition demo_ask (k : nat) (c : Call) : Upstream :=
  if decide (k < 2)%nat then Answer 503 "text/plain" ["no healthy workers"] None
  else Answer 200 "application/json" ["{}"] None.

Lemma dispatchBuffered_outcome_witness :
  ∃ steps r, @plan demo_error demo_dispatcher demo_buffered = Ok steps ∧
    length (omap as_send steps) = 4%nat ∧
    snd (@dispatchBuffered demo_error (λ s, s) demo_dispatcher demo_ask demo_buffered) = Ok r.
Proof.
  destruct (@plan demo_error demo_dispatcher demo_buffered) as [steps|p] eqn:Hp;
    [|vm_compute in Hp; discriminate Hp].
  destruct (@dispatchBuffered_outcome demo_error (λ s, s) demo_dispatcher demo_ask demo_buffered steps Hp)
    as (calls & r & Hr & _).
  exists steps, r. split; [reflexivity|]. split; [vm_compute in Hp; by injection Hp as <-|].
  by rewrite Hr.
Defined.

Lemma dispatchStream_outcome_witness :
  ∃ steps out, @plan demo_error demo_dispatcher demo_buffered = Ok steps ∧
    snd (@dispatchStream demo_error (λ s, s) demo_dispatcher demo_ask demo_buffered) = Ok out.
Proof.
  destruct (@plan demo_error demo_dispatcher demo_buffered) as [steps|p] eqn:Hp;
    [|vm_compute in Hp; discriminate Hp].
  destruct (@dispatchStream_outcome demo_error (λ s, s) demo_dispatcher demo_ask demo_buffered steps Hp)
    as (calls & out & Hr & _).
  exists steps, out. split; [reflexivity|]. by rewrite Hr.
Defined.

Lemma stream_delivered_witness :
  ∃ s, nsteps stream_step 4 (stream_start ["data"] true) s ∧ got s = ["data"] ∧
    (4 ≤ 2 * length ["data"] + 2)%nat.
Proof.
  eexists. assert (nsteps stream_step 4 (stream_start ["data"] true)
    {| to_send := []; in_channel := []; closed := true; reading := false; got := ["data"] |}) as Hn.
  { eapply nsteps_l; [eapply st_send; [reflexivity|simpl; unfold chunk_capacity; lia]|].
    eapply nsteps_l; [eapply st_receive; reflexivity|].
    eapply nsteps_l; [eapply st_close; reflexivity|].
    eapply nsteps_l; [eapply st_end; reflexivity|]. apply nsteps_O. }
  split; [exact Hn|]. split; [reflexivity|]. apply (stream_delivered ["data"] 4 _ Hn).
Defined.
