(* ===== verification/Slo.v ===== *)
(** * Wait estimates and admission (request-plane/slo, request-plane/backpressure)

    The latency tracker, the wait estimator and the admission policy.  A
    [time.Duration] is an integer number of nanoseconds. *)

From S2P Require Import Prelude GoFloat FloatExact Queue.
Open Scope Z_scope.

(** What the target does with a conversion of a float out of the integers' range,
    and which product of a sum of two products it fuses with the addition. *)
Variant Fusing := NoFusing | FuseFirst | FuseSecond.

Record Target := {
  out_of_range : float64 → Z;
  fusing : Fusing;
}.

(** [x*y + z*w]. *)
Definition sum_of_products (t : Target) (x y z w : float64) : float64 :=
  match fusing t with
  | NoFusing => f_add (f_mul x y) (f_mul z w)
  | FuseFirst => f_fma x y (f_mul z w)
  | FuseSecond => f_fma z w (f_mul x y)
  end.

(** [time.Duration(x)]. *)
Definition Duration (t : Target) (x : float64) : Z := f_to_int64 (out_of_range t) x.

(** ** slo/tracker.go *)

(** The constants [alpha] and [1-alpha], rounded once. *)
Definition alpha : float64 := f_div (f_of_Z 3) (f_of_Z 10).
Definition one_minus_alpha : float64 := f_div (f_of_Z 7) (f_of_Z 10).

Record LatencyTracker := {
  avg : gmap string Z;
  fallback : Z;
}.

Definition NewLatencyTracker (fallback : Z) : LatencyTracker := {| avg := ∅; fallback := fallback |}.

Definition Record_sample (t : Target) (model : string) (d : Z) (tr : LatencyTracker) : LatencyTracker :=
  match avg tr !! model with
  | None => {| avg := <[model := d]> (avg tr); fallback := fallback tr |}
  | Some cur =>
    {| avg := <[model := Duration t (sum_of_products t (f_of_Z cur) one_minus_alpha (f_of_Z d) alpha)]> (avg tr);
       fallback := fallback tr |}
  end.

Definition Average (model : string) (tr : LatencyTracker) : Z :=
  default (fallback tr) (avg tr !! model).

(** ** slo/estimator.go *)

Record Estimator := { est_concurrency : Z }.

Definition NewEstimator (concurrency : Z) : Estimator :=
  {| est_concurrency := if concurrency <? 1 then 1 else concurrency |}.

(** [tr] is the estimator's tracker. *)
Definition Estimate (t : Target) (e : Estimator) (model : string) (aheadCount : Z) (tr : LatencyTracker) : Z :=
  let rounds := f_div (f_of_Z aheadCount) (f_of_Z (est_concurrency e)) in
  Duration t (f_mul rounds (f_of_Z (Average model tr))).

(** ** backpressure/policy.go *)

Abbreviation Policy := (gmap Z Z).

Definition SecondNs : Z := 1000000000.

Definition DefaultThresholds : Policy :=
  <[PriorityHigh := 5 * SecondNs]> (<[PriorityNormal := 15 * SecondNs]>
    (<[PriorityLow := 60 * SecondNs]> ∅)).

Definition Admit (p : Policy) (priority estimatedWait : Z) : bool :=
  match p !! priority with
  | None => true
  | Some max => estimatedWait <=? max
  end.

(** ** Properties *)

(** When the requests ahead fill whole rounds of dispatchers, the estimate is exactly
    the number of rounds times the model's average latency, for any configured
    concurrency (values below one count as one), any target and every size a float
    holds exactly. *)
Theorem Estimate_whole_rounds t c model n tr :
  let e := NewEstimator c in
  0 ≤ n → small (est_concurrency e) → small (n * est_concurrency e) →
  0 ≤ Average model tr → small (Average model tr) → small n → small (n * Average model tr) →
  Estimate t e model (n * est_concurrency e) tr = n * Average model tr.
Proof.
  intros e Hn Hc Hnc Ha Has Hns Hna. unfold Estimate, Duration.
  assert (0 < est_concurrency e) as Hc0 by (unfold e; simpl; destruct (Z.ltb_spec c 1); lia).
  rewrite !f_of_Z_int by done. rewrite f_div_int by done. rewrite f_mul_int by done.
  by apply f_to_int64_int.
Qed.

(** A model's first sample replaces the fallback, and other models are not touched. *)
Lemma Record_first t model d tr m :
  avg tr !! model = None →
  Average m (Record_sample t model d tr) = if decide (m = model) then d else Average m tr.
Proof.
  intros Hn. unfold Record_sample, Average. rewrite Hn. simpl.
  destruct (decide (m = model)) as [->|Hne]; [by rewrite lookup_insert_eq|by rewrite lookup_insert_ne].
Qed.

(** The samples of slo/tracker_test.go. *)
Definition portable (f : Fusing) : Target := {| out_of_range := λ _, - 2 ^ 63; fusing := f |}.

Example ewma_moves : ∀ f,
  Average "m" (Record_sample (portable f) "m" (2 * SecondNs)
    (Record_sample (portable f) "m" SecondNs (NewLatencyTracker 0))) = 1300000000.
Proof. intros []; vm_compute; reflexivity. Qed.

Lemma Estimate_whole_rounds_witness :
  Estimate (portable NoFusing) (NewEstimator 10) "m" (3 * 10) (NewLatencyTracker (2 * SecondNs)) =
    3 * (2 * SecondNs).
Proof.
  apply (Estimate_whole_rounds (portable NoFusing) 10 "m" 3 (NewLatencyTracker (2 * SecondNs)));
    vm_compute; repeat split; (reflexivity || discriminate).
Defined.
