(* ===== verification/SloBounds.v ===== *)
(** * How far the wait estimate and the moving average are off

    The arithmetic of request-plane/slo on its floats: both results are the exact rational
    rounded down to a nanosecond, or one less. *)

From Stdlib Require Import Reals Lra.
From S2P Require Import Prelude GoFloat FloatExact FloatError Slo.
Open Scope Z_scope.
#[local] Arguments IZR : simpl never.

(** [time.Duration] of a float truncates. *)
Lemma Duration_floor t x v :
  fin x v → (v < bpow 62)%R → (IZR (Duration t x) <= v < IZR (Duration t x) + 1)%R.
Proof.
  intros Hx Hv. unfold Duration, f_to_int64. rewrite (f_trunc_fin x v Hx).
  pose proof (base_Int_part v) as [H1 H2]. pose proof (fin_nonneg _ _ Hx).
  assert (-1 < Int_part v) as Hlo by (apply lt_IZR; lra).
  assert (Int_part v < 2 ^ 62) as Hhi by (apply lt_IZR; rewrite <- bpow_IZR by lia; lra).
  destruct (Z.leb_spec (- 2 ^ 63) (Int_part v)), (Z.ltb_spec (Int_part v) (2 ^ 63)); simpl; [lra|lia..].
Qed.

(** A number below 2^53. *)
Lemma below_2_53 z : 0 ≤ z < 2 ^ 53 → (0 <= IZR z < bpow 53)%R.
Proof. intros Hz. rewrite bpow_IZR by lia. split; [apply IZR_le|apply IZR_lt]; lia. Qed.

Lemma huge : (bpow 200 < bpow 998)%R ∧ bpow 1000 = (4 * bpow 998)%R ∧ bpow 106 = (bpow 53 * bpow 53)%R ∧
  (1 < bpow 53)%R ∧ (8 * bpow 106 < bpow 200)%R ∧ bpow 62 = (4096 * bpow 50)%R ∧
  (bpow (-75) <= 1 / 1048576)%R ∧ (0 < bpow (-1075))%R.
Proof.
  assert (∀ k, 0 < k → (1 < bpow k)%R) as H1.
  { intros k Hk. rewrite bpow_IZR by lia. apply IZR_lt. apply Z.pow_gt_1; lia. }
  split_and!; [| | |by apply H1| | | |apply bpow_pos].
  - replace 998 with (200 + 798) by lia. rewrite bpow_add. pose proof (bpow_pos 200). pose proof (H1 798 ltac:(lia)). nra.
  - replace 1000 with (2 + 998) by lia. by rewrite bpow_add, (bpow_IZR 2) by lia.
  - by rewrite <- bpow_add.
  - replace 200 with (3 + (91 + 106)) by lia. rewrite !bpow_add, (bpow_IZR 3) by lia.
    pose proof (bpow_pos 106). pose proof (H1 91 ltac:(lia)). change (IZR (2 ^ 3)) with 8%R. nra.
  - replace 62 with (12 + 50) by lia. by rewrite bpow_add, (bpow_IZR 12) by lia.
  - replace (1 / 1048576)%R with (bpow (-20)) by (unfold bpow; simpl; lra). apply bpow_le. lia.
Qed.

(** ** The estimate *)

(** The estimated wait is the exact quotient of the requests ahead times the model's
    average latency by the number of dispatchers, rounded down to a nanosecond, or one
    nanosecond less; on every target, as long as the product stays below 2^50. *)
Theorem Estimate_bounds t c model n tr :
  let e := NewEstimator c in
  let k := est_concurrency e in
  let wait := Estimate t e model n tr in
  0 ≤ n < 2 ^ 53 → c < 2 ^ 53 → 0 ≤ Average model tr < 2 ^ 53 → n * Average model tr < 2 ^ 50 →
  1 ≤ k ∧ k * wait ≤ n * Average model tr ≤ k * (wait + 1).
Proof.
  intros e k wait Hn Hc Ha Hna.
  assert (1 ≤ k < 2 ^ 53) as Hk by (unfold k, e; simpl; destruct (Z.ltb_spec c 1); lia).
  split; [lia|].
  set (a := Average model tr) in *. destruct huge as (Hh1 & Hh2 & Hh3 & Hh4 & Hh5 & Hh6 & Hh7 & Heta).
  assert (bpow 53 < bpow 106)%R as Hh8 by nra.
  pose proof (below_2_53 n Hn) as Hn'. pose proof (below_2_53 a Ha) as Ha'.
  pose proof (below_2_53 k ltac:(lia)) as Hk'. assert (1 <= IZR k)%R as Hk1 by (apply IZR_le; lia).
  assert (IZR n * IZR a <= 1125899906842623)%R as Hp by (rewrite <- mult_IZR; apply IZR_le; lia).
  assert (bpow 50 = 1125899906842624)%R as H50 by by rewrite bpow_IZR by lia.
  assert (bpow 53 = 9007199254740992)%R as H53 by by rewrite bpow_IZR by lia.
  set (q := (IZR n / IZR k)%R). assert (q * IZR k = IZR n)%R as Hq by (unfold q; field; lra).
  assert (0 <= q <= IZR n)%R as Hq1.
  { split; [apply Rle_mult_inv_pos; lra|]. rewrite <- Hq. nra. }
  destruct (f_div_near _ _ _ _ (f_of_Z_fin n ltac:(lia)) (f_of_Z_fin k ltac:(lia))) as (r & Hr & Hnr);
    [lra|fold q; lra|]. fold q in Hnr. unfold near in Hnr. rewrite u_value in Hnr. apply Rabs_within in Hnr.
  pose proof (fin_nonneg _ _ Hr) as Hr0. set (eta := bpow (-1075)) in *.
  assert (0 <= IZR k * IZR a * eta <= bpow (-75))%R as Hkae.
  { split; [apply Rmult_le_pos; [apply Rmult_le_pos|]; lra|]. eapply Rle_trans; [|apply (eta_tiny 106); lia].
    rewrite Rmult_comm. apply Rmult_le_compat_l; [apply Rlt_le, bpow_pos|]. rewrite Hh3. apply Rmult_le_compat; lra. }
  assert (0 <= IZR k * eta <= bpow (-75))%R as Hke.
  { split; [apply Rmult_le_pos; lra|]. eapply Rle_trans; [|apply (eta_tiny 53); lia].
    rewrite Rmult_comm. apply Rmult_le_compat_l; [apply Rlt_le, bpow_pos|lra]. }
  assert (IZR k * (q * IZR a) = IZR n * IZR a)%R as Hkqa by (rewrite <- Hq; lra).
  assert (0 <= r * IZR a)%R as Hra0 by (apply Rmult_le_pos; lra).
  assert (q * IZR a + (- (q * (1 / 9007199254740992) + eta)) * IZR a <= r * IZR a)%R as Hra1
    by (rewrite <- Rmult_plus_distr_r; apply Rmult_le_compat_r; lra).
  assert (r * IZR a <= q * IZR a + (q * (1 / 9007199254740992) + eta) * IZR a)%R as Hra2
    by (rewrite <- Rmult_plus_distr_r; apply Rmult_le_compat_r; lra).
  apply (Rmult_le_compat_l (IZR k)) in Hra1, Hra2; [|lra..].
  assert (r * IZR a <= IZR k * (r * IZR a))%R as Hgrow by nra.
  destruct (f_mul_near _ _ _ _ Hr (f_of_Z_fin a ltac:(lia))) as (v & Hv & Hnv); [lra|].
  unfold near in Hnv. rewrite u_value in Hnv. apply Rabs_within in Hnv. fold eta in Hnv.
  set (ra := (r * IZR a)%R) in *. assert (eta <= IZR k * eta)%R as Heta1 by nra.
  assert (v <= ra + (ra * (1 / 9007199254740992) + eta))%R as Hv1 by lra.
  assert (ra - (ra * (1 / 9007199254740992) + eta) <= v)%R as Hv2 by lra.
  destruct (Duration_floor t _ v Hv) as [Hw1 Hw2]; [lra|].
  change (Duration t (f_mul (f_div (f_of_Z n) (f_of_Z k)) (f_of_Z a))) with wait in Hw1, Hw2.
  apply (Rmult_le_compat_l (IZR k)) in Hv1, Hv2, Hw1; [|lra..].
  apply (Rmult_lt_compat_l (IZR k)) in Hw2; [|lra].
  assert (IZR k * IZR wait < IZR n * IZR a + 1)%R as Hlo by lra.
  assert (IZR n * IZR a < IZR k * (IZR wait + 1) + 1)%R as Hhi by lra.
  rewrite <- !mult_IZR, <- plus_IZR in Hlo. rewrite <- !plus_IZR, <- !mult_IZR, <- plus_IZR in Hhi.
  apply lt_IZR in Hlo, Hhi. lia.
Qed.

(** ** The moving average *)

(** Fused or not, a sum of two products is rounded at most twice on each way. *)
Lemma sum_of_products_near t a b c d va vb vc vd :
  fin a va → fin b vb → fin c vc → fin d vd → (va * vb + vc * vd < bpow 998)%R →
  ∃ v, fin (sum_of_products t a b c d) v ∧
    (Rabs (v - (va * vb + vc * vd)) <= (va * vb + vc * vd) * (3 / 9007199254740992) + 4 * bpow (-1075))%R.
Proof.
  intros Ha Hb Hc Hd Hbig. destruct huge as (Hh1 & Hh2 & _ & Hh4 & Hh5 & _ & Hh7 & Heta).
  pose proof (fin_nonneg _ _ Ha). pose proof (fin_nonneg _ _ Hb).
  pose proof (fin_nonneg _ _ Hc). pose proof (fin_nonneg _ _ Hd).
  assert (0 <= va * vb)%R by (by apply Rmult_le_pos). assert (0 <= vc * vd)%R by (by apply Rmult_le_pos).
  assert (1 < bpow 998)%R by (rewrite bpow_IZR by lia; apply IZR_lt; lia).
  pose proof (eta_tiny 0 ltac:(lia)) as Heta1. rewrite bpow_0, Rmult_1_r in Heta1.
  unfold sum_of_products.
  destruct (f_mul_near _ _ _ _ Ha Hb) as (p & Hp & Hnp); [lra|].
  destruct (f_mul_near _ _ _ _ Hc Hd) as (q & Hq & Hnq); [lra|].
  unfold near in Hnp, Hnq. rewrite u_value in Hnp, Hnq. apply Rabs_within in Hnp, Hnq.
  destruct (fusing t).
  - destruct (f_add_near _ _ _ _ Hp Hq) as (v & Hv & Hn); [lra|]. exists v. split; [done|].
    unfold near in Hn. rewrite u_value in Hn. apply Rabs_within in Hn. apply Rabs_le. lra.
  - destruct (f_fma_near _ _ _ _ _ _ Ha Hb Hq) as (v & Hv & Hn); [lra|]. exists v. split; [done|].
    unfold near in Hn. rewrite u_value in Hn. apply Rabs_within in Hn. apply Rabs_le. lra.
  - destruct (f_fma_near _ _ _ _ _ _ Hc Hd Hp) as (v & Hv & Hn); [lra|]. exists v. split; [done|].
    unfold near in Hn. rewrite u_value in Hn. apply Rabs_within in Hn. apply Rabs_le. lra.
Qed.

Lemma tenths_near k :
  0 ≤ k ≤ 10 → ∃ v, fin (f_div (f_of_Z k) (f_of_Z 10)) v ∧ near (IZR k / 10) v.
Proof.
  intros Hk. destruct huge as (Hh1 & Hh2 & _). assert (0 <= IZR k <= 10)%R by (split; apply IZR_le; lia).
  pose proof (bpow_pos 200).
  apply (f_div_near (f_of_Z k) (f_of_Z 10) (IZR k) 10);
    [apply f_of_Z_fin; lia|apply (f_of_Z_fin 10); lia|lra|].
  assert (10 < bpow 998)%R by (rewrite bpow_IZR by lia; apply IZR_lt; lia). lra.
Qed.

(** C26: Every later sample moves a model's average to the exact weighted mean of the average
    and the sample, 7 to 3, rounded down to a nanosecond, or one nanosecond less; however
    the target fuses the products, for durations below 2^47 ns.  So the average never
    leaves the range of the samples by more than that nanosecond, and other models keep
    theirs. *)
Theorem Record_mean t model d tr cur :
  avg tr !! model = Some cur → 0 ≤ cur < 2 ^ 47 → 0 ≤ d < 2 ^ 47 →
  let tr' := Record_sample t model d tr in
  let new := Average model tr' in
  10 * new ≤ 7 * cur + 3 * d ≤ 10 * (new + 1) ∧
  Z.min cur d - 1 ≤ new ≤ Z.max cur d ∧
  ∀ m, m ≠ model → Average m tr' = Average m tr.
Proof.
  intros Hcur Hc Hd tr' new.
  assert (new = Duration t (sum_of_products t (f_of_Z cur) one_minus_alpha (f_of_Z d) alpha)) as Hnew.
  { unfold new, tr', Record_sample, Average. rewrite Hcur. simpl. by rewrite lookup_insert_eq. }
  assert (∀ m, m ≠ model → Average m tr' = Average m tr) as Hother.
  { intros m Hm. unfold tr', Record_sample, Average. rewrite Hcur. simpl. by rewrite lookup_insert_ne. }
  assert (10 * new ≤ 7 * cur + 3 * d ≤ 10 * (new + 1)) as Hmean; [|split_and!; try done; lia].
  clear Hother. clearbody new. clear tr'.
  destruct huge as (Hh1 & Hh2 & _ & _ & _ & Hh6 & Hh7 & Heta).
  destruct (tenths_near 7 ltac:(lia)) as (v7 & Hv7 & Hn7). destruct (tenths_near 3 ltac:(lia)) as (v3 & Hv3 & Hn3).
  unfold near in Hn7, Hn3. rewrite u_value in Hn7, Hn3. apply Rabs_within in Hn7, Hn3.
  assert (0 <= IZR cur <= 140737488355327)%R as Hc' by (split; apply IZR_le; lia).
  assert (0 <= IZR d <= 140737488355327)%R as Hd' by (split; apply IZR_le; lia).
  pose proof (eta_tiny 0 ltac:(lia)) as Heta1. rewrite bpow_0, Rmult_1_r in Heta1.
  assert (bpow 50 = 1125899906842624)%R as H50 by by rewrite bpow_IZR by lia.
  assert (2251799813685248 < bpow 998)%R by (rewrite bpow_IZR by lia; apply IZR_lt; lia).
  set (eta := bpow (-1075)) in *.
  assert (IZR cur * eta <= 1 / 1048576 ∧ IZR d * eta <= 1 / 1048576)%R as [Hce Hde].
  { assert (140737488355328 * eta <= 1 / 1048576)%R; [|nra].
    replace 140737488355328%R with (bpow 47) by by rewrite bpow_IZR by lia.
    rewrite Rmult_comm. eapply Rle_trans; [apply eta_tiny; lia|done]. }
  assert (IZR cur * (7 / 10 - (7 / 10 * (1 / 9007199254740992) + eta)) <= IZR cur * v7
    <= IZR cur * (7 / 10 + (7 / 10 * (1 / 9007199254740992) + eta)))%R as H7
    by (split; apply Rmult_le_compat_l; lra).
  assert (IZR d * (3 / 10 - (3 / 10 * (1 / 9007199254740992) + eta)) <= IZR d * v3
    <= IZR d * (3 / 10 + (3 / 10 * (1 / 9007199254740992) + eta)))%R as H3
    by (split; apply Rmult_le_compat_l; lra).
  destruct (sum_of_products_near t (f_of_Z cur) one_minus_alpha (f_of_Z d) alpha (IZR cur) v7 (IZR d) v3)
    as (v & Hv & Hn); [apply f_of_Z_fin; lia|done|apply f_of_Z_fin; lia|done|lra|].
  apply Rabs_within in Hn. fold eta in Hn.
  destruct (Duration_floor t _ v Hv) as [Hw1 Hw2]; [lra|]. rewrite <- Hnew in Hw1, Hw2.
  assert (10 * IZR new < 7 * IZR cur + 3 * IZR d + 1)%R as Hlo by lra.
  assert (7 * IZR cur + 3 * IZR d < 10 * (IZR new + 1) + 1)%R as Hhi by lra.
  rewrite <- !mult_IZR, <- !plus_IZR in Hlo. rewrite <- !plus_IZR, <- !mult_IZR, <- !plus_IZR in Hhi.
  apply lt_IZR in Hlo, Hhi. lia.
Qed.

(** *** Witnesses *)

Lemma Estimate_bounds_witness :
  let wait := Estimate (portable NoFusing) (NewEstimator 3) "m" 10 (NewLatencyTracker 1000000001) in
  3 * wait ≤ 10 * 1000000001 ≤ 3 * (wait + 1).
Proof.
  apply (Estimate_bounds (portable NoFusing) 3 "m" 10 (NewLatencyTracker 1000000001));
    vm_compute; repeat split; (reflexivity || discriminate).
Defined.

Lemma Record_mean_witness :
  let tr := Record_sample (portable FuseFirst) "m" 11 (NewLatencyTracker 0) in
  let new := Average "m" (Record_sample (portable FuseFirst) "m" 4 tr) in
  10 * new ≤ 7 * 11 + 3 * 4 ≤ 10 * (new + 1).
Proof.
  apply (Record_mean (portable FuseFirst) "m" 4 (Record_sample (portable FuseFirst) "m" 11 (NewLatencyTracker 0)) 11);
    [reflexivity|lia|lia].
Defined.
