(* ===== verification/Gateway.v ===== *)
(** * The gateway (request-plane/gateway/gateway.go)

    One inference request through authentication, the rate limit, admission, the
    queue and the wait for the dispatcher.  The clock readings and the dispatcher's
    answer come from outside the handler and are arguments; the handler returns the
    new state of every component it uses, the response, and the calls of the
    request hook. *)

From S2P Require Import Prelude GoFloat GoStrings GoHttp GoJson GoUnmarshal Queue Slo Auth.
Open Scope Z_scope.

(** The struct with the fields [model] and [stream] that the body is decoded into; [None]
    when decoding fails. *)
Definition payload_field (key : string) (v : json) (p : string * bool) : option (string * bool) :=
  let '(model, stream) := p in
  if selects key "model" then model' ← store_string v model; Some (model', stream)
  else if selects key "stream" then stream' ← store_bool v stream; Some (model, stream')
  else Some p.

Definition decode_payload (body : string) : option (string * bool) :=
  unmarshal_struct payload_field ("", false) body.

Record Gateway := {
  waitTimeout : Z;
  with_slo : option Estimator;
  with_policy : option Policy;
  with_auth : option (KeyStore * bool);
  with_hook : bool;
}.

(** The components the gateway shares with the rest of the process: its id counter,
    the queue, the rate limiter's buckets and the tracker. *)
Record Shared := {
  idCounter : Z;
  sh_queue : Queue;
  sh_limiter : RateLimiter;
  sh_tracker : LatencyTracker;
}.

Definition set_queue (q : Queue) (n : Z) (s : Shared) : Shared :=
  {| idCounter := n; sh_queue := q; sh_limiter := sh_limiter s; sh_tracker := sh_tracker s |}.

Definition set_limiter (l : RateLimiter) (s : Shared) : Shared :=
  {| idCounter := idCounter s; sh_queue := sh_queue s; sh_limiter := l; sh_tracker := sh_tracker s |}.

Definition set_tracker (t : LatencyTracker) (s : Shared) : Shared :=
  {| idCounter := idCounter s; sh_queue := sh_queue s; sh_limiter := sh_limiter s; sh_tracker := t |}.

(** What the select on [ResultCh] and the timer yields: the dispatcher's result, the
    clock then and the chunks that follow, or the timeout. *)
Inductive Outcome :=
  | Delivered (r : Result) (at_ : Z) (chunks : list string)
  | TimedOut.

(** ** Headers *)

Definition parsePriority (r : GoHttp.Request) : Z :=
  if decide (Get (ReqHeader r) "X-Priority" = "high") then PriorityHigh
  else if decide (Get (ReqHeader r) "X-Priority" = "low") then PriorityLow
  else PriorityNormal.

Definition extractAPIKey (r : GoHttp.Request) : option string :=
  match TrimPrefix (Get (ReqHeader r) "Authorization") "Bearer " with
  | None | Some "" => None
  | Some key => Some key
  end.

(** ** Streaming *)

Definition streamResponse (result : Result) (chunks : list string) (w : Writer) : Writer :=
  let w1 := if decide (ServedModel result = "") then w
            else SetHeader "X-Served-Model" (ServedModel result) w in
  let contentType := if decide (ContentType result = "") then "text/event-stream" else ContentType result in
  let w2 := SetHeader "Cache-Control" "no-cache" (SetHeader "Content-Type" contentType w1) in
  foldl (λ w c, Write c w) (WriteHeader (StatusCode result) w2) chunks.

(** ** The handler *)

Definition is_success (code : Z) : bool := (200 <=? code) && (code <? 300).

Definition Milliseconds (d : Z) : Z := Z.quot d 1000000.

Section handler.
Context (g : Gateway) (target : Target) (fused : bool).

(** The clock readings of the rate limiter and of [EnqueuedAt], and what the
    dispatcher does with the request once it is queued. *)
Context (now_limit now_enqueue : Z) (dispatch : Queue.Request → Outcome).

(** How a request ends: the response, whether it counts as a success and the model
    it named. *)
Record Ended := {
  e_writer : Writer;
  e_shared : Shared;
  e_model : string;
  e_success : bool;
}.

Definition refuse (msg : string) (code : Z) (model : string) (w : Writer) (s : Shared) : Ended :=
  {| e_writer := Error msg code w; e_shared := s; e_model := model; e_success := false |}.

(** The select, once the request is in the queue. *)
Definition await (req : Queue.Request) (w : Writer) (s : Shared) : Ended :=
  let model := ReqModel req in
  match dispatch req with
  | TimedOut => refuse "request timed out waiting for dispatch" StatusGatewayTimeout model w s
  | Delivered result at_ chunks =>
    let actualWait := at_ - EnqueuedAt req in
    let '(s1, w1) := match with_slo g with
      | Some _ => (set_tracker (Record_sample target model actualWait (sh_tracker s)) s,
                   SetHeader "X-Actual-Wait-Ms" (FormatInt (Milliseconds actualWait)) w)
      | None => (s, w)
      end in
    match Err result with
    | Some err => refuse err StatusBadGateway model w1 s1
    | None =>
      let w2 := if Streaming result then streamResponse result chunks w1
        else
          let w' := if decide (ServedModel result = "") then w1
                    else SetHeader "X-Served-Model" (ServedModel result) w1 in
          Write (ResBody result) (WriteHeader (StatusCode result)
            (SetHeader "Content-Type" "application/json" w')) in
      {| e_writer := w2; e_shared := s1; e_model := model; e_success := is_success (StatusCode result) |}
    end
  end.

(** From the decoded body on. *)
Definition admit_and_queue (r : GoHttp.Request) (body keyID model : string) (stream : bool)
    (w : Writer) (s : Shared) : Ended :=
  let priority := parsePriority r in
  let estimate := (λ e, Estimate target e model (Z.of_nat (AheadOf priority (sh_queue s))) (sh_tracker s))
                    <$> with_slo g in
  let rejected := match with_policy g, estimate with
    | Some p, Some est => if Admit p priority est then None else Some est
    | _, _ => None
    end in
  match rejected with
  | Some est =>
    refuse ("request rejected: estimated wait " +:+ Duration_String est +:+ " exceeds SLO for " +:+
            Priority_String priority +:+ " priority") StatusServiceUnavailable model
      (SetHeader "Retry-After" (FormatInt (f_to_int64 (out_of_range target) (Seconds est) + 1))
        (SetHeader "X-Estimated-Wait-Ms" (FormatInt (Milliseconds est)) w)) s
  | None =>
    let n := uint64 (idCounter s + 1) in
    let req := {| ID := "req-" +:+ FormatInt n; Body := body; ReqModel := model; Priority := priority;
                  EnqueuedAt := now_enqueue; KeyID := keyID; Stream := stream |} in
    match TryPush req (sh_queue s) with
    | (_, false) => refuse "request queue full, try again later" StatusServiceUnavailable model w
        (set_queue (sh_queue s) n s)
    | (q', true) =>
      let w1 := match estimate with
        | Some est => SetHeader "X-Estimated-Wait-Ms" (FormatInt (Milliseconds est)) w
        | None => w
        end in
      await req w1 (set_queue q' n s)
    end
  end.

(** After authentication. *)
Definition read_and_queue (r : GoHttp.Request) (keyID : string) (w : Writer) (s : Shared) : Ended :=
  match ReqBody r with
  | None => refuse "failed to read request body" StatusBadRequest "" w s
  | Some body =>
    match decode_payload body with
    | None | Some ("", _) =>
      refuse "request body must contain a valid 'model' field" StatusBadRequest "" w s
    | Some (model, stream) => admit_and_queue r body keyID model stream w s
    end
  end.

Definition run (r : GoHttp.Request) (w : Writer) (s : Shared) : Ended :=
  if decide (Method r ≠ "POST") then refuse "method not allowed" StatusMethodNotAllowed "" w s
  else match with_auth g with
  | None => read_and_queue r "" w s
  | Some (keys, limited) =>
    match extractAPIKey r with
    | None => refuse "missing API key" StatusUnauthorized "" w s
    | Some apiKey =>
      match Lookup apiKey keys with
      | None => refuse "invalid API key" StatusUnauthorized "" w s
      | Some info =>
        if limited then
          let '(l, ok) := Allow fused now_limit (InfoKeyID info) (RequestsPerMin info) (sh_limiter s) in
          let s1 := set_limiter l s in
          if ok then read_and_queue r (InfoKeyID info) w s1
          else refuse "rate limit exceeded" StatusTooManyRequests "" (SetHeader "Retry-After" "1" w) s1
        else read_and_queue r (InfoKeyID info) w s
      end
    end
  end.

(** The handler with its deferred hook: the calls of [onRequest]. *)
Definition handleInference (r : GoHttp.Request) (w : Writer) (s : Shared)
    : Writer * Shared * list (string * bool) :=
  let e := run r w s in
  (e_writer e, e_shared e, if with_hook g then [(e_model e, e_success e)] else []).

Definition ServeHTTP (r : GoHttp.Request) (w : Writer) (s : Shared)
    : Writer * Shared * list (string * bool) :=
  if decide (Path r = "/v1/chat/completions" ∨ Path r = "/v1/completions") then handleInference r w s
  else if decide (Path r = "/healthz") then (Write "ok" (WriteHeader StatusOK w), s, [])
  else (Error "not found" StatusNotFound w, s, []).

End handler.

(** ** What the client is told *)

Lemma Write_written b w c : Written w = Some c → Written (Write b w) = Some c.
Proof. intros H. unfold Write. by rewrite H. Qed.

Lemma WriteHeader_written c w : Written w = None → Written (WriteHeader c w) = Some c.
Proof. intros H. unfold WriteHeader. by rewrite H. Qed.

Lemma writes_written chunks w c :
  Written w = Some c → Written (foldl (λ w c, Write c w) w chunks) = Some c.
Proof. revert w. induction chunks as [|x l IH]; intros w H; simpl; [done|]. by apply IH, Write_written. Qed.

Lemma streamResponse_written result chunks w :
  Written w = None → Written (streamResponse result chunks w) = Some (StatusCode result).
Proof.
  intros H. unfold streamResponse. apply writes_written, WriteHeader_written.
  rewrite !SetHeader_written. case_decide; by rewrite ?SetHeader_written.
Qed.

Section told.
Context (g : Gateway) (target : Target) (fused : bool).
Context (now_limit now_enqueue : Z) (dispatch : Queue.Request → Outcome).

(** The response carries a status, and the request counts as a success exactly when it
    is a 2xx status. *)
Definition truthful (e : Ended) : Prop :=
  ∃ code, Written (e_writer e) = Some code ∧ e_success e = is_success code.

Lemma refuse_truthful m code model w s :
  Written w = None → is_success code = false → truthful (refuse m code model w s).
Proof. intros Hw Hc. exists code. split; [by apply Error_status|done]. Qed.

Lemma await_truthful req w s : Written w = None → truthful (await g target dispatch req w s).
Proof.
  intros Hw. unfold await. destruct (dispatch req) as [result at_ chunks|]; [|by apply refuse_truthful].
  assert (∃ s1 w1, (match with_slo g with
      | Some _ => (set_tracker (Record_sample target (ReqModel req) (at_ - EnqueuedAt req) (sh_tracker s)) s,
                   SetHeader "X-Actual-Wait-Ms" (FormatInt (Milliseconds (at_ - EnqueuedAt req))) w)
      | None => (s, w) end) = (s1, w1) ∧ Written w1 = None) as (s1 & w1 & -> & Hw1).
  { destruct (with_slo g); eexists _, _; (split; [done|]); by rewrite ?SetHeader_written. }
  destruct (Err result) as [err|]; [by apply refuse_truthful|].
  exists (StatusCode result). split; [|done]. simpl.
  destruct (Streaming result); [by apply streamResponse_written|].
  apply Write_written, WriteHeader_written. rewrite SetHeader_written.
  case_decide; by rewrite ?SetHeader_written.
Qed.

Lemma admit_truthful r body keyID model stream w s :
  Written w = None →
  truthful (admit_and_queue g target now_enqueue dispatch r body keyID model stream w s).
Proof.
  intros Hw. unfold admit_and_queue. cbv zeta.
  destruct (match with_policy g with Some p => _ | None => _ end) as [est|].
  { apply refuse_truthful; [by rewrite !SetHeader_written|done]. }
  destruct (TryPush _ _) as [q' [|]]; [|by apply refuse_truthful].
  apply await_truthful. destruct (with_slo g); simpl; by rewrite ?SetHeader_written.
Qed.

Lemma read_truthful r keyID w s :
  Written w = None → truthful (read_and_queue g target now_enqueue dispatch r keyID w s).
Proof.
  intros Hw. unfold read_and_queue. destruct (ReqBody r) as [body|]; [|by apply refuse_truthful].
  destruct (decode_payload body) as [[[|c m] stream]|]; [by apply refuse_truthful| |by apply refuse_truthful].
  by apply admit_truthful.
Qed.

Lemma run_truthful r w s :
  Written w = None → truthful (run g target fused now_limit now_enqueue dispatch r w s).
Proof.
  intros Hw. unfold run. case_decide; [by apply refuse_truthful|].
  destruct (with_auth g) as [[keys limited]|]; [|by apply read_truthful].
  destruct (extractAPIKey r) as [apiKey|]; [|by apply refuse_truthful].
  destruct (Lookup apiKey keys) as [info|]; [|by apply refuse_truthful].
  destruct limited; [|by apply read_truthful].
  destruct (Allow _ _ _ _ _) as [l [|]]; [by apply read_truthful|].
  apply refuse_truthful; [by rewrite SetHeader_written|done].
Qed.

(** ** What reaches the queue *)

(** The key a request may act under; [inr] is the status it is turned away with. *)
Definition authenticate (r : GoHttp.Request) : KeyInfo + Z :=
  match with_auth g with
  | None => inl {| InfoKeyID := ""; RequestsPerMin := 0 |}
  | Some (keys, _) =>
    match extractAPIKey r with
    | None => inr StatusUnauthorized
    | Some apiKey => match Lookup apiKey keys with
                     | Some info => inl info | None => inr StatusUnauthorized end
    end
  end.

(** The limiter's verdict and its buckets after it. *)
Definition limit (info : KeyInfo) (s : Shared) : RateLimiter * bool :=
  match with_auth g with
  | Some (_, true) => Allow fused now_limit (InfoKeyID info) (RequestsPerMin info) (sh_limiter s)
  | _ => (sh_limiter s, true)
  end.

Lemma read_queue_spec r keyID w s :
  let e := read_and_queue g target now_enqueue dispatch r keyID w s in
  sh_limiter (e_shared e) = sh_limiter s ∧
  (sh_queue (e_shared e) = sh_queue s ∨
   ∃ body model stream req, ReqBody r = Some body ∧ decode_payload body = Some (model, stream) ∧
     model ≠ "" ∧ TryPush req (sh_queue s) = (sh_queue (e_shared e), true) ∧
     Body req = body ∧ ReqModel req = model ∧ Stream req = stream ∧ Priority req = parsePriority r ∧
     KeyID req = keyID ∧
     ∀ p est, with_policy g = Some p → with_slo g = Some est →
       Admit p (parsePriority r) (Estimate target est model
         (Z.of_nat (AheadOf (parsePriority r) (sh_queue s))) (sh_tracker s)) = true).
Proof.
  unfold read_and_queue. destruct (ReqBody r) as [body|]; [|split; [done|by left]].
  destruct (decode_payload body) as [[[|c m] stream]|] eqn:Hd;
    [split; [done|by left]| |split; [done|by left]].
  unfold admit_and_queue. cbv zeta. set (model := String c m) in *.
  destruct (match with_policy g with Some p => _ | None => _ end) as [est|] eqn:Hrej;
    [split; [done|by left]|].
  set (req := {| ID := _ |}). destruct (TryPush req (sh_queue s)) as [q' [|]] eqn:Hp; [|split; [done|by left]].
  set (w1 := match _ with Some _ => _ | None => w end).
  assert (sh_limiter (e_shared (await g target dispatch req w1 (set_queue q' (uint64 (idCounter s + 1)) s))) = sh_limiter s ∧
    sh_queue (e_shared (await g target dispatch req w1 (set_queue q' (uint64 (idCounter s + 1)) s))) = q') as [Hl Hq].
  { unfold await. destruct (dispatch req) as [result at_ chunks|]; [|done].
    destruct (with_slo g), (Err result); done. }
  split; [exact Hl|]. right. exists body, model, stream, req. rewrite Hq. split_and!; try done.
  intros p est Hpol Hslo. rewrite Hpol, Hslo in Hrej. simpl in Hrej.
  destruct (Admit _ _ _); [done|discriminate].
Qed.

(** C21: The gates are in order: a request without a valid key leaves every shared component
    alone and gets 401; one over its rate gets 429 and touches only the limiter; and the
    queue only ever gains, by one push, the request of a client that passed both, with
    the body and model the client sent, under the client's key, at the priority of its
    header, and with an estimated wait the policy admits. *)
Theorem gates_in_order r w s :
  Written w = None → Method r = "POST" →
  let e := run g target fused now_limit now_enqueue dispatch r w s in
  match authenticate r with
  | inr code => e_shared e = s ∧ Written (e_writer e) = Some code
  | inl info =>
    let '(l, ok) := limit info s in
    sh_limiter (e_shared e) = l ∧
    (ok = false → e_shared e = set_limiter l s ∧ Written (e_writer e) = Some StatusTooManyRequests) ∧
    (sh_queue (e_shared e) = sh_queue s ∨
     ok = true ∧ ∃ body model stream req, ReqBody r = Some body ∧ decode_payload body = Some (model, stream) ∧
       model ≠ "" ∧ TryPush req (sh_queue s) = (sh_queue (e_shared e), true) ∧
       Body req = body ∧ ReqModel req = model ∧ Stream req = stream ∧ Priority req = parsePriority r ∧
       KeyID req = InfoKeyID info ∧
       ∀ p est, with_policy g = Some p → with_slo g = Some est →
         Admit p (parsePriority r) (Estimate target est model
           (Z.of_nat (AheadOf (parsePriority r) (sh_queue s))) (sh_tracker s)) = true)
  end.
Proof.
  intros Hw HP. unfold run, authenticate, limit. rewrite decide_False by (intros Hn; by apply Hn).
  destruct (with_auth g) as [[keys limited]|].
  2: { destruct (read_queue_spec r "" w s) as [Hl Hq]. split_and!; [done|done|].
       destruct Hq as [?|?]; [by left|by right]. }
  destruct (extractAPIKey r) as [apiKey|]; [|split; [done|by apply Error_status]].
  destruct (Lookup apiKey keys) as [info|]; [|split; [done|by apply Error_status]].
  destruct limited.
  - destruct (Allow _ _ _ _ _) as [l ok]. destruct ok.
    + destruct (read_queue_spec r (InfoKeyID info) w (set_limiter l s)) as [Hl Hq].
      split_and!; [done|done|]. destruct Hq as [?|?]; [by left|by right].
    + split_and!; [done|intros _; split; [done|]|by left].
      apply Error_status. by rewrite SetHeader_written.
  - destruct (read_queue_spec r (InfoKeyID info) w s) as [Hl Hq]. split_and!; [done|done|].
    destruct Hq as [?|?]; [by left|by right].
Qed.

End told.

(** *** Witness *)

Definition demo_gateway : Gateway :=
  {| waitTimeout := 30 * SecondNs; with_slo := Some (NewEstimator 10);
     with_policy := Some DefaultThresholds;
     with_auth := Some (AddKey "secret" {| InfoKeyID := "team"; RequestsPerMin := 60 |} NewKeyStore, true);
     with_hook := true |}.

Definition demo_shared : Shared :=
  {| idCounter := 0; sh_queue := {| high := []; normal := []; low := []; capacity := 2 |};
     sh_limiter := NewRateLimiter; sh_tracker := NewLatencyTracker (2 * SecondNs) |}.

Definition demo_text : string := object_text [("model", marshal_string "llama3"); ("stream", JBool false)].

Definition demo_client (auth : string) : GoHttp.Request :=
  {| Method := "POST"; Path := "/v1/completions"; ReqHeader := {["Authorization" := auth]};
     ReqBody := Some demo_text |}.

Definition demo_dispatch (req : Queue.Request) : Outcome :=
  Delivered {| StatusCode := 200; ResBody := "{}"; Err := None; ServedModel := ReqModel req;
               Streaming := false; ContentType := "" |} (EnqueuedAt req + SecondNs) [].

Lemma gates_in_order_witness :
  let e := run demo_gateway (portable NoFusing) false 0 0 demo_dispatch
    (demo_client "Bearer wrong") newWriter demo_shared in
  e_shared e = demo_shared ∧ Written (e_writer e) = Some StatusUnauthorized.
Proof.
  pose proof (gates_in_order demo_gateway (portable NoFusing) false 0 0
    demo_dispatch (demo_client "Bearer wrong") newWriter demo_shared eq_refl eq_refl) as H.
  change (authenticate demo_gateway (demo_client "Bearer wrong")) with (@inr KeyInfo Z StatusUnauthorized) in H.
  exact H.
Defined.
