(* ===== verification/Config.v ===== *)
(** * Configuration and introspection (request-plane/cmd/server/main.go, request-plane/admin)

    The parsers of the fallback and API-key flags, the request counters and the
    handlers of the admin API.  A handler returns its status and the value it
    encodes. *)

From S2P Require Import Prelude GoFloat GoStrings GoHttp Queue Slo Auth Gateway.
Open Scope Z_scope.

Definition comma : ascii := Ascii.ascii_of_nat 44.
Definition semicolon : ascii := Ascii.ascii_of_nat 59.
Definition equals : ascii := Ascii.ascii_of_nat 61.

(** ** cmd/server/main.go *)

(** One round of the loop over the pairs. *)
Definition add_chain (out : gmap string (list string)) (pair : string) : gmap string (list string) :=
  match Cut pair equals with
  | Some (k, v) =>
    if decide (k = "") then out else if decide (v = "") then out
    else <[k := Split v comma]> out
  | None => out
  end.

Definition parseFallbackMap (s : string) : gmap string (list string) :=
  if decide (s = "") then ∅ else foldl add_chain ∅ (Split s semicolon).

Definition add_key (store : KeyStore) (pair : string) : KeyStore :=
  match Cut pair equals with
  | Some (k, v) =>
    if decide (k = "") then store
    else AddKey k {| InfoKeyID := k; RequestsPerMin := Atoi v |} store
  | None => store
  end.

Definition parseAPIKeys (s : string) : option KeyStore :=
  if decide (s = "") then None else Some (foldl add_key NewKeyStore (Split s comma)).

(** ** admin/stats.go *)

Record Stats := {
  total : Z;
  success : Z;
  errors : Z;
}.

Definition NewStats : Stats := {| total := 0; success := 0; errors := 0 |}.

(** The counters are separate atomics: a call of the hook is two additions. *)
Inductive Add := AddTotal | AddSuccess | AddErrors.

Definition apply_add (s : Stats) (a : Add) : Stats :=
  match a with
  | AddTotal => {| total := int64 (total s + 1); success := success s; errors := errors s |}
  | AddSuccess => {| total := total s; success := int64 (success s + 1); errors := errors s |}
  | AddErrors => {| total := total s; success := success s; errors := int64 (errors s + 1) |}
  end.

Definition Hook (ok : bool) : list Add := [AddTotal; if ok then AddSuccess else AddErrors].

Definition Snapshot (s : Stats) : Z * Z * Z := (total s, success s, errors s).

(** ** admin/admin.go *)

Record queueResp := {
  High : nat;
  Normal : nat;
  Low : nat;
  Total : nat;
  Capacity : nat;
}.

Definition handleQueue (q : Queue) : Z * queueResp :=
  (StatusOK, {| High := LenByPriority PriorityHigh q; Normal := LenByPriority PriorityNormal q;
                Low := LenByPriority PriorityLow q; Total := Len q; Capacity := Cap q |}).

Record statsResp := {
  TotalRequests : Z;
  SuccessRequests : Z;
  ErrorRequests : Z;
}.

Definition handleStats (s : Stats) : Z * statsResp :=
  let '(t, ok, err) := Snapshot s in
  (StatusOK, {| TotalRequests := t; SuccessRequests := ok; ErrorRequests := err |}).

Record keyResp := {
  resp_KeyID : string;
  resp_RequestsPerMin : Z;
  TokensRemaining : float64;
  Unlimited : bool;
}.

Section keys.
Context `{MapRange} (fused : bool).

(** [now k] is the clock when the [k]-th key is looked at. *)
Definition key_resp (limiter : option RateLimiter) (now : Z) (info : KeyInfo) : keyResp :=
  if RequestsPerMin info <=? 0 then
    {| resp_KeyID := InfoKeyID info; resp_RequestsPerMin := RequestsPerMin info;
       TokensRemaining := S754_zero false; Unlimited := true |}
  else
    {| resp_KeyID := InfoKeyID info; resp_RequestsPerMin := RequestsPerMin info;
       TokensRemaining := match limiter with
         | Some l => fst (fst (Tokens fused now (InfoKeyID info) (RequestsPerMin info) l))
         | None => S754_zero false
         end;
       Unlimited := false |}.

Definition handleKeys (i : nat) (now : nat → Z) (keys : option KeyStore) (limiter : option RateLimiter)
    : Z * list keyResp :=
  match keys with
  | None => (StatusOK, [])
  | Some store => (StatusOK, imap (λ k info, key_resp limiter (now k) info) (ListKeys i store))
  end.
End keys.

(** [withCORS]: the headers, and whether the request goes on to the mux. *)
Definition withCORS (method : string) (w : Writer) : Writer * bool :=
  let w1 := SetHeader "Access-Control-Allow-Methods" "GET, OPTIONS"
              (SetHeader "Access-Control-Allow-Origin" "*" w) in
  if decide (method = "OPTIONS") then (WriteHeader StatusNoContent w1, false) else (w1, true).

(** ** Printing and parsing *)

Definition print_chain (c : string * list string) : string :=
  fst c +:+ String equals (Join (snd c) comma).

Definition print_chains (l : list (string * list string)) : string := Join (print_chain <$> l) semicolon.

Lemma avoids_Join sep sep' l : sep ≠ sep' → Forall (avoids sep) l → avoids sep (Join l sep').
Proof.
  intros Hne. induction 1 as [|s l Hs Hl IH]; [done|]. destruct l as [|t l]; [done|].
  simpl Join. apply avoids_app. split; [done|]. split; [congruence|exact IH].
Qed.

(** A chain whose printed form can be read back. *)
Record printable (c : string * list string) : Prop := {
  pr_name : fst c ≠ "";
  pr_models : snd c ≠ [] ∧ Join (snd c) comma ≠ "";
  pr_name_avoids : avoids equals (fst c) ∧ avoids semicolon (fst c);
  pr_models_avoid : Forall (avoids comma) (snd c) ∧ Forall (avoids semicolon) (snd c);
}.

Lemma add_chain_print out c : printable c → add_chain out (print_chain c) = <[fst c := snd c]> out.
Proof.
  intros [Hn [Hne Hv] [He _] [Hc _]]. unfold add_chain, print_chain. rewrite Cut_app by done.
  rewrite !decide_False by done. by rewrite Split_Join.
Qed.

(** Adding printed entries with distinct keys one by one makes the map of the entries. *)
Lemma foldl_add_print {A B} (add : gmap string B → string → gmap string B) (print : A → string) (entry : A → string * B) l :
  (∀ out c, c ∈ l → add out (print c) = <[(entry c).1 := (entry c).2]> out) → NoDup (entry <$> l).*1 →
  foldl add ∅ (print <$> l) = list_to_map (entry <$> l).
Proof.
  intros Hadd Hnd. rewrite <- (map_union_empty (list_to_map (entry <$> l))).
  generalize (∅ : gmap string B) as out.
  induction l as [|c l IH]; intros out; simpl; [by rewrite map_empty_union|].
  simpl in Hnd. apply NoDup_cons in Hnd as [Hc Hnd].
  rewrite (Hadd out c), IH; [|intros; apply Hadd; by right|done|by left].
  destruct (entry c) as [k v]. simpl in *.
  rewrite <- insert_union_l, insert_union_r; [done|]. by apply not_elem_of_list_to_map_1.
Qed.

(** The fallback flag round-trips: parsing the printed form of any list of chains with
    distinct, printable models gives exactly those chains. *)
Theorem parseFallbackMap_print l :
  NoDup l.*1 → Forall printable l → parseFallbackMap (print_chains l) = list_to_map l.
Proof.
  intros Hnd Hall. unfold parseFallbackMap. case_decide as Hs.
  { destruct l as [|c l]; [done|]. exfalso. apply Forall_cons in Hall as [[Hn] _].
    destruct c as [[|a n] vs]; [done|]. by destruct l. }
  assert (l ≠ []) as Hne by (by intros ->).
  unfold print_chains. rewrite Split_Join.
  2: { by destruct l. }
  2: { apply Forall_fmap. eapply Forall_impl; [exact Hall|]. intros c [_ _ [_ Hn] [_ Hv]].
       simpl. unfold print_chain. apply avoids_app. split; [done|]. split; [done|]. by apply avoids_Join. }
  rewrite (foldl_add_print add_chain print_chain (λ c, c)), list_fmap_id; [done| |].
  - intros out c Hc. apply (add_chain_print out c). rewrite Forall_forall in Hall. auto.
  - by rewrite list_fmap_id.
Qed.

(** A key with its limit, printed for the flag. *)
Definition print_key (c : string * Z) : string := fst c +:+ String equals (FormatInt (snd c)).

Definition print_keys (l : list (string * Z)) : string := Join (print_key <$> l) comma.

Record printable_key (c : string * Z) : Prop := {
  pk_name : fst c ≠ "";
  pk_avoids : avoids equals (fst c) ∧ avoids comma (fst c);
  pk_limit : 0 ≤ snd c < 2 ^ 63;
}.

(** What the flag [key=limit] stores. *)
Definition key_entry (c : string * Z) : string * KeyInfo :=
  (fst c, {| InfoKeyID := fst c; RequestsPerMin := snd c |}).

Lemma add_key_print store c : printable_key c → add_key store (print_key c) = <[(key_entry c).1 := (key_entry c).2]> store.
Proof.
  intros [Hn [He _] Hl]. unfold add_key, print_key. rewrite Cut_app by done.
  rewrite decide_False by done. by rewrite Atoi_FormatInt.
Qed.

Lemma parseAPIKeys_print l :
  l ≠ [] → NoDup l.*1 → Forall printable_key l →
  parseAPIKeys (print_keys l) = Some (list_to_map (key_entry <$> l)).
Proof.
  intros Hne Hnd Hall. unfold parseAPIKeys. case_decide as Hs.
  { destruct l as [|c l]; [done|]. exfalso. apply Forall_cons in Hall as [[Hn] _].
    destruct c as [[|a n] vs]; [done|]. by destruct l. }
  unfold print_keys. rewrite Split_Join; [| |].
  - f_equal. apply foldl_add_print.
    + intros out c Hc. apply add_key_print. rewrite Forall_forall in Hall. auto.
    + rewrite <- list_fmap_compose. exact Hnd.
  - by destruct l.
  - apply Forall_fmap. eapply Forall_impl; [exact Hall|]. intros c [_ [_ Hn] Hl].
    simpl. unfold print_key. apply avoids_app. split; [done|]. split; [done|].
    apply FormatInt_avoids; [lia|done].
Qed.

(** Every key the parser stores carries the secret itself as its public label. *)
Lemma add_key_label store pair k info :
  (∀ k' info', store !! k' = Some info' → InfoKeyID info' = k') →
  add_key store pair !! k = Some info → InfoKeyID info = k.
Proof.
  intros Hs. unfold add_key. destruct (Cut pair equals) as [[k0 v]|]; [|apply Hs].
  case_decide; [apply Hs|]. unfold AddKey. rewrite lookup_insert. case_decide; [|apply Hs].
  by intros [= <-].
Qed.

Lemma parsed_label s store k info :
  parseAPIKeys s = Some store → Lookup k store = Some info → InfoKeyID info = k.
Proof.
  unfold parseAPIKeys. case_decide; [done|]. intros [= <-]. unfold Lookup.
  assert (∀ l m, (∀ k' info', m !! k' = Some info' → InfoKeyID info' = k') →
    ∀ k info, foldl add_key m l !! k = Some info → InfoKeyID info = k) as Hfold.
  { clear. induction l as [|p l IH]; intros m Hm; simpl; [done|]. apply IH.
    intros k info. by apply add_key_label. }
  apply Hfold. intros k' info'. unfold NewKeyStore. by rewrite lookup_empty.
Qed.

(** The keys endpoint hands out the credentials: with keys configured from the flag,
    every key that authenticates a client is listed verbatim as the [key_id] of the
    response. *)
Theorem keys_are_exposed `{MapRange} fused i now s store limiter k info :
  parseAPIKeys s = Some store → Lookup k store = Some info →
  ∃ resp, resp ∈ snd (handleKeys fused i now (Some store) limiter) ∧ resp_KeyID resp = k.
Proof.
  intros Hp Hk. pose proof (parsed_label _ _ _ _ Hp Hk) as Hlabel. simpl.
  assert (info ∈ ListKeys i store) as (j & Hj)%list_elem_of_lookup.
  { unfold ListKeys. apply list_elem_of_fmap. exists (k, info). split; [done|]. by apply elem_of_range. }
  exists (key_resp fused limiter (now j) info). split.
  - apply list_elem_of_lookup. exists j. by rewrite list_lookup_imap, Hj.
  - unfold key_resp. by case_goal.
Qed.

(** ** Counting *)

Definition is_add (a b : Add) : bool :=
  match a, b with
  | AddTotal, AddTotal | AddSuccess, AddSuccess | AddErrors, AddErrors => true
  | _, _ => false
  end.

Definition occurrences (a : Add) (ops : list Add) : Z :=
  Z.of_nat (sum_list_with (λ b, if is_add a b then 1%nat else 0%nat) ops).

Lemma occurrences_app a l1 l2 : occurrences a (l1 ++ l2) = occurrences a l1 + occurrences a l2.
Proof. unfold occurrences. rewrite sum_list_with_app. lia. Qed.

Lemma occurrences_Hook b :
  occurrences AddTotal (Hook b) = 1 ∧ occurrences AddSuccess (Hook b) = (if b then 1 else 0) ∧
  occurrences AddErrors (Hook b) = (if b then 0 else 1).
Proof. by destruct b. Qed.

Lemma apply_adds ops x y z :
  Snapshot (foldl apply_add {| total := int64 x; success := int64 y; errors := int64 z |} ops) =
    (int64 (x + occurrences AddTotal ops), int64 (y + occurrences AddSuccess ops),
     int64 (z + occurrences AddErrors ops)).
Proof.
  revert x y z. induction ops as [|a ops IH]; intros x y z; [unfold Snapshot; simpl; by rewrite !Z.add_0_r|].
  destruct a; cbn [foldl apply_add total success errors]; rewrite int64_add_l, IH; simpl;
    unfold occurrences; (apply pair_equal_spec; split; [apply pair_equal_spec; split|]);
    apply (f_equal int64); simpl; lia.
Qed.

(** One request of a run: what it brings along. *)
Record Visit := {
  v_request : GoHttp.Request;
  v_limit : Z;
  v_enqueue : Z;
  v_dispatch : Queue.Request → Outcome;
}.

Section counting.
Context (g : Gateway) (target : Target) (fused : bool).

(** The requests in turn: the responses and the calls of the hook. *)
Fixpoint serve (visits : list Visit) (s : Shared) : list Writer * list (string * bool) :=
  match visits with
  | [] => ([], [])
  | v :: visits' =>
    let '(w, s1, calls) :=
      ServeHTTP g target fused (v_limit v) (v_enqueue v) (v_dispatch v) (v_request v) newWriter s in
    let '(ws, calls') := serve visits' s1 in
    (w :: ws, calls ++ calls')
  end.

Definition told_success (w : Writer) : bool :=
  match Written w with Some code => is_success code | None => false end.

Definition inference (v : Visit) : Prop :=
  Path (v_request v) = "/v1/chat/completions" ∨ Path (v_request v) = "/v1/completions".

Lemma serve_calls visits s :
  with_hook g = true → Forall inference visits →
  (snd <$> snd (serve visits s)) = told_success <$> fst (serve visits s) ∧
  length (fst (serve visits s)) = length visits.
Proof.
  intros Hh. intros Hall. revert s. induction Hall as [|v visits Hv _ IH]; intros s; [done|]. simpl.
  unfold ServeHTTP. rewrite decide_True by done. unfold handleInference. rewrite Hh.
  destruct (run_truthful g target fused (v_limit v) (v_enqueue v) (v_dispatch v) (v_request v) newWriter s)
    as (code & Hw & Hs); [done|].
  set (e := run _ _ _ _ _ _ _ _ _) in *. specialize (IH (e_shared e)).
  destruct (serve visits (e_shared e)) as [ws calls]. simpl in *. destruct IH as [IH ->].
  split; [|done]. f_equal; [|exact IH]. unfold told_success. by rewrite Hw.
Qed.

(** Every inference request is counted once, and as what its client was told: after any
    requests, and in whatever order the hook's additions reach the counters, the
    success counter is the number of 2xx responses, the error counter the number of all
    others, and the total their sum. *)
Theorem counters_match_responses visits s ops :
  with_hook g = true → Forall inference visits → Z.of_nat (length visits) < 2 ^ 63 →
  let '(ws, calls) := serve visits s in
  ops ≡ₚ concat ((λ c, Hook (snd c)) <$> calls) →
  let ok := Z.of_nat (length (filter told_success ws)) in
  Snapshot (foldl apply_add NewStats ops) =
    (Z.of_nat (length visits), ok, Z.of_nat (length visits) - ok).
Proof.
  intros Hh Hall Hlen. destruct (serve_calls visits s Hh Hall) as [Hc Hn].
  destruct (serve visits s) as [ws calls]. simpl in *. intros Hops.
  change NewStats with {| total := int64 0; success := int64 0; errors := int64 0 |}.
  rewrite apply_adds, !Z.add_0_l.
  assert (∀ l : list (string * bool),
    occurrences AddTotal (concat ((λ c, Hook (snd c)) <$> l)) = Z.of_nat (length l) ∧
    occurrences AddSuccess (concat ((λ c, Hook (snd c)) <$> l)) = Z.of_nat (length (filter (λ b : bool, b) (snd <$> l))) ∧
    occurrences AddErrors (concat ((λ c, Hook (snd c)) <$> l)) =
      Z.of_nat (length l) - Z.of_nat (length (filter (λ b : bool, b) (snd <$> l)))) as Hocc.
  { induction l as [|[m b] l IH]; [done|]. destruct IH as (H1 & H2 & H3).
    change (concat ((λ c, Hook (snd c)) <$> (m, b) :: l)) with (Hook b ++ concat ((λ c, Hook (snd c)) <$> l)).
    change (snd <$> (m, b) :: l) with (b :: (snd <$> l)).
    destruct (occurrences_Hook b) as (Hb1 & Hb2 & Hb3).
    rewrite !occurrences_app, filter_cons, H1, H2, H3, Hb1, Hb2, Hb3.
    destruct b; [rewrite decide_True by done|rewrite decide_False by (by intros [])]; cbn [length]; lia. }
  assert (∀ a, occurrences a ops = occurrences a (concat ((λ c, Hook (snd c)) <$> calls))) as Hperm.
  { intros a. unfold occurrences. by rewrite Hops. }
  destruct (Hocc calls) as (H1 & H2 & H3). rewrite !Hperm, H1, H2, H3, Hc.
  assert (length (filter (λ b : bool, b) (told_success <$> ws)) = length (filter told_success ws)) as Hf.
  { clear. induction ws as [|w ws IH]; [done|].
    change (told_success <$> w :: ws) with (told_success w :: (told_success <$> ws)).
    rewrite !filter_cons. destruct (told_success w);
      [rewrite !decide_True by done; cbn [length]; by rewrite IH
      |rewrite !decide_False by (by intros []); exact IH]. }
  assert (length calls = length visits) as Hcl.
  { apply (f_equal length) in Hc. rewrite !length_fmap in Hc. lia. }
  pose proof (length_filter told_success ws).
  rewrite Hf, Hcl, !int64_id by lia. done.
Qed.

End counting.

(** A stray comma is an empty name in the chain. *)
Example stray_comma : parseFallbackMap "llama3=mistral," = {["llama3" := ["mistral"; ""]]}.
Proof. vm_compute. reflexivity. Qed.

(** *** Witnesses *)

Lemma parseFallbackMap_print_witness :
  parseFallbackMap (print_chains [("llama3:70b", ["llama3:8b"; "llama3:3b"]); ("mistral:7b", ["llama3:3b"])]) =
    list_to_map [("llama3:70b", ["llama3:8b"; "llama3:3b"]); ("mistral:7b", ["llama3:3b"])].
Proof.
  apply parseFallbackMap_print.
  - apply (bool_decide_unpack _). vm_compute. done.
  - repeat constructor; simpl; try done.
Defined.

Lemma keys_are_exposed_witness :
  ∃ store, parseAPIKeys "sk-secret=60" = Some store ∧
    ∃ resp, resp ∈ snd (handleKeys false 0 (λ _, 0) (Some store) None) ∧ resp_KeyID resp = "sk-secret".
Proof.
  eexists. split; [reflexivity|].
  apply (keys_are_exposed false 0 (λ _, 0) "sk-secret=60" _ None "sk-secret"
    {| InfoKeyID := "sk-secret"; RequestsPerMin := 60 |}); reflexivity.
Defined.

Definition demo_visit (auth : string) : Visit :=
  {| v_request := demo_client auth; v_limit := 0; v_enqueue := 0; v_dispatch := demo_dispatch |}.

Lemma counters_match_responses_witness :
  let visits := [demo_visit "Bearer secret"; demo_visit "Bearer wrong"] in
  let '(ws, calls) := serve demo_gateway (portable NoFusing) false visits demo_shared in
  Written <$> ws = [Some 200; Some 401] ∧
  Snapshot (foldl apply_add NewStats [AddTotal; AddTotal; AddErrors; AddSuccess]) = (2, 1, 1).
Proof.
  intros visits.
  pose proof (counters_match_responses demo_gateway (portable NoFusing) false
    visits demo_shared [AddTotal; AddTotal; AddErrors; AddSuccess]) as Hc.
  assert (Forall inference visits) as Hv by (repeat constructor; right; reflexivity).
  specialize (Hc eq_refl Hv). cbv zeta in Hc.
  destruct (serve _ _ _ _ _) as [ws calls] eqn:Hs. vm_compute in Hs. injection Hs as <- <-.
  split; [reflexivity|]. apply Hc.
  - simpl. lia.
  - simpl. apply Permutation_cons; [done|].
    symmetry. apply (Permutation_cons_append [AddTotal; AddErrors] AddSuccess).
Defined.
