(* ===== verification/Bodies.v ===== *)
(** * The request body on its way

    One body is read three times: by the gateway, by the dispatcher when it puts a
    fallback's name into it, and by the router.  What they read agrees: the model, the
    stream flag, and every other field. *)

From S2P Require Import Prelude GoStrings GoJson GoText GoUnmarshal Queue Router Dispatcher Gateway.
Open Scope Z_scope.
#[local] Set Warnings "-register-all".

(** ** Names of fields *)

Lemma selects_fold key name : selects key name = true ↔ fold_name key = fold_name name.
Proof.
  unfold selects. rewrite orb_true_iff, !bool_decide_eq_true. split; [by intros [->|?]|by right].
Qed.

Lemma selects_other key : selects key "model" = true → selects key "stream" = false.
Proof.
  intros H%selects_fold. apply not_true_iff_false. rewrite selects_fold, H. by vm_compute.
Qed.

Lemma fold_name_cons c s d r :
  fold_name (String c s) = String d r → d ≠ "S"%char → d ≠ "K"%char → upper c = d ∧ fold_name s = r.
Proof.
  intros H Hs Hk. revert H. cbn [fold_name]. destruct s as [|c1 [|c2 s]].
  - by intros [= -> <-].
  - case_match; [by intros [= <-]|by intros [= -> <-]].
  - do 2 (case_match; [by intros [= <-]|]). by intros [= -> <-].
Qed.

Lemma upper_inv c d : upper c = d → is_lower d = false → c = d ∨ c = byte (code d + 32).
Proof. intros <-. destruct c as [[] [] [] [] [] [] [] []]; vm_compute; auto; done. Qed.

(** Of the names that select the model field, [model] itself comes last. *)
Lemma model_last key : selects key "model" = true → key ≠ "model" → str_leb "model" key = false.
Proof.
  rewrite selects_fold. change (fold_name "model") with "MODEL". intros H Hne.
  destruct key as [|c1 s]; [done|]. apply fold_name_cons in H as [H1 H]; [|done..].
  destruct s as [|c2 s]; [done|]. apply fold_name_cons in H as [H2 H]; [|done..].
  destruct s as [|c3 s]; [done|]. apply fold_name_cons in H as [H3 H]; [|done..].
  destruct s as [|c4 s]; [done|]. apply fold_name_cons in H as [H4 H]; [|done..].
  destruct s as [|c5 s]; [done|]. apply fold_name_cons in H as [H5 H]; [|done..].
  assert (s = "") as ->.
  { destruct s as [|c [|c' [|c'' s]]]; [done|done|..]; revert H; cbn [fold_name]; by repeat case_match. }
  apply upper_inv in H1 as [-> | ->], H2 as [-> | ->], H3 as [-> | ->], H4 as [-> | ->], H5 as [-> | ->];
    done.
Qed.

(** ** The two structs *)

Lemma payload_field_eq key v m b : payload_field key v (m, b) =
  if selects key "model" then (λ m', (m', b)) <$> store_string v m
  else if selects key "stream" then (λ b', (m, b')) <$> store_bool v b
  else Some (m, b).
Proof. done. Qed.

(** The router reads the model that the gateway read. *)
Lemma payload_model l p p' :
  store_members payload_field l p = Some p' → store_members model_field l p.1 = Some p'.1.
Proof.
  revert p. induction l as [|[k v] l IH]; intros [m b]; [by intros [= <-]|]. cbn [store_members fst].
  assert (model_field (decode k) v m = if selects (decode k) "model" then store_string v m else Some m) as -> by done.
  rewrite payload_field_eq. destruct (selects (decode k) "model").
  - destruct (store_string v m) as [m1|]; [|done]. apply (IH (m1, b)).
  - destruct (selects (decode k) "stream"); [|apply (IH (m, b))].
    destruct (store_bool v b) as [b1|]; [|done]. apply (IH (m, b1)).
Qed.

Lemma decode_payload_model body model stream :
  decode_payload body = Some (model, stream) → decode_model body = Some model.
Proof.
  unfold decode_payload, decode_model, unmarshal_struct.
  destruct (parse body) as [[]|]; try done; [by intros [= <- <-]|]. by intros H%payload_model.
Qed.

(** A member that the gateway's struct accepts. *)
Definition typed (key : string) (v : json) : bool :=
  if selects key "model" then match v with JStr _ | JNull => true | _ => false end
  else if selects key "stream" then match v with JBool _ | JNull => true | _ => false end
  else true.

Lemma payload_typed l p :
  (∃ p', store_members payload_field l p = Some p') ↔ ∀ k v, (k, v) ∈ l → typed (decode k) v = true.
Proof.
  revert p. induction l as [|[k v] l IH]; intros [m b].
  { split; [intros _ k v []%not_elem_of_nil|by eexists]. }
  assert (∀ o, (∃ p', o = Some p' ∧ typed (decode k) v = true) ∨ (o = None ∧ typed (decode k) v = false) →
    payload_field (decode k) v (m, b) = o →
    (∃ p', store_members payload_field ((k, v) :: l) (m, b) = Some p') ↔
    ∀ k' v', (k', v') ∈ (k, v) :: l → typed (decode k') v' = true) as Hstep.
  { intros o Ho E. cbn [store_members]. rewrite E. setoid_rewrite elem_of_cons.
    destruct Ho as [(p & -> & Ht)|[-> Ht]].
    - cbn [mbind option_bind]. rewrite IH. split; [intros H k' v' [[= -> ->]|?]; [done|by apply H]|eauto].
    - split; [by intros [? ?]|]. intros H. specialize (H k v (or_introl eq_refl)). congruence. }
  eapply Hstep; [|done]. rewrite payload_field_eq. unfold typed. destruct (selects (decode k) "model").
  { destruct v; simpl; by eauto. }
  destruct (selects (decode k) "stream"); [|by eauto]. destruct v; simpl; by eauto.
Qed.

Lemma typed_compact key v : typed key (compact v) = typed key v.
Proof. unfold typed. by destruct v. Qed.

(** Members that do not name the model leave it alone. *)
Lemma payload_model_kept l p p' :
  (∀ k v, (k, v) ∈ l → selects (decode k) "model" = false) →
  store_members payload_field l p = Some p' → p'.1 = p.1.
Proof.
  intros Hl. revert p. induction l as [|[k v] l IH]; intros [m b]; [by intros [= <-]|].
  cbn [store_members]. rewrite payload_field_eq, (Hl k v) by (by left).
  specialize (IH (λ k v h, Hl k v (proj2 (elem_of_cons _ _ _) (or_intror h)))).
  destruct (selects (decode k) "stream"); [|by apply (IH (m, b))].
  destruct (store_bool v b) as [b'|]; [|done]. by apply (IH (m, b')).
Qed.

(** The members that name the stream flag. *)
Definition stream_members (l : list (list item * json)) : list (list item * json) :=
  filter (λ m, selects (decode m.1) "stream" = true) l.

Definition flag (b : bool) (m : list item * json) : bool := match m.2 with JBool c => c | _ => b end.

Lemma payload_stream l p p' :
  store_members payload_field l p = Some p' → p'.2 = foldl flag p.2 (stream_members l).
Proof.
  revert p. induction l as [|[k v] l IH]; intros [m b]; [by intros [= <-]|]. cbn [store_members].
  rewrite payload_field_eq. unfold stream_members in *. rewrite filter_cons. cbn [fst snd]. destruct (selects (decode k) "model") eqn:Hm.
  { rewrite (selects_other _ Hm), decide_False by done. destruct (store_string v m) as [m'|]; [|done].
    apply (IH (m', b)). }
  destruct (selects (decode k) "stream"); [|rewrite decide_False by done; apply (IH (m, b))].
  rewrite decide_True by done. destruct (store_bool v b) as [b'|] eqn:E; [|done]. intros H.
  rewrite (IH (m, b') H). simpl. f_equal. by destruct v; simplify_eq/=.
Qed.

(** ** What [setModel] makes of a body *)

Section rewriting.
Context `{JsonError}.

Lemma setModel_inv body model body' :
  setModel body model = Ok (inr body') →
  ∃ l, parse body = Some (JObj l) ∧
    unmarshal_fields body = Some (Some (fields_of l)) ∧
    body' = marshal_fields (<["model" := marshal_string model]> (fields_of l)).
Proof.
  unfold setModel, unmarshal_fields. destruct (parse body) as [[]|]; try done. intros [= <-]. by eexists.
Qed.

Lemma set_model_wf m model : wf_fields m → wf_fields (<["model" := marshal_string model]> m).
Proof.
  intros Hm. apply map_Forall_insert_2; [|done]. split; [by vm_compute|]. constructor. apply quote_wf.
Qed.

(** C24: Putting a fallback's name into a body changes that field only: the rewritten body is
    an object again, its [model] is the new name (a name that is not UTF-8 with U+FFFD for
    the bytes that are not), and every other field, known to the program or not, is there
    with the value it had - numbers digit for digit, strings and nested keys the same once
    read, though written with other escapes. *)
Theorem setModel_fields body model body' :
  setModel body model = Ok (inr body') →
  ∃ fields fields', unmarshal_fields body = Some (Some fields) ∧
    unmarshal_fields body' = Some (Some fields') ∧
    decoded <$> fields' = <["model" := DStr (to_valid model)]> (decoded <$> fields).
Proof.
  intros (l & _ & Hu & ->)%setModel_inv. pose proof (unmarshal_fields_wf _ _ Hu) as Hwf.
  eexists _, _. split; [exact Hu|]. split; [by apply unmarshal_marshal, set_model_wf|].
  rewrite <- map_fmap_compose, fmap_insert. simpl. rewrite decode_compact, decode_quote. f_equal.
  apply map_fmap_ext. intros k v _. apply decoded_compact.
Qed.

(** The members of the rewritten body, the new model's with none behind it that names the
    model too. *)
Lemma written_members l model :
  wf_fields (fields_of l) →
  let m := <["model" := marshal_string model]> (fields_of l) in
  ∃ l1 l2, map write_member (sorted_fields m) = l1 ++ write_member ("model", marshal_string model) :: l2 ∧
    ∀ k v, (k, v) ∈ l2 → selects (decode k) "model" = false.
Proof.
  intros Hwf m. assert (wf_fields m) as Hm by by apply set_model_wf.
  assert (("model", marshal_string model) ∈ sorted_fields m) as Hin
    by (apply elem_of_sorted_fields; apply lookup_insert_eq).
  pose proof (sorted_fields_sorted m) as Hs. pose proof (sorted_fields_nodup m) as Hnd.
  apply list_elem_of_split in Hin as (s1 & s2 & Heq).
  exists (map write_member s1), (map write_member s2). rewrite Heq, map_app. split; [done|].
  intros k0 v0 ([k v] & [= -> ->] & Hkv)%list_elem_of_fmap.
  assert (m !! k = Some v) as Hk
    by (apply elem_of_sorted_fields; rewrite Heq; apply elem_of_app; right; by right).
  erewrite decode_written by done. destruct (selects k "model") eqn:Hsel; [|done]. exfalso.
  assert (k ≠ "model") as Hne.
  { intros ->. rewrite Heq, fmap_app in Hnd. apply NoDup_app in Hnd as (_ & _ & Hnd).
    apply NoDup_cons in Hnd as [Hnd _]. apply Hnd, list_elem_of_fmap. by exists ("model", v). }
  apply model_last in Hsel; [|done]. rewrite Heq in Hs. clear -Hs Hkv Hsel.
  induction s1 as [|x s1 IH]; [|inversion Hs; auto].
  inversion Hs as [|? ? _ Hle]; subst. rewrite Forall_forall in Hle. apply Hle in Hkv.
  change (str_leb "model" k = true) in Hkv. congruence.
Qed.

Lemma written_elem m k v : wf_fields m → (k, v) ∈ map write_member (sorted_fields m) →
  ∃ w, m !! decode k = Some w ∧ k = quote_items (decode k) ∧ v = compact w.
Proof.
  intros Hm ([k' w] & [= -> ->] & Hin%elem_of_sorted_fields)%list_elem_of_fmap. exists w.
  by erewrite decode_written by done.
Qed.

Lemma set_model_lookup l model k v :
  k ≠ "model" → (<["model" := marshal_string model]> (fields_of l) : gmap string json) !! k = Some v →
  ∃ x, (x, v) ∈ l ∧ decode x = k.
Proof. intros Hk. rewrite lookup_insert_ne by done. apply fields_of_Some. Qed.

(** The rewritten body is accepted again. *)
Lemma written_typed l model p :
  wf_fields (fields_of l) → (∃ p', store_members payload_field l p = Some p') →
  let m := <["model" := marshal_string model]> (fields_of l) in
  ∃ p', store_members payload_field (map write_member (sorted_fields m)) p = Some p'.
Proof.
  intros Hwf Ht m. apply payload_typed. rewrite payload_typed in Ht.
  intros k v (w & Hw & _ & ->)%written_elem; [|by apply set_model_wf]. rewrite typed_compact.
  destruct (decide (decode k = "model")) as [Hk|Hk].
  - rewrite Hk in *. subst m. rewrite lookup_insert_eq in Hw. by injection Hw as <-.
  - apply set_model_lookup in Hw as (x & Hx & <-); [|done]. by apply Ht.
Qed.

Lemma decode_model_key : decode (quote_items "model") = "model".
Proof. by vm_compute. Qed.

Lemma written_model l model p p' :
  wf_fields (fields_of l) →
  let m := <["model" := marshal_string model]> (fields_of l) in
  store_members payload_field (map write_member (sorted_fields m)) p = Some p' → p'.1 = to_valid model.
Proof.
  intros Hwf m. destruct (written_members l model Hwf) as (l1 & l2 & Heq & Hl2). fold m in Heq.
  rewrite Heq, store_members_app. destruct (store_members payload_field l1 p) as [[m1 b1]|]; [|done].
  cbn [mbind option_bind]. cbn [write_member store_members fst snd].
  rewrite decode_model_key, payload_field_eq. change (selects "model" "model") with true. cbv iota.
  simpl. intros H2%payload_model_kept; [|done]. simpl in H2. by rewrite H2, decode_compact, decode_quote.
Qed.

(** The stream flag: at most one member names it. *)
Definition one_stream (body : string) : Prop :=
  match parse body with Some (JObj l) => (length (stream_members l) ≤ 1)%nat | _ => True end.

Lemma elem_of_stream_members l k v :
  (k, v) ∈ stream_members l ↔ (k, v) ∈ l ∧ selects (decode k) "stream" = true.
Proof. unfold stream_members. rewrite list_elem_of_filter. simpl. tauto. Qed.

Lemma written_stream_members l model :
  wf_fields (fields_of l) → (length (stream_members l) ≤ 1)%nat →
  let m := <["model" := marshal_string model]> (fields_of l) in
  stream_members (map write_member (sorted_fields m)) =
  map (λ x, (quote_items (decode x.1), compact x.2)) (stream_members l).
Proof.
  intros Hwf Hlen m. assert (wf_fields m) as Hm by by apply set_model_wf.
  assert (∀ k v, (k, v) ∈ stream_members (map write_member (sorted_fields m)) →
    ∃ x w, (x, w) ∈ stream_members l ∧ k = quote_items (decode x) ∧ v = compact w) as Hsub.
  { intros k v [(w & Hw & Hk & ->)%written_elem Hs]%elem_of_stream_members; [|done].
    apply set_model_lookup in Hw as (x & Hx & Hxk); [|intros E; rewrite E in Hs; by vm_compute in Hs].
    exists x, w. rewrite Hxk. split; [|done]. apply elem_of_stream_members. by rewrite Hxk. }
  destruct (stream_members l) as [|[x w] [|]] eqn:El; simpl in Hlen; [| |lia].
  - destruct (stream_members (map _ _)) as [|[k v] l'] eqn:E; [done|].
    destruct (Hsub k v) as (? & ? & []%not_elem_of_nil & _). by left.
  - assert (∀ y u, (y, u) ∈ stream_members l → y = x ∧ u = w) as Honly.
    { intros y u. rewrite El. intros Hy%list_elem_of_singleton. by injection Hy. }
    assert ((x, w) ∈ l ∧ selects (decode x) "stream" = true) as [Hx Hsx].
    { apply elem_of_stream_members. rewrite El. by left. }
    apply Permutation_singleton_r. apply NoDup_Permutation.
    + apply (NoDup_fmap_1 (λ x, decode x.1)).
      eapply sublist_NoDup; [|apply fmap_sublist, sublist_filter].
      rewrite written_keys by done. apply sorted_fields_nodup.
    + apply NoDup_singleton.
    + intros [k v]. rewrite list_elem_of_singleton. split.
      * intros (y & u & [= -> ->]%list_elem_of_singleton & -> & ->)%Hsub. done.
      * intros [= -> ->]. assert (∃ u, fields_of l !! decode x = Some u) as [u Hu].
        { destruct (fields_of l !! decode x) eqn:E; [by eexists|]. rewrite fields_of_None in E.
          by destruct (E (x, w)). }
        pose proof (fields_of_Some _ _ _ Hu) as (y & Hy & Hyx).
        destruct (Honly y u) as [-> ->]; [apply elem_of_stream_members; by rewrite Hyx|].
        assert (decode x ≠ "model") as Hne by (intros E; rewrite E in Hsx; by vm_compute in Hsx).
        assert (m !! decode x = Some w) as Hmu by (subst m; by rewrite lookup_insert_ne).
        apply elem_of_stream_members. erewrite (decode_written (decode x)) by done. split; [|done].
        apply list_elem_of_fmap. exists (decode x, w). split; [done|by apply elem_of_sorted_fields].
Qed.

(** A body the gateway accepted stays one when a fallback's name is put into it: both
    structs decode it again, and the model they read is the new name, whatever other
    spellings of the field - [Model], [MODEL] - the client used and in whatever order,
    because [model] is written behind them all.  The stream flag is the one the gateway
    read, when at most one member names it. *)
Lemma setModel_decodes body model body' old stream :
  decode_payload body = Some (old, stream) → setModel body model = Ok (inr body') →
  ∃ stream', decode_payload body' = Some (to_valid model, stream') ∧
    decode_model body' = Some (to_valid model) ∧ (one_stream body → stream' = stream).
Proof.
  intros Hd (l & Hp & Hu & ->)%setModel_inv. pose proof (unmarshal_fields_wf _ _ Hu) as Hwf.
  unfold decode_payload, unmarshal_struct in Hd. rewrite Hp in Hd.
  destruct (written_typed l model ("", false) Hwf (ex_intro _ _ Hd)) as [[m' stream'] Hs].
  pose proof (written_model _ _ _ _ Hwf Hs) as Hm. simpl in Hm. subst m'.
  assert (decode_payload (marshal_fields (<["model" := marshal_string model]> (fields_of l)))
    = Some (to_valid model, stream')) as Hd'.
  { unfold decode_payload, unmarshal_struct. rewrite parse_marshal; [exact Hs|by apply set_model_wf]. }
  exists stream'. split; [done|]. split; [by eapply decode_payload_model|].
  unfold one_stream. rewrite Hp. intros Hone.
  apply payload_stream in Hd, Hs. simpl in Hd, Hs. rewrite Hd, Hs, written_stream_members by done.
  destruct (stream_members l) as [|[x []] [|]]; simpl in *; try done; lia.
Qed.

(** A model that was read is UTF-8. *)
Lemma decoded_model_valid body model stream :
  decode_payload body = Some (model, stream) → to_valid model = model.
Proof.
  intros Hd. unfold decode_payload, unmarshal_struct in Hd.
  destruct (parse body) as [[]|] eqn:Hp; try done; [by injection Hd as <- _|].
  apply parse_wf in Hp. inversion Hp as [| | | | |? ? _ Hl]; subst. clear Hp.
  assert (∀ l p p', Forall (λ m, wf_string m.1 ∧ wf_json 1 m.2) l → to_valid p.1 = p.1 →
    store_members payload_field l p = Some p' → to_valid p'.1 = p'.1) as Hall.
  { clear. induction l as [|[k v] l IH]; intros [m b] p' Hl Hm; [by intros [= <-]|].
    apply Forall_cons in Hl as [[_ Hv] Hl]. cbn [store_members]. rewrite payload_field_eq.
    repeat case_match; simpl.
    - destruct v; try done; simpl; (apply IH; [done|]); [done|]. simpl.
      inversion Hv. by apply to_valid_decode.
    - destruct (store_bool v b); [|done]. by apply IH.
    - by apply IH. }
  exact (Hall l ("", false) _ Hl eq_refl Hd).
Qed.

(** What the dispatcher sends for one model of the chain. *)
Lemma sent_body req model body :
  decode_payload (Body req) = Some (ReqModel req, Stream req) →
  (if decide (model = ReqModel req) then body = Body req else setModel (Body req) model = Ok (inr body)) →
  decode_model body = Some (to_valid model) ∧
  (one_stream (Body req) → decode_payload body = Some (to_valid model, Stream req)).
Proof.
  intros Hd. case_decide as Hm.
  - intros ->. subst model. assert (to_valid (ReqModel req) = ReqModel req) as ->; [by eapply decoded_model_valid|].
    split; [by eapply decode_payload_model|done].
  - intros Hbody. destruct (setModel_decodes _ _ _ _ _ Hd Hbody) as (stream' & Hd' & Hm' & Hone).
    split; [done|]. by intros <-%Hone.
Qed.

(** C23: Every call the dispatcher makes for a request the gateway accepted carries a body
    in which the router reads the model that this call is for, the requested one or a
    fallback, whatever other spellings of the field the client used; and the worker reads
    the stream flag the gateway read, when the client's body names it once. *)
Theorem sent_bodies d req steps model body :
  decode_payload (Body req) = Some (ReqModel req, Stream req) →
  plan d req = Ok steps → (model, body) ∈ omap as_send steps →
  decode_model body = Some (to_valid model) ∧
  (one_stream (Body req) → decode_payload body = Some (to_valid model, Stream req)).
Proof.
  intros Hd Hp Hin. destruct (plan_sends _ _ _ _ Hp) as [_ Hsends].
  destruct (Hsends model body Hin) as [_ Hbody]. by apply sent_body.
Qed.

End rewriting.

(** *** Witnesses *)

Definition demo_mixed : string :=
  object_text [("Model", marshal_string "mistral"); ("messages", JArr [JStr [Byte "<"; Esc "n"; Uni "0" "0" "e" "9"]]);
    ("model", marshal_string "llama3"); ("stream", JBool true)].

Lemma setModel_fields_witness :
  ∃ body', @setModel demo_error demo_mixed "phi" = Ok (inr body') ∧ body' ≠ demo_mixed ∧
    ∃ fields', unmarshal_fields body' = Some (Some fields') ∧
      (decoded <$> fields' !! "messages") = Some (DArr [DStr (String "<" (String (byte 10) (String (byte 195) (String (byte 169) ""))))]).
Proof.
  destruct (@setModel demo_error demo_mixed "phi") as [[err|body']|] eqn:Hs;
    [vm_compute in Hs; discriminate Hs| |vm_compute in Hs; discriminate Hs].
  exists body'. split; [reflexivity|]. split; [vm_compute in Hs; injection Hs as <-; vm_compute; discriminate|].
  destruct (@setModel_fields demo_error demo_mixed "phi" body' Hs) as (fields & fields' & Hf & Hf' & Heq).
  exists fields'. split; [exact Hf'|]. rewrite <- lookup_fmap, Heq, lookup_insert_ne by done.
  vm_compute in Hf. injection Hf as <-. vm_compute. reflexivity.
Defined.

Definition demo_mixed_request : Queue.Request :=
  {| ID := "req-1"; Body := demo_mixed; ReqModel := "llama3"; Priority := PriorityNormal;
     EnqueuedAt := 0; KeyID := ""; Stream := true |}.

Lemma sent_bodies_witness :
  ∃ steps body, @plan demo_error demo_dispatcher demo_mixed_request = Ok steps ∧
    ("mistral", body) ∈ omap as_send steps ∧ decode_model body = Some "mistral".
Proof.
  destruct (@plan demo_error demo_dispatcher demo_mixed_request) as [steps|p] eqn:Hp;
    [|vm_compute in Hp; discriminate Hp].
  destruct (@setModel demo_error demo_mixed "mistral") as [[err|body]|] eqn:Hs;
    [vm_compute in Hs; discriminate Hs| |vm_compute in Hs; discriminate Hs].
  assert (("mistral", body) ∈ omap as_send steps) as Hin.
  { vm_compute in Hs. injection Hs as <-. vm_compute in Hp. injection Hp as <-. vm_compute. right. right. left. }
  exists steps, body. split; [reflexivity|]. split; [exact Hin|].
  apply (@sent_bodies demo_error demo_dispatcher demo_mixed_request steps "mistral" body); [|exact Hp|exact Hin].
  vm_compute. reflexivity.
Defined.

(** With two spellings of the stream flag the rewritten body can say the opposite: members
    are written in the order of their keys, and the last one counts. *)
Example stream_flag_flips :
  let body := object_text [("model", marshal_string "llama3"); ("stream", JBool true); ("Stream", JBool false)] in
  ∃ body', @setModel demo_error body "mistral" = Ok (inr body') ∧
    decode_payload body = Some ("llama3", false) ∧ decode_payload body' = Some ("mistral", true).
Proof. eexists. split; [vm_compute; reflexivity|]. by vm_compute. Qed.
