(* ===== verification/EndToEnd.v ===== *)
(** * From the queue to the workers

    The dispatcher with the router behind it: each call of the dispatcher is one request the
    router serves, on whatever registry and surroundings it meets by then.  The theorems
    compose what Dispatcher, Bodies and RouterProps show of the two sides, and go on to what a
    client of the gateway reads of the result. *)

From S2P Require Import Prelude GoFloat GoStrings Proto GoTimer GoHttp GoJson GoText GoUnmarshal Registry RegistryProps Router RouterProps Queue Slo Dispatcher Gateway Bodies.
Open Scope Z_scope.
#[local] Arguments transient {R}.
#[local] Arguments report {R}.
#[local] Arguments commit {R}.
#[local] Arguments exhausted {R}.

(** ** What the gateway's client reads of a result *)

Lemma writes_spec chunks w code : Written w = Some code →
  let w' := foldl (λ w c, Write c w) w chunks in
  Written w' = Some code ∧ RespHeader w' = RespHeader w ∧ RespBody w' = RespBody w +:+ read_all chunks.
Proof.
  revert w. induction chunks as [|c chunks IH]; intros w Hw; simpl.
  - split_and!; [done|done|]. by rewrite String_app_nil_r.
  - destruct (IH (Write c w)) as (H1 & -> & ->); [unfold Write; by rewrite Hw|]. split_and!; [done|done|].
    simpl. by rewrite String_app_assoc.
Qed.

Section told.
Context (g : Gateway) (target : Target) (req : Queue.Request) (result : Result) (at_ : Z) (chunks : list string).
Context (w : Writer) (sh : Shared).
Hypothesis Hw : Written w = None.

(** The headers given before the result is looked at. *)
Lemma await_sampled :
  ∃ w1 s1, Written w1 = None ∧ RespBody w1 = RespBody w ∧
    await g target (λ _, Delivered result at_ chunks) req w sh =
    match Err result with
    | Some err => refuse err StatusBadGateway (ReqModel req) w1 s1
    | None =>
      let w2 := if decide (ServedModel result = "") then w1 else SetHeader "X-Served-Model" (ServedModel result) w1 in
      {| e_writer := if Streaming result then streamResponse result chunks w1
           else Write (ResBody result) (WriteHeader (StatusCode result) (SetHeader "Content-Type" "application/json" w2));
         e_shared := s1; e_model := ReqModel req; e_success := is_success (StatusCode result) |}
    end.
Proof.
  unfold await. destruct (with_slo g); eexists _, _; (split; [|split; [|reflexivity]]);
    by rewrite ?SetHeader_written, ?SetHeader_body.
Qed.

Lemma await_refused err :
  Err result = Some err →
  Written (e_writer (await g target (λ _, Delivered result at_ chunks) req w sh)) = Some StatusBadGateway.
Proof. intros He. destruct await_sampled as (w1 & s1 & Hw1 & _ & ->). rewrite He. by apply Error_status. Qed.

(** Status, bytes and the name of the model. *)
Lemma await_shows :
  RespBody w = "" → Err result = None →
  let e := await g target (λ _, Delivered result at_ chunks) req w sh in
  Written (e_writer e) = Some (StatusCode result) ∧
  RespBody (e_writer e) = (if Streaming result then read_all chunks else ResBody result) ∧
  (ServedModel result ≠ "" → Get (RespHeader (e_writer e)) "X-Served-Model" = ServedModel result) ∧
  e_model e = ReqModel req ∧ e_success e = is_success (StatusCode result).
Proof.
  intros Hb He. destruct await_sampled as (w1 & s1 & Hw1 & Hb1 & ->). rewrite He. rewrite Hb in Hb1. clear Hb.
  set (w2 := if decide (ServedModel result = "") then w1 else SetHeader "X-Served-Model" (ServedModel result) w1).
  assert (Written w2 = None ∧ RespBody w2 = "" ∧ (ServedModel result ≠ "" →
    Get (RespHeader w2) "X-Served-Model" = ServedModel result)) as (Hw2 & Hb2 & Hm2).
  { unfold w2. case_decide as Hs; [by split_and!|]. rewrite SetHeader_written, SetHeader_body, SetHeader_get by done.
    by rewrite decide_True. }
  cbv zeta. cbn [e_writer e_model e_success]. unfold streamResponse. fold w2. clearbody w2.
  destruct (Streaming result).
  - set (w3 := WriteHeader _ _).
    assert (Written w3 = Some (StatusCode result)) as Hw3 by (unfold w3; simpl; by rewrite !SetHeader_written, Hw2).
    destruct (writes_spec chunks w3 _ Hw3) as (H1 & H2 & H3). split_and!; [done| | |done|done].
    + rewrite H3. unfold w3. simpl. by rewrite !SetHeader_body, Hb2.
    + intros Hne. rewrite H2. unfold w3. simpl. rewrite !SetHeader_get by (by rewrite ?SetHeader_written).
      rewrite !decide_False by done. by apply Hm2.
  - split_and!; simpl; [by rewrite SetHeader_written, Hw2|by rewrite SetHeader_body, Hb2| |done|done].
    intros Hne. rewrite SetHeader_get by done. rewrite decide_False by done. by apply Hm2.
Qed.

End told.

(** The response of a gateway whose client still waits when the result comes. *)
Definition client_reads (req : Queue.Request) (result : Result) (chunks : list string) (status : Z) (bytes model : string)
    : Prop :=
  ∀ g target at_ w sh, Written w = None → RespBody w = "" →
    let w' := e_writer (await g target (λ _, Delivered result at_ chunks) req w sh) in
    Written w' = Some status ∧ RespBody w' = bytes ∧ Get (RespHeader w') "X-Served-Model" = model.

Lemma client_reads_result req result chunks :
  Err result = None → ServedModel result ≠ "" →
  client_reads req result chunks (StatusCode result)
    (if Streaming result then read_all chunks else ResBody result) (ServedModel result).
Proof.
  intros He Hm g target at_ w sh Hw Hb. destruct (await_shows g target req result at_ chunks w sh Hw Hb He) as (? & ? & H & _).
  split_and!; [done|done|by apply H].
Qed.

(** What the router meets when the [k]-th call of a request arrives. *)
Record Meeting := {
  m_range : nat;
  m_registry : Registry;
  m_env : nat → AttemptEnv;
  m_hook : bool;
}.

Section composition.
Context `{JsonError} `{FmtQuote} `{MapRange} (d : Dispatcher) (meet : nat → Meeting).

(** The dispatcher's call as the router's server parses it. *)
Definition received (c : Call) : GoHttp.Request :=
  {| Method := "POST"; Path := default "" (TrimPrefix (call_url c) (upstream d));
     ReqHeader := {["Content-Type" := "application/json"]}; ReqBody := Some (call_body c) |}.

(** What the router does on the [k]-th call. *)
Definition routed_run (k : nat) (c : Call) : list Event * Flow :=
  let m := meet k in Router.ServeHTTP (m_env m) (m_hook m) (m_range m) (m_registry m) (received c) newWriter.

(** The answer as the dispatcher's client sees it; a handler that panics drops the
    connection. *)
Definition answer_of (f : Flow) : Upstream :=
  match f with
  | Finished w => Answer (default StatusOK (Written w)) (Get (RespHeader w) "Content-Type") [RespBody w] None
  | Panicked _ => NoConnection "EOF"
  end.

Definition ask_router (k : nat) (c : Call) : Upstream := answer_of (snd (routed_run k c)).

(** The router answers the dispatcher with statuses the gateway's own [WriteHeader] takes. *)
Lemma ask_router_status k c status ctype pieces broken :
  ask_router k c = Answer status ctype pieces broken → valid_code status = true.
Proof.
  unfold ask_router. destruct (routed_run k c) as [evs [w|p]] eqn:Hr; [|done]. intros [= <- _ _ _].
  apply ServeHTTP_status in Hr as (code & -> & Hc); done.
Qed.

(** The requests the router sends to workers on the [k]-th call. *)
Definition forwards (evs : list Event) : list ProxyRequest :=
  omap (λ e, match e with EvForward r => Some r | _ => None end) evs.

Definition worker_requests (k : nat) (c : Call) : list ProxyRequest := forwards (fst (routed_run k c)).

(** The candidates the [k]-th call meets for a model. *)
Definition workers_for (k : nat) (model : string) : list WorkerEntry :=
  HealthyWorkersForModel (m_range (meet k)) model (m_registry (meet k)).

(** ** One call *)

Lemma received_path body : Path (received (buildRequest (upstream d) body)) = "/v1/chat/completions".
Proof. unfold received, buildRequest. simpl. by rewrite TrimPrefix_app. Qed.

Lemma routed_run_inference k body :
  routed_run k (buildRequest (upstream d) body) =
  Router.handleInference (m_env (meet k)) (m_hook (meet k)) (m_range (meet k)) (m_registry (meet k))
    (received (buildRequest (upstream d) body)) newWriter.
Proof. unfold routed_run, Router.ServeHTTP. rewrite received_path. by rewrite decide_True by (by left). Qed.

Definition no_workers_body (model : string) : string :=
  "no healthy workers available for model " +:+ quote model +:+ newline.

(** No candidate: a 503, and no worker hears of the call. *)
Lemma call_without_workers k body model :
  decode_model body = Some model → model ≠ "" → workers_for k model = [] →
  let c := buildRequest (upstream d) body in
  ask_router k c = Answer 503 "text/plain; charset=utf-8" [no_workers_body model] None ∧
  worker_requests k c = [].
Proof.
  intros Hm Hne Hw c. subst c. unfold ask_router, worker_requests. rewrite routed_run_inference.
  unfold Router.handleInference. rewrite decide_False by (intros Hn; by apply Hn).
  cbn [received ReqBody buildRequest call_body]. rewrite Hm.
  destruct model as [|a model]; [done|]. unfold workers_for in Hw. by rewrite Hw.
Qed.

(** The retry loop sends at most one request per attempt, each to one of the candidates. *)
Lemma attempts_forwards env hook n k req model body ws tried w :
  let fw := forwards (fst (attempts env hook n k req model body ws tried w)) in
  (length fw ≤ n)%nat ∧ ∀ r, r ∈ fw → ∃ e, e ∈ ws ∧ r = forwarded req body e.
Proof.
  assert (∀ o, forwards (call_hook hook model o) = []) as Hhook by (intros o; unfold call_hook; by destruct hook).
  revert k tried w. induction n as [|n IH]; intros k tried w; cbn [attempts fst].
  { rewrite Hhook. split; [done|by intros r []%not_elem_of_nil]. }
  case_decide as Hne; [cbn [fst]; rewrite Hhook; split; [simpl; lia|by intros r []%not_elem_of_nil]|].
  destruct (pickWorker _ _ _) as [c [e|p]] eqn:Hp; [|split; [simpl; lia|by intros r []%not_elem_of_nil]].
  cbv zeta. apply pickWorker_in in Hp. apply list_elem_of_filter in Hp as [_ He].
  assert (∀ evs, (length (forwards evs) ≤ n)%nat ∧ (∀ r, r ∈ forwards evs → ∃ e, e ∈ ws ∧ r = forwarded req body e) →
    let fw := forwards (attempt_events req body e ++ evs) in
    (length fw ≤ S n)%nat ∧ ∀ r, r ∈ fw → ∃ e, e ∈ ws ∧ r = forwarded req body e) as Hstep.
  { intros evs [Hlen Hin]. split; [simpl; unfold forwards in *; lia|].
    intros r [->|Hr]%elem_of_cons; [by exists e|by apply Hin]. }
  destruct (proxy _ _) as [[[[|] [err|]] w']|p].
  5: { split; [simpl; lia|]. intros r [->|[]%not_elem_of_nil]%elem_of_cons. by exists e. }
  1: { specialize (IH (S k) (id_of e :: tried) w'). destruct (attempts _ _ _ _ _ _ _ _ _ _) as [evs flow].
       by apply Hstep. }
  all: apply Hstep; rewrite Hhook; split; [simpl; lia|by intros r []%not_elem_of_nil].
Qed.

(** A call makes the router send at most three requests, each to a worker that can serve the
    model its body names, with that body. *)
Lemma worker_requests_spec k body :
  let rs := worker_requests k (buildRequest (upstream d) body) in
  (length rs ≤ 3)%nat ∧
  ∀ r, r ∈ rs → pr_body r = body ∧ ∃ model e, decode_model body = Some model ∧ e ∈ workers_for k model ∧
    pr_target r = "http://" +:+ Address (Info e) +:+ "/v1/chat/completions".
Proof.
  unfold worker_requests. rewrite routed_run_inference. unfold Router.handleInference.
  assert (let rs := @nil ProxyRequest in (length rs ≤ 3)%nat ∧
    ∀ r, r ∈ rs → pr_body r = body ∧ ∃ model e, decode_model body = Some model ∧ e ∈ workers_for k model ∧
    pr_target r = "http://" +:+ Address (Info e) +:+ "/v1/chat/completions") as Hnone
    by (split; [simpl; lia|by intros r []%not_elem_of_nil]).
  case_decide; [exact Hnone|]. cbn [received ReqBody buildRequest call_body].
  destruct (decode_model body) as [[|c m]|] eqn:Hm; [exact Hnone| |exact Hnone].
  case_decide; [exact Hnone|]. cbv zeta.
  set (ws := HealthyWorkersForModel _ _ _).
  destruct (attempts_forwards (m_env (meet k)) (m_hook (meet k)) (Z.to_nat (min (Z.of_nat (length ws)) 3)) 1
    (received (buildRequest (upstream d) body)) (String c m) body ws [] newWriter) as [Hlen Hin].
  split.
  - etrans; [exact Hlen|]. unfold min. case_match; lia.
  - intros r (e & He & ->)%Hin. split; [done|]. exists (String c m), e. split_and!; [done|done|].
    unfold forwarded, proxy_request, pr_target. by rewrite received_path.
Qed.

(** ** One request *)

(** The gateway queued this request: it read the model and the flag from the body. *)
Definition accepted (req : Queue.Request) : Prop :=
  decode_payload (Body req) = Some (ReqModel req, Stream req) ∧ ReqModel req ≠ "".

Definition body_for (req : Queue.Request) (model : string) : string :=
  if decide (model = ReqModel req) then Body req
  else match setModel (Body req) model with Ok (inr body) => body | _ => "" end.

(** The calls of a request when every answer is transient: model and body. *)
Definition all_sends (req : Queue.Request) (chain : list string) : list (string * string) :=
  concat (map (λ m, replicate (Z.to_nat (maxAttempts d)) (m, body_for req m)) chain).

Lemma accepted_object req : accepted req → ∃ fields, unmarshal_fields (Body req) = Some (Some fields).
Proof.
  intros [Hd Hne]. revert Hd. unfold decode_payload, unmarshal_struct, unmarshal_fields.
  destruct (parse (Body req)) as [[]|]; try done; [by intros [= H' _]|by eexists].
Qed.

Lemma body_for_sent req model : accepted req →
  if decide (model = ReqModel req) then body_for req model = Body req
  else setModel (Body req) model = Ok (inr (body_for req model)).
Proof.
  intros [fields Hf]%accepted_object. unfold body_for. case_decide; [done|].
  unfold setModel. by rewrite Hf.
Qed.

Lemma body_for_model req model : accepted req → decode_model (body_for req model) = Some (to_valid model).
Proof.
  intros Ha. pose proof (body_for_sent req model Ha) as Hb. destruct Ha as [Hd _].
  by destruct (sent_body req model (body_for req model) Hd Hb) as [? _].
Qed.

Lemma plan_sends_all req chain : accepted req →
  plan_of d req chain = Ok (map (uncurry Send) (all_sends req chain)).
Proof.
  intros Ha. induction chain as [|model chain IH]; [done|]. cbn [plan_of]. rewrite IH.
  unfold all_sends. cbn [map concat]. rewrite map_app.
  assert (∀ n b, map (uncurry Send) (replicate n (model, b)) = replicate n (Send model b)) as ->
    by (intros n b; induction n; simpl; congruence).
  unfold steps_for.
  pose proof (body_for_sent req model Ha) as Hb. case_decide; [by rewrite Hb|]. by rewrite Hb.
Qed.

Lemma to_valid_nonempty s : s ≠ "" → to_valid s ≠ "".
Proof. destruct s as [|c s]; [done|]. intros _. unfold to_valid, decode. cbn [raw decode_from]. by case_match. Qed.

(** A walk whose first answers are transient and whose next is not. *)
Lemma walk_decisive {R} (v : Reading R) ask sends s rest k final :
  (∀ j t, sends !! j = Some t → transient v (ask (k + j)%nat (send_call d t)) = true) →
  transient v (ask (k + length sends)%nat (send_call d s)) = false →
  walk d ask v (map (uncurry Send) (sends ++ s :: rest)) k final =
    (send_call d <$> sends ++ [s], commit v (ask (k + length sends)%nat (send_call d s)) s.1).
Proof.
  revert k final. induction sends as [|[m b] sends IH]; intros k final Hs Hd.
  - destruct s as [m b]. cbn [app map uncurry walk]. simpl in Hd. rewrite Nat.add_0_r in *.
    change (buildRequest (upstream d) b) with (send_call d (m, b)). by rewrite Hd.
  - cbn [app map uncurry walk]. pose proof (Hs 0%nat (m, b) eq_refl) as Hfirst. rewrite Nat.add_0_r in Hfirst.
    change (buildRequest (upstream d) b) with (send_call d (m, b)). rewrite Hfirst.
    simpl in Hd. rewrite Nat.add_succ_r in Hd. rewrite IH.
    + simpl. by rewrite Nat.add_succ_r.
    + intros j t Hj. pose proof (Hs (S j) t Hj) as Hj'. by rewrite Nat.add_succ_r in Hj'.
    + done.
Qed.

(** One whose answers are all transient. *)
Lemma walk_exhausted {R} (v : Reading R) ask sends k final :
  (∀ j t, sends !! j = Some t → transient v (ask (k + j)%nat (send_call d t)) = true) →
  walk d ask v (map (uncurry Send) sends) k final =
    (send_call d <$> sends, exhausted v (match last sends with
      | Some t => report v (ask (k + pred (length sends))%nat (send_call d t)) t.1
      | None => final end)).
Proof.
  revert k final. induction sends as [|[m b] sends IH]; intros k final Hs; [done|].
  cbn [map uncurry walk]. pose proof (Hs 0%nat (m, b) eq_refl) as Hfirst. rewrite Nat.add_0_r in Hfirst.
  change (buildRequest (upstream d) b) with (send_call d (m, b)). rewrite Hfirst, IH.
  2: { intros j t Hj. pose proof (Hs (S j) t Hj) as Hj'. by rewrite Nat.add_succ_r in Hj'. }
  rewrite last_cons. destruct sends as [|t sends]; [simpl; by rewrite Nat.add_0_r|].
  destruct (last (t :: sends)) as [u|] eqn:E; [|by apply last_None in E].
  simpl. by rewrite Nat.add_succ_r.
Qed.

Lemma all_sends_lookup req chain j s : all_sends req chain !! j = Some s →
  ∃ model, model ∈ chain ∧ s = (model, body_for req model).
Proof.
  intros Hj%list_elem_of_lookup_2. unfold all_sends in Hj. apply list_elem_of_In, in_concat in Hj as (l & Hl & Hs).
  apply in_map_iff in Hl as (model & <- & Hm). apply list_elem_of_In, elem_of_replicate_inv in Hs as ->.
  exists model. split; [by apply list_elem_of_In|done].
Qed.

Lemma all_sends_length req chain :
  length (all_sends req chain) = (length chain * Z.to_nat (maxAttempts d))%nat.
Proof.
  unfold all_sends. induction chain as [|m chain IH]; [done|].
  cbn [map concat length]. rewrite length_app, length_replicate, IH. done.
Qed.

(** A model nobody serves while the request is dispatched. *)
Definition unserved (model : string) : Prop := model ≠ "" ∧ ∀ k, workers_for k (to_valid model) = [].

Lemma unserved_transient req chain : accepted req → (∀ m, m ∈ chain → unserved m) →
  ∀ j s, all_sends req chain !! j = Some s →
    ask_router j (send_call d s) = Answer 503 "text/plain; charset=utf-8" [no_workers_body (to_valid s.1)] None ∧
    worker_requests j (send_call d s) = [].
Proof.
  intros Ha Hc j s (model & Hm & ->)%all_sends_lookup. destruct (Hc _ Hm) as [Hne Hw].
  apply call_without_workers; [by apply body_for_model|by apply to_valid_nonempty|done].
Qed.

(** [m]'s candidates, as the call numbered [n] meets them, answer: the dead ones among them
    are fewer than there are attempts, prices are numbers, counters stand still during each selection, and what
    the live ones say has a status that can be passed on and is not a 502 or 503 of their
    own. *)
Record answering (n : nat) (m body : string) : Prop := {
  an_reachable : ∃ T timeout s, reachable T timeout s ∧ reg s = m_registry (meet n);
  an_stable : ∀ j, ∃ fl, stable fl (env_reads (m_env (meet n) j));
  an_priced : ∀ e, e ∈ workers_for n (to_valid m) → f_isnan (cost_of e) = false;
  an_alive : ∃ dead, (length dead < Nat.min (length (workers_for n (to_valid m))) 3)%nat ∧
    ∀ e j, e ∈ workers_for n (to_valid m) → id_of e ∉ dead →
      ¬ no_answer (answer (m_env (meet n)) (received (buildRequest (upstream d) body)) body j e);
  an_final : ∀ e j status ctype bytes broken, e ∈ workers_for n (to_valid m) →
    answer (m_env (meet n)) (received (buildRequest (upstream d) body)) body j e
      = Responded status ctype bytes broken → valid_code status = true ∧ no_worker status = false;
}.

Lemma answering_call n m body : decode_model body = Some (to_valid m) → m ≠ "" → answering n m body →
  ∃ j e status ctype bytes broken, e ∈ workers_for n (to_valid m) ∧
    answer (m_env (meet n)) (received (buildRequest (upstream d) body)) body j e
      = Responded status ctype bytes broken ∧
    no_worker status = false ∧
    ask_router n (buildRequest (upstream d) body) = Answer status ctype [bytes] None.
Proof.
  intros Hb Hm [(T & timeout & s & Hr & Hreg) Hst Hnan (dead & Hdead & Halive) Hfin].
  unfold workers_for in *.
  rewrite <- Hreg in *.
  assert (routed (m_range (meet n)) (reg s) (received (buildRequest (upstream d) body)) (to_valid m) body) as Hrt.
  { split; try done; [by apply to_valid_nonempty|]. intros Hnil. rewrite Hnil in Hdead. simpl in Hdead. lia. }
  destruct (handleInference_failover (m_env (meet n)) (m_hook (meet n)) T timeout s (m_range (meet n)) _ _ _
    newWriter dead Hr Hrt Hst Hnan (λ e j st ct bs br He Ha, proj1 (Hfin e j st ct bs br He Ha)) Halive Hdead) as (evs & j & e & status & ctype & bytes & broken & He & Hans & Hrun).
  exists j, e, status, ctype, bytes, broken. split_and!; [done|done|by destruct (Hfin _ _ _ _ _ _ He Hans)|].
  unfold ask_router. rewrite routed_run_inference, <- Hreg, Hrun. simpl. unfold Get.
  by rewrite lookup_insert_eq.
Qed.

Lemma dispatchBuffered_walk ask req : accepted req →
  dispatchBuffered d ask req = (λ '(calls, r), (calls, Ok r))
    (walk d ask buffered (map (uncurry Send) (all_sends req (chain_of d req))) 0 no_result).
Proof. intros Ha. apply buffered_chain_walk. by apply plan_sends_all. Qed.

Lemma dispatchStream_walk ask req : accepted req →
  dispatchStream d ask req = (λ '(calls, r), (calls, Ok r))
    (walk d ask streaming (map (uncurry Send) (all_sends req (chain_of d req))) 0 no_result).
Proof. intros Ha. apply stream_chain_walk. by apply plan_sends_all. Qed.

(** The first call for [m], behind those for the models before it. *)
Lemma all_sends_first req pre m post : 0 < maxAttempts d →
  ∃ rest, all_sends req (pre ++ m :: post) = all_sends req pre ++ (m, body_for req m) :: rest.
Proof.
  intros Hmax. unfold all_sends. rewrite map_app, concat_app. cbn [map concat].
  destruct (Z.to_nat (maxAttempts d)) as [|n] eqn:E; [lia|]. by eexists.
Qed.

Lemma read_all_one s : read_all [s] = s.
Proof. apply String_app_nil_r. Qed.


(** When no model of the chain is served, the client gets the router's 503 for the last
    of them, and no worker has been sent a single request. *)
Theorem nobody_serves req m pre :
  accepted req → chain_of d req = pre ++ [m] → 0 < maxAttempts d →
  (∀ p, p ∈ pre ++ [m] → unserved p) →
  ∃ calls, dispatchBuffered d ask_router req =
      (calls, Ok (answer_result 503 (no_workers_body (to_valid m)) m)) ∧
    length calls = (length (pre ++ [m]) * Z.to_nat (maxAttempts d))%nat ∧
    ∀ k c, calls !! k = Some c → worker_requests k c = [].
Proof.
  intros Ha Hchain Hmax Hall. rewrite dispatchBuffered_walk, Hchain by done.
  pose proof (unserved_transient req _ Ha Hall) as Htr.
  rewrite walk_exhausted by (intros k t Hk; destruct (Htr k t Hk) as [Hu _]; simpl; by rewrite Hu).
  assert (last (all_sends req (pre ++ [m])) = Some (m, body_for req m)) as Hlast.
  { unfold all_sends. rewrite map_app, concat_app. cbn [map concat]. rewrite app_nil_r.
    destruct (Z.to_nat (maxAttempts d)) as [|n] eqn:E; [lia|].
    rewrite replicate_S_end, app_assoc. by rewrite last_snoc. }
  rewrite Hlast. eexists. split; [|split].
  - do 2 f_equal. rewrite last_lookup in Hlast. destruct (Htr _ _ Hlast) as [Hu _].
    rewrite Nat.add_0_l, Hu. cbn [exhausted buffered report report_buffered fst]. by rewrite read_all_one.
  - rewrite length_fmap. apply all_sends_length.
  - intros k c. rewrite list_lookup_fmap. intros (t & Hk & ->)%fmap_Some. by apply Htr.
Qed.

(** A call for the empty model is a bad request to the router. *)
Lemma call_without_model k body :
  decode_model body = Some "" →
  ask_router k (buildRequest (upstream d) body) =
    Answer 400 "text/plain; charset=utf-8" ["request body must contain a valid 'model' field" +:+ newline] None.
Proof.
  intros Hm. unfold ask_router. rewrite routed_run_inference. unfold Router.handleInference.
  rewrite decide_False by (intros Hn; by apply Hn). cbn [received ReqBody buildRequest call_body]. by rewrite Hm.
Qed.

(** An empty name in the chain, as a stray comma of the fallback flag leaves one, hides that
    nobody is in service: the client's good request is answered 400. *)
Theorem empty_fallback_answers_400 req pre post :
  accepted req → chain_of d req = pre ++ "" :: post → 0 < maxAttempts d → (∀ p, p ∈ pre → unserved p) →
  ∃ calls, dispatchBuffered d ask_router req =
    (calls, Ok (answer_result 400 ("request body must contain a valid 'model' field" +:+ newline) "")).
Proof.
  intros Ha Hchain Hmax Hpre. rewrite dispatchBuffered_walk, Hchain by done.
  destruct (all_sends_first req pre "" post Hmax) as [rest ->].
  pose proof (unserved_transient req pre Ha Hpre) as Htr.
  pose proof (λ n, call_without_model n _ (body_for_model req "" Ha)) as Hask.
  rewrite walk_decisive.
  - eexists. unfold send_call. cbn [snd fst]. rewrite Hask. cbn [commit buffered report_buffered].
    by rewrite read_all_one.
  - intros k t Hk. destruct (Htr k t Hk) as [Hu _]. by rewrite Nat.add_0_l, Hu.
  - unfold send_call. cbn [snd]. by rewrite Hask.
Qed.

(** The requests sent to workers during the calls [calls], numbered from 0. *)
Definition all_worker_requests (calls : list Call) : list ProxyRequest := concat (imap worker_requests calls).

Lemma worker_requests_length calls :
  (∀ c, c ∈ calls → ∃ body, c = buildRequest (upstream d) body) →
  (length (all_worker_requests calls) ≤ 3 * length calls)%nat.
Proof.
  unfold all_worker_requests. intros Hc.
  assert (∀ i, length (concat (imap (λ k, worker_requests (i + k)) calls)) ≤ 3 * length calls)%nat as Hi.
  { induction calls as [|c calls IH]; intros i; [done|]. rewrite imap_cons. cbn [concat length].
    rewrite length_app. destruct (Hc c) as [body ->]; [by left|].
    destruct (worker_requests_spec (i + 0) body) as [Hlen _].
    assert (imap ((λ k, worker_requests (i + k)) ∘ S) calls = imap (λ k, worker_requests (S i + k)) calls) as ->
      by (apply imap_ext; intros k c' _; unfold compose; by rewrite Nat.add_succ_r).
    specialize (IH (λ c h, Hc c (proj2 (elem_of_cons _ _ _) (or_intror h))) (S i)). lia. }
  apply (Hi 0%nat).
Qed.

Lemma sends_of_plan (sends : list (string * string)) : omap as_send (map (uncurry Send) sends) = sends.
Proof. induction sends as [|[m b] l IH]; [done|]. simpl. by f_equal. Qed.

(** The calls of a walk are those of an initial stretch of its plan. *)
Lemma walk_prefix {R} (v : Reading R) ask sends k final calls r :
  walk d ask v (map (uncurry Send) sends) k final = (calls, r) → ∃ n, calls = send_call d <$> take n sends.
Proof.
  intros Hw. pose proof (walk_spec d ask v (map (uncurry Send) sends) k final) as Hs. cbv zeta in Hs.
  rewrite Hw, sends_of_plan in Hs. destruct Hs as [(n & s & _ & _ & _ & _ & ->)|(_ & _ & ->)]; [by exists (S n)|].
  exists (length sends). by rewrite take_ge.
Qed.

(** What the calls of any walk through the chain cost the workers. *)
Lemma walk_cost {R} (v : Reading R) req final calls r : accepted req →
  walk d ask_router v (map (uncurry Send) (all_sends req (chain_of d req))) 0 final = (calls, r) →
  (length (all_worker_requests calls) ≤ 3 * (length (chain_of d req) * Z.to_nat (maxAttempts d)))%nat ∧
  ∀ k c, calls !! k = Some c → ∃ model, model ∈ chain_of d req ∧ call_body c = body_for req model ∧
    ∀ r, r ∈ worker_requests k c → pr_body r = body_for req model ∧ ∃ e, e ∈ workers_for k (to_valid model) ∧
      pr_target r = "http://" +:+ Address (Info e) +:+ "/v1/chat/completions".
Proof.
  intros Ha Hw. apply walk_prefix in Hw as [n ->]. split.
  - etrans; [apply worker_requests_length|].
    + intros c (t & -> & _)%list_elem_of_fmap. by eexists.
    + rewrite length_fmap, length_take, all_sends_length. lia.
  - intros k c Hk. rewrite list_lookup_fmap in Hk. apply fmap_Some in Hk as (t & Ht & ->).
    apply list_elem_of_lookup_2, elem_of_take in Ht as (i & Ht & _).
    apply all_sends_lookup in Ht as (model & Hm & ->). exists model. split_and!; [done..|]. intros r' Hr.
    destruct (worker_requests_spec k (body_for req model)) as [_ Hin].
    destruct (Hin _ Hr) as (Hbody & model' & e & Hd & He & Ht). rewrite body_for_model in Hd by done.
    injection Hd as <-. eauto.
Qed.

(** C12: One request that the gateway accepted, buffered or streamed, costs the workers at most
    three forwarded requests for each of the at most [maxAttempts] calls for each model of its
    chain.  Every call is for a model of the chain, and what it makes the router send goes,
    with the body of that call, to workers that were READY or BUSY and serving that model
    when that very call arrived. *)
Theorem worker_requests_bounded req :
  accepted req →
  let calls := if Stream req then fst (dispatchStream d ask_router req) else fst (dispatchBuffered d ask_router req) in
  (length (all_worker_requests calls) ≤ 3 * (length (chain_of d req) * Z.to_nat (maxAttempts d)))%nat ∧
  ∀ k c, calls !! k = Some c → ∃ model, model ∈ chain_of d req ∧ call_body c = body_for req model ∧
    ∀ r, r ∈ worker_requests k c → pr_body r = body_for req model ∧ ∃ id e,
      workers (m_registry (meet k)) !! id = Some e ∧ (State e = READY ∨ State e = BUSY) ∧
      to_valid model ∈ ModelsLoaded (Info e) ∧ pr_target r = "http://" +:+ Address (Info e) +:+ "/v1/chat/completions".
Proof.
  intros Ha calls.
  assert (∃ R (v : Reading R) final r,
    walk d ask_router v (map (uncurry Send) (all_sends req (chain_of d req))) 0 final = (calls, r)) as (R & v & final & r & Hw).
  { unfold calls. destruct (Stream req).
    - rewrite dispatchStream_walk by done. destruct (walk _ _ _ _ _ _) as [calls' r] eqn:Hw. by exists _, streaming, no_result, r.
    - rewrite dispatchBuffered_walk by done. destruct (walk _ _ _ _ _ _) as [calls' r] eqn:Hw. by exists _, buffered, no_result, r. }
  destruct (walk_cost v req final calls r Ha Hw) as [Hlen Hin]. split; [done|]. intros k c Hk.
  destruct (Hin k c Hk) as (model & Hm & Hb & Hr). exists model. split_and!; [done..|]. intros r' (Hb' & e & He & Ht)%Hr.
  split; [done|]. apply elem_of_HealthyWorkersForModel in He as (id & He & Hh & Hml). exists id, e.
  split_and!; [done|by apply is_healthy_iff|done|done].
Qed.

End composition.

(** *** Witnesses *)

(** One worker, serving llama3, and a client that asks for mistral. *)
Definition demo_fallback : Dispatcher :=
  NewDispatcher "http://localhost:8080" 1
    [WithMaxAttempts 2; WithFallbacks {["mistral" := ["llama3"]; "gone" := ["mistral"]]}].

Definition demo_ask_body (model : string) : string :=
  object_text [("Model", JNull); ("model", marshal_string model); ("temperature", JNum
    {| n_neg := false; n_int := "0"; n_frac := Some "7"; n_exp := None |})].

Definition demo_queued_for (model : string) : Queue.Request :=
  {| ID := "req-1"; Body := demo_ask_body model; ReqModel := model; Priority := PriorityNormal;
     EnqueuedAt := 0; KeyID := ""; Stream := false |}.

Definition demo_meeting (k : nat) : Meeting :=
  {| m_range := 0; m_registry := reg (demo_sys 1 2);
     m_env := λ _, {| env_counter := 0; env_reads := λ _, idle;
                      env_exchange := λ _, Responded 200 "application/json" "{}" None |};
     m_hook := true |}.

Lemma demo_unserved : @unserved map_to_list_range demo_meeting "mistral".
Proof. split; [done|]. intros k. by vm_compute. Qed.

Lemma demo_accepted_for model : to_valid model = model → model ≠ "" →
  decode_payload (demo_ask_body model) = Some (model, false) → accepted (demo_queued_for model).
Proof. by intros _ Hm Hd. Qed.

Lemma demo_answering :
  @answering map_to_list_range demo_fallback demo_meeting 2 "llama3"
    (@body_for demo_error (demo_queued_for "mistral") "llama3").
Proof.
  split.
  - exists {| gap := 1; latency := 0; insert_delay := 0 |}, DefaultDeadTimeout, (demo_sys 1 2).
    split; [by apply demo_reachable|done].
  - intros j. exists idle. done.
  - intros e He. vm_compute in He. apply list_elem_of_singleton in He as ->. done.
  - exists []. split; [apply Nat.ltb_lt; vm_compute; done|]. intros e j _ _ Hn. exact Hn.
  - intros e j status ctype bytes broken _. by intros [= <- _ _ _].
Qed.


(** A worker whose connection breaks after half an answer: the dispatcher is told 200 and the
    half. *)
Definition demo_cut_meeting (k : nat) : Meeting :=
  {| m_range := 0; m_registry := reg (demo_sys 1 2);
     m_env := λ _, {| env_counter := 0; env_reads := λ _, idle;
                      env_exchange := λ _, Responded 200 "application/json" "{" (Some "unexpected EOF") |};
     m_hook := true |}.

Lemma cut_off_answer_looks_whole :
  let c := buildRequest (upstream demo_fallback) (demo_ask_body "llama3") in
  @ask_router (λ s, s) map_to_list_range demo_fallback demo_cut_meeting 0 c =
    Answer 200 "application/json" ["{"] None ∧
  list.last (fst (@routed_run (λ s, s) map_to_list_range demo_fallback demo_cut_meeting 0 c)) =
    Some (EvHook "llama3" "error").
Proof. split; by vm_compute. Qed.

Lemma nobody_serves_witness :
  ∃ calls, @dispatchBuffered demo_error (λ s, s) (NewDispatcher "http://localhost:8080" 1 [])
    (@ask_router (λ s, s) map_to_list_range (NewDispatcher "http://localhost:8080" 1 []) demo_meeting)
    (demo_queued_for "mistral") =
      (calls, Ok (answer_result 503 (@no_workers_body (λ s, s) "mistral") "mistral")) ∧
    length calls = 1%nat.
Proof.
  destruct (@nobody_serves demo_error (λ s, s) map_to_list_range (NewDispatcher "http://localhost:8080" 1 [])
    demo_meeting (demo_queued_for "mistral") "mistral" []) as (calls & Hb & Hlen & _).
  - split; [vm_compute; reflexivity|done].
  - vm_compute. reflexivity.
  - reflexivity.
  - intros p ->%list_elem_of_singleton. exact demo_unserved.
  - exists calls. split; [exact Hb|exact Hlen].
Defined.

Lemma worker_requests_bounded_witness :
  (length (@all_worker_requests (λ s, s) map_to_list_range demo_fallback demo_meeting
    (fst (@dispatchBuffered demo_error (λ s, s) demo_fallback
      (@ask_router (λ s, s) map_to_list_range demo_fallback demo_meeting) (demo_queued_for "mistral")))) ≤ 12)%nat.
Proof.
  refine (proj1 (@worker_requests_bounded demo_error (λ s, s) map_to_list_range demo_fallback demo_meeting
    (demo_queued_for "mistral") _)). split; [vm_compute; reflexivity|done].
Defined.
