(* ===== verification/Pool.v ===== *)
(** * The dispatcher pool (request-plane/dispatcher/dispatcher.go, [Run])

    The goroutines that [Run] starts, the queue they take from and the requests the
    gateway has put there.  One step takes a request from a lane, ends a dispatch with
    its result, moves one chunk, or goes on to the next request; the requests that
    arrive, the upstream's answers and the gateway's timeouts are the environment's.
    A call of [Pop] is one step that takes from some lane: which lane it may be is the
    queue's matter (see Queue). *)

From S2P Require Import Prelude GoFloat GoStrings GoHttp GoJson GoUnmarshal Queue Dispatcher Slo Auth Gateway.
Open Scope Z_scope.

(** ** State *)

(** Where one [workerLoop] is: in [Pop], between [Pop] and the send on [ResultCh],
    sending the chunks of a stream, or returned. *)
Inductive Goroutine :=
  | Popping
  | Dispatching (req : Request)
  | Pumping (st : StreamSys)
  | Stopped.

(** [pushed] and [answered] are the history: the requests [TryPush] accepted and the
    results sent. *)
Record Pool := {
  pool_queue : Queue;
  goroutines : list Goroutine;
  stopping : bool;
  pushed : list Request;
  answered : list (Request * Result);
}.

(** [for range d.concurrency]: no goroutine when it is negative. *)
Definition Run (d : Dispatcher) (q0 : Queue) : Pool :=
  {| pool_queue := q0; goroutines := replicate (Z.to_nat (concurrency d)) Popping;
     stopping := false; pushed := []; answered := [] |}.

Definition set_goroutine (n : nat) (g : Goroutine) (q' : Queue) (s : Pool) : Pool :=
  {| pool_queue := q'; goroutines := <[n := g]> (goroutines s); stopping := stopping s;
     pushed := pushed s; answered := answered s |}.

Definition answer (n : nat) (g : Goroutine) (req : Request) (result : Result) (s : Pool) : Pool :=
  {| pool_queue := pool_queue s; goroutines := <[n := g]> (goroutines s); stopping := stopping s;
     pushed := pushed s; answered := answered s ++ [(req, result)] |}.

(** The gateway's handler answers 504 before it has received a chunk. *)
Definition leave (st : StreamSys) : StreamSys :=
  {| to_send := to_send st; in_channel := in_channel st; closed := closed st; reading := false; got := got st |}.

Definition held (g : Goroutine) : option Request :=
  match g with Dispatching req => Some req | _ => None end.

(** ** Steps *)

Section pool.
Context `{JsonError} `{FmtQuote} (d : Dispatcher).

(** Requests arrive, possibly straight into the hands of a goroutine that waits, and
    the context is cancelled. *)
Inductive arrive (s : Pool) : Pool → Prop :=
  | a_push req q' :
      TryPush req (pool_queue s) = (q', true) → object_body req →
      arrive s {| pool_queue := q'; goroutines := goroutines s; stopping := stopping s;
                  pushed := pushed s ++ [req]; answered := answered s |}
  | a_handoff n req :
      goroutines s !! n = Some Popping → lane (Priority req) (pool_queue s) = Some [] →
      object_body req →
      arrive s {| pool_queue := pool_queue s; goroutines := <[n := Dispatching req]> (goroutines s);
                  stopping := stopping s; pushed := pushed s ++ [req]; answered := answered s |}
  | a_cancel :
      arrive s {| pool_queue := pool_queue s; goroutines := goroutines s; stopping := true;
                  pushed := pushed s; answered := answered s |}.

(** [patient]: no gateway gives up on a request, so a stream that was committed to is
    read.  Otherwise the gateway may have answered 504 before the result arrived, or may do so
    before it has received it. *)
Inductive work (patient : bool) (s : Pool) : Pool → Prop :=
  | w_pop n p req q' :
      goroutines s !! n = Some Popping → try_receive p (pool_queue s) = Some (req, q') →
      work patient s (set_goroutine n (Dispatching req) q' s)
  | w_stop n :
      goroutines s !! n = Some Popping → stopping s = true →
      work patient s (set_goroutine n Stopped (pool_queue s) s)
  | w_buffered n req ask calls result :
      goroutines s !! n = Some (Dispatching req) → Stream req = false →
      dispatchBuffered d ask req = (calls, Ok result) →
      work patient s (answer n Popping req result s)
  | w_stream n req ask calls out reader :
      goroutines s !! n = Some (Dispatching req) → Stream req = true →
      dispatchStream d ask req = (calls, Ok out) →
      (reader = true → Streaming (so_result out) = true) →
      (patient = true → Streaming (so_result out) = true → reader = true) →
      work patient s (answer n (Pumping (stream_start (so_chunks out) reader)) req (so_result out) s)
  | w_chunk n st st' :
      goroutines s !! n = Some (Pumping st) → stream_step st st' →
      work patient s (set_goroutine n (Pumping st') (pool_queue s) s)
  | w_next n st :
      goroutines s !! n = Some (Pumping st) → closed st = true →
      work patient s (set_goroutine n Popping (pool_queue s) s)
  | w_leave n st :
      patient = false → goroutines s !! n = Some (Pumping st) → reading st = true → got st = [] →
      work patient s (set_goroutine n (Pumping (leave st)) (pool_queue s) s).

Definition pool_step (patient : bool) (s s' : Pool) : Prop := arrive s s' ∨ work patient s s'.

(** The pool of [d] on an empty queue of [c] places in each lane. *)
Definition started (c : nat) : Pool :=
  Run d {| high := []; normal := []; low := []; capacity := c |}.

(** ** Every accepted request is in one place *)

Lemma try_receive_order p q0 req q' :
  try_receive p q0 = Some (req, q') → service_order q0 ≡ₚ req :: service_order q'.
Proof.
  intros (l & Hl & ->)%try_receive_spec. destruct q0 as [hs ms ls c]. unfold lane in Hl. unfold set_lane, service_order.
  simpl in *. repeat case_match; simplify_eq; simpl; [done|by rewrite <- Permutation_middle|].
  by rewrite !app_assoc, <- Permutation_middle.
Qed.

Lemma service_order_receive q0 : service_order q0 ≠ [] → ∃ p req q', try_receive p q0 = Some (req, q').
Proof.
  destruct q0 as [[|h hs] [|m ms] [|l ls] c]; intros Hne; try done;
    first [by eexists PriorityHigh, _, _|by eexists PriorityNormal, _, _|by eexists PriorityLow, _, _].
Qed.

Lemma push_order req q0 q' :
  TryPush req q0 = (q', true) → service_order q' ≡ₚ req :: service_order q0.
Proof.
  intros [-> _]%TryPush_order. rewrite <- Permutation_middle. by rewrite take_drop.
Qed.

(** What can be relied on in a stream: its channel is closed only at its end, and if
    nobody reads it there is nothing to send. *)
Definition attended (g : Goroutine) : Prop :=
  match g with
  | Pumping st => (closed st = true → to_send st = []) ∧ (reading st = false → to_send st = [])
  | _ => True
  end.

Record sound (patient : bool) (s : Pool) : Prop := {
  so_balance : pushed s ≡ₚ service_order (pool_queue s) ++ omap held (goroutines s) ++ (answered s).*1;
  so_object : Forall object_body (pushed s);
  so_count : length (goroutines s) = Z.to_nat (concurrency d);
  so_attended : patient = true → Forall attended (goroutines s);
  so_running : stopping s = false → Forall (λ g, g ≠ Stopped) (goroutines s);
}.

Lemma held_insert (l : list Goroutine) n g g' :
  l !! n = Some g → option_list (held g) ++ omap held (<[n := g']> l) ≡ₚ option_list (held g') ++ omap held l.
Proof. apply omap_insert_Permutation. Qed.

Lemma sound_goroutine patient n g g' q' s :
  goroutines s !! n = Some g → held g = None →
  service_order (pool_queue s) ≡ₚ option_list (held g') ++ service_order q' →
  (patient = true → attended g') → (stopping s = false → g' ≠ Stopped) →
  sound patient s → sound patient (set_goroutine n g' q' s).
Proof.
  intros Hn Hg Hq Hatt Hst [Hb Ho Hc Ha Hrun]. pose proof (held_insert _ _ _ g' Hn) as Hh. rewrite Hg in Hh.
  split; simpl; [|done|by rewrite length_insert|intros ?; apply Forall_insert; auto..].
  simpl in Hh. rewrite Hb, Hq, Hh. solve_Permutation.
Qed.

Lemma sound_answer patient n g req result s :
  goroutines s !! n = Some (Dispatching req) → held g = None → (patient = true → attended g) → g ≠ Stopped →
  sound patient s → sound patient (answer n g req result s).
Proof.
  intros Hn Hg Hatt Hst [Hb Ho Hc Ha Hrun]. pose proof (held_insert _ _ _ g Hn) as Hh. rewrite Hg in Hh. simpl in Hh.
  split; simpl; [|done|by rewrite length_insert|intros ?; apply Forall_insert; auto..].
  rewrite Hb, fmap_app, <- Hh. simpl. solve_Permutation.
Qed.

Lemma stream_step_attended st st' :
  stream_step st st' → attended (Pumping st) → attended (Pumping st').
Proof. intros Hs [Hc Hr]. destruct Hs; simpl in *; split; try done; intros ?;
  repeat match goal with h : ?a → _, h' : ?a |- _ => specialize (h h') end; congruence. Qed.

Lemma arrive_sound patient s s' : arrive s s' → sound patient s → sound patient s'.
Proof.
  intros Hs [Hb Ho Hc Ha Hrun]. destruct Hs as [req q' Hp Hreq|n req Hn Hl Hreq|]; split; simpl; try done.
  - rewrite Hb, (push_order _ _ _ Hp). solve_Permutation.
  - by apply Forall_app_2; [|constructor].
  - pose proof (held_insert _ _ _ (Dispatching req) Hn) as Hh. simpl in Hh.
    rewrite Hb, Hh. solve_Permutation.
  - by apply Forall_app_2; [|constructor].
  - by rewrite length_insert.
  - intros Hpt. apply Forall_insert; [by apply Ha|done].
  - intros Hst. apply Forall_insert; [by apply Hrun|done].
Qed.

Lemma held_object patient s n req :
  sound patient s → goroutines s !! n = Some (Dispatching req) → object_body req.
Proof.
  intros [Hb Ho _ _ _] Hn. rewrite Forall_forall in Ho. apply Ho. rewrite Hb, !elem_of_app. right. left.
  apply list_elem_of_omap. exists (Dispatching req). split; [by eapply list_elem_of_lookup_2|done].
Qed.

Lemma work_sound patient s s' : work patient s s' → sound patient s → sound patient s'.
Proof.
  intros Hs Hsnd. destruct Hs as [n p req q' Hn Hr|n Hn Hst|n req ask calls result Hn Hs Hd
    |n req ask calls out reader Hn Hs Hd Hr1 Hr2|n st st' Hn Hst|n st Hn Hcl|n st Hpt Hn Hrd Hg].
  - eapply sound_goroutine; [exact Hn|done| |done..]. by apply (try_receive_order p).
  - eapply sound_goroutine; [exact Hn|done|done|done| |done]. congruence.
  - by eapply sound_answer.
  - eapply sound_answer; [exact Hn|done| |done..]. intros Hpt. split; [done|]. simpl. intros ->.
    destruct (Streaming (so_result out)) eqn:Hstr; [by specialize (Hr2 Hpt eq_refl)|].
    by eapply (stream_uncommitted d ask req); [eapply held_object|exact Hd|].
  - eapply sound_goroutine; [exact Hn|done|done| |done..]. intros Hpt.
    eapply stream_step_attended; [exact Hst|].
    by eapply (Forall_lookup_1 attended); [apply (so_attended _ _ Hsnd Hpt)|].
  - by eapply sound_goroutine.
  - eapply sound_goroutine; [exact Hn|done|done| |done|done]. by rewrite Hpt.
Qed.

Lemma started_sound patient c s : rtc (pool_step patient) (started c) s → sound patient s.
Proof.
  intros Hr. eapply (invariant_rtc (pool_step patient) (sound patient)); [|exact Hr|].
  - intros s0 s1 [Ha|Hw]; [by apply arrive_sound|by apply work_sound].
  - split; simpl; [|done|by rewrite length_replicate|..].
    + assert (∀ k, omap held (replicate k Popping) = []) as -> by (by intros k; induction k). done.
    + intros _. by apply Forall_replicate.
    + intros _. by apply Forall_replicate.
Qed.

(** However requests arrive, goroutines are scheduled, the upstream answers and gateways
    give up, every accepted request is in exactly one place: still in its lane, in the
    hands of one goroutine, or answered by exactly one result.  So no request is lost or
    answered twice; and at most [concurrency] of them are being dispatched. *)
Theorem pool_exactly_once patient c s :
  rtc (pool_step patient) (started c) s →
  pushed s ≡ₚ service_order (pool_queue s) ++ omap held (goroutines s) ++ (answered s).*1 ∧
  (length (omap held (goroutines s)) ≤ Z.to_nat (concurrency d))%nat.
Proof.
  intros [Hb _ Hc _ _]%started_sound. split; [done|]. rewrite <- Hc. apply length_omap_le.
Qed.

(** ** The pool answers everything *)

Definition pumping_work (g : Goroutine) : nat :=
  match g with Popping => 1 | Stopped => 0 | Dispatching _ => 0 | Pumping st => 2 + work_left st end.

(** Requests without a result, a queued one counted twice; then the chunks to move. *)
Definition unanswered (s : Pool) : nat :=
  2 * length (service_order (pool_queue s)) + length (omap held (goroutines s)).

Definition chunk_work (s : Pool) : nat := sum_list_with pumping_work (goroutines s).

Lemma work_decreases patient s s' :
  work patient s s' →
  (unanswered s' < unanswered s ∨ unanswered s' = unanswered s ∧ chunk_work s' < chunk_work s)%nat.
Proof.
  intros Hs. assert (∀ n g g', goroutines s !! n = Some g →
    length (option_list (held g)) + length (omap held (<[n := g']> (goroutines s))) =
    length (option_list (held g')) + length (omap held (goroutines s)) ∧
    sum_list_with pumping_work (<[n := g']> (goroutines s)) + pumping_work g =
    sum_list_with pumping_work (goroutines s) + pumping_work g')%nat as Hi.
  { intros n g g' Hn. rewrite <- !length_app. split; [by rewrite (held_insert _ _ _ g' Hn)|].
    by apply sum_list_insert. }
  unfold unanswered, chunk_work.
  destruct Hs as [n p req q' Hn Hr|n Hn Hst|n req ask calls result Hn Hs Hd
    |n req ask calls out reader Hn Hs Hd Hr1 Hr2|n st st' Hn Hst|n st Hn Hcl|n st Hpt Hn Hrd Hg]; simpl;
    match goal with |- context [<[n := ?g]> _] => destruct (Hi n _ g Hn) as [H1 H2] end; simpl in *.
  - apply try_receive_order in Hr. rewrite Hr. simpl. left. lia.
  - right. lia.
  - left. lia.
  - left. lia.
  - right. apply stream_step_work in Hst. lia.
  - right. lia.
  - right. unfold work_left, leave in *. simpl in *. rewrite Hrd in H2. lia.
Qed.

Lemma work_terminates patient s : sn (work patient) s.
Proof. apply (sn_measures _ unanswered chunk_work), work_decreases. Qed.

Lemma stream_goes_on st : attended (Pumping st) → closed st = true ∨ ∃ st', stream_step st st'.
Proof.
  destruct st as [ts ic [|] rd g]; intros [Hc Hr]; [by left|right]. simpl in *.
  destruct ts as [|c ts]; [by eexists; apply st_close|]. destruct rd; [|by specialize (Hr eq_refl)].
  destruct ic as [|c' ic]; [|by eexists; eapply st_receive].
  eexists. eapply st_send; [done|]. simpl. unfold chunk_capacity. lia.
Qed.

Lemma goroutine_goes_on s n g :
  sound true s → stopping s = false → goroutines s !! n = Some g → g ≠ Popping →
  red (work true) s.
Proof.
  intros Hs Hst Hn Hg. destruct g as [|req|st|]; [done|..].
  - pose proof (held_object _ _ _ _ Hs Hn) as Ho. destruct (Stream req) eqn:Hstr.
    + destruct (dispatchStream_total d (λ _ _, NoConnection "") req Ho) as (calls & out & Hd).
      eexists. by eapply (w_stream _ _ n req _ calls out (Streaming (so_result out))).
    + destruct (dispatchBuffered_total d (λ _ _, NoConnection "") req Ho) as (calls & r & Hd).
      eexists. by eapply w_buffered.
  - destruct (stream_goes_on st) as [Hc|[st' Hst']].
    + by eapply (Forall_lookup_1 attended); [apply (so_attended _ _ Hs eq_refl)|].
    + eexists. by eapply w_next.
    + eexists. by eapply w_chunk.
  - by destruct (Forall_lookup_1 _ _ _ _ (so_running _ _ Hs Hst) Hn).
Qed.

Lemma pool_goes_on s :
  sound true s → stopping s = false → 0 < concurrency d → nf (work true) s →
  service_order (pool_queue s) = [] ∧ Forall (eq Popping) (goroutines s).
Proof.
  intros Hs Hst Hc Hnf. assert (Forall (eq Popping) (goroutines s)) as Hall.
  { apply Forall_lookup. intros n g Hn. destruct g as [|req|st|]; [done|..];
      destruct Hnf; by eapply goroutine_goes_on. }
  split; [|done]. destruct (service_order (pool_queue s)) as [|r l] eqn:Ho; [done|].
  destruct (service_order_receive (pool_queue s)) as (p & req & q' & Hr); [by rewrite Ho|].
  destruct (goroutines s) as [|g gs] eqn:Hgs.
  - pose proof (so_count _ _ Hs) as Hlen. rewrite Hgs in Hlen. simpl in Hlen. lia.
  - inversion Hall; subst. destruct Hnf. eexists. eapply (w_pop _ _ 0); [by rewrite Hgs|exact Hr].
Qed.

Lemma work_history patient s s' :
  work patient s s' → pushed s' = pushed s ∧ stopping s' = stopping s.
Proof. by destruct 1. Qed.

(** A pool with at least one goroutine answers everything: once no further request
    arrives, its goroutines can only take finitely many steps, whatever the upstream
    answers and however they are scheduled, and when none is left every accepted request
    has its result and every goroutine waits for the next request - as long as no
    gateway abandons a stream. *)
Lemma pool_drains c s :
  rtc (pool_step true) (started c) s → stopping s = false → 0 < concurrency d →
  sn (work true) s ∧
  ∀ s', rtc (work true) s s' → nf (work true) s' →
    (answered s').*1 ≡ₚ pushed s ∧ Forall (eq Popping) (goroutines s').
Proof.
  intros Hr Hst Hc. split; [apply work_terminates|]. intros s' Hs' Hnf.
  assert (sound true s' ∧ pushed s' = pushed s ∧ stopping s' = false) as (Hsnd & Hp & Hst').
  { apply (invariant_rtc (work true) (λ x, sound true x ∧ pushed x = pushed s ∧ stopping x = false)) in Hs';
      [done| |by split_and!; [eapply started_sound|..]].
    intros s0 s1 Hw (Hs0 & Hp0 & Hst0). destruct (work_history _ _ _ Hw) as [Hp1 Hst1].
    split_and!; [by eapply work_sound|congruence..]. }
  destruct (pool_goes_on s' Hsnd Hst' Hc Hnf) as [Ho Hall]. split; [|done].
  rewrite <- Hp, (so_balance _ _ Hsnd), Ho. clear -Hall.
  assert (omap held (goroutines s') = []) as ->; [|done].
  induction Hall as [|g l <- _ IH]; [done|]. exact IH.
Qed.

(** ** Streams that nobody reads *)

Definition blocked (g : Goroutine) : Prop :=
  ∃ chunks st, g = Pumping st ∧ (chunk_capacity < length chunks)%nat ∧
    rtc stream_step (stream_start chunks false) st.

Lemma blocked_work s s' :
  work false s s' → Forall blocked (goroutines s) →
  Forall blocked (goroutines s') ∧ answered s' = answered s ∧ pushed s' = pushed s ∧
  pool_queue s' = pool_queue s.
Proof.
  intros Hw Hall. destruct Hw as [n p req q' Hn _|n Hn _|n req ask calls result Hn _ _
    |n req ask calls out reader Hn _ _ _ _|n st st' Hn Hst|n st Hn Hcl|n st _ Hn Hrd _];
    destruct (Forall_lookup_1 _ _ _ _ Hall Hn) as (chunks & st0 & Heq & Hlen & Hr); simplify_eq.
  - split_and!; [|done..]. apply Forall_insert; [done|]. exists chunks, st'. split_and!; [done..|].
    by eapply rtc_r.
  - destruct (abandoned_stream _ _ Hlen Hr) as (_ & Hc & _). congruence.
  - destruct (abandoned_stream _ _ Hlen Hr) as (_ & _ & Hc & _). congruence.
Qed.

Lemma blocked_arrive s s' :
  arrive s s' → Forall blocked (goroutines s) →
  Forall blocked (goroutines s') ∧ answered s' = answered s ∧
  ∃ new, pushed s' = pushed s ++ new ∧ service_order (pool_queue s') ≡ₚ service_order (pool_queue s) ++ new.
Proof.
  intros Ha Hall. destruct Ha as [req q' Hp _|n req Hn _ _|].
  - split_and!; [done..|]. exists [req]. split; [done|]. simpl. rewrite (push_order _ _ _ Hp). solve_Permutation.
  - by destruct (Forall_lookup_1 _ _ _ _ Hall Hn) as (? & ? & ? & _).
  - split_and!; [done..|]. exists []. by rewrite !app_nil_r.
Qed.

(** Abandoned streams exhaust the pool: once every goroutine sends a stream of more than
    sixteen chunks whose client was already answered 504, no request is answered any more.
    Requests are still accepted, and each of them stays in its lane. *)
Theorem pool_exhausted s s' :
  Forall blocked (goroutines s) → rtc (pool_step false) s s' →
  answered s' = answered s ∧
  ∃ new, pushed s' = pushed s ++ new ∧
    service_order (pool_queue s') ≡ₚ service_order (pool_queue s) ++ new.
Proof.
  intros Hall Hr.
  assert (Forall blocked (goroutines s') ∧ answered s' = answered s ∧ ∃ new, pushed s' = pushed s ++ new ∧
    service_order (pool_queue s') ≡ₚ service_order (pool_queue s) ++ new) as (_ & H1 & H2); [|done].
  apply (invariant_rtc (pool_step false) (λ x, Forall blocked (goroutines x) ∧ answered x = answered s ∧
    ∃ new, pushed x = pushed s ++ new ∧
      service_order (pool_queue x) ≡ₚ service_order (pool_queue s) ++ new)) in Hr; [done| |].
  - intros s0 s1 Hs (Hall0 & Ha0 & new & Hp0 & Ho0). destruct Hs as [Ha|Hw].
    + destruct (blocked_arrive _ _ Ha Hall0) as (? & -> & new' & Hp1 & Ho1). split_and!; [done..|].
      exists (new ++ new'). by rewrite Hp1, Hp0, Ho1, Ho0, !app_assoc.
    + destruct (blocked_work _ _ Hw Hall0) as (? & -> & -> & ->). eauto.
  - split_and!; [done..|]. exists []. by rewrite !app_nil_r.
Qed.

End pool.

(** ** What the gateway puts into the queue *)

(** Two readings of one body by encoding/json: a text that decodes into the gateway's
    struct and sets [model] is an object. *)
Lemma object_payload body model stream :
  decode_payload body = Some (model, stream) → model ≠ "" →
  ∃ fields, unmarshal_fields body = Some (Some fields).
Proof.
  unfold decode_payload, unmarshal_struct, unmarshal_fields.
  destruct (parse body) as [[]|]; try done; [by intros [= <- _]|by eexists].
Qed.

(** A request that [run] puts into the queue carries the key it was authenticated with. *)
Lemma run_queue `{JsonError} g target fused now_limit now_enqueue dispatch r w s :
  let e := run g target fused now_limit now_enqueue dispatch r w s in
  sh_queue (e_shared e) = sh_queue s ∨
  ∃ req info, TryPush req (sh_queue s) = (sh_queue (e_shared e), true) ∧ object_body req ∧
    authenticate g r = inl info ∧ KeyID req = InfoKeyID info.
Proof.
  intros e. assert (∀ info w' s', authenticate g r = inl info → sh_queue s' = sh_queue s →
    let e' := read_and_queue g target now_enqueue dispatch r (InfoKeyID info) w' s' in
    sh_queue (e_shared e') = sh_queue s ∨
    ∃ req info, TryPush req (sh_queue s) = (sh_queue (e_shared e'), true) ∧ object_body req ∧
      authenticate g r = inl info ∧ KeyID req = InfoKeyID info) as Hq.
  { intros info w' s' Hau Hs e'. subst e'.
    destruct (read_queue_spec g target now_enqueue dispatch r (InfoKeyID info) w' s')
      as (_ & [->|(body & model & stream & req & _ & Hd & Hm & Hp & Hb & _ & _ & _ & Hk & _)]); [by left|right].
    exists req, info. rewrite Hs in Hp. split_and!; [done| |done|done]. unfold object_body. rewrite Hb.
    by eapply object_payload. }
  unfold authenticate in Hq. subst e. unfold run, authenticate. case_decide; [by left|].
  destruct (with_auth g) as [[keys limited]|]; [|by apply (Hq {| InfoKeyID := ""; RequestsPerMin := 0 |})].
  destruct (extractAPIKey r) as [apiKey|]; [|by left].
  destruct (Lookup apiKey keys) as [info|]; [|by left]. destruct limited; [|by apply Hq].
  destruct (Allow _ _ _ _ _) as [l [|]]; [by apply Hq|by left].
Qed.

(** The requests a gateway puts into the queue are the ones the pool can serve: one
    request at most, and whatever its model, its fallbacks and the upstream's answers, no
    dispatcher panics on it - [setModel] writes into a map that is nil for the body
    [null], and the gateway turns that body away. *)
Theorem gateway_requests_dispatchable `{JsonError} `{FmtQuote}
    g target fused now_limit now_enqueue dispatch r w s :
  let e := run g target fused now_limit now_enqueue dispatch r w s in
  sh_queue (e_shared e) = sh_queue s ∨
  ∃ req, TryPush req (sh_queue s) = (sh_queue (e_shared e), true) ∧ object_body req ∧
    ∀ d ask, (∃ calls result, dispatchBuffered d ask req = (calls, Ok result)) ∧
             (∃ calls out, dispatchStream d ask req = (calls, Ok out)).
Proof.
  intros e. destruct (run_queue g target fused now_limit now_enqueue dispatch r w s)
    as [?|(req & _ & Hp & Ho & _)]; [by left|].
  right. exists req. split; [done|]. split; [done|].
  intros d ask. split; [by apply dispatchBuffered_total|by apply dispatchStream_total].
Qed.

(** *** Witnesses *)

Definition demo_stream : Request :=
  {| ID := "req-1"; Body := demo_body; ReqModel := "llama3"; Priority := PriorityNormal;
     EnqueuedAt := 0; KeyID := ""; Stream := true |}.

Definition demo_pool (qd : list Request) (gs : list Goroutine) (pd : list Request)
    (an : list (Request * Result)) : Pool :=
  {| pool_queue := {| high := []; normal := qd; low := []; capacity := 2 |};
     goroutines := gs; stopping := false; pushed := pd; answered := an |}.

Lemma demo_object : object_body demo_stream.
Proof. eexists. vm_compute. reflexivity. Qed.

Lemma demo_queued patient :
  rtc (@pool_step demo_error (λ s, s) demo_dispatcher patient) (started demo_dispatcher 2)
    (demo_pool [demo_stream] [Popping] [demo_stream] []).
Proof.
  apply rtc_once. left.
  exact (@a_push (started demo_dispatcher 2) demo_stream _ eq_refl demo_object).
Qed.

(** Seventeen chunks that nobody reads. *)
Definition demo_chunks : list string := replicate 17 "data".

Definition demo_blocked : Pool :=
  demo_pool [] [Pumping (stream_start demo_chunks false)] [demo_stream]
    [(demo_stream, commit_result 200 "llama3" "text/event-stream")].

Lemma demo_abandoned :
  rtc (@pool_step demo_error (λ s, s) demo_dispatcher false) (started demo_dispatcher 2) demo_blocked.
Proof.
  etrans; [apply demo_queued|].
  eapply rtc_l; [right; exact (@w_pop demo_error (λ s, s) demo_dispatcher false
    (demo_pool [demo_stream] [Popping] [demo_stream] []) 0 PriorityNormal demo_stream _ eq_refl eq_refl)|].
  apply rtc_once. right.
  refine (@w_stream demo_error (λ s, s) demo_dispatcher false
    (demo_pool [] [Dispatching demo_stream] [demo_stream] []) 0 demo_stream
    (λ _ _, Answer 200 "text/event-stream" demo_chunks None) _
    {| so_result := commit_result 200 "llama3" "text/event-stream"; so_chunks := demo_chunks |} false
    eq_refl eq_refl _ _ _); [vm_compute; reflexivity|done|done].
Qed.

Lemma pool_exactly_once_witness :
  pushed demo_blocked ≡ₚ [] ++ [] ++ [demo_stream].
Proof.
  destruct (@pool_exactly_once demo_error (λ s, s) demo_dispatcher false 2 demo_blocked demo_abandoned)
    as [Hb _].
  exact Hb.
Defined.

Lemma pool_exhausted_witness :
  ∃ s', rtc (@pool_step demo_error (λ s, s) demo_dispatcher false) (started demo_dispatcher 2) demo_blocked ∧
    rtc (@pool_step demo_error (λ s, s) demo_dispatcher false) demo_blocked s' ∧
    pushed s' = [demo_stream; demo_stream] ∧ answered s' = answered demo_blocked.
Proof.
  pose (s' := demo_pool [demo_stream] (goroutines demo_blocked) [demo_stream; demo_stream] (answered demo_blocked)).
  assert (rtc (@pool_step demo_error (λ s, s) demo_dispatcher false) demo_blocked s') as Hr.
  { apply rtc_once. left. exact (@a_push demo_blocked demo_stream _ eq_refl demo_object). }
  exists s'. split; [apply demo_abandoned|]. split; [exact Hr|]. split; [reflexivity|].
  apply (@pool_exhausted demo_error (λ s, s) demo_dispatcher demo_blocked s'); [|exact Hr].
  apply Forall_singleton. exists demo_chunks, (stream_start demo_chunks false).
  split; [reflexivity|]. split; [apply Nat.ltb_lt; reflexivity|apply rtc_refl].
Defined.

Definition demo_accepted : GoHttp.Request :=
  {| Method := "POST"; Path := "/v1/completions"; ReqHeader := {["Authorization" := "Bearer secret"]};
     ReqBody := Some demo_body |}.

Lemma gateway_requests_dispatchable_witness :
  let e := run demo_gateway (portable NoFusing) false 0 0 demo_dispatch
    demo_accepted newWriter demo_shared in
  ∃ req, TryPush req (sh_queue demo_shared) = (sh_queue (e_shared e), true) ∧
    object_body req.
Proof.
  destruct (@gateway_requests_dispatchable demo_error (λ s, s)
    demo_gateway (portable NoFusing) false 0 0 demo_dispatch demo_accepted newWriter demo_shared)
    as [Hq|(req & Hp & Ho & _)]; [|by exists req].
  apply (f_equal normal) in Hq. vm_compute in Hq. discriminate Hq.
Defined.
