(* ===== verification/RequestServer.v ===== *)
(** * The request plane's server (request-plane/cmd/server/main.go, and the options of
    request-plane/gateway/gateway.go)

    What main builds from the command line's flags, and the process it starts: clients'
    requests through the gateway, the pool of dispatchers behind the same queue.  Sockets
    and logging are left out; Shutdown has the process and its end. *)

From S2P Require Import Prelude GoFloat GoStrings GoHttp GoJson GoUnmarshal Queue Slo Auth Dispatcher Gateway Config Pool.
Open Scope Z_scope.

(** ** gateway.New and its options *)

(** [WithSLO] installs the tracker, which [Shared] holds, and the estimator; a nil argument
    is a [None]. *)
Inductive GatewayOption :=
  | WithSLO (e : option Estimator)
  | WithBackpressure (p : option Policy)
  | WithAuth (keys : option KeyStore) (limiter : bool)
  | WithRequestHook.

Definition apply_gateway_option (g : Gateway) (o : GatewayOption) : Gateway :=
  match o with
  | WithSLO e => {| waitTimeout := waitTimeout g; with_slo := e; with_policy := with_policy g;
      with_auth := with_auth g; with_hook := with_hook g |}
  | WithBackpressure p => {| waitTimeout := waitTimeout g; with_slo := with_slo g; with_policy := p;
      with_auth := with_auth g; with_hook := with_hook g |}
  | WithAuth keys limiter => {| waitTimeout := waitTimeout g; with_slo := with_slo g; with_policy := with_policy g;
      with_auth := (λ k, (k, limiter)) <$> keys; with_hook := with_hook g |}
  | WithRequestHook => {| waitTimeout := waitTimeout g; with_slo := with_slo g; with_policy := with_policy g;
      with_auth := with_auth g; with_hook := true |}
  end.

Definition NewGateway (wait : Z) (opts : list GatewayOption) : Gateway :=
  foldl apply_gateway_option
    {| waitTimeout := wait; with_slo := None; with_policy := None; with_auth := None; with_hook := false |} opts.

(** ** main *)

(** The flags that reach a component; durations in nanoseconds. *)
Record ServerFlags := {
  sf_upstream : string;
  sf_queueCap : Z;
  sf_concurrency : Z;
  sf_waitTimeout : Z;
  sf_sloFallback : Z;
  sf_maxWaitHigh : Z;
  sf_maxWaitNormal : Z;
  sf_maxWaitLow : Z;
  sf_maxAttempts : Z;
  sf_fallbackMap : string;
  sf_apiKeys : string;
}.

Definition default_server_flags : ServerFlags :=
  {| sf_upstream := "http://localhost:8080"; sf_queueCap := 1000; sf_concurrency := 10;
     sf_waitTimeout := 30 * SecondNs; sf_sloFallback := 2 * SecondNs; sf_maxWaitHigh := 5 * SecondNs;
     sf_maxWaitNormal := 15 * SecondNs; sf_maxWaitLow := 60 * SecondNs; sf_maxAttempts := 2;
     sf_fallbackMap := ""; sf_apiKeys := "" |}.

(** What main starts. *)
Record RequestPlane := {
  rp_dispatcher : Dispatcher;
  rp_gateway : Gateway;
  rp_shared : Shared;
  rp_pool : Pool;
  rp_stats : Stats;
  rp_keys : option KeyStore;
}.

Definition thresholds (f : ServerFlags) : Policy :=
  <[PriorityHigh := sf_maxWaitHigh f]> (<[PriorityNormal := sf_maxWaitNormal f]>
    (<[PriorityLow := sf_maxWaitLow f]> ∅)).

Definition gateway_options (f : ServerFlags) (keys : option KeyStore) : list GatewayOption :=
  [WithSLO (Some (NewEstimator (sf_concurrency f))); WithBackpressure (Some (thresholds f)); WithRequestHook] ++
  (if keys is Some _ then [WithAuth keys true] else []).

Definition request_plane (f : ServerFlags) : res RequestPlane :=
  (q ←! NewQueue (sf_queueCap f);
   let d := NewDispatcher (sf_upstream f) (sf_concurrency f)
     [WithMaxAttempts (sf_maxAttempts f); WithFallbacks (parseFallbackMap (sf_fallbackMap f))] in
   let keys := parseAPIKeys (sf_apiKeys f) in
   Ok {| rp_dispatcher := d;
         rp_gateway := NewGateway (sf_waitTimeout f) (gateway_options f keys);
         rp_shared := {| idCounter := 0; sh_queue := q; sh_limiter := NewRateLimiter;
                         sh_tracker := NewLatencyTracker (sf_sloFallback f) |};
         rp_pool := Run d q; rp_stats := NewStats; rp_keys := keys |})%go.

(** The negative capacity that [make] refuses is the only flag value main does not take. *)
Lemma request_plane_spec f :
  match request_plane f with
  | Panic p => sf_queueCap f < 0 ∧ p = MakeChanSize
  | Ok rp =>
    0 ≤ sf_queueCap f ∧
    rp_pool rp = Pool.started (rp_dispatcher rp) (Z.to_nat (sf_queueCap f)) ∧
    sh_queue (rp_shared rp) = pool_queue (rp_pool rp) ∧
    concurrency (rp_dispatcher rp) = sf_concurrency f ∧
    upstream (rp_dispatcher rp) = sf_upstream f ∧
    maxAttempts (rp_dispatcher rp) = Z.max 1 (sf_maxAttempts f) ∧
    fallbacks (rp_dispatcher rp) = parseFallbackMap (sf_fallbackMap f) ∧
    with_auth (rp_gateway rp) = (λ k, (k, true)) <$> parseAPIKeys (sf_apiKeys f) ∧
    with_slo (rp_gateway rp) = Some (NewEstimator (sf_concurrency f)) ∧
    with_policy (rp_gateway rp) = Some (thresholds f) ∧ with_hook (rp_gateway rp) = true
  end.
Proof.
  unfold request_plane, NewQueue. destruct (Z.ltb_spec (sf_queueCap f) 0) as [Hc|Hc]; simpl; [done|].
  split_and!; try done; [|by destruct (parseAPIKeys _)..].
  destruct (Z.ltb_spec (sf_maxAttempts f) 1); lia.
Qed.

Lemma request_plane_inv f rp : request_plane f = Ok rp →
  rp_pool rp = Pool.started (rp_dispatcher rp) (Z.to_nat (sf_queueCap f)) ∧
  concurrency (rp_dispatcher rp) = sf_concurrency f ∧
  with_auth (rp_gateway rp) = (λ k, (k, true)) <$> parseAPIKeys (sf_apiKeys f).
Proof. intros Hf. pose proof (request_plane_spec f) as Hs. rewrite Hf in Hs. by destruct Hs as (_ & -> & _ & -> & _ & _ & _ & -> & _). Qed.

(** ** The running server *)

(** The requests that [q'] holds and [q0] did not, where [q'] is [q0] after pushes. *)
Definition joined (q0 q' : Queue) : list Queue.Request :=
  drop (length (high q0)) (high q') ++ drop (length (normal q0)) (normal q') ++ drop (length (low q0)) (low q').

Lemma joined_same q0 : joined q0 q0 = [].
Proof. unfold joined. by rewrite !drop_all. Qed.

Lemma joined_push req q0 q' : TryPush req q0 = (q', true) → joined q0 q' = [req].
Proof.
  unfold TryPush, lane, set_lane. destruct q0 as [hs ms ls c]. simpl.
  destruct (Priority req =? PriorityHigh), (Priority req =? PriorityNormal), (Priority req =? PriorityLow);
    simpl; try done; case_decide; try done; intros [= <-]; unfold joined; simpl;
    by rewrite ?drop_app_length, ?drop_all.
Qed.

(** A goroutine blocked in [Pop] is one more place in every lane. *)
Definition with_receiver (q0 : Queue) : Queue :=
  {| high := high q0; normal := normal q0; low := low q0; capacity := S (capacity q0) |}.

Section server.
Context `{JsonError} `{FmtQuote} (rp : RequestPlane) (target : Target) (fused : bool).

(** The shared state behind one request of a client. *)
Definition served (now_limit now_enqueue : Z) (dispatch : Queue.Request → Outcome) (r : GoHttp.Request) (sh : Shared)
    : Shared :=
  (ServeHTTP (rp_gateway rp) target fused now_limit now_enqueue dispatch r newWriter sh).1.2.

(** One step: a client's request goes through the gateway as far as its push, a goroutine
    works, or the signal cancels the context.  Limiter, tracker and counter of [sh] are any,
    since other handlers change them at any time; the queue is the pool's. *)
Inductive server_step (patient : bool) (s : Pool) : Pool → Prop :=
  | sv_request now_limit now_enqueue dispatch r sh q' :
      sh_queue sh = pool_queue s → q' = sh_queue (served now_limit now_enqueue dispatch r sh) →
      server_step patient s {| pool_queue := q'; goroutines := goroutines s; stopping := stopping s;
        pushed := pushed s ++ joined (pool_queue s) q'; answered := answered s |}
  | sv_handoff now_limit now_enqueue dispatch r sh n req :
      goroutines s !! n = Some Popping → lane (Priority req) (pool_queue s) = Some [] →
      sh_queue sh = with_receiver (pool_queue s) →
      joined (sh_queue sh) (sh_queue (served now_limit now_enqueue dispatch r sh)) = [req] →
      server_step patient s {| pool_queue := pool_queue s; goroutines := <[n := Dispatching req]> (goroutines s);
        stopping := stopping s; pushed := pushed s ++ [req]; answered := answered s |}
  | sv_cancel :
      server_step patient s {| pool_queue := pool_queue s; goroutines := goroutines s; stopping := true;
        pushed := pushed s; answered := answered s |}
  | sv_work s' : work (rp_dispatcher rp) patient s s' → server_step patient s s'.

(** The request carries a key of the gateway's store, if it has one. *)
Definition entitled (req : Queue.Request) : Prop :=
  match with_auth (rp_gateway rp) with
  | None => KeyID req = ""
  | Some (keys, _) => ∃ apiKey info, keys !! apiKey = Some info ∧ KeyID req = InfoKeyID info
  end.

Lemma served_queue now_limit now_enqueue dispatch r sh :
  let q' := sh_queue (served now_limit now_enqueue dispatch r sh) in
  q' = sh_queue sh ∨ ∃ req, TryPush req (sh_queue sh) = (q', true) ∧ object_body req ∧ entitled req.
Proof.
  unfold served, ServeHTTP, handleInference. simpl.
  case_decide; [|case_decide; by left]. simpl.
  destruct (run_queue (rp_gateway rp) target fused now_limit now_enqueue dispatch r newWriter sh)
    as [?|(req & info & Hp & Ho & Hau & Hk)]; [by left|right].
  exists req. split_and!; [done..|]. unfold authenticate in Hau. unfold entitled.
  destruct (with_auth (rp_gateway rp)) as [[keys limited]|]; [|injection Hau as <-; done].
  destruct (extractAPIKey r) as [apiKey|]; [|done]. unfold Lookup in Hau.
  destruct (keys !! apiKey) as [info'|] eqn:Hl; [|done]. injection Hau as ->. by exists apiKey, info.
Qed.

(** A step of the server is a step of its pool, or none. *)
Lemma server_step_pool patient s s' : server_step patient s s' →
  (s' = s ∨ pool_step (rp_dispatcher rp) patient s s') ∧
  (Forall entitled (pushed s) → Forall entitled (pushed s')).
Proof.
  intros [now_limit now_enqueue dispatch r sh q' Hq ->|now_limit now_enqueue dispatch r sh n req Hn Hl Hq Hj| |s1 Hw].
  - destruct (served_queue now_limit now_enqueue dispatch r sh) as [Hsame|(req & Hp & Ho & Ha)].
    + rewrite Hsame, Hq, joined_same, app_nil_r. split; [left; by destruct s|done].
    + rewrite Hq in Hp. rewrite (joined_push _ _ _ Hp). split; [right; left; by apply a_push|].
      intros Hf. apply Forall_app. split; [done|by apply Forall_singleton].
  - destruct (served_queue now_limit now_enqueue dispatch r sh) as [Hsame|(req' & Hp & Ho & Ha)].
    + by rewrite Hsame, joined_same in Hj.
    + rewrite (joined_push _ _ _ Hp) in Hj. injection Hj as ->. split; [right; left; by apply a_handoff|].
      intros Hf. apply Forall_app. split; [done|by apply Forall_singleton].
  - split; [right; left; apply a_cancel|done].
  - split; [by right; right|]. by destruct (work_history _ _ _ _ Hw) as [-> _].
Qed.

Lemma server_steps_pool patient s s' : rtc (server_step patient) s s' → Forall entitled (pushed s) →
  rtc (pool_step (rp_dispatcher rp) patient) s s' ∧ Forall entitled (pushed s').
Proof.
  induction 1 as [s|s s1 s' Hs _ IH]; intros Hf; [by split|].
  destruct (server_step_pool _ _ _ Hs) as [Hp Hent]. destruct (IH (Hent Hf)) as [Hr ?]. split; [|done].
  destruct Hp as [->|Hp]; [done|by eapply rtc_l].
Qed.

(** C4: The server answers whatever it accepts: started with any flags that ask for at least
    one dispatcher, after any clients' requests and any work, once no request arrives any
    more its dispatchers can only take finitely many steps, and when none is left every
    request the gateway accepted - each under a key of the configured store - has exactly
    one result, as long as no client gave up on a stream and no signal arrived. *)
Theorem server_drains f s :
  request_plane f = Ok rp → 0 < sf_concurrency f →
  rtc (server_step true) (rp_pool rp) s → stopping s = false →
  sn (work (rp_dispatcher rp) true) s ∧ Forall entitled (pushed s) ∧
  ∀ s', rtc (work (rp_dispatcher rp) true) s s' → nf (work (rp_dispatcher rp) true) s' →
    (answered s').*1 ≡ₚ pushed s ∧ Forall (eq Popping) (goroutines s').
Proof.
  intros Hf Hc Hr Hst. destruct (request_plane_inv _ _ Hf) as (Hp & Hcon & _). rewrite Hp in Hr.
  apply server_steps_pool in Hr as [Hr Hent]; [|constructor].
  destruct (pool_drains _ _ _ Hr Hst) as [Hsn Hall]; [lia|]. by split_and!.
Qed.

(** C22: The key flag is what the gateway enforces: on a server started with the printed form
    of a list of keys and limits, a bearer key of the list acts under its own name and
    limit, with limit zero not limited at all, and any other request with POST is answered
    401 and leaves limiter, queue, tracker and counter alone. *)
Theorem keys_enforced f l :
  l ≠ [] → NoDup l.*1 → Forall printable_key l →
  sf_apiKeys f = print_keys l → request_plane f = Ok rp →
  ∀ r, Method r = "POST" →
  match extractAPIKey r ≫= λ key, (list_to_map l : gmap string Z) !! key with
  | Some rpm => ∃ key, (key, rpm) ∈ l ∧ Get (ReqHeader r) "Authorization" = "Bearer " +:+ key ∧
      authenticate (rp_gateway rp) r = inl {| InfoKeyID := key; RequestsPerMin := rpm |} ∧
      ∀ now sh, limit (rp_gateway rp) fused now {| InfoKeyID := key; RequestsPerMin := rpm |} sh =
        if rpm =? 0 then (sh_limiter sh, true) else Allow fused now key rpm (sh_limiter sh)
  | None => ∀ now_limit now_enqueue dispatch w sh, Written w = None →
      let e := run (rp_gateway rp) target fused now_limit now_enqueue dispatch r w sh in
      e_shared e = sh ∧ Written (e_writer e) = Some StatusUnauthorized
  end.
Proof.
  intros Hne Hnd Hall Hk Hf r HP. destruct (request_plane_inv _ _ Hf) as (_ & _ & Hau).
  rewrite Hk, parseAPIKeys_print in Hau by done. cbn [fmap option_fmap option_map] in Hau.
  assert (∀ key, (list_to_map (key_entry <$> l) : KeyStore) !! key =
    (λ rpm, {| InfoKeyID := key; RequestsPerMin := rpm |}) <$> (list_to_map l : gmap string Z) !! key) as Hlook.
  { intros key. clear. induction l as [|[k v] l IH]; [done|]. simpl.
    rewrite !lookup_insert. by case_decide as Hk; [subst|]. }
  assert (∀ code, authenticate (rp_gateway rp) r = inr code → ∀ now_limit now_enqueue dispatch w sh, Written w = None →
    let e := run (rp_gateway rp) target fused now_limit now_enqueue dispatch r w sh in
    e_shared e = sh ∧ Written (e_writer e) = Some StatusUnauthorized) as Hno.
  { intros code Hc now_limit now_enqueue dispatch w sh Hw. unfold run. rewrite decide_False by (intros Hn; by apply Hn).
    unfold authenticate in Hc. rewrite Hau in Hc |- *. destruct (extractAPIKey r) as [key|].
    - destruct (Lookup key _); [done|]. split; [done|by apply Error_status].
    - split; [done|by apply Error_status]. }
  unfold authenticate, limit in *. rewrite Hau in *. unfold Lookup in *.
  destruct (extractAPIKey r) as [key|] eqn:He; simpl; [|by eapply Hno].
  rewrite Hlook in *.
  destruct ((list_to_map l : gmap string Z) !! key) as [rpm|] eqn:Hl; simpl; [|by eapply Hno].
  exists key. assert ((key, rpm) ∈ l) as Hin by by apply elem_of_list_to_map_2. split_and!; [done| |done|].
  - unfold extractAPIKey in He. destruct (TrimPrefix _ _) as [t|] eqn:Ht; [|done].
    apply TrimPrefix_Some in Ht. destruct t; [done|]. injection He as <-. done.
  - intros now sh. rewrite Forall_forall in Hall. destruct (Hall _ Hin) as [_ _ Hlim]. simpl in Hlim.
    destruct (Z.eqb_spec rpm 0) as [->|Hn]; [done|]. done.
Qed.

End server.

(** *** Witnesses *)

Definition demo_keys : list (string * Z) := [("alpha", 600); ("beta", 0)].

Definition demo_flags : ServerFlags :=
  {| sf_upstream := "http://localhost:8080"; sf_queueCap := 4; sf_concurrency := 2;
     sf_waitTimeout := 30 * SecondNs; sf_sloFallback := 2 * SecondNs; sf_maxWaitHigh := 5 * SecondNs;
     sf_maxWaitNormal := 15 * SecondNs; sf_maxWaitLow := 60 * SecondNs; sf_maxAttempts := 2;
     sf_fallbackMap := "llama3:70b=llama3:8b"; sf_apiKeys := print_keys demo_keys |}.

Lemma server_drains_witness :
  ∃ rp s, request_plane demo_flags = Ok rp ∧
    rtc (@server_step demo_error (λ s, s) rp (portable NoFusing) false true) (rp_pool rp) s ∧
    map KeyID (pushed s) = ["alpha"] ∧ sn (@work demo_error (λ s, s) (rp_dispatcher rp) true) s.
Proof.
  destruct (request_plane demo_flags) as [rp|] eqn:Hf; [|vm_compute in Hf; discriminate Hf].
  assert (∃ s, rtc (@server_step demo_error (λ s, s) rp (portable NoFusing) false true) (rp_pool rp) s ∧
    map KeyID (pushed s) = ["alpha"] ∧ stopping s = false) as (s & Hr & Hk & Hst).
  { eexists. split; [apply rtc_once|].
    - exact (@sv_request demo_error (λ s, s) rp (portable NoFusing) false true (rp_pool rp) 0 0
        demo_dispatch (demo_client "Bearer alpha") (rp_shared rp) _
        ltac:(vm_compute in Hf; injection Hf as <-; reflexivity) eq_refl).
    - vm_compute in Hf. injection Hf as <-. split; vm_compute; reflexivity. }
  exists rp, s. split; [reflexivity|]. split; [exact Hr|]. split; [exact Hk|].
  apply (@server_drains demo_error (λ s, s) rp (portable NoFusing) false demo_flags s Hf);
    [reflexivity|exact Hr|exact Hst].
Defined.

Lemma keys_enforced_witness :
  ∃ rp, request_plane demo_flags = Ok rp ∧
    authenticate (rp_gateway rp) (demo_client "Bearer alpha") = inl {| InfoKeyID := "alpha"; RequestsPerMin := 600 |} ∧
    Written (e_writer (run (rp_gateway rp) (portable NoFusing) false 0 0 demo_dispatch
      (demo_client "Bearer gamma") newWriter (rp_shared rp))) = Some StatusUnauthorized.
Proof.
  destruct (request_plane demo_flags) as [rp|] eqn:Hf; [|vm_compute in Hf; discriminate Hf].
  exists rp. split; [reflexivity|].
  assert (demo_keys ≠ []) as Hne by done.
  assert (NoDup demo_keys.*1) as Hnd by (apply (bool_decide_unpack _); vm_compute; reflexivity).
  assert (Forall printable_key demo_keys) as Hall.
  { repeat constructor; simpl; try done; try lia; vm_compute; intuition discriminate. }
  pose proof (keys_enforced rp (portable NoFusing) false demo_flags demo_keys
    Hne Hnd Hall eq_refl Hf) as Hke.
  split.
  - destruct (Hke (demo_client "Bearer alpha") eq_refl) as (key & Hin & Hg & Hau & _).
    assert ("alpha" = key) as <- by (vm_compute in Hg; by injection Hg). exact Hau.
  - apply (Hke (demo_client "Bearer gamma") eq_refl 0 0 demo_dispatch newWriter (rp_shared rp)). reflexivity.
Defined.
