(* ===== verification/Live.v ===== *)
(** * The running request plane, handler by handler

    What Gateway does in one piece and Pool sees from the queue's side, taken apart at every
    access to shared state: each client has its own handler goroutine (handleInference of
    request-plane/gateway/gateway.go), each dispatcher its own loop (workerLoop of
    request-plane/dispatcher/dispatcher.go), and between any two of their steps all the others
    go on and time passes.  A request is a pointer to a [Cell], which holds the request and
    its two channels; the lanes of the queue hold pointers. *)

From S2P Require Import Prelude GoFloat GoStrings GoHttp GoJson GoUnmarshal Queue Slo Auth Dispatcher Gateway.
Open Scope Z_scope.

(** ** Requests in memory *)

(** [ce_result] is what [ResultCh] buffers, [ce_chunks] and [ce_closed] are [Chunks],
    [ce_body] what the upstream connection of a committed stream has still to give.  The
    history: [ce_out], what the dispatcher made of the request, and [ce_taken], the chunks
    the handler has taken. *)
Record Cell := {
  ce_req : Queue.Request;
  ce_result : option Result;
  ce_chunks : list string;
  ce_closed : bool;
  ce_body : list string;
  ce_out : option StreamOut;
  ce_taken : list string;
}.

Definition new_cell (req : Queue.Request) : Cell :=
  {| ce_req := req; ce_result := None; ce_chunks := []; ce_closed := false; ce_body := []; ce_out := None;
     ce_taken := [] |}.

(** [ResultCh <- result], then the stream's body, if there is one. *)
Definition commit_cell (out : StreamOut) (c : Cell) : Cell :=
  {| ce_req := ce_req c; ce_result := Some (so_result out); ce_chunks := ce_chunks c; ce_closed := ce_closed c;
     ce_body := so_chunks out; ce_out := Some out; ce_taken := ce_taken c |}.

(** [<-ResultCh]. *)
Definition take_result (c : Cell) : Cell :=
  {| ce_req := ce_req c; ce_result := None; ce_chunks := ce_chunks c; ce_closed := ce_closed c;
     ce_body := ce_body c; ce_out := ce_out c; ce_taken := ce_taken c |}.

(** [Chunks <- chunk], [rest] being left of the body. *)
Definition send_chunk (chunk : string) (rest : list string) (c : Cell) : Cell :=
  {| ce_req := ce_req c; ce_result := ce_result c; ce_chunks := ce_chunks c ++ [chunk]; ce_closed := ce_closed c;
     ce_body := rest; ce_out := ce_out c; ce_taken := ce_taken c |}.

(** [<-Chunks]. *)
Definition take_chunk (chunk : string) (rest : list string) (c : Cell) : Cell :=
  {| ce_req := ce_req c; ce_result := ce_result c; ce_chunks := rest; ce_closed := ce_closed c;
     ce_body := ce_body c; ce_out := ce_out c; ce_taken := ce_taken c ++ [chunk] |}.

Definition close_chunks (c : Cell) : Cell :=
  {| ce_req := ce_req c; ce_result := ce_result c; ce_chunks := ce_chunks c; ce_closed := true;
     ce_body := ce_body c; ce_out := ce_out c; ce_taken := ce_taken c |}.

(** The lanes, as pointers. *)
Record Lanes := {
  l_high : list nat;
  l_normal : list nat;
  l_low : list nat;
  l_capacity : nat;
}.

Definition lane_of (p : Z) (ls : Lanes) : option (list nat) :=
  if p =? PriorityHigh then Some (l_high ls)
  else if p =? PriorityNormal then Some (l_normal ls)
  else if p =? PriorityLow then Some (l_low ls)
  else None.

Definition put_lane (p : Z) (l : list nat) (ls : Lanes) : Lanes :=
  if p =? PriorityHigh then
    {| l_high := l; l_normal := l_normal ls; l_low := l_low ls; l_capacity := l_capacity ls |}
  else if p =? PriorityNormal then
    {| l_high := l_high ls; l_normal := l; l_low := l_low ls; l_capacity := l_capacity ls |}
  else if p =? PriorityLow then
    {| l_high := l_high ls; l_normal := l_normal ls; l_low := l; l_capacity := l_capacity ls |}
  else ls.

Definition try_push (p : Z) (n : nat) (ls : Lanes) : option Lanes :=
  match lane_of p ls with
  | Some l => if decide (length l < l_capacity ls)%nat then Some (put_lane p (l ++ [n]) ls) else None
  | None => None
  end.

Definition queued (ls : Lanes) : list nat := l_high ls ++ l_normal ls ++ l_low ls.

Definition request_at (cells : list Cell) (n : nat) : option Queue.Request := ce_req <$> cells !! n.

(** The queue the pointers stand for. *)
Definition deref (cells : list Cell) (ls : Lanes) : Queue :=
  {| high := omap (request_at cells) (l_high ls); normal := omap (request_at cells) (l_normal ls);
     low := omap (request_at cells) (l_low ls); capacity := l_capacity ls |}.

(** ** A handler *)

(** What the handler has learnt of its request when it reaches the queue. *)
Record Form := {
  fm_body : string;
  fm_keyID : string;
  fm_model : string;
  fm_stream : bool;
  fm_priority : Z;
}.

(** A response and the calls of the hook. *)
Record Response := {
  rs_writer : Writer;
  rs_calls : list (string * bool);
}.

(** Where a handler is: not begun; past the gates that need no more than the limiter; with
    the number of requests ahead of it; admitted, with its estimate; its request numbered
    and stamped; in the queue, before the select; waiting since [started]; with its result,
    received at [at_]; forwarding a stream; done, for the request [n] if it was queued. *)
Inductive Stage :=
  | Fresh
  | Parsed (fm : Form)
  | Counted (fm : Form) (ahead : Z)
  | Granted (fm : Form) (estimate : option Z)
  | Numbered (req : Queue.Request) (estimate : option Z)
  | Pushed (n : nat) (w : Writer)
  | Waiting (n : nat) (started : Z) (w : Writer)
  | Received (n : nat) (result : Result) (at_ : Z) (w : Writer)
  | Relaying (n : nat) (ok : bool) (w : Writer)
  | Over (n : option nat) (rs : Response).

Section handler.
Context (g : Gateway) (target : Target) (fused : bool).

Definition respond (model : string) (ok : bool) (w : Writer) : Response :=
  {| rs_writer := w; rs_calls := if with_hook g then [(model, ok)] else [] |}.

Definition away (msg : string) (code : Z) (model : string) (w : Writer) : Stage :=
  Over None (respond model false (Error msg code w)).

Definition parse_form (r : GoHttp.Request) (keyID : string) : Stage :=
  match ReqBody r with
  | None => away "failed to read request body" StatusBadRequest "" newWriter
  | Some body =>
    match decode_payload body with
    | None | Some ("", _) => away "request body must contain a valid 'model' field" StatusBadRequest "" newWriter
    | Some (model, stream) =>
      Parsed {| fm_body := body; fm_keyID := keyID; fm_model := model; fm_stream := stream;
                fm_priority := parsePriority r |}
    end
  end.

(** ServeHTTP and handleInference up to the decoded body; the limiter is the only shared
    state they use, the key store never changes. *)
Definition gate (now : Z) (r : GoHttp.Request) (l : RateLimiter) : RateLimiter * Stage :=
  if decide (Path r = "/v1/chat/completions" ∨ Path r = "/v1/completions") then
    if decide (Method r ≠ "POST") then (l, away "method not allowed" StatusMethodNotAllowed "" newWriter)
    else match with_auth g with
    | None => (l, parse_form r "")
    | Some (keys, limited) =>
      match extractAPIKey r with
      | None => (l, away "missing API key" StatusUnauthorized "" newWriter)
      | Some apiKey =>
        match Lookup apiKey keys with
        | None => (l, away "invalid API key" StatusUnauthorized "" newWriter)
        | Some info =>
          if limited then
            let '(l', ok) := Allow fused now (InfoKeyID info) (RequestsPerMin info) l in
            (l', if ok then parse_form r (InfoKeyID info)
                 else away "rate limit exceeded" StatusTooManyRequests "" (SetHeader "Retry-After" "1" newWriter))
          else (l, parse_form r (InfoKeyID info))
        end
      end
    end
  else if decide (Path r = "/healthz") then
    (l, Over None {| rs_writer := Write "ok" (WriteHeader StatusOK newWriter); rs_calls := [] |})
  else (l, Over None {| rs_writer := Error "not found" StatusNotFound newWriter; rs_calls := [] |}).

(** [AheadOf], when there is an estimator. *)
Definition look_ahead (q0 : Queue) (fm : Form) : Stage :=
  match with_slo g with
  | Some _ => Counted fm (Z.of_nat (AheadOf (fm_priority fm) q0))
  | None => Granted fm None
  end.

(** [Estimate] and the policy. *)
Definition admission (tr : LatencyTracker) (fm : Form) (ahead : Z) : Stage :=
  match with_slo g with
  | None => Granted fm None
  | Some e =>
    let est := Estimate target e (fm_model fm) ahead tr in
    match with_policy g with
    | Some p =>
      if Admit p (fm_priority fm) est then Granted fm (Some est)
      else away ("request rejected: estimated wait " +:+ Duration_String est +:+ " exceeds SLO for " +:+
                 Priority_String (fm_priority fm) +:+ " priority") StatusServiceUnavailable (fm_model fm)
             (SetHeader "Retry-After" (FormatInt (f_to_int64 (out_of_range target) (Seconds est) + 1))
               (SetHeader "X-Estimated-Wait-Ms" (FormatInt (Milliseconds est)) newWriter))
    | None => Granted fm (Some est)
    end
  end.

(** [count] is what [idCounter.Add] returned. *)
Definition make_request (count now : Z) (fm : Form) : Queue.Request :=
  {| ID := "req-" +:+ FormatInt count; Body := fm_body fm; ReqModel := fm_model fm; Priority := fm_priority fm;
     EnqueuedAt := now; KeyID := fm_keyID fm; Stream := fm_stream fm |}.

Definition estimate_header (estimate : option Z) (w : Writer) : Writer :=
  match estimate with
  | Some est => SetHeader "X-Estimated-Wait-Ms" (FormatInt (Milliseconds est)) w
  | None => w
  end.

Definition timed_out (req : Queue.Request) (w : Writer) : Response :=
  respond (ReqModel req) false (Error "request timed out waiting for dispatch" StatusGatewayTimeout w).

(** The tracker's sample and the header, once the result has come. *)
Definition sampled (req : Queue.Request) (at_ : Z) (w : Writer) (tr : LatencyTracker) : LatencyTracker * Writer :=
  let actualWait := at_ - EnqueuedAt req in
  match with_slo g with
  | Some _ => (Record_sample target (ReqModel req) actualWait tr,
               SetHeader "X-Actual-Wait-Ms" (FormatInt (Milliseconds actualWait)) w)
  | None => (tr, w)
  end.

Definition delivered (req : Queue.Request) (n : nat) (result : Result) (w : Writer) : Stage :=
  match Err result with
  | Some err => Over (Some n) (respond (ReqModel req) false (Error err StatusBadGateway w))
  | None =>
    let ok := is_success (StatusCode result) in
    if Streaming result then Relaying n ok (streamResponse result [] w)
    else
      let w' := if decide (ServedModel result = "") then w else SetHeader "X-Served-Model" (ServedModel result) w in
      Over (Some n) (respond (ReqModel req) ok
        (Write (ResBody result) (WriteHeader (StatusCode result) (SetHeader "Content-Type" "application/json" w'))))
  end.

End handler.

(** ** The system *)

(** A dispatcher's goroutine: in [Pop]; between [Pop] and the send on [ResultCh]; sending
    the chunks of a stream; returned. *)
Inductive Runner :=
  | Idle
  | Serving (n : nat)
  | Sending (n : nat)
  | Returned.

Record Client := {
  cl_request : GoHttp.Request;
  cl_stage : Stage;
}.

Record Live := {
  lv_clock : Z;
  lv_count : Z;
  lv_limiter : RateLimiter;
  lv_tracker : LatencyTracker;
  lv_lanes : Lanes;
  lv_cells : list Cell;
  lv_clients : list Client;
  lv_pool : list Runner;
  lv_stopping : bool;
}.

Definition set_clients (cs : list Client) (s : Live) : Live :=
  {| lv_clock := lv_clock s; lv_count := lv_count s; lv_limiter := lv_limiter s; lv_tracker := lv_tracker s;
     lv_lanes := lv_lanes s; lv_cells := lv_cells s; lv_clients := cs; lv_pool := lv_pool s;
     lv_stopping := lv_stopping s |}.

Definition set_cells (cs : list Cell) (s : Live) : Live :=
  {| lv_clock := lv_clock s; lv_count := lv_count s; lv_limiter := lv_limiter s; lv_tracker := lv_tracker s;
     lv_lanes := lv_lanes s; lv_cells := cs; lv_clients := lv_clients s; lv_pool := lv_pool s;
     lv_stopping := lv_stopping s |}.

Definition set_pool (rs : list Runner) (s : Live) : Live :=
  {| lv_clock := lv_clock s; lv_count := lv_count s; lv_limiter := lv_limiter s; lv_tracker := lv_tracker s;
     lv_lanes := lv_lanes s; lv_cells := lv_cells s; lv_clients := lv_clients s; lv_pool := rs;
     lv_stopping := lv_stopping s |}.

Definition set_lanes (ls : Lanes) (s : Live) : Live :=
  {| lv_clock := lv_clock s; lv_count := lv_count s; lv_limiter := lv_limiter s; lv_tracker := lv_tracker s;
     lv_lanes := ls; lv_cells := lv_cells s; lv_clients := lv_clients s; lv_pool := lv_pool s;
     lv_stopping := lv_stopping s |}.

(** The state no pointer leads to. *)
Definition set_front (count : Z) (l : RateLimiter) (tr : LatencyTracker) (s : Live) : Live :=
  {| lv_clock := lv_clock s; lv_count := count; lv_limiter := l; lv_tracker := tr;
     lv_lanes := lv_lanes s; lv_cells := lv_cells s; lv_clients := lv_clients s; lv_pool := lv_pool s;
     lv_stopping := lv_stopping s |}.

Definition set_world (clock : Z) (stopping : bool) (s : Live) : Live :=
  {| lv_clock := clock; lv_count := lv_count s; lv_limiter := lv_limiter s; lv_tracker := lv_tracker s;
     lv_lanes := lv_lanes s; lv_cells := lv_cells s; lv_clients := lv_clients s; lv_pool := lv_pool s;
     lv_stopping := stopping |}.

Definition move (i : nat) (r : GoHttp.Request) (st : Stage) (s : Live) : Live :=
  set_clients (<[i := {| cl_request := r; cl_stage := st |}]> (lv_clients s)) s.

Definition put_cell (n : nat) (c : Cell) (s : Live) : Live := set_cells (<[n := c]> (lv_cells s)) s.

Definition put_runner (j : nat) (rn : Runner) (s : Live) : Live := set_pool (<[j := rn]> (lv_pool s)) s.

Definition queue_of (s : Live) : Queue := deref (lv_cells s) (lv_lanes s).

(** The handler [i], of the request [r], is at [st]. *)
Definition at_stage (s : Live) (i : nat) (r : GoHttp.Request) (st : Stage) : Prop :=
  lv_clients s !! i = Some {| cl_request := r; cl_stage := st |}.

Section system.
Context `{JsonError} `{FmtQuote} (d : Dispatcher) (g : Gateway) (target : Target) (fused : bool).

(** From outside: a client connects, time passes, the signal cancels the context. *)
Inductive outside (s : Live) : Live → Prop :=
  | o_client r : outside s (set_clients (lv_clients s ++ [{| cl_request := r; cl_stage := Fresh |}]) s)
  | o_tick t : lv_clock s ≤ t → outside s (set_world t (lv_stopping s) s)
  | o_cancel : outside s (set_world (lv_clock s) true s).

(** A step of one handler.  A clock reading is the clock at its step. *)
Inductive handle (s : Live) (i : nat) (r : GoHttp.Request) : Live → Prop :=
  | h_gate l st :
      at_stage s i r Fresh → gate g fused (lv_clock s) r (lv_limiter s) = (l, st) →
      handle s i r (move i r st (set_front (lv_count s) l (lv_tracker s) s))
  | h_ahead fm :
      at_stage s i r (Parsed fm) → handle s i r (move i r (look_ahead g (queue_of s) fm) s)
  | h_estimate fm ahead :
      at_stage s i r (Counted fm ahead) →
      handle s i r (move i r (admission g target (lv_tracker s) fm ahead) s)
  | h_number fm estimate count :
      at_stage s i r (Granted fm estimate) → count = uint64 (lv_count s + 1) →
      handle s i r (move i r (Numbered (make_request count (lv_clock s) fm) estimate)
                      (set_front count (lv_limiter s) (lv_tracker s) s))
  | h_push req estimate ls :
      at_stage s i r (Numbered req estimate) →
      try_push (Priority req) (length (lv_cells s)) (lv_lanes s) = Some ls →
      handle s i r (move i r (Pushed (length (lv_cells s)) (estimate_header estimate newWriter))
                      (set_lanes ls (set_cells (lv_cells s ++ [new_cell req]) s)))
  | h_handoff req estimate j :
      at_stage s i r (Numbered req estimate) →
      lv_pool s !! j = Some Idle → lane_of (Priority req) (lv_lanes s) = Some [] →
      handle s i r (move i r (Pushed (length (lv_cells s)) (estimate_header estimate newWriter))
                      (put_runner j (Serving (length (lv_cells s))) (set_cells (lv_cells s ++ [new_cell req]) s)))
  | h_full req estimate :
      at_stage s i r (Numbered req estimate) →
      try_push (Priority req) (length (lv_cells s)) (lv_lanes s) = None →
      handle s i r (move i r (away g "request queue full, try again later" StatusServiceUnavailable
                                (ReqModel req) newWriter) s)
  | h_select n w :
      at_stage s i r (Pushed n w) → handle s i r (move i r (Waiting n (lv_clock s) w) s)
  | h_result n started w c result :
      at_stage s i r (Waiting n started w) → lv_cells s !! n = Some c → ce_result c = Some result →
      handle s i r (move i r (Received n result (lv_clock s) w) (put_cell n (take_result c) s))
  | h_timeout n started w c :
      at_stage s i r (Waiting n started w) → lv_cells s !! n = Some c →
      started + waitTimeout g ≤ lv_clock s →
      handle s i r (move i r (Over (Some n) (timed_out g (ce_req c) w)) s)
  | h_deliver n result at_ w c tr w' :
      at_stage s i r (Received n result at_ w) → lv_cells s !! n = Some c →
      sampled g target (ce_req c) at_ w (lv_tracker s) = (tr, w') →
      handle s i r (move i r (delivered g (ce_req c) n result w')
                      (set_front (lv_count s) (lv_limiter s) tr s))
  | h_chunk n ok w c chunk rest :
      at_stage s i r (Relaying n ok w) → lv_cells s !! n = Some c → ce_chunks c = chunk :: rest →
      handle s i r (move i r (Relaying n ok (Write chunk w)) (put_cell n (take_chunk chunk rest c) s))
  | h_end n ok w c :
      at_stage s i r (Relaying n ok w) → lv_cells s !! n = Some c → ce_chunks c = [] → ce_closed c = true →
      handle s i r (move i r (Over (Some n) (respond g (ReqModel (ce_req c)) ok w)) s).

(** A step of one dispatcher, [ask] being what the upstream answers to it.  It takes from some
    lane; which it may be is the queue's matter (see Queue).  A send on [ResultCh] needs room
    in it. *)
Inductive run_pool (s : Live) (j : nat) (ask : nat → Call → Upstream) : Live → Prop :=
  | p_pop p n l :
      lv_pool s !! j = Some Idle → lane_of p (lv_lanes s) = Some (n :: l) →
      run_pool s j ask (put_runner j (Serving n) (set_lanes (put_lane p l (lv_lanes s)) s))
  | p_return :
      lv_pool s !! j = Some Idle → lv_stopping s = true → run_pool s j ask (put_runner j Returned s)
  | p_buffered n c calls result :
      lv_pool s !! j = Some (Serving n) → lv_cells s !! n = Some c → Stream (ce_req c) = false →
      dispatchBuffered d ask (ce_req c) = (calls, Ok result) → ce_result c = None →
      run_pool s j ask (put_runner j Idle (put_cell n (commit_cell {| so_result := result; so_chunks := [] |} c) s))
  | p_stream n c calls out :
      lv_pool s !! j = Some (Serving n) → lv_cells s !! n = Some c → Stream (ce_req c) = true →
      dispatchStream d ask (ce_req c) = (calls, Ok out) → ce_result c = None →
      run_pool s j ask (put_runner j (Sending n) (put_cell n (commit_cell out c) s))
  | p_send n c chunk rest :
      lv_pool s !! j = Some (Sending n) → lv_cells s !! n = Some c → ce_body c = chunk :: rest →
      (length (ce_chunks c) < chunk_capacity)%nat →
      run_pool s j ask (put_cell n (send_chunk chunk rest c) s)
  | p_close n c :
      lv_pool s !! j = Some (Sending n) → lv_cells s !! n = Some c → ce_body c = [] →
      run_pool s j ask (put_runner j Idle (put_cell n (close_chunks c) s)).

(** What the server does by itself. *)
Definition inside (s s' : Live) : Prop := (∃ i r, handle s i r s') ∨ (∃ j ask, run_pool s j ask s').

Definition live_step (s s' : Live) : Prop := outside s s' ∨ inside s s'.

(** Started with an empty queue of [c] places in each lane. *)
Definition live_start (c : nat) (t0 : Z) (tr : LatencyTracker) : Live :=
  {| lv_clock := t0; lv_count := 0; lv_limiter := NewRateLimiter; lv_tracker := tr;
     lv_lanes := {| l_high := []; l_normal := []; l_low := []; l_capacity := c |};
     lv_cells := []; lv_clients := []; lv_pool := replicate (Z.to_nat (concurrency d)) Idle; lv_stopping := false |}.

End system.
