(* ===== verification/LiveInv.v ===== *)
(** * The running request plane: what always holds

    Where each request of Live is, whose it is, and what every handler may rely on; kept by
    every step of the environment, of a handler and of a dispatcher. *)

From S2P Require Import Prelude GoFloat GoStrings GoHttp GoJson GoUnmarshal Queue Slo Auth Dispatcher Gateway Pool Live.
Open Scope Z_scope.

(** ** Where the requests are *)

(** The request a handler has put into the queue. *)
Definition pointer (st : Stage) : option nat :=
  match st with
  | Fresh | Parsed _ | Counted _ _ | Granted _ _ | Numbered _ _ => None
  | Pushed n _ | Waiting n _ _ | Received n _ _ _ | Relaying n _ _ => Some n
  | Over n _ => n
  end.

Definition serving (rn : Runner) : option nat := match rn with Serving n => Some n | _ => None end.

Definition sending (rn : Runner) : option nat := match rn with Sending n => Some n | _ => None end.

Definition owned (s : Live) : list nat := omap (pointer ∘ cl_stage) (lv_clients s).

Definition pending (s : Live) : list nat := queued (lv_lanes s) ++ omap serving (lv_pool s).

Definition pumped (s : Live) : list nat := omap sending (lv_pool s).

(** The requests of which [P] holds. *)
Definition cells_with (P : Cell → Prop) (cells : list Cell) (n : nat) : Prop :=
  ∃ c, cells !! n = Some c ∧ P c.

Definition unserved (c : Cell) : Prop := ce_out c = None.

Definition streamed (c : Cell) : Prop :=
  ce_out c ≠ None ∧ Stream (ce_req c) = true ∧ ce_closed c = false.

Lemma cells_with_same (P : Cell → Prop) cells n c c' m :
  cells !! n = Some c → (P c' ↔ P c) → cells_with P (<[n := c']> cells) m ↔ cells_with P cells m.
Proof.
  intros Hn HP. unfold cells_with. destruct (decide (m = n)) as [->|Hm].
  - rewrite list_lookup_insert_eq by (by eapply lookup_lt_Some). rewrite Hn.
    split; intros (x & [= <-] & Hx); eexists; (split; [done|tauto]).
  - by rewrite list_lookup_insert_ne.
Qed.

Lemma cells_with_insert (P : Cell → Prop) cells n c c' m :
  cells !! n = Some c → cells_with P (<[n := c']> cells) m ↔ (m = n ∧ P c') ∨ (m ≠ n ∧ cells_with P cells m).
Proof.
  intros Hn. unfold cells_with. destruct (decide (m = n)) as [->|Hm].
  - rewrite list_lookup_insert_eq by (by eapply lookup_lt_Some).
    split; [intros (x & [= <-] & Hx); by left|]. intros [[_ Hx]|[[] _]]; by eexists.
  - rewrite list_lookup_insert_ne by done. split; [by right|]. by intros [[-> _]|[_ Hx]].
Qed.

Lemma cells_with_new (P : Cell → Prop) cells c m :
  cells_with P (cells ++ [c]) m ↔ (m = length cells ∧ P c) ∨ cells_with P cells m.
Proof.
  unfold cells_with. split.
  - intros (x & Hx & HP). apply lookup_app_Some in Hx as [Hx|[Hlen Hx]]; [by right; eexists|left].
    apply list_lookup_singleton_Some in Hx as [Hx <-]. split; [lia|done].
  - intros [[-> HP]|(x & Hx & HP)].
    + exists c. split; [by apply list_lookup_middle|done].
    + exists x. split; [by apply lookup_app_l_Some|done].
Qed.

Lemma cells_with_lt P cells n : cells_with P cells n → (n < length cells)%nat.
Proof. intros (c & Hc & _). by eapply lookup_lt_Some. Qed.

(** A list without repetitions of exactly the requests of which [P] holds. *)
Definition lists (P : Cell → Prop) (cells : list Cell) (l : list nat) : Prop :=
  NoDup l ∧ ∀ n, n ∈ l ↔ cells_with P cells n.

Lemma lists_same P cells n c c' l :
  cells !! n = Some c → (P c' ↔ P c) → lists P cells l → lists P (<[n := c']> cells) l.
Proof. intros Hn HP [Hnd Hin]. split; [done|]. intros m. rewrite Hin. by erewrite cells_with_same. Qed.

Lemma lists_perm P cells l l' : l ≡ₚ l' → lists P cells l → lists P cells l'.
Proof. intros Hl [Hnd Hin]. split; [by rewrite <- Hl|]. intros n. by rewrite <- Hl. Qed.

Lemma lists_new P cells c l : P c → lists P cells l → lists P (cells ++ [c]) (length cells :: l).
Proof.
  intros HP [Hnd Hin]. split.
  - constructor; [|done]. intros Hl%Hin%cells_with_lt. lia.
  - intros n. rewrite elem_of_cons, Hin, cells_with_new. tauto.
Qed.

Lemma lists_skip P cells c l : ¬ P c → lists P cells l → lists P (cells ++ [c]) l.
Proof.
  intros HP [Hnd Hin]. split; [done|]. intros n. rewrite Hin, cells_with_new. tauto.
Qed.

Lemma lists_join P cells n c c' l :
  cells !! n = Some c → ¬ P c → P c' → lists P cells l → lists P (<[n := c']> cells) (n :: l).
Proof.
  intros Hn Hc Hc' [Hnd Hin]. split.
  - constructor; [|done]. intros (x & Hx & HP)%Hin. rewrite Hn in Hx. by injection Hx as <-.
  - intros m. rewrite elem_of_cons, Hin, (cells_with_insert _ _ _ _ _ _ Hn).
    destruct (decide (m = n)) as [->|Hm]; tauto.
Qed.

Lemma lists_leave P cells n c c' l :
  cells !! n = Some c → ¬ P c' → lists P cells (n :: l) → lists P (<[n := c']> cells) l.
Proof.
  intros Hn Hc' [[Hnl Hnd]%NoDup_cons Hin]. split; [done|]. intros m.
  rewrite (cells_with_insert _ _ _ _ _ _ Hn). specialize (Hin m). rewrite elem_of_cons in Hin.
  destruct (decide (m = n)) as [->|Hm]; [|tauto]. split; [done|]. tauto.
Qed.

(** ** The lanes *)

Lemma lane_put p l l' ls : lane_of p ls = Some l → l ++ queued (put_lane p l' ls) ≡ₚ l' ++ queued ls.
Proof.
  destruct ls as [hs ms ws c]. unfold lane_of, put_lane, queued. simpl.
  repeat case_match; intros [= ->]; simpl; rewrite <- ?app_assoc.
  - by rewrite Permutation_app_swap_app.
  - rewrite (Permutation_app_swap_app l), (Permutation_app_swap_app l'). f_equiv.
    apply Permutation_app_swap_app.
  - rewrite (Permutation_app_comm l), (Permutation_app_comm l'), <- !app_assoc.
    do 2 f_equiv. apply Permutation_app_comm.
Qed.

Lemma push_queued p n ls ls' : try_push p n ls = Some ls' → queued ls' ≡ₚ n :: queued ls.
Proof.
  unfold try_push. destruct (lane_of p ls) as [l|] eqn:Hl; [|done]. case_decide; [|done]. intros [= <-].
  pose proof (lane_put _ _ (l ++ [n]) _ Hl) as Hp. rewrite <- app_assoc in Hp.
  apply Permutation_app_inv_l in Hp. exact Hp.
Qed.

Lemma pop_queued p n l ls : lane_of p ls = Some (n :: l) → queued ls ≡ₚ n :: queued (put_lane p l ls).
Proof.
  intros Hl. pose proof (lane_put _ _ l _ Hl) as Hp. symmetry. apply (Permutation_app_inv_l l).
  rewrite <- Hp. by rewrite <- Permutation_middle.
Qed.

(** ** What a handler relies on *)

Section invariant.
Context `{JsonError} `{FmtQuote} (d : Dispatcher) (g : Gateway) (target : Target) (fused : bool).

(** [req] is what the gateway makes of [r]: its body, the model, the flag and the priority
    it names, the key it came with. *)
Record request_of (r : GoHttp.Request) (req : Queue.Request) : Prop := {
  rq_body : ReqBody r = Some (Body req);
  rq_payload : decode_payload (Body req) = Some (ReqModel req, Stream req);
  rq_model : ReqModel req ≠ "";
  rq_priority : Priority req = parsePriority r;
  rq_key : ∃ info, authenticate g r = inl info ∧ KeyID req = InfoKeyID info;
}.

(** [out] is what the dispatcher makes of [req] when the upstream answers as [ask] says. *)
Definition made (ask : nat → Call → Upstream) (req : Queue.Request) (out : StreamOut) : Prop :=
  if Stream req then ∃ calls, dispatchStream d ask req = (calls, Ok out)
  else so_chunks out = [] ∧ ∃ calls, dispatchBuffered d ask req = (calls, Ok (so_result out)).

(** [out] is what the dispatcher can make of [req]. *)
Definition produced (req : Queue.Request) (out : StreamOut) : Prop := ∃ ask, made ask req out.

Definition response_of (e : Ended) : Response := respond g (e_model e) (e_success e) (e_writer e).

(** The response for [out], taken at [at_]: what the handler of Gateway writes, to a client
    that was given the headers [w] so far. *)
Definition answered_with (req : Queue.Request) (w : Writer) (out : StreamOut) (at_ : Z) (rs : Response) : Prop :=
  ∀ sh, rs = response_of (await g target (λ _, Delivered (so_result out) at_ (so_chunks out)) req w sh).

(** How a request that was queued has ended: with the timeout, not before its time, or with
    its own result. *)
Definition ended (t : Z) (req : Queue.Request) (out : option StreamOut) (taken : list string) (rs : Response)
    : Prop :=
  ∃ estimate, let w := estimate_header estimate newWriter in
  (rs = timed_out g req w ∧ EnqueuedAt req + waitTimeout g ≤ t) ∨
  ∃ o at_, out = Some o ∧ taken = so_chunks o ∧ EnqueuedAt req ≤ at_ ≤ t ∧ answered_with req w o at_ rs.

(** A handler still in the select: nothing was taken, and the result is in [ResultCh] once
    there is one. *)
Definition unanswered_cell (c : Cell) : Prop := ce_result c = so_result <$> ce_out c ∧ ce_taken c = [].

Definition stage_ok (t : Z) (cells : list Cell) (r : GoHttp.Request) (st : Stage) : Prop :=
  match st with
  | Fresh | Over None _ => True
  | Parsed fm | Counted fm _ | Granted fm _ => request_of r (make_request 0 0 fm)
  | Numbered req _ => request_of r req ∧ EnqueuedAt req ≤ t
  | Pushed n w =>
    ∃ c estimate, cells !! n = Some c ∧ request_of r (ce_req c) ∧ unanswered_cell c ∧
      EnqueuedAt (ce_req c) ≤ t ∧ w = estimate_header estimate newWriter
  | Waiting n started w =>
    ∃ c estimate, cells !! n = Some c ∧ request_of r (ce_req c) ∧ unanswered_cell c ∧
      EnqueuedAt (ce_req c) ≤ started ≤ t ∧ w = estimate_header estimate newWriter
  | Received n result at_ w =>
    ∃ c o estimate, cells !! n = Some c ∧ request_of r (ce_req c) ∧ ce_out c = Some o ∧
      result = so_result o ∧ ce_taken c = [] ∧ EnqueuedAt (ce_req c) ≤ at_ ≤ t ∧
      w = estimate_header estimate newWriter
  | Relaying n ok w =>
    ∃ c o estimate at_, cells !! n = Some c ∧ request_of r (ce_req c) ∧ ce_out c = Some o ∧
      Streaming (so_result o) = true ∧ Err (so_result o) = None ∧ ok = is_success (StatusCode (so_result o)) ∧
      EnqueuedAt (ce_req c) ≤ at_ ≤ t ∧
      ∀ tr, w = streamResponse (so_result o) (ce_taken c)
                  (sampled g target (ce_req c) at_ (estimate_header estimate newWriter) tr).2
  | Over (Some n) rs =>
    ∃ c, cells !! n = Some c ∧ request_of r (ce_req c) ∧ ended t (ce_req c) (ce_out c) (ce_taken c) rs
  end.

Lemma ended_later t t' req out taken rs : t ≤ t' → ended t req out taken rs → ended t' req out taken rs.
Proof.
  intros Ht (est & [[Hrs Hx]|(o & at_ & Ho & Htk & Hat & Hrs)]); exists est; cbv zeta; [left; split; [done|lia]|right].
  exists o, at_. split_and!; [done..|lia|lia|done].
Qed.

Lemma stage_ok_later t t' cells r st : t ≤ t' → stage_ok t cells r st → stage_ok t' cells r st.
Proof.
  intros Ht. destruct st as [| | | | | | | | |[n|] rs]; simpl; try done.
  - intros [? ?]. split; [done|lia].
  - intros (c & est & ? & ? & ? & ? & ?). exists c, est. split_and!; [done..|lia|done].
  - intros (c & est & ? & ? & ? & ? & ?). exists c, est. split_and!; [done..|lia|lia|done].
  - intros (c & o & est & ? & ? & ? & ? & ? & ? & ?). exists c, o, est. split_and!; [done..|lia|lia|done].
  - intros (c & o & est & at_ & ? & ? & ? & ? & ? & ? & ? & ?).
    exists c, o, est, at_. split_and!; [done..|lia|lia|done].
  - intros (c & ? & ? & He). exists c. split_and!; [done..|]. by eapply ended_later.
Qed.

(** A handler looks at no cell but its own. *)
Lemma stage_ok_cells t cells cells' r st :
  (∀ n c, pointer st = Some n → cells !! n = Some c → cells' !! n = Some c) →
  stage_ok t cells r st → stage_ok t cells' r st.
Proof.
  intros Hsame. destruct st as [| | | | |n|n|n|n|[n|]]; simpl in *; try done.
  - intros (c & est & Hc & ?). exists c, est. split; [by apply Hsame|done].
  - intros (c & est & Hc & ?). exists c, est. split; [by apply Hsame|done].
  - intros (c & o & est & Hc & ?). exists c, o, est. split; [by apply Hsame|done].
  - intros (c & o & est & at_ & Hc & ?). exists c, o, est, at_. split; [by apply Hsame|done].
  - intros (c & Hc & ?). exists c. split; [by apply Hsame|done].
Qed.

Lemma stage_ok_other t cells n c' r st :
  pointer st ≠ Some n → stage_ok t cells r st → stage_ok t (<[n := c']> cells) r st.
Proof.
  intros Hp. apply stage_ok_cells. intros m c Hm Hc. rewrite list_lookup_insert_ne; [done|congruence].
Qed.

Lemma stage_ok_new t cells c' r st : stage_ok t cells r st → stage_ok t (cells ++ [c']) r st.
Proof. apply stage_ok_cells. intros n c _ Hc. by apply lookup_app_l_Some. Qed.

(** What a dispatcher may do to a cell: give it its result, when it has none, or work on
    its channel. *)
Definition served_to (c c' : Cell) : Prop :=
  ce_req c' = ce_req c ∧ ce_taken c' = ce_taken c ∧
  (ce_result c' = ce_result c ∧ ce_out c' = ce_out c ∨
   ce_out c = None ∧ ce_result c' = so_result <$> ce_out c').

Lemma stage_ok_served t cells n c c' r st :
  cells !! n = Some c → served_to c c' → stage_ok t cells r st → stage_ok t (<[n := c']> cells) r st.
Proof.
  intros Hn (Hreq & Htk & Hout) Hst. destruct (decide (pointer st = Some n)) as [Hp|Hp].
  2: by apply stage_ok_other.
  assert (<[n := c']> cells !! n = Some c') as Hn' by (apply list_lookup_insert_eq; by eapply lookup_lt_Some).
  assert (unanswered_cell c → unanswered_cell c') as Hun.
  { unfold unanswered_cell. rewrite Htk. destruct Hout as [[-> ->]|[_ ->]]; [done|]. by intros [_ ?]. }
  assert (∀ o, ce_out c = Some o → ce_out c' = Some o) as Hso.
  { intros o Ho. destruct Hout as [[_ ->]|[Hc _]]; [done|congruence]. }
  destruct st as [| | | | |m|m|m|m|[m|]]; simpl in *; simplify_eq.
  - destruct Hst as (x & est & Hx & ? & ? & ? & ?). rewrite Hn in Hx. injection Hx as <-. exists c', est.
    rewrite Hreq. split_and!; [done|done|by apply Hun|done..].
  - destruct Hst as (x & est & Hx & ? & ? & ? & ?). rewrite Hn in Hx. injection Hx as <-. exists c', est.
    rewrite Hreq. split_and!; [done|done|by apply Hun|lia|lia|done].
  - destruct Hst as (x & o & est & Hx & ? & Ho & ? & ? & ? & ?). rewrite Hn in Hx. injection Hx as <-.
    exists c', o, est. rewrite Hreq, Htk. split_and!; try done; [by apply Hso|lia..].
  - destruct Hst as (x & o & est & at_ & Hx & ? & Ho & ?). rewrite Hn in Hx. injection Hx as <-.
    exists c', o, est, at_. rewrite Hreq, Htk. split_and!; try apply Hso; tauto.
  - destruct Hst as (x & Hx & ? & est & He). rewrite Hn in Hx. injection Hx as <-. exists c'. rewrite Hreq, Htk.
    split_and!; [done..|]. exists est. destruct He as [?|(o & at_ & Ho & ?)]; [by left|right].
    exists o, at_. split; [by apply Hso|done].
Qed.

(** ** What a dispatcher makes of a request *)

(** Only a committed stream has chunks, and it has no error. *)
Lemma produced_plain req out :
  object_body req → produced req out → Streaming (so_result out) = false → so_chunks out = [].
Proof.
  intros Ho [ask Hm]. revert Hm. unfold made. destruct (Stream req); [|by intros [? _]].
  intros [calls Hd]. by eapply stream_uncommitted.
Qed.

Lemma produced_stream req out :
  object_body req → produced req out → Streaming (so_result out) = true →
  Stream req = true ∧ Err (so_result out) = None.
Proof.
  intros Ho [ask Hm]. revert Hm. unfold made. destruct (Stream req).
  - intros [calls Hd] Hs. split; [done|]. by eapply stream_committed.
  - intros (_ & calls & Hd). rewrite (buffered_plain _ _ _ _ _ Ho Hd). done.
Qed.

(** ** The invariant *)

Definition cell_ok (c : Cell) : Prop :=
  object_body (ce_req c) ∧
  match ce_out c with
  | None => ce_result c = None ∧ ce_chunks c = [] ∧ ce_closed c = false ∧ ce_body c = [] ∧ ce_taken c = []
  | Some o =>
    produced (ce_req c) o ∧ ce_taken c ++ ce_chunks c ++ ce_body c = so_chunks o ∧
    (ce_closed c = true → ce_body c = [])
  end.

Record live_inv (s : Live) : Prop := {
  li_cells : Forall cell_ok (lv_cells s);
  li_stages : ∀ i r st, at_stage s i r st → stage_ok (lv_clock s) (lv_cells s) r st;
  li_owned : owned s ≡ₚ seq 0 (length (lv_cells s));
  li_pending : lists unserved (lv_cells s) (pending s);
  li_pumped : lists streamed (lv_cells s) (pumped s);
  li_pool : length (lv_pool s) = Z.to_nat (concurrency d);
  li_running : lv_stopping s = false → Returned ∉ lv_pool s;
}.

(** One request has one handler. *)
Lemma pointer_unique s i j r r' st st' n :
  live_inv s → at_stage s i r st → at_stage s j r' st' → pointer st = Some n → pointer st' = Some n → i = j.
Proof.
  intros Hinv Hi Hj Hn Hn'. eapply (NoDup_omap_lookup (pointer ∘ cl_stage) (lv_clients s)); [|done..].
  fold (owned s). rewrite (li_owned _ Hinv). apply NoDup_seq.
Qed.

Lemma owned_move s s' i r st st' :
  at_stage s i r st → lv_clients s' = <[i := {| cl_request := r; cl_stage := st' |}]> (lv_clients s) →
  option_list (pointer st) ++ owned s' ≡ₚ option_list (pointer st') ++ owned s.
Proof. intros Hi Hs. unfold owned. rewrite Hs. exact (omap_insert_Permutation (pointer ∘ cl_stage) _ _ _ _ Hi). Qed.

Lemma at_stage_move s s' i r st st' j r' st'' :
  at_stage s i r st → lv_clients s' = <[i := {| cl_request := r; cl_stage := st' |}]> (lv_clients s) →
  at_stage s' j r' st'' → (j = i ∧ r' = r ∧ st'' = st') ∨ (j ≠ i ∧ at_stage s j r' st'').
Proof.
  unfold at_stage. intros Hi ->. destruct (decide (j = i)) as [->|Hj].
  - rewrite list_lookup_insert_eq by (by eapply lookup_lt_Some). intros [= <- <-]. by left.
  - rewrite list_lookup_insert_ne by done. by right.
Qed.

(** A handler that goes on with the request it had, if any, and touches no other. *)
Lemma move_inv s s' i r st st' :
  live_inv s → at_stage s i r st →
  lv_clients s' = <[i := {| cl_request := r; cl_stage := st' |}]> (lv_clients s) → pointer st' = pointer st →
  (lv_cells s' = lv_cells s ∨
   ∃ n c c', pointer st = Some n ∧ lv_cells s !! n = Some c ∧ lv_cells s' = <[n := c']> (lv_cells s) ∧
     cell_ok c' ∧ (unserved c' ↔ unserved c) ∧ (streamed c' ↔ streamed c)) →
  lv_clock s' = lv_clock s → lv_lanes s' = lv_lanes s → lv_pool s' = lv_pool s →
  lv_stopping s' = lv_stopping s → stage_ok (lv_clock s) (lv_cells s') r st' → live_inv s'.
Proof.
  intros Hinv Hi Hcl Hp Hce Hck Hla Hpo Hst Hok. pose proof Hinv as [Hc Hs Ho Hpe Hpu Hl Hr].
  pose proof (owned_move _ _ _ _ _ _ Hi Hcl) as Hown. rewrite Hp in Hown. apply Permutation_app_inv_l in Hown.
  assert (length (lv_cells s') = length (lv_cells s)) as Hlen.
  { destruct Hce as [->|(n & c & c' & _ & _ & -> & _)]; [done|]. apply length_insert. }
  split; unfold pending, pumped in *; rewrite ?Hlen, ?Hla, ?Hpo, ?Hst; [| |by rewrite Hown|..|done|done].
  - destruct Hce as [->|(n & c & c' & _ & Hn & -> & Hc' & _)]; [done|]. by apply Forall_insert.
  - intros j r' st'' Hj. rewrite Hck. destruct (at_stage_move _ _ _ _ _ _ _ _ _ Hi Hcl Hj) as [(-> & -> & ->)|[Hji Hj']]; [done|].
    destruct Hce as [->|(n & c & c' & Hpn & Hn & -> & _)]; [by eapply Hs|].
    apply stage_ok_other; [|by eapply Hs]. intros Hpj. apply Hji. by eapply (pointer_unique s j i).
  - destruct Hce as [->|(n & c & c' & _ & Hn & -> & _ & Hu & _)]; [done|]. by eapply lists_same.
  - destruct Hce as [->|(n & c & c' & _ & Hn & -> & _ & _ & Hu)]; [done|]. by eapply lists_same.
Qed.

(** *** The pure steps of a handler *)

Lemma parse_form_ok r info :
  authenticate g r = inl info →
  (∃ rs, parse_form g r (InfoKeyID info) = Over None rs) ∨
  ∃ fm, parse_form g r (InfoKeyID info) = Parsed fm ∧ request_of r (make_request 0 0 fm).
Proof.
  intros Ha. unfold parse_form, away. destruct (ReqBody r) as [body|] eqn:Hb; [|left; by eexists].
  destruct (decode_payload body) as [[[|c m] stream]|] eqn:Hp; [left; by eexists| |left; by eexists].
  right. eexists. split; [done|]. by split; [..|exists info].
Qed.

Lemma gate_ok now r l l' st :
  gate g fused now r l = (l', st) →
  (∃ rs, st = Over None rs) ∨ ∃ fm, st = Parsed fm ∧ request_of r (make_request 0 0 fm).
Proof.
  unfold gate, away. case_decide.
  2: { case_decide; intros [= <- <-]; left; by eexists. }
  case_decide; [intros [= <- <-]; left; by eexists|].
  pose proof (parse_form_ok r) as Hform. unfold authenticate in Hform.
  destruct (with_auth g) as [[keys limited]|]; [|intros [= <- <-]; by apply (Hform _ eq_refl)].
  destruct (extractAPIKey r) as [apiKey|]; [|intros [= <- <-]; left; by eexists].
  destruct (Lookup apiKey keys) as [info|]; [|intros [= <- <-]; left; by eexists].
  destruct limited; [|intros [= <- <-]; by apply (Hform _ eq_refl)].
  destruct (Allow _ _ _ _ _) as [l0 [|]]; intros [= <- <-]; [by apply (Hform _ eq_refl)|left; by eexists].
Qed.

Lemma admission_ok tr fm ahead :
  (∃ rs, admission g target tr fm ahead = Over None rs) ∨ ∃ est, admission g target tr fm ahead = Granted fm est.
Proof.
  unfold admission, away. destruct (with_slo g); [|right; by eexists].
  destruct (with_policy g); [|right; by eexists]. case_match; [right|left]; by eexists.
Qed.

Lemma request_of_numbered r fm count now :
  request_of r (make_request 0 0 fm) → request_of r (make_request count now fm).
Proof. by intros [? ? ? ? ?]. Qed.

Lemma request_object r req : request_of r req → object_body req.
Proof. intros [_ Hp Hm _ _]. by eapply object_payload. Qed.

(** [sampled] is what [await] does first, and its headers do not depend on the tracker. *)
Lemma sampled_writer req at_ w tr tr' :
  (sampled g target req at_ w tr).2 = (sampled g target req at_ w tr').2.
Proof. unfold sampled. by destruct (with_slo g). Qed.

Lemma await_delivered req result at_ chunks w sh :
  let w' := (sampled g target req at_ w (sh_tracker sh)).2 in
  response_of (await g target (λ _, Delivered result at_ chunks) req w sh) =
    match Err result with
    | Some err => respond g (ReqModel req) false (Error err StatusBadGateway w')
    | None =>
      respond g (ReqModel req) (is_success (StatusCode result))
        (if Streaming result then streamResponse result chunks w'
         else Write (ResBody result) (WriteHeader (StatusCode result) (SetHeader "Content-Type" "application/json"
                (if decide (ServedModel result = "") then w' else SetHeader "X-Served-Model" (ServedModel result) w'))))
    end.
Proof.
  unfold await, sampled. destruct (with_slo g); cbn [fst snd]; by destruct (Err result).
Qed.

Lemma streamResponse_snoc result chunks c w :
  streamResponse result (chunks ++ [c]) w = Write c (streamResponse result chunks w).
Proof. unfold streamResponse. by rewrite foldl_app. Qed.

Lemma delivered_ok t cells r n c o est at_ tr :
  cells !! n = Some c → cell_ok c → request_of r (ce_req c) → ce_out c = Some o → ce_taken c = [] →
  EnqueuedAt (ce_req c) ≤ at_ ≤ t →
  let st := delivered g (ce_req c) n (so_result o)
              (sampled g target (ce_req c) at_ (estimate_header est newWriter) tr).2 in
  stage_ok t cells r st ∧ pointer st = Some n.
Proof.
  intros Hn [Hob Hc] Hr Ho Htk Hat. rewrite Ho in Hc. destruct Hc as (Hp & Hch & _). cbv zeta. unfold delivered.
  set (w' := (sampled _ _ _ _ _ _).2).
  assert (∀ rs, so_chunks o = [] → answered_with (ce_req c) (estimate_header est newWriter) o at_ rs →
    stage_ok t cells r (Over (Some n) rs)) as Hover.
  { intros rs Hnil Hrs. exists c. split_and!; [done..|]. exists est. right. exists o, at_.
    split_and!; [done|by rewrite Htk, Hnil|lia|lia|done]. }
  assert (Err (so_result o) ≠ None → Streaming (so_result o) = false) as Hplain.
  { intros He. destruct (Streaming (so_result o)) eqn:Hs; [|done]. by destruct (produced_stream _ _ Hob Hp Hs). }
  destruct (Err (so_result o)) as [err|] eqn:He; [|destruct (Streaming (so_result o)) eqn:Hs].
  - split; [|done]. apply Hover; [by apply (produced_plain _ _ Hob Hp), Hplain|]. intros sh.
    rewrite await_delivered, He. unfold w'. by rewrite (sampled_writer _ _ _ tr (sh_tracker sh)).
  - split; [|done]. exists c, o, est, at_. split_and!; [done..|lia|lia|]. intros tr'. rewrite Htk.
    unfold w'. by rewrite (sampled_writer _ _ _ tr tr').
  - split; [|done]. apply Hover; [by apply (produced_plain _ _ Hob Hp)|]. intros sh.
    rewrite await_delivered, He, Hs. unfold w'. by rewrite (sampled_writer _ _ _ tr (sh_tracker sh)).
Qed.

(** *** A request enters the queue *)

Lemma enter_inv s s' i r req est :
  live_inv s → at_stage s i r (Numbered req est) →
  lv_clients s' = <[i := {| cl_request := r;
    cl_stage := Pushed (length (lv_cells s)) (estimate_header est newWriter) |}]> (lv_clients s) →
  lv_cells s' = lv_cells s ++ [new_cell req] → pending s' ≡ₚ length (lv_cells s) :: pending s →
  pumped s' ≡ₚ pumped s → length (lv_pool s') = length (lv_pool s) →
  (Returned ∈ lv_pool s' → Returned ∈ lv_pool s) → lv_clock s' = lv_clock s → lv_stopping s' = lv_stopping s →
  live_inv s'.
Proof.
  intros Hinv Hi Hcl Hce Hpe Hpu Hlen Hret Hck Hst.
  pose proof (li_stages _ Hinv _ _ _ Hi) as [Hreq Henq].
  pose proof (owned_move _ _ _ _ _ _ Hi Hcl) as Hown. cbn [pointer option_list app] in Hown.
  split; rewrite ?Hce, ?Hlen, ?Hck, ?Hst.
  - apply Forall_app_2; [apply Hinv|]. apply Forall_singleton. split; [by eapply request_object|done].
  - intros j r' st'' Hj.
    destruct (at_stage_move _ _ _ _ _ _ _ _ _ Hi Hcl Hj) as [(-> & -> & ->)|[_ Hj']].
    + exists (new_cell req), est. split; [by apply list_lookup_middle|done].
    + apply stage_ok_new. by apply (li_stages _ Hinv j).
  - rewrite Hown, (li_owned _ Hinv), length_app, Nat.add_1_r, seq_S. apply Permutation_cons_append.
  - eapply lists_perm; [symmetry; exact Hpe|]. by apply lists_new, Hinv.
  - eapply lists_perm; [symmetry; exact Hpu|]. apply lists_skip, Hinv. by intros [[] _].
  - apply Hinv.
  - intros Hs Hr%Hret. by apply (li_running _ Hinv Hs).
Qed.

Lemma runner_change (f : Runner → option nat) (l : list Runner) j rn rn' :
  l !! j = Some rn → option_list (f rn) ++ omap f (<[j := rn']> l) ≡ₚ option_list (f rn') ++ omap f l.
Proof. apply omap_insert_Permutation. Qed.

Lemma runner_returned (l : list Runner) j rn : Returned ∈ <[j := rn]> l → rn = Returned ∨ Returned ∈ l.
Proof.
  intros [k Hk]%list_elem_of_lookup. apply list_lookup_insert_Some in Hk as [(_ & -> & _)|[_ Hk]]; [by left|right].
  by eapply list_elem_of_lookup_2.
Qed.

(** *** Every step keeps the invariant *)

(** The handler takes its result, a chunk, the end of its stream. *)
Lemma result_inv s i r n started w c result :
  live_inv s → at_stage s i r (Waiting n started w) → lv_cells s !! n = Some c → ce_result c = Some result →
  live_inv (move i r (Received n result (lv_clock s) w) (put_cell n (take_result c) s)).
Proof.
  intros Hinv Hi Hn Hr. pose proof (li_stages _ Hinv _ _ _ Hi) as Hok. pose proof (li_cells _ Hinv) as Hcells.
  cbn [stage_ok] in Hok.
  destruct Hok as (c' & est & Hn' & Hreq & [Hres Htk] & Ht & Hw). rewrite Hn in Hn'. injection Hn' as <-.
  rewrite Hr in Hres. destruct (ce_out c) as [o|] eqn:Ho; [|done]. injection Hres as ->.
  eapply move_inv; [exact Hinv|exact Hi|done|done| |done..|].
  - right. exists n, c, (take_result c). split_and!; [done..| |done|done].
    pose proof (Forall_lookup_1 _ _ _ _ Hcells Hn) as [? Hc]. split; [done|]. simpl. by rewrite Ho in *.
  - exists (take_result c), o, est. split_and!; [|done..|simpl; lia|simpl; lia|done].
    apply list_lookup_insert_eq. by eapply lookup_lt_Some.
Qed.

Lemma chunk_inv s i r n ok w c chunk rest :
  live_inv s → at_stage s i r (Relaying n ok w) → lv_cells s !! n = Some c → ce_chunks c = chunk :: rest →
  live_inv (move i r (Relaying n ok (Write chunk w)) (put_cell n (take_chunk chunk rest c) s)).
Proof.
  intros Hinv Hi Hn Hch. pose proof (li_stages _ Hinv _ _ _ Hi) as Hok. pose proof (li_cells _ Hinv) as Hcells.
  cbn [stage_ok] in Hok.
  destruct Hok as (c' & o & est & at_ & Hn' & Hreq & Ho & Hst & He & Hk & Hat & Hw).
  rewrite Hn in Hn'. injection Hn' as <-.
  eapply move_inv; [exact Hinv|exact Hi|done|done| |done..|].
  - right. exists n, c, (take_chunk chunk rest c). split_and!; [done..| |done|done].
    pose proof (Forall_lookup_1 _ _ _ _ Hcells Hn) as [? Hc]. split; [done|]. simpl. rewrite Ho in *.
    destruct Hc as (? & Heq & ?). split_and!; [done| |done]. rewrite <- Heq, Hch. by rewrite <- app_assoc.
  - exists (take_chunk chunk rest c), o, est, at_. split_and!; [|done..|simpl; lia|simpl; lia|].
    + apply list_lookup_insert_eq. by eapply lookup_lt_Some.
    + intros tr. simpl. by rewrite streamResponse_snoc, (Hw tr).
Qed.

Lemma end_inv s i r n ok w c :
  live_inv s → at_stage s i r (Relaying n ok w) → lv_cells s !! n = Some c → ce_chunks c = [] → ce_closed c = true →
  live_inv (move i r (Over (Some n) (respond g (ReqModel (ce_req c)) ok w)) s).
Proof.
  intros Hinv Hi Hn Hch Hcl. pose proof (li_stages _ Hinv _ _ _ Hi) as Hok. pose proof (li_cells _ Hinv) as Hcells.
  cbn [stage_ok] in Hok.
  destruct Hok as (c' & o & est & at_ & Hn' & Hreq & Ho & Hst & He & -> & Hat & Hw).
  rewrite Hn in Hn'. injection Hn' as <-.
  eapply move_inv; [exact Hinv|exact Hi|done|done|by left|done..|].
  pose proof (Forall_lookup_1 _ _ _ _ Hcells Hn) as [_ Hc]. rewrite Ho in Hc. destruct Hc as (_ & Heq & Hbody).
  rewrite Hch, (Hbody Hcl), !app_nil_r in Heq. exists c. split_and!; [done..|]. exists est. right.
  exists o, at_. split_and!; [done|done|lia|lia|]. intros sh.
  rewrite await_delivered, He, Hst, <- Heq. by rewrite (Hw (sh_tracker sh)).
Qed.

Lemma handle_inv s i r s' : handle g target fused s i r s' → live_inv s → live_inv s'.
Proof.
  intros Hs Hinv. pose proof (li_stages _ Hinv i r) as Hok. pose proof (li_cells _ Hinv) as Hcells.
  destruct Hs as [l st Hi Hg|fm Hi|fm ahead Hi|fm estimate count Hi Hcount|req estimate ls Hi Hp
    |req estimate j Hi Hj Hl|req estimate Hi Hp|n w Hi|n t0 w c result Hi Hn Hr|n t0 w c Hi Hn Hto
    |n result at_ w c tr w' Hi Hn Hsa|n ok w c chunk rest Hi Hn Hch|n ok w c Hi Hn Hch Hcl];
    specialize (Hok _ Hi); cbn [stage_ok] in Hok.
  - eapply move_inv; [exact Hinv|exact Hi|done| |by left|done..|];
      by destruct (gate_ok _ _ _ _ _ Hg) as [[rs ->]|(fm & -> & Hfm)].
  - eapply move_inv; [exact Hinv|exact Hi|done| |by left|done..|]; unfold look_ahead; by destruct (with_slo g).
  - eapply move_inv; [exact Hinv|exact Hi|done| |by left|done..|];
      by destruct (admission_ok (lv_tracker s) fm ahead) as [[rs ->]|[est ->]].
  - eapply move_inv; [exact Hinv|exact Hi|done|done|by left|done..|]. split; [|done].
    by apply request_of_numbered.
  - eapply enter_inv; [exact Hinv|exact Hi|done|done| |done..]. unfold pending. simpl.
    by rewrite (push_queued _ _ _ _ Hp).
  - eapply enter_inv; [exact Hinv|exact Hi|done|done| | | |  |done|done].
    + unfold pending. simpl. pose proof (runner_change serving _ _ _ (Serving (length (lv_cells s))) Hj) as Hch.
      simpl in Hch. rewrite Hch. by rewrite Permutation_middle.
    + exact (runner_change sending _ _ _ (Serving (length (lv_cells s))) Hj).
    + apply length_insert.
    + by intros [|]%runner_returned.
  - by eapply move_inv; [exact Hinv|exact Hi|done|done|left|..].
  - eapply move_inv; [exact Hinv|exact Hi|done|done|by left|done..|].
    destruct Hok as (c & est & ? & ? & ? & ? & ->). exists c, est. split_and!; [done..|lia|lia|done].
  - by eapply result_inv.
  - destruct Hok as (c' & est & Hn' & Hreq & _ & Ht & ->). rewrite Hn in Hn'. injection Hn' as <-.
    eapply move_inv; [exact Hinv|exact Hi|done|done|by left|done..|].
    exists c. split_and!; [done..|]. exists est. left. split; [done|lia].
  - destruct Hok as (c' & o & est & Hn' & Hreq & Ho & -> & Htk & Hat & ->). rewrite Hn in Hn'. injection Hn' as <-.
    pose proof (Forall_lookup_1 _ _ _ _ Hcells Hn) as Hc.
    assert (w' = (sampled g target (ce_req c) at_ (estimate_header est newWriter) (lv_tracker s)).2) as ->
      by by rewrite Hsa.
    destruct (delivered_ok (lv_clock s) (lv_cells s) r n c o est at_ (lv_tracker s) Hn Hc Hreq Ho Htk Hat).
    by eapply move_inv; [exact Hinv|exact Hi|done| |left|..].
  - by apply chunk_inv.
  - by apply end_inv.
Qed.

(** A dispatcher's step: where the requests are is shown for each kind of step. *)
Lemma runner_inv s s' j rn :
  live_inv s → lv_clients s' = lv_clients s → lv_clock s' = lv_clock s → lv_stopping s' = lv_stopping s →
  lv_pool s' = <[j := rn]> (lv_pool s) → (rn = Returned → lv_stopping s = true) →
  (lv_cells s' = lv_cells s ∨
   ∃ n c c', lv_cells s !! n = Some c ∧ lv_cells s' = <[n := c']> (lv_cells s) ∧ served_to c c' ∧ cell_ok c') →
  lists unserved (lv_cells s') (pending s') → lists streamed (lv_cells s') (pumped s') → live_inv s'.
Proof.
  intros Hinv Hcl Hck Hst Hpo Hrn Hce Hpe Hpu. pose proof Hinv as [Hc Hs Ho _ _ Hl Hr].
  assert (length (lv_cells s') = length (lv_cells s)) as Hlen.
  { destruct Hce as [->|(n & c & c' & _ & -> & _)]; [done|]. apply length_insert. }
  split; rewrite ?Hck, ?Hst.
  - destruct Hce as [->|(n & c & c' & _ & -> & _ & Hc')]; [done|]. by apply Forall_insert.
  - intros i r st Hi. unfold at_stage in Hi. rewrite Hcl in Hi. specialize (Hs _ _ _ Hi).
    destruct Hce as [->|(n & c & c' & Hn & -> & Hsv & _)]; [done|]. by eapply stage_ok_served.
  - unfold owned. by rewrite Hcl, Hlen.
  - done.
  - done.
  - by rewrite Hpo, length_insert.
  - rewrite Hpo. intros Hf [->|Hin]%runner_returned; [rewrite Hrn in Hf; done|by apply Hr].
Qed.

(** A dispatcher that holds a request for dispatch ends with its result. *)
Lemma commit_inv s j n c out rn :
  live_inv s → lv_pool s !! j = Some (Serving n) → lv_cells s !! n = Some c → produced (ce_req c) out →
  serving rn = None → sending rn = (if Stream (ce_req c) then Some n else None) → rn ≠ Returned →
  live_inv (put_runner j rn (put_cell n (commit_cell out c) s)).
Proof.
  intros Hinv Hj Hn Hp Hrs Hrn Hret.
  pose proof (runner_change serving _ _ _ rn Hj) as Hse. rewrite Hrs in Hse. simpl in Hse.
  pose proof (runner_change sending _ _ _ rn Hj) as Hsd. rewrite Hrn in Hsd. simpl in Hsd.
  pose proof (li_pending _ Hinv) as Hpe. unfold pending in Hpe.
  assert (queued (lv_lanes s) ++ omap serving (lv_pool s) ≡ₚ
    n :: queued (lv_lanes s) ++ omap serving (<[j := rn]> (lv_pool s))) as Hq
    by by rewrite <- Hse, Permutation_middle.
  assert (unserved c) as Hun.
  { apply (lists_perm _ _ _ _ Hq) in Hpe as [_ Hin]. destruct (proj1 (Hin n)) as (x & Hx & Hu); [by left|].
    congruence. }
  pose proof (Forall_lookup_1 _ _ _ _ (li_cells _ Hinv) Hn) as [Hob Hc]. rewrite Hun in Hc.
  destruct Hc as (Hres & Hch & Hcl & Hbo & Htk).
  apply (runner_inv s _ j rn Hinv); [done..| | |].
  - right. exists n, c, (commit_cell out c). split_and!; [done..| |].
    + split_and!; [done|done|by right].
    + split; [done|]. simpl. split_and!; [done|by rewrite Htk, Hch|congruence].
  - eapply lists_leave; [exact Hn|done|]. eapply lists_perm; [exact Hq|exact Hpe].
  - unfold pumped. simpl. destruct (Stream (ce_req c)) eqn:Hs; simpl in Hsd.
    + eapply lists_perm; [symmetry; exact Hsd|]. apply (lists_join _ _ _ c); [done|by intros [[] _]|done|apply Hinv].
    + eapply lists_perm; [symmetry; exact Hsd|]. apply (lists_same _ _ _ c); [done| |apply Hinv].
      unfold streamed. simpl. rewrite Hs. by split; intros (_ & ? & _).
Qed.

(** A dispatcher that works on the channel of a stream. *)
Lemma pumping_stream s j n c :
  live_inv s → lv_pool s !! j = Some (Sending n) → lv_cells s !! n = Some c → streamed c.
Proof.
  intros Hinv Hj Hn. destruct (li_pumped _ Hinv) as [_ Hin].
  destruct (proj1 (Hin n)) as (x & Hx & Hs); [|congruence].
  apply list_elem_of_omap. exists (Sending n). split; [by eapply list_elem_of_lookup_2|done].
Qed.

Lemma run_pool_inv s j ask s' : run_pool d s j ask s' → live_inv s → live_inv s'.
Proof.
  intros Hs Hinv.
  destruct Hs as [p n l Hj Hl|Hj Hst|n c calls result Hj Hn Hs Hd Hr|n c calls out Hj Hn Hs Hd Hr
    |n c chunk rest Hj Hn Hb Hlen|n c Hj Hn Hb].
  - apply (runner_inv s _ j (Serving n) Hinv); [done..|by left| |].
    + eapply lists_perm; [|apply (li_pending _ Hinv)]. unfold pending. simpl.
      pose proof (runner_change serving _ _ _ (Serving n) Hj) as Hse. simpl in Hse.
      rewrite (pop_queued _ _ _ _ Hl), Hse. simpl. by rewrite Permutation_middle.
    + eapply lists_perm; [|apply (li_pumped _ Hinv)]. symmetry. exact (runner_change sending _ _ _ (Serving n) Hj).
  - apply (runner_inv s _ j Returned Hinv); [done..|by left| |].
    + eapply lists_perm; [|apply (li_pending _ Hinv)]. unfold pending. simpl.
      f_equiv. symmetry. exact (runner_change serving _ _ _ Returned Hj).
    + eapply lists_perm; [|apply (li_pumped _ Hinv)]. symmetry. exact (runner_change sending _ _ _ Returned Hj).
  - eapply (commit_inv s j n c {| so_result := result; so_chunks := [] |}); [done..| |done|by rewrite Hs|done].
    exists ask. unfold made. rewrite Hs. split; [done|by exists calls].
  - eapply (commit_inv s j n c out); [done..| |done|by rewrite Hs|done].
    exists ask. unfold made. rewrite Hs. by exists calls.
  - assert (lv_pool (put_cell n (send_chunk chunk rest c) s) = <[j := Sending n]> (lv_pool s)) as Hpo
      by by rewrite list_insert_id.
    apply (runner_inv s _ j (Sending n) Hinv); [done..| | |].
    + right. exists n, c, (send_chunk chunk rest c). split_and!; [done..|by split_and!; [| |left]|].
      pose proof (Forall_lookup_1 _ _ _ _ (li_cells _ Hinv) Hn) as [Hob Hc]. split; [done|]. simpl.
      destruct (ce_out c) as [o|]; [|by destruct Hc as (_ & _ & _ & ? & _); congruence].
      destruct Hc as (Hp & Heq & Hcl). split_and!; [done|by rewrite <- Heq, Hb, <- app_assoc|].
      intros Hx%Hcl. congruence.
    + eapply lists_same; [exact Hn|done|apply Hinv].
    + eapply lists_same; [exact Hn|done|apply Hinv].
  - apply (runner_inv s _ j Idle Hinv); [done..| | |].
    + right. exists n, c, (close_chunks c). split_and!; [done..|by split_and!; [| |left]|].
      pose proof (Forall_lookup_1 _ _ _ _ (li_cells _ Hinv) Hn) as [Hob Hc]. split; [done|]. simpl.
      destruct (pumping_stream _ _ _ _ Hinv Hj Hn) as (Hx & _ & _).
      destruct (ce_out c) as [o|]; [|done]. by destruct Hc as (? & ? & _).
    + eapply lists_same; [exact Hn|done|]. eapply lists_perm; [|apply (li_pending _ Hinv)]. unfold pending. simpl.
      f_equiv. symmetry. exact (runner_change serving _ _ _ Idle Hj).
    + eapply (lists_leave _ _ _ c); [exact Hn|by intros (_ & _ & ?)|].
      eapply lists_perm; [|apply (li_pumped _ Hinv)]. symmetry. exact (runner_change sending _ _ _ Idle Hj).
Qed.

Lemma outside_inv s s' : outside s s' → live_inv s → live_inv s'.
Proof.
  intros Hs Hinv. pose proof Hinv as [Hc Hst Ho Hpe Hpu Hl Hr]. destruct Hs as [r|t Ht|].
  - split; try done.
    + intros i r' st Hi. unfold at_stage in Hi. simpl in Hi. apply lookup_app_Some in Hi as [Hi|[_ Hi]]; [by apply Hst in Hi|].
      apply list_lookup_singleton_Some in Hi as [_ [= <- <-]]. done.
    + unfold owned. simpl. by rewrite omap_app, app_nil_r.
  - split; try done. intros i r st Hi. eapply stage_ok_later; [exact Ht|]. by apply Hst in Hi.
  - by split.
Qed.

Lemma live_step_inv s s' : live_step d g target fused s s' → live_inv s → live_inv s'.
Proof.
  intros [Ho|[(i & r & Hh)|(j & ask & Hp)]]; [by apply outside_inv|by eapply handle_inv|by eapply run_pool_inv].
Qed.

Lemma live_start_inv c t0 tr : live_inv (live_start d c t0 tr).
Proof.
  assert (∀ {B} (f : Runner → option B) k, f Idle = None → omap f (replicate k Idle) = []) as Hrep.
  { intros B f k Hf. induction k as [|k IH]; [done|]. simpl. by rewrite Hf. }
  split; unfold pending, pumped; simpl; rewrite ?Hrep by done; try done.
  - split; [constructor|]. intros n. split; [by intros ?%not_elem_of_nil|]. by intros (x & Hx & _).
  - split; [constructor|]. intros n. split; [by intros ?%not_elem_of_nil|]. by intros (x & Hx & _).
  - by rewrite length_replicate.
  - intros _ [? ?]%elem_of_replicate. done.
Qed.

(** A server that was started, whatever happened to it. *)
Definition live_reachable (c : nat) (t0 : Z) (tr : LatencyTracker) : Live → Prop :=
  rtc (live_step d g target fused) (live_start d c t0 tr).

Lemma live_reachable_inv c t0 tr s : live_reachable c t0 tr s → live_inv s.
Proof. intros Hr. eapply invariant_rtc; [apply live_step_inv|exact Hr|apply live_start_inv]. Qed.

End invariant.
