(* ===== verification/LiveRun.v ===== *)
(** * Schedules of the running request plane

    The steps of Live as a function: a schedule names who moves and what the surroundings do,
    [perform] computes the state it leads to, and every such state is reachable. *)

From S2P Require Import Prelude GoFloat GoStrings GoHttp GoJson GoUnmarshal Queue Slo Auth Dispatcher Gateway Live.
Open Scope Z_scope.

(** [Turn i late]: the handler [i] goes on; in the select it takes the timer if [late].
    [Work j p ask]: the dispatcher [j] goes on; in [Pop] it takes from the lane [p], or
    returns. *)
Inductive Move :=
  | Connect (r : GoHttp.Request)
  | Pass (t : Z)
  | Signal
  | Turn (i : nat) (late : bool)
  | Work (j : nat) (p : option Z) (ask : nat → Call → Upstream).

Section run.
Context `{JsonError} `{FmtQuote} (d : Dispatcher) (g : Gateway) (target : Target) (fused : bool).

Definition take_turn (s : Live) (i : nat) (late : bool) : option Live :=
  cl ← lv_clients s !! i;
  let r := cl_request cl in
  let go st s' := Some (move i r st s') in
  match cl_stage cl with
  | Fresh =>
    let '(l, st) := gate g fused (lv_clock s) r (lv_limiter s) in go st (set_front (lv_count s) l (lv_tracker s) s)
  | Parsed fm => go (look_ahead g (queue_of s) fm) s
  | Counted fm ahead => go (admission g target (lv_tracker s) fm ahead) s
  | Granted fm estimate =>
    let count := uint64 (lv_count s + 1) in
    go (Numbered (make_request count (lv_clock s) fm) estimate) (set_front count (lv_limiter s) (lv_tracker s) s)
  | Numbered req estimate =>
    match try_push (Priority req) (length (lv_cells s)) (lv_lanes s) with
    | Some ls => go (Pushed (length (lv_cells s)) (estimate_header estimate newWriter))
                   (set_lanes ls (set_cells (lv_cells s ++ [new_cell req]) s))
    | None => go (away g "request queue full, try again later" StatusServiceUnavailable (ReqModel req) newWriter) s
    end
  | Pushed n w => go (Waiting n (lv_clock s) w) s
  | Waiting n started w =>
    c ← lv_cells s !! n;
    if late then
      if decide (started + waitTimeout g ≤ lv_clock s) then go (Over (Some n) (timed_out g (ce_req c) w)) s else None
    else result ← ce_result c; go (Received n result (lv_clock s) w) (put_cell n (take_result c) s)
  | Received n result at_ w =>
    c ← lv_cells s !! n;
    let '(tr, w') := sampled g target (ce_req c) at_ w (lv_tracker s) in
    go (delivered g (ce_req c) n result w') (set_front (lv_count s) (lv_limiter s) tr s)
  | Relaying n ok w =>
    c ← lv_cells s !! n;
    match ce_chunks c with
    | chunk :: rest => go (Relaying n ok (Write chunk w)) (put_cell n (take_chunk chunk rest c) s)
    | [] => if ce_closed c then go (Over (Some n) (respond g (ReqModel (ce_req c)) ok w)) s else None
    end
  | Over _ _ => None
  end.

Definition take_work (s : Live) (j : nat) (p : option Z) (ask : nat → Call → Upstream) : option Live :=
  rn ← lv_pool s !! j;
  match rn with
  | Idle =>
    match p with
    | Some p =>
      match lane_of p (lv_lanes s) with
      | Some (n :: l) => Some (put_runner j (Serving n) (set_lanes (put_lane p l (lv_lanes s)) s))
      | _ => None
      end
    | None => if lv_stopping s then Some (put_runner j Returned s) else None
    end
  | Serving n =>
    c ← lv_cells s !! n;
    match ce_result c with
    | Some _ => None
    | None =>
      if Stream (ce_req c) then
        match dispatchStream d ask (ce_req c) with
        | (_, Ok out) => Some (put_runner j (Sending n) (put_cell n (commit_cell out c) s))
        | _ => None
        end
      else
        match dispatchBuffered d ask (ce_req c) with
        | (_, Ok result) =>
          Some (put_runner j Idle (put_cell n (commit_cell {| so_result := result; so_chunks := [] |} c) s))
        | _ => None
        end
    end
  | Sending n =>
    c ← lv_cells s !! n;
    match ce_body c with
    | chunk :: rest =>
      if decide (length (ce_chunks c) < chunk_capacity)%nat then Some (put_cell n (send_chunk chunk rest c) s) else None
    | [] => Some (put_runner j Idle (put_cell n (close_chunks c) s))
    end
  | Returned => None
  end.

Definition perform_move (s : Live) (m : Move) : option Live :=
  match m with
  | Connect r => Some (set_clients (lv_clients s ++ [{| cl_request := r; cl_stage := Fresh |}]) s)
  | Pass t => if decide (lv_clock s ≤ t) then Some (set_world t (lv_stopping s) s) else None
  | Signal => Some (set_world (lv_clock s) true s)
  | Turn i late => take_turn s i late
  | Work j p ask => take_work s j p ask
  end.

Fixpoint perform (s : Live) (ms : list Move) : option Live :=
  match ms with
  | [] => Some s
  | m :: ms' => s' ← perform_move s m; perform s' ms'
  end.

Lemma take_turn_sound s i late s' : take_turn s i late = Some s' → ∃ r, handle g target fused s i r s'.
Proof.
  unfold take_turn. destruct (lv_clients s !! i) as [[r st]|] eqn:Hi; [|done]. simpl. intros Ht. exists r.
  destruct st as [|fm|fm ahead|fm est|req est|n w|n t0 w|n result at_ w|n ok w|]; simpl in Ht.
  - destruct (gate g fused _ _ _) as [l st] eqn:Hg. injection Ht as <-. by apply h_gate.
  - injection Ht as <-. by apply h_ahead.
  - injection Ht as <-. by apply h_estimate.
  - injection Ht as <-. by apply h_number.
  - destruct (try_push _ _ _) as [ls|] eqn:Hp; injection Ht as <-; [by apply h_push|by eapply h_full].
  - injection Ht as <-. by apply h_select.
  - destruct (lv_cells s !! n) as [c|] eqn:Hn; [|done]. simpl in Ht. destruct late.
    + case_decide; [|done]. injection Ht as <-. by eapply h_timeout.
    + destruct (ce_result c) as [result|] eqn:Hr; [|done]. injection Ht as <-. by eapply h_result.
  - destruct (lv_cells s !! n) as [c|] eqn:Hn; [|done]. simpl in Ht.
    destruct (sampled _ _ _ _ _ _) as [tr w'] eqn:Hs. injection Ht as <-. by eapply h_deliver.
  - destruct (lv_cells s !! n) as [c|] eqn:Hn; [|done]. simpl in Ht.
    destruct (ce_chunks c) as [|chunk rest] eqn:Hc; [destruct (ce_closed c) eqn:Hcl; [|done]|]; injection Ht as <-;
      [by eapply h_end|by eapply h_chunk].
  - done.
Qed.

Lemma take_work_sound s j p ask s' : take_work s j p ask = Some s' → run_pool d s j ask s'.
Proof.
  unfold take_work. destruct (lv_pool s !! j) as [rn|] eqn:Hj; [|done]. simpl.
  destruct rn as [|n|n|]; [| | |done].
  - destruct p as [p|].
    + destruct (lane_of p (lv_lanes s)) as [[|n l]|] eqn:Hl; try done. intros [= <-]. by apply p_pop.
    + destruct (lv_stopping s) eqn:Hs; [|done]. intros [= <-]. by apply p_return.
  - destruct (lv_cells s !! n) as [c|] eqn:Hn; [|done]. simpl. destruct (ce_result c) eqn:Hr; [done|].
    destruct (Stream (ce_req c)) eqn:Hs.
    + destruct (dispatchStream d ask (ce_req c)) as [calls [out|]] eqn:Hd; [|done]. intros [= <-].
      by eapply p_stream.
    + destruct (dispatchBuffered d ask (ce_req c)) as [calls [out|]] eqn:Hd; [|done]. intros [= <-].
      by eapply p_buffered.
  - destruct (lv_cells s !! n) as [c|] eqn:Hn; [|done]. simpl. destruct (ce_body c) as [|chunk rest] eqn:Hb.
    + intros [= <-]. by apply p_close.
    + case_decide; [|done]. intros [= <-]. by apply p_send.
Qed.

Lemma perform_move_sound s m s' : perform_move s m = Some s' → live_step d g target fused s s'.
Proof.
  destruct m as [r|t| |i late|j p ask]; simpl.
  - intros [= <-]. left. constructor.
  - case_decide; [|done]. intros [= <-]. left. by constructor.
  - intros [= <-]. left. constructor.
  - intros [r Hr]%take_turn_sound. right. left. by exists i, r.
  - intros Hr%take_work_sound. right. right. by exists j, ask.
Qed.

Lemma perform_sound s ms s' : perform s ms = Some s' → rtc (live_step d g target fused) s s'.
Proof.
  revert s. induction ms as [|m ms IH]; intros s; simpl; [by intros [= <-]|].
  destruct (perform_move s m) as [s1|] eqn:Hm; [|done]. intros Hms.
  eapply rtc_l; [by eapply perform_move_sound|by apply IH].
Qed.

Lemma perform_default s ms : rtc (live_step d g target fused) s (default s (perform s ms)).
Proof. destruct (perform s ms) as [s'|] eqn:Hs; [by eapply perform_sound|apply rtc_refl]. Qed.

End run.
