(* ===== verification/LiveProps.v ===== *)
(** * The running request plane: what its clients get

    On the invariant of LiveInv: every request is in one place, a client gets its own answer
    or the timeout, every handler comes to an end, and a handler that nobody disturbs is the
    one of Gateway. *)

From S2P Require Import Prelude GoFloat GoStrings GoHttp GoJson GoUnmarshal Queue Slo Auth Dispatcher Gateway Pool Live LiveInv LiveRun.
Open Scope Z_scope.

Section live.
Context `{JsonError} `{FmtQuote} (d : Dispatcher) (g : Gateway) (target : Target) (fused : bool).

(** ** One place for each request *)

(** The requests a dispatcher has ended with a result. *)
Definition answered_requests (s : Live) : list nat :=
  filter (λ n, is_Some (lv_cells s !! n ≫= ce_out)) (seq 0 (length (lv_cells s))).

(** C19: However handlers, dispatchers, clients and the clock interleave, every request the
    gateways have put into the queue is in exactly one place: in its lane, in the hands of
    one dispatcher, or ended by a dispatcher with one result; and it has exactly one handler.
    The channel [ResultCh] of a request in a dispatcher's hands is empty, so the send on it
    never blocks, as the comment on it says. *)
Theorem live_exactly_once c t0 tr s :
  live_reachable d g target fused c t0 tr s →
  let all := seq 0 (length (lv_cells s)) in
  queued (lv_lanes s) ++ omap serving (lv_pool s) ++ answered_requests s ≡ₚ all ∧
  omap (pointer ∘ cl_stage) (lv_clients s) ≡ₚ all ∧
  ∀ j n, lv_pool s !! j = Some (Serving n) → ∃ c, lv_cells s !! n = Some c ∧ ce_result c = None.
Proof.
  intros Hinv%live_reachable_inv. cbv zeta. destruct (li_pending _ _ _ _ Hinv) as [Hnd Hin].
  split_and!; [|apply Hinv|].
  - rewrite app_assoc. unfold answered_requests. apply NoDup_Permutation; [|apply NoDup_seq|].
    + apply NoDup_app. split_and!; [done| |apply NoDup_filter, NoDup_seq].
      intros n (x & Hx & Hu)%Hin [Hs _]%list_elem_of_filter. rewrite Hx in Hs. simpl in Hs.
      rewrite Hu in Hs. by destruct Hs.
    + intros n. rewrite elem_of_app, list_elem_of_filter, elem_of_seq. fold (pending s). rewrite Hin. split.
      * intros [Hn%cells_with_lt|[_ Hn]]; lia.
      * intros [_ Hn]. destruct (lookup_lt_is_Some_2 (lv_cells s) n) as [x Hx]; [lia|]. rewrite Hx. simpl.
        destruct (ce_out x) as [o|] eqn:Ho; [right; split; [by eexists|lia]|left; by exists x].
  - intros j n Hj. destruct (proj1 (Hin n)) as (x & Hx & Hu).
    { apply elem_of_app. right. apply list_elem_of_omap. exists (Serving n).
      split; [by eapply list_elem_of_lookup_2|done]. }
    exists x. split; [done|]. destruct (Forall_lookup_1 _ _ _ _ (li_cells _ _ _ _ Hinv) Hx) as [_ Hc].
    rewrite Hu in Hc. by destruct Hc as [-> _].
Qed.

(** ** The right answer *)

(** C5: Whatever else goes on, a client whose request was queued is answered with what the
    dispatcher made of its own request - its body, the model, stream flag and priority it
    asked for, the key it came with - in exactly the response the gateway's handler writes
    for that result; or with the 504, and then not before the timeout is over.  No two
    clients share a request. *)
Theorem own_answer c t0 tr s i r n rs :
  live_reachable d g target fused c t0 tr s → at_stage s i r (Over (Some n) rs) →
  (∃ req estimate, request_at (lv_cells s) n = Some req ∧ request_of g r req ∧
    let w := estimate_header estimate newWriter in
    (rs = timed_out g req w ∧ EnqueuedAt req + waitTimeout g ≤ lv_clock s) ∨
    ∃ out at_, produced d req out ∧ EnqueuedAt req ≤ at_ ≤ lv_clock s ∧ answered_with g target req w out at_ rs) ∧
  ∀ j r' st, at_stage s j r' st → pointer st = Some n → j = i.
Proof.
  intros Hinv%live_reachable_inv Hi. split.
  2: { intros j r' st Hj Hp. by eapply (pointer_unique d g target s j i). }
  destruct (li_stages _ _ _ _ Hinv _ _ _ Hi) as (x & Hx & Hreq & est & He).
  exists (ce_req x), est. split_and!; [unfold request_at; by rewrite Hx|done|].
  destruct He as [?|(o & at_ & Ho & _ & Hat & Hrs)]; [by left|right]. exists o, at_. split_and!; [|lia|lia|done].
  destruct (Forall_lookup_1 _ _ _ _ (li_cells _ _ _ _ Hinv) Hx) as [_ Hc]. rewrite Ho in Hc. by destruct Hc as [? _].
Qed.

(** ** Every handler comes to an end *)

Definition stage_work (st : Stage) : nat :=
  match st with
  | Fresh => 12 | Parsed _ => 11 | Counted _ _ => 10 | Granted _ _ => 9 | Numbered _ _ => 8
  | Pushed _ _ => 4 | Waiting _ _ _ => 3 | Received _ _ _ _ => 2 | Relaying _ _ _ => 1 | Over _ _ => 0
  end.

Definition runner_work (rn : Runner) : nat :=
  match rn with Serving _ => 3 | Sending _ => 2 | Idle => 1 | Returned => 0 end.

(** What is left to do but for the chunks; then the chunks, one not yet sent counted twice. *)
Definition turns_left (s : Live) : nat :=
  sum_list_with (stage_work ∘ cl_stage) (lv_clients s) + 3 * length (queued (lv_lanes s)) +
  sum_list_with runner_work (lv_pool s).

Definition chunks_left (s : Live) : nat :=
  sum_list_with (λ c, 2 * length (ce_body c) + length (ce_chunks c))%nat (lv_cells s).

Lemma gate_work now r l : (stage_work (gate g fused now r l).2 < stage_work Fresh)%nat.
Proof.
  destruct (gate g fused now r l) as [l' st] eqn:Hg.
  destruct (gate_ok _ _ _ _ _ _ _ Hg) as [[rs ->]|(fm & -> & _)]; simpl; lia.
Qed.

Lemma delivered_work req n result w : (stage_work (delivered g req n result w) < 2)%nat.
Proof. unfold delivered. destruct (Err result); [|destruct (Streaming result)]; simpl; lia. Qed.

Lemma handle_work s i r s' :
  handle g target fused s i r s' →
  (turns_left s' < turns_left s ∨ turns_left s' = turns_left s ∧ chunks_left s' < chunks_left s)%nat.
Proof.
  intros Hs. assert (∀ st st', at_stage s i r st →
    (sum_list_with (stage_work ∘ cl_stage) (<[i := {| cl_request := r; cl_stage := st' |}]> (lv_clients s)) +
     stage_work st = sum_list_with (stage_work ∘ cl_stage) (lv_clients s) + stage_work st')%nat) as Hmv.
  { intros st st' Hi. exact (sum_list_insert (stage_work ∘ cl_stage) _ _ _ {| cl_request := r; cl_stage := st' |} Hi). }
  unfold turns_left.
  destruct Hs as [l st Hi Hg|fm Hi|fm ahead Hi|fm estimate count Hi Hcount|req estimate ls Hi Hp
    |req estimate j Hi Hj Hl|req estimate Hi Hp|n w Hi|n t0 w c result Hi Hn Hr|n t0 w c Hi Hn Hto
    |n result at_ w c tr w' Hi Hn Hsa|n ok w c chunk rest Hi Hn Hch|n ok w c Hi Hn Hch Hcl];
    cbn [lv_clients lv_lanes lv_pool move put_cell put_runner set_clients set_cells set_pool set_lanes set_front];
    match goal with |- context [<[i := {| cl_request := r; cl_stage := ?st' |}]> _] => specialize (Hmv _ st' Hi) end;
    cbn [stage_work] in Hmv.
  - left. pose proof (gate_work (lv_clock s) r (lv_limiter s)) as Hw. rewrite Hg in Hw. simpl in Hw. lia.
  - left. unfold look_ahead in *. destruct (with_slo g); cbn [stage_work] in Hmv; lia.
  - left. destruct (admission_ok g target (lv_tracker s) fm ahead) as [[rs Hst]|[est Hst]]; rewrite Hst in *;
      cbn [stage_work] in Hmv; lia.
  - left. lia.
  - left. rewrite (push_queued _ _ _ _ Hp). cbn [length]. lia.
  - left. pose proof (sum_list_insert runner_work _ _ _ (Serving (length (lv_cells s))) Hj) as Hrw.
    cbn [runner_work] in Hrw. lia.
  - left. cbn [stage_work away] in *. lia.
  - left. lia.
  - left. lia.
  - left. lia.
  - left. pose proof (delivered_work (ce_req c) n result w'). lia.
  - right. split; [lia|]. unfold chunks_left. cbn [lv_cells move put_cell set_cells set_clients].
    pose proof (sum_list_insert (λ c, 2 * length (ce_body c) + length (ce_chunks c))%nat _ _ _
      (take_chunk chunk rest c) Hn) as Hc. cbn [ce_body ce_chunks take_chunk] in Hc. rewrite Hch in Hc.
    cbn [length] in Hc. lia.
  - left. lia.
Qed.

Lemma run_pool_work s j ask s' :
  run_pool d s j ask s' →
  (turns_left s' < turns_left s ∨ turns_left s' = turns_left s ∧ chunks_left s' < chunks_left s)%nat.
Proof.
  intros Hs. assert (∀ rn rn', lv_pool s !! j = Some rn →
    (sum_list_with runner_work (<[j := rn']> (lv_pool s)) + runner_work rn =
     sum_list_with runner_work (lv_pool s) + runner_work rn')%nat) as Hmv by (intros; by apply sum_list_insert).
  unfold turns_left.
  destruct Hs as [p n l Hj Hl|Hj Hst|n c calls result Hj Hn Hs Hd Hr|n c calls out Hj Hn Hs Hd Hr
    |n c chunk rest Hj Hn Hb Hlen|n c Hj Hn Hb];
    cbn [lv_clients lv_lanes lv_pool put_cell put_runner set_cells set_pool set_lanes];
    try match goal with |- context [<[j := ?rn]> _] => specialize (Hmv _ rn Hj) end; cbn [runner_work] in Hmv.
  - left. rewrite (pop_queued _ _ _ _ Hl). cbn [length]. lia.
  - left. lia.
  - left. lia.
  - left. lia.
  - right. split; [done|]. unfold chunks_left. cbn [lv_cells move put_cell set_cells set_clients].
    pose proof (sum_list_insert (λ c, 2 * length (ce_body c) + length (ce_chunks c))%nat _ _ _
      (send_chunk chunk rest c) Hn) as Hc. cbn [ce_body ce_chunks send_chunk] in Hc. rewrite Hb, length_app in Hc.
    cbn [length] in Hc. lia.
  - left. lia.
Qed.

Lemma inside_terminates s : sn (inside d g target fused) s.
Proof.
  apply (sn_measures _ turns_left chunks_left). intros s1 s2 [(i & r & Hh)|(j & ask & Hp)];
    [by eapply handle_work|by eapply run_pool_work].
Qed.

(** *** Who can go on *)

(** The handler of a stream's channel that the dispatcher still feeds. *)
Definition fed (c : Cell) : Prop := ce_chunks c ≠ [] ∨ ce_closed c = true.

Lemma lane_nonempty ls : queued ls ≠ [] → ∃ p n l, lane_of p ls = Some (n :: l).
Proof.
  destruct ls as [[|h hs] [|m ms] [|w ws] c]; intros Hne; try done;
    first [by eexists PriorityHigh, _, _|by eexists PriorityNormal, _, _|by eexists PriorityLow, _, _].
Qed.

Lemma handler_goes_on s i r st :
  at_stage s i r st → live_inv d g target s →
  match st with
  | Waiting n started _ =>
    (∃ c, lv_cells s !! n = Some c ∧ ce_out c ≠ None) ∨ started + waitTimeout g ≤ lv_clock s
  | Relaying n _ _ => ∃ c, lv_cells s !! n = Some c ∧ fed c
  | Over _ _ => False
  | _ => True
  end → ∃ s', handle g target fused s i r s'.
Proof.
  intros Hi Hinv Hst. pose proof (li_stages _ _ _ _ Hinv _ _ _ Hi) as Hok.
  destruct st as [|fm|fm ahead|fm est|req est|n w|n t0 w|n result at_ w|n ok w|]; cbn [stage_ok] in Hok.
  - destruct (gate g fused (lv_clock s) r (lv_limiter s)) as [l st] eqn:Hg. eexists. by eapply h_gate.
  - eexists. by eapply h_ahead.
  - eexists. by eapply h_estimate.
  - eexists. by eapply h_number.
  - destruct (try_push (Priority req) (length (lv_cells s)) (lv_lanes s)) as [ls|] eqn:Hp;
      eexists; [by eapply h_push|by eapply h_full].
  - eexists. by eapply h_select.
  - destruct Hok as (c & est & Hn & _ & [Hres _] & _). destruct Hst as [(c' & Hn' & Ho)|Hto].
    + rewrite Hn in Hn'. injection Hn' as <-. destruct (ce_out c) as [o|]; [|done]. eexists. by eapply h_result.
    + eexists. by eapply h_timeout.
  - destruct Hok as (c & o & est & Hn & _).
    destruct (sampled g target (ce_req c) at_ w (lv_tracker s)) as [tr w'] eqn:Hsa. eexists. by eapply h_deliver.
  - destruct Hst as (c & Hn & Hf). destruct (ce_chunks c) as [|chunk rest] eqn:Hch.
    + destruct Hf as [?|Hcl]; [done|]. eexists. by eapply h_end.
    + eexists. by eapply h_chunk.
  - done.
Qed.

(** Whatever the upstream answers. *)
Lemma runner_goes_on s j rn ask :
  lv_pool s !! j = Some rn → live_inv d g target s →
  match rn with
  | Idle => lv_stopping s = true ∨ queued (lv_lanes s) ≠ []
  | Serving n => True
  | Sending n => ∃ c, lv_cells s !! n = Some c ∧ (ce_body c = [] ∨ length (ce_chunks c) < chunk_capacity)%nat
  | Returned => False
  end → ∃ s', run_pool d s j ask s'.
Proof.
  intros Hj Hinv Hrn. destruct rn as [|n|n|].
  - destruct Hrn as [Hst|(p & n & l & Hl)%lane_nonempty]; eexists; [by apply p_return|by eapply p_pop].
  - destruct (li_pending _ _ _ _ Hinv) as [_ Hin]. destruct (proj1 (Hin n)) as (c & Hn & Hu).
    { apply elem_of_app. right. apply list_elem_of_omap. exists (Serving n).
      split; [by eapply list_elem_of_lookup_2|done]. }
    destruct (Forall_lookup_1 _ _ _ _ (li_cells _ _ _ _ Hinv) Hn) as [Hob Hc]. rewrite Hu in Hc.
    destruct Hc as [Hres _]. destruct (Stream (ce_req c)) eqn:Hs.
    + destruct (dispatchStream_total d ask _ Hob) as (calls & out & Hd). eexists. by eapply p_stream.
    + destruct (dispatchBuffered_total d ask _ Hob) as (calls & o & Hd).
      eexists. by eapply p_buffered.
  - destruct Hrn as (c & Hn & Hc). destruct (ce_body c) as [|chunk rest] eqn:Hb.
    + eexists. by eapply p_close.
    + destruct Hc as [?|Hlt]; [done|]. eexists. by eapply p_send.
  - done.
Qed.

(** An upstream that cannot be reached. *)
Definition silent (_ : nat) (_ : Call) : Upstream := NoConnection "".

(** A dispatcher that takes no more requests: it has returned, or it is stuck on the stream of
    a client that was answered 504. *)
Definition out_of_service (s : Live) (rn : Runner) : Prop :=
  match rn with
  | Returned => lv_stopping s = true
  | Sending n =>
    ∃ c i r estimate, lv_cells s !! n = Some c ∧ (chunk_capacity ≤ length (ce_chunks c))%nat ∧ ce_body c ≠ [] ∧
      at_stage s i r (Over (Some n) (timed_out g (ce_req c) (estimate_header estimate newWriter)))
  | _ => False
  end.

Section settled.
Context (s : Live).
Hypothesis Hinv : live_inv d g target s.
Hypothesis Hnf : nf (inside d g target fused) s.

Lemma settled_handler i r st :
  at_stage s i r st →
  match st with
  | Waiting n started _ =>
    lv_clock s < started + waitTimeout g ∧ cells_with unserved (lv_cells s) n
  | Over _ _ => True
  | _ => False
  end.
Proof.
  intros Hi. pose proof (li_stages _ _ _ _ Hinv _ _ _ Hi) as Hok.
  assert (∀ P : Prop, (∃ s', handle g target fused s i r s') → P) as Hgo.
  { intros P [s' Hs']. destruct Hnf. exists s'. left. by exists i, r. }
  destruct st as [| | | | | |n t0 w| |n ok w|]; try done;
    try by (apply Hgo; eapply handler_goes_on).
  - destruct (decide (t0 + waitTimeout g ≤ lv_clock s)) as [Hto|Hto].
    { apply Hgo. eapply handler_goes_on; [exact Hi|done|by right]. }
    split; [lia|]. destruct Hok as (c & est & Hn & _). exists c. split; [done|].
    destruct (ce_out c) eqn:Ho; [|done]. apply Hgo. eapply handler_goes_on; [exact Hi|done|].
    left. exists c. split; [done|congruence].
  - destruct Hok as (c & o & est & at_ & Hn & _ & Ho & Hstr & _).
    destruct (Forall_lookup_1 _ _ _ _ (li_cells _ _ _ _ Hinv) Hn) as [Hob Hc]. rewrite Ho in Hc.
    destruct Hc as (Hp & _). destruct (produced_stream _ _ _ Hob Hp Hstr) as [Hs _].
    destruct (decide (ce_chunks c = [])) as [Hch|Hch].
    2: { apply Hgo. eapply handler_goes_on; [exact Hi|done|]. exists c. split; [done|by left]. }
    destruct (ce_closed c) eqn:Hcl.
    { apply Hgo. eapply handler_goes_on; [exact Hi|done|]. exists c. split; [done|by right]. }
    destruct (li_pumped _ _ _ _ Hinv) as [_ Hin].
    assert (n ∈ pumped s) as (rn & Hj & Hrn)%list_elem_of_omap.
    { apply Hin. exists c. split; [done|]. split_and!; congruence. }
    apply list_elem_of_lookup in Hj as [j Hj]. destruct rn as [| |m|]; try done. injection Hrn as ->.
    destruct (runner_goes_on s j _ silent Hj Hinv) as [s' Hs'].
    + exists c. split; [done|]. right. rewrite Hch. simpl. unfold chunk_capacity. lia.
    + destruct Hnf. exists s'. right. by exists j, silent.
Qed.

Lemma settled_runner j rn :
  lv_pool s !! j = Some rn → (rn = Idle ∧ queued (lv_lanes s) = []) ∨ out_of_service s rn.
Proof.
  intros Hj. assert (∀ P : Prop, (∃ s', run_pool d s j silent s') → P) as Hgo.
  { intros P [s' Hs']. destruct Hnf. exists s'. right. by exists j, silent. }
  destruct rn as [|n|n|].
  - left. split; [done|]. destruct (queued (lv_lanes s)) eqn:Hq; [done|].
    apply Hgo. eapply runner_goes_on; [exact Hj|done|]. right. congruence.
  - apply Hgo. by eapply runner_goes_on.
  - right. destruct (proj1 (proj2 (li_pumped _ _ _ _ Hinv) n)) as (c & Hn & Hs).
    { apply list_elem_of_omap. exists (Sending n). split; [by eapply list_elem_of_lookup_2|done]. }
    destruct (decide (ce_body c = [] ∨ length (ce_chunks c) < chunk_capacity)%nat) as [Hc|Hc].
    { apply Hgo. eapply runner_goes_on; [exact Hj|done|]. by exists c. }
    assert (ce_body c ≠ [] ∧ ¬ (length (ce_chunks c) < chunk_capacity)%nat) as [Hb Hlen] by tauto.
    assert (n ∈ owned s) as Hown.
    { rewrite (li_owned _ _ _ _ Hinv), elem_of_seq. apply lookup_lt_Some in Hn. lia. }
    apply list_elem_of_omap in Hown as ([r st] & Hi & Hp). apply list_elem_of_lookup in Hi as [i Hi].
    change (at_stage s i r st) in Hi. simpl in Hp. pose proof (settled_handler _ _ _ Hi) as Hst.
    destruct st as [| | | | | |m t0 w| | |m rs]; try done; simpl in Hp; simplify_eq.
    + destruct Hst as (_ & x & Hx & Hu). destruct Hs as [Hs _]. rewrite Hn in Hx. injection Hx as <-. done.
    + destruct (li_stages _ _ _ _ Hinv _ _ _ Hi) as (x & Hx & _ & est & He). rewrite Hn in Hx. injection Hx as <-.
      destruct He as [[-> _]|(o & at_ & Ho & Htk & _)].
      * exists c, i, r, est. split_and!; [done|lia|done|done].
      * destruct (Forall_lookup_1 _ _ _ _ (li_cells _ _ _ _ Hinv) Hn) as [_ Hcell]. rewrite Ho in Hcell.
        destruct Hcell as (_ & Heq & _). rewrite Htk in Heq. rewrite <- (app_nil_r (so_chunks o)) in Heq at 2.
        apply app_inv_head in Heq. by apply app_eq_nil in Heq as [_ ?].
  - right. simpl. destruct (lv_stopping s) eqn:Hst; [done|]. destruct (li_running _ _ _ _ Hinv Hst).
    by eapply list_elem_of_lookup_2.
Qed.

(** As long as one dispatcher is in service nobody waits. *)
Lemma settled_waiting i r n started w :
  at_stage s i r (Waiting n started w) →
  lv_clock s < started + waitTimeout g ∧ Forall (out_of_service s) (lv_pool s).
Proof.
  intros Hi. destruct (settled_handler _ _ _ Hi) as [Ht Hu]. split; [done|]. apply Forall_lookup. intros j rn Hj.
  destruct (settled_runner _ _ Hj) as [[-> Hq]|?]; [|done]. exfalso.
  apply (li_pending _ _ _ _ Hinv) in Hu. unfold pending in Hu. rewrite Hq in Hu.
  apply list_elem_of_omap in Hu as (rn & Hk & Hrn). apply list_elem_of_lookup in Hk as [k Hk].
  by destruct (settled_runner _ _ Hk) as [[-> _]|Ho]; [|destruct rn].
Qed.

End settled.

Lemma inside_rtc_inv s s' : rtc (inside d g target fused) s s' → live_inv d g target s → live_inv d g target s'.
Proof. apply invariant_rtc. intros s1 s2 Hs. eapply live_step_inv. by right. Qed.

(** Every client is answered.  Wherever the running server is, by itself it can only take
    finitely many more steps, however handlers and dispatchers interleave and whatever the
    upstream answers; and when none is left every handler has ended with a response, but for
    those that still wait within their timeout while every dispatcher has returned, after
    the signal, or is stuck on a long stream of a client that was answered 504. *)
Theorem every_client_answered c t0 tr s :
  live_reachable d g target fused c t0 tr s →
  sn (inside d g target fused) s ∧
  ∀ s', rtc (inside d g target fused) s s' → nf (inside d g target fused) s' →
    ∀ i r st, at_stage s' i r st →
      (∃ n rs, st = Over n rs) ∨
      ∃ n started w, st = Waiting n started w ∧ lv_clock s' < started + waitTimeout g ∧
        Forall (out_of_service s') (lv_pool s').
Proof.
  intros Hinv%live_reachable_inv. split; [apply inside_terminates|]. intros s' Hr Hnf i r st Hi.
  pose proof (inside_rtc_inv _ _ Hr Hinv) as Hinv'. pose proof (settled_handler s' Hinv' Hnf _ _ _ Hi) as Hst.
  destruct st as [| | | | | |n t1 w| | |n rs]; try done.
  - right. exists n, t1, w. split; [done|]. by eapply settled_waiting.
  - left. by exists n, rs.
Qed.

(** ** Streams nobody reads *)

(** A dispatcher that sends into a full channel whose client has its response already. *)
Definition stuck (s : Live) (rn : Runner) : Prop :=
  match rn with
  | Sending n =>
    ∃ c i r rs, lv_cells s !! n = Some c ∧ (chunk_capacity ≤ length (ce_chunks c))%nat ∧ ce_body c ≠ [] ∧
      at_stage s i r (Over (Some n) rs)
  | _ => False
  end.

Lemma stuck_runner s j ask s' : Forall (stuck s) (lv_pool s) → ¬ run_pool d s j ask s'.
Proof.
  intros Hall Hs.
  destruct Hs as [p n l Hj|Hj|n c calls result Hj|n c calls out Hj|n c chunk rest Hj Hn Hb Hlen|n c Hj Hn Hb];
    pose proof (Forall_lookup_1 _ _ _ _ Hall Hj) as Hst; try done; destruct Hst as (x & i & r & rs & Hx & Hfull & Hbody & _).
  - rewrite Hn in Hx. injection Hx as <-. lia.
  - rewrite Hn in Hx. by injection Hx as <-.
Qed.

(** What a handler does to the cells: its own request enters, or it takes from its channels. *)
Lemma handle_cells s i r s' :
  handle g target fused s i r s' →
  (lv_pool s' = lv_pool s ∨ ∃ j, lv_pool s !! j = Some Idle) ∧
  (∃ st st', at_stage s i r st ∧ (∀ n rs, st ≠ Over n rs) ∧
    lv_clients s' = <[i := {| cl_request := r; cl_stage := st' |}]> (lv_clients s) ∧
    (∀ n c, lv_cells s !! n = Some c → ∃ c', lv_cells s' !! n = Some c' ∧ ce_out c' = ce_out c ∧
      (pointer st ≠ Some n → c' = c)) ∧
    ∀ n c', lv_cells s' !! n = Some c' → (length (lv_cells s) ≤ n)%nat → ce_out c' = None).
Proof.
  intros Hs. assert (∀ n c', lv_cells s !! n = Some c' → (length (lv_cells s) ≤ n)%nat → ce_out c' = None) as Hnone.
  { intros n c' Hn Hle. apply lookup_lt_Some in Hn. lia. }
  assert (∀ req n c, lv_cells s !! n = Some c → ∃ c', (lv_cells s ++ [new_cell req]) !! n = Some c' ∧
    ce_out c' = ce_out c ∧ c' = c) as Hnew.
  { intros req n c Hn. exists c. split; [by apply lookup_app_l_Some|done]. }
  assert (∀ req n c', (lv_cells s ++ [new_cell req]) !! n = Some c' → (length (lv_cells s) ≤ n)%nat →
    ce_out c' = None) as Hfresh.
  { intros req n c' Hn Hle. rewrite lookup_app_r in Hn by done.
    by apply list_lookup_singleton_Some in Hn as [_ <-]. }
  assert (∀ n0 c0 c1, lv_cells s !! n0 = Some c0 → ce_out c1 = ce_out c0 →
    (∀ n c, lv_cells s !! n = Some c → ∃ c', <[n0 := c1]> (lv_cells s) !! n = Some c' ∧ ce_out c' = ce_out c ∧
      (Some n0 ≠ Some n → c' = c)) ∧
    ∀ n c', <[n0 := c1]> (lv_cells s) !! n = Some c' → (length (lv_cells s) ≤ n)%nat → ce_out c' = None) as Hput.
  { intros n0 c0 c1 H0' Ho. split.
    - intros n c Hn. destruct (decide (n = n0)) as [->|Hne].
      + exists c1. rewrite list_lookup_insert_eq by (by eapply lookup_lt_Some). split; [done|]. split; congruence.
      + exists c. by rewrite list_lookup_insert_ne.
    - intros n c' Hn Hle. apply lookup_lt_Some in Hn. rewrite length_insert in Hn. lia. }
  destruct Hs as [l st Hi Hg|fm Hi|fm ahead Hi|fm estimate count Hi Hcount|req estimate ls Hi Hp
    |req estimate j Hi Hj Hl|req estimate Hi Hp|n w Hi|n t0 w c result Hi Hn Hr|n t0 w c Hi Hn Hto
    |n result at_ w c tr w' Hi Hn Hsa|n ok w c chunk rest Hi Hn Hch|n ok w c Hi Hn Hch Hcl];
    (split; [first [by left|right; by exists j]|]);
    eexists _, _; (split; [exact Hi|]); (split; [done|]); (split; [reflexivity|]); simpl; try (by split; [eauto|]).
  - split; [|apply Hfresh]. intros n c Hn. destruct (Hnew req n c Hn) as (c' & ? & ? & ?). eauto.
  - split; [|apply Hfresh]. intros n c Hn. destruct (Hnew req n c Hn) as (c' & ? & ? & ?). eauto.
  - by apply (Hput n c).
  - by apply (Hput n c).
Qed.

Lemma stuck_step s s' :
  live_inv d g target s → Forall (stuck s) (lv_pool s) → live_step d g target fused s s' →
  Forall (stuck s') (lv_pool s') ∧
  (∀ n c, lv_cells s !! n = Some c → ∃ c', lv_cells s' !! n = Some c' ∧ ce_out c' = ce_out c) ∧
  ∀ n c', lv_cells s' !! n = Some c' → (length (lv_cells s) ≤ n)%nat → ce_out c' = None.
Proof.
  intros Hinv Hall [Ho|[(i & r & Hh)|(j & ask & Hp)]].
  - assert (lv_cells s' = lv_cells s ∧ lv_pool s' = lv_pool s ∧
      ∀ i r st, at_stage s i r st → at_stage s' i r st) as (Hce & Hpo & Hst).
    { destruct Ho; (split; [done|]); (split; [done|]); intros i r' st Hi; [by apply lookup_app_l_Some|done..]. }
    rewrite Hce, Hpo. split_and!; [|by eauto|intros n c' Hn%lookup_lt_Some; lia].
    eapply Forall_impl; [exact Hall|]. intros [|n|n|]; try done.
    intros (c & i & r & rs & ? & ? & ? & ?). exists c, i, r, rs. rewrite Hce. eauto.
  - destruct (handle_cells _ _ _ _ Hh) as (Hpo & st & st' & Hi & Hov & Hcl & Hce & Hnew).
    split_and!; [|intros n c Hn; destruct (Hce n c Hn) as (c' & ? & ? & _); by exists c'|done].
    destruct Hpo as [->|[j Hj]]; [|by pose proof (Forall_lookup_1 _ _ _ _ Hall Hj)].
    eapply Forall_impl; [exact Hall|]. intros [|n|n|]; try done.
    intros (c & i' & r' & rs & Hn & Hfull & Hb & Hi'). exists c, i', r', rs.
    assert (i' ≠ i) as Hne. { intros ->. unfold at_stage in *. rewrite Hi in Hi'. injection Hi' as _ Hst. by apply (Hov (Some n) rs). }
    split_and!; [|done|done|unfold at_stage; by rewrite Hcl, list_lookup_insert_ne].
    destruct (Hce n c Hn) as (c' & Hn' & _ & Heq). rewrite Hn'. f_equal. apply Heq. intros Hpn. apply Hne.
    by eapply (pointer_unique d g target s i' i).
  - by destruct (stuck_runner s j ask s' Hall).
Qed.

(** C31: Streams nobody reads put the pool out of work for good: once every dispatcher sends
    into the full channel of a client that was answered already, it stays that way whatever
    happens, no request is given a result any more, and a client that was queued, before or after,
    and had no result by then ends with the 504. *)
Theorem live_exhausted c t0 tr s s' :
  live_reachable d g target fused c t0 tr s → Forall (stuck s) (lv_pool s) →
  rtc (live_step d g target fused) s s' →
  Forall (stuck s') (lv_pool s') ∧
  ∀ i r n rs, at_stage s' i r (Over (Some n) rs) →
    (∃ x, lv_cells s !! n = Some x ∧ ce_out x ≠ None) ∨
    ∃ req estimate, request_at (lv_cells s') n = Some req ∧ request_of g r req ∧
      rs = timed_out g req (estimate_header estimate newWriter).
Proof.
  intros Hinv%live_reachable_inv Hall Hr.
  apply (invariant_rtc (live_step d g target fused) (λ x, live_inv d g target x ∧ Forall (stuck x) (lv_pool x) ∧
    ∀ n y, lv_cells x !! n = Some y → ce_out y ≠ None → ∃ y0, lv_cells s !! n = Some y0 ∧ ce_out y0 ≠ None)) in Hr
    as (Hinv' & Hall' & Hserved).
  - split; [done|]. intros i r n rs Hi. destruct (li_stages _ _ _ _ Hinv' _ _ _ Hi) as (y & Hy & Hreq & est & He).
    destruct He as [[Hrs _]|(o & at_ & Ho & _)]; [right|left].
    + exists (ce_req y), est. split_and!; [unfold request_at; by rewrite Hy|done|done].
    + apply (Hserved n y Hy). congruence.
  - intros s1 s2 Hs (Hinv1 & Hall1 & Hs1). destruct (stuck_step _ _ Hinv1 Hall1 Hs) as (Hall2 & Hold & Hnew).
    split_and!; [by eapply live_step_inv|done|]. intros n y Hy Ho.
    destruct (lookup_lt_is_Some_2 (lv_cells s1) n) as [y1 Hy1].
    { apply Nat.nle_gt. intros Hle. apply Ho. by eapply Hnew. }
    apply (Hs1 n y1 Hy1). destruct (Hold n y1 Hy1) as (y2 & Hy2 & Heq). congruence.
  - split_and!; [done|done|by eauto].
Qed.

(** ** A handler by itself *)

(** What the handlers share, as Gateway sees it. *)
Definition shared_of (s : Live) : Shared :=
  {| idCounter := lv_count s; sh_queue := queue_of s; sh_limiter := lv_limiter s; sh_tracker := lv_tracker s |}.

(** [handleInference] after [run]. *)
Definition finish (e : Ended) : Writer * Shared * list (string * bool) :=
  (e_writer e, e_shared e, if with_hook g then [(e_model e, e_success e)] else []).

Section alone.
Context (now_enqueue : Z) (dispatch : Queue.Request → Outcome) (r : GoHttp.Request).

Abbreviation queue_it fm := (admit_and_queue g target now_enqueue dispatch r (fm_body fm) (fm_keyID fm) (fm_model fm)
  (fm_stream fm) newWriter).

Lemma parse_form_serve keyID sh :
  match parse_form g r keyID with
  | Over None rs =>
    finish (read_and_queue g target now_enqueue dispatch r keyID newWriter sh) = (rs_writer rs, sh, rs_calls rs)
  | Parsed fm =>
    finish (read_and_queue g target now_enqueue dispatch r keyID newWriter sh) = finish (queue_it fm sh) ∧
    fm_priority fm = parsePriority r
  | _ => False
  end.
Proof.
  unfold parse_form, read_and_queue, away. destruct (ReqBody r) as [body|]; [|done].
  by destruct (decode_payload body) as [[[|c m] stream]|].
Qed.

Lemma set_limiter_same sh : set_limiter (sh_limiter sh) sh = sh.
Proof. by destruct sh. Qed.

Lemma gate_serve now sh l st :
  gate g fused now r (sh_limiter sh) = (l, st) →
  let answer := ServeHTTP g target fused now now_enqueue dispatch r newWriter sh in
  match st with
  | Over None rs => answer = (rs_writer rs, set_limiter l sh, rs_calls rs)
  | Parsed fm => answer = finish (queue_it fm (set_limiter l sh)) ∧ fm_priority fm = parsePriority r
  | _ => False
  end.
Proof.
  unfold gate, ServeHTTP, handleInference, run. cbv zeta. fold (finish).
  case_decide; [|by case_decide; intros [= <- <-]; rewrite set_limiter_same].
  case_decide; [intros [= <- <-]; by rewrite set_limiter_same|].
  destruct (with_auth g) as [[keys limited]|].
  2: { intros [= <- <-]. rewrite set_limiter_same. apply parse_form_serve. }
  destruct (extractAPIKey r) as [apiKey|]; [|intros [= <- <-]; by rewrite set_limiter_same].
  destruct (Lookup apiKey keys) as [info|]; [|intros [= <- <-]; by rewrite set_limiter_same].
  destruct limited; [|intros [= <- <-]; rewrite set_limiter_same; apply parse_form_serve].
  destruct (Allow _ _ _ _ _) as [l0 [|]]; intros [= <- <-]; [apply parse_form_serve|done].
Qed.

(** From the decoded form to the queue. *)
Definition weigh (q0 : Queue) (tr : LatencyTracker) (fm : Form) : Stage :=
  match look_ahead g q0 fm with Counted fm ahead => admission g target tr fm ahead | st => st end.

Lemma weigh_serve fm sh :
  fm_priority fm = parsePriority r →
  match weigh (sh_queue sh) (sh_tracker sh) fm with
  | Over None rs => finish (queue_it fm sh) = (rs_writer rs, sh, rs_calls rs)
  | Granted fm' est =>
    fm' = fm ∧
    let n := uint64 (idCounter sh + 1) in
    let req := make_request n now_enqueue fm in
    finish (queue_it fm sh) =
      match TryPush req (sh_queue sh) with
      | (q', true) => finish (await g target dispatch req (estimate_header est newWriter) (set_queue q' n sh))
      | (_, false) =>
        finish (refuse "request queue full, try again later" StatusServiceUnavailable (fm_model fm) newWriter
          (set_queue (sh_queue sh) n sh))
      end
  | _ => False
  end.
Proof.
  intros Hp. unfold weigh, look_ahead, admission, admit_and_queue, away, make_request.
  destruct (with_slo g) as [e|]; simpl; rewrite ?Hp.
  - destruct (with_policy g) as [p|].
    + destruct (Admit _ _ _); [|done]. split; [done|]. by destruct (TryPush _ _) as [? []].
    + split; [done|]. by destruct (TryPush _ _) as [? []].
  - destruct (with_policy g); (split; [done|]); by destruct (TryPush _ _) as [? []].
Qed.

End alone.

(** Pointers into the cells stand for a request each. *)
Lemma request_at_new cells c l :
  Forall (λ n, n < length cells)%nat l →
  omap (request_at (cells ++ [c])) l = omap (request_at cells) l ∧ length (omap (request_at cells) l) = length l.
Proof.
  induction 1 as [|n l Hn _ [IH1 IH2]]; [done|]. destruct (lookup_lt_is_Some_2 _ _ Hn) as [x Hx].
  assert (request_at (cells ++ [c]) n = Some (ce_req x)) as H1 by (unfold request_at; by rewrite lookup_app_l, Hx).
  assert (request_at cells n = Some (ce_req x)) as H2 by (unfold request_at; by rewrite Hx).
  cbn [omap list_omap]. rewrite H1, H2. unfold omap in *. cbn [length]. by rewrite IH1, IH2.
Qed.

Lemma deref_push cells ls req :
  Forall (λ n, n < length cells)%nat (queued ls) →
  TryPush req (deref cells ls) =
    match try_push (Priority req) (length cells) ls with
    | Some ls' => (deref (cells ++ [new_cell req]) ls', true)
    | None => (deref cells ls, false)
    end.
Proof.
  intros [Hh [Hm Hl]%Forall_app]%Forall_app.
  destruct (request_at_new _ (new_cell req) _ Hh) as [Hh1 Hh2], (request_at_new _ (new_cell req) _ Hm) as [Hm1 Hm2],
    (request_at_new _ (new_cell req) _ Hl) as [Hl1 Hl2].
  assert (∀ l, omap (request_at (cells ++ [new_cell req])) (l ++ [length cells]) =
    omap (request_at (cells ++ [new_cell req])) l ++ [req]) as Hsnoc.
  { intros l. rewrite omap_app. f_equal. csimpl. unfold request_at. by rewrite list_lookup_middle. }
  unfold TryPush, try_push, lane, lane_of, set_lane, put_lane, deref. simpl.
  destruct (Priority req =? PriorityHigh) eqn:Hp1; [|destruct (Priority req =? PriorityNormal) eqn:Hp2;
    [|destruct (Priority req =? PriorityLow) eqn:Hp3; [|done]]];
    rewrite ?Hh2, ?Hm2, ?Hl2; case_decide; rewrite ?Hp1, ?Hp2, ?Hp3; simpl; rewrite ?Hsnoc, ?Hh1, ?Hm1, ?Hl1; done.
Qed.

Lemma at_stage_moved s i r r0 st0 st : at_stage s i r0 st0 → at_stage (move i r st s) i r st.
Proof. intros Hi. apply list_lookup_insert_eq. by eapply lookup_lt_Some. Qed.

Lemma move_move s i r st st' : move i r st' (move i r st s) = move i r st' s.
Proof. unfold move, set_clients. simpl. by rewrite list_insert_insert_eq. Qed.

Lemma weigh_steps s i r fm :
  at_stage s i r (Parsed fm) →
  rtc (λ a b, handle g target fused a i r b) s (move i r (weigh (queue_of s) (lv_tracker s) fm) s).
Proof.
  intros Hi. unfold weigh. pose proof (h_ahead g target fused s i r fm Hi) as H1.
  destruct (look_ahead g (queue_of s) fm) as [|fm'|fm' ahead|fm' est| | | | | |] eqn:Hla; try by apply rtc_once.
  eapply rtc_l; [exact H1|]. apply rtc_once.
  pose proof (h_estimate g target fused _ i r fm' ahead (at_stage_moved _ _ r _ _ (Counted fm' ahead) Hi)) as H2.
  by rewrite move_move in H2.
Qed.

Lemma number_steps s i r fm est :
  at_stage s i r (Granted fm est) → Forall (λ n, n < length (lv_cells s))%nat (queued (lv_lanes s)) →
  let n := uint64 (lv_count s + 1) in
  let req := make_request n (lv_clock s) fm in
  let counted := set_queue (queue_of s) n (shared_of s) in
  ∃ s' st, rtc (λ a b, handle g target fused a i r b) s s' ∧ at_stage s' i r st ∧
  match TryPush req (queue_of s) with
  | (q', true) =>
    st = Pushed (length (lv_cells s)) (estimate_header est newWriter) ∧
    request_at (lv_cells s') (length (lv_cells s)) = Some req ∧ shared_of s' = set_queue q' n (shared_of s)
  | (_, false) =>
    st = away g "request queue full, try again later" StatusServiceUnavailable (fm_model fm) newWriter ∧
    shared_of s' = set_queue (queue_of s) n (shared_of s)
  end.
Proof.
  intros Hi Hq n req counted.
  set (s1 := move i r (Numbered req est) (set_front n (lv_limiter s) (lv_tracker s) s)).
  assert (handle g target fused s i r s1) as H1 by by apply h_number.
  assert (at_stage s1 i r (Numbered req est)) as Hi1 by exact (at_stage_moved _ _ r _ _ (Numbered req est) Hi).
  pose proof (deref_push _ _ req Hq) as Hp. fold (queue_of s) in Hp.
  destruct (try_push (Priority req) (length (lv_cells s)) (lv_lanes s)) as [ls|] eqn:Hpush; rewrite Hp.
  - eexists _, _. split; [|split; [|split; [reflexivity|]]].
    + eapply rtc_l; [exact H1|]. apply rtc_once. by apply (h_push g target fused s1 i r req est ls Hi1).
    + apply (at_stage_moved _ _ r _ _ _ Hi1).
    + split; [|done]. unfold request_at. simpl. by rewrite list_lookup_middle.
  - eexists _, _. split; [|split; [|split; [reflexivity|]]].
    + eapply rtc_l; [exact H1|]. apply rtc_once. by apply (h_full g target fused s1 i r req est Hi1).
    + apply (at_stage_moved _ _ r _ _ _ Hi1).
    + done.
Qed.

Lemma queued_in_range s : live_inv d g target s → Forall (λ n, n < length (lv_cells s))%nat (queued (lv_lanes s)).
Proof.
  intros Hinv. apply Forall_forall. intros n Hn. eapply cells_with_lt, (li_pending _ _ _ _ Hinv).
  apply elem_of_app. by left.
Qed.

(** C20: A handler that is left alone from its start to the queue does what Gateway says in one
    piece: it comes to the response, the hook's calls and the shared state of [ServeHTTP], or
    puts into the queue the request [ServeHTTP] queues and stands before the select with the
    counter, the queue, the buckets, the tracker and the headers [ServeHTTP] has there. *)
Theorem handler_alone c t0 tr s i r dispatch :
  live_reachable d g target fused c t0 tr s → at_stage s i r Fresh →
  let answer := ServeHTTP g target fused (lv_clock s) (lv_clock s) dispatch r newWriter (shared_of s) in
  ∃ s' st, rtc (λ a b, handle g target fused a i r b) s s' ∧ at_stage s' i r st ∧
  match st with
  | Over None rs => answer = (rs_writer rs, shared_of s', rs_calls rs)
  | Pushed n w =>
    ∃ req, n = length (lv_cells s) ∧ request_at (lv_cells s') n = Some req ∧
      answer = finish (await g target dispatch req w (shared_of s'))
  | _ => False
  end.
Proof.
  intros Hinv%live_reachable_inv Hi answer. destruct (gate g fused (lv_clock s) r (lv_limiter s)) as [l st] eqn:Hg.
  pose proof (gate_serve (lv_clock s) dispatch r _ (shared_of s) l st Hg) as Hsv. cbv zeta in Hsv. fold answer in Hsv.
  set (s1 := move i r st (set_front (lv_count s) l (lv_tracker s) s)).
  assert (handle g target fused s i r s1) as H1 by by apply h_gate.
  assert (at_stage s1 i r st) as Hi1 by exact (at_stage_moved _ _ r _ _ st Hi).
  assert (shared_of s1 = set_limiter l (shared_of s)) as Hsh by done. rewrite <- Hsh in Hsv.
  destruct st as [|fm| | | | | | | |[|] rs]; try done.
  2: { exists s1, (Over None rs). split; [by apply rtc_once|done]. }
  destruct Hsv as [Hsv Hpri]. pose proof (weigh_serve (lv_clock s) dispatch r fm (shared_of s1) Hpri) as Hw.
  rewrite <- Hsv in Hw. pose proof (weigh_steps _ _ _ _ Hi1) as H2.
  change (queue_of s1) with (sh_queue (shared_of s1)) in H2. change (lv_tracker s1) with (sh_tracker (shared_of s1)) in H2.
  destruct (weigh (sh_queue (shared_of s1)) (sh_tracker (shared_of s1)) fm) as [| | |fm' est| | | | | |[|] rs]; try done.
  2: { exists (move i r (Over None rs) s1), (Over None rs).
       split; [by eapply rtc_l|]. split; [by eapply at_stage_moved|done]. }
  destruct Hw as [-> Hw].
  destruct (number_steps _ i r fm est (at_stage_moved _ _ r _ _ (Granted fm est) Hi1)) as (s' & st' & H3 & Hi' & Hst).
  { exact (queued_in_range s Hinv). }
  exists s', st'. split; [eapply rtc_l; [exact H1|]; by etrans|]. split; [done|].
  change (queue_of (move i r (Granted fm est) s1)) with (sh_queue (shared_of s1)) in Hst.
  change (lv_count (move i r (Granted fm est) s1)) with (idCounter (shared_of s1)) in Hst.
  change (lv_clock (move i r (Granted fm est) s1)) with (lv_clock s) in Hst.
  cbv zeta in Hw. destruct (TryPush _ _) as [q' [|]].
  - destruct Hst as (-> & Hreq & Hsh'). eexists. split; [done|]. split; [exact Hreq|]. by rewrite Hw, Hsh'.
  - destruct Hst as (-> & Hsh'). cbn [away]. by rewrite Hw, Hsh'.
Qed.

End live.

(** ** The theorems at work *)

Definition demo_server : Gateway :=
  {| waitTimeout := 30 * SecondNs; with_slo := None; with_policy := None; with_auth := None; with_hook := true |}.

Definition demo_start : Live := live_start demo_dispatcher 2 0 (NewLatencyTracker (2 * SecondNs)).

Definition demo_upstream (_ : nat) (_ : Call) : Upstream := Answer 200 "application/json" ["{}"] None.

(** A client comes, its handler queues the request, the dispatcher takes it and ends it, the
    handler answers. *)
Definition demo_schedule : list Move :=
  [Connect (demo_client ""); Turn 0 false; Turn 0 false; Turn 0 false; Turn 0 false; Work 0 (Some PriorityNormal) demo_upstream;
   Turn 0 false; Work 0 None demo_upstream; Pass SecondNs; Turn 0 false; Turn 0 false].

Abbreviation demo_perform := (@perform demo_error (λ s, s) demo_dispatcher demo_server (portable NoFusing) false demo_start).

Definition demo_after (k : nat) : Live := default demo_start (demo_perform (firstn k demo_schedule)).

Lemma demo_after_reachable k :
  @live_reachable demo_error (λ s, s) demo_dispatcher demo_server (portable NoFusing) false 2 0
    (NewLatencyTracker (2 * SecondNs)) (demo_after k).
Proof. apply perform_default. Qed.

Definition demo_end_stage : Stage := default Fresh (cl_stage <$> lv_clients (demo_after 11) !! 0%nat).

Lemma live_exactly_once_witness :
  lv_pool (demo_after 7) = [Serving 0] ∧ ∃ c, lv_cells (demo_after 7) !! 0%nat = Some c ∧ ce_result c = None.
Proof.
  assert (lv_pool (demo_after 7) = [Serving 0]) as Hp by (vm_compute; reflexivity). split; [exact Hp|].
  destruct (@live_exactly_once demo_error (λ s, s) demo_dispatcher demo_server (portable NoFusing) false 2 0 _ _
    (demo_after_reachable 7)) as (_ & _ & Hs).
  apply (Hs 0%nat). by rewrite Hp.
Defined.

Lemma own_answer_witness :
  ∃ rs, at_stage (demo_after 11) 0 (demo_client "") (Over (Some 0%nat) rs) ∧
    RespBody (rs_writer rs) = "{}" ∧ rs_calls rs = [("llama3", true)] ∧
    ∃ req, request_at (lv_cells (demo_after 11)) 0 = Some req ∧ request_of demo_server (demo_client "") req.
Proof.
  eexists. assert (at_stage (demo_after 11) 0 (demo_client "") (Over (Some 0%nat) _)) as Hi
    by (unfold at_stage; vm_compute; reflexivity).
  split; [exact Hi|]. split; [reflexivity|]. split; [reflexivity|].
  destruct (@own_answer demo_error (λ s, s) demo_dispatcher demo_server (portable NoFusing) false 2 0 _ _ _ _ _ _
    (demo_after_reachable 11) Hi) as [(req & est & Hreq & Hof & _) _].
  exists req. split; [exact Hreq|exact Hof].
Defined.

(** One client that was answered, and dispatchers that wait: nothing happens by itself. *)
Lemma idle_settled `{JsonError} `{FmtQuote} d g target fused s r n rs k :
  lv_clients s = [{| cl_request := r; cl_stage := Over n rs |}] → lv_pool s = replicate k Idle →
  queued (lv_lanes s) = [] → lv_stopping s = false → nf (inside d g target fused) s.
Proof.
  intros Hc Hp Hq Hs [s' [(i & r' & Hh)|(j & ask & Hw)]].
  - assert (∀ st, at_stage s i r' st → st = Over n rs) as Hst.
    { unfold at_stage. rewrite Hc. by intros st [_ [= _ ->]]%list_lookup_singleton_Some. }
    by destruct Hh as [? ? Hi| ? Hi| ? ? Hi| ? ? ? Hi| ? ? ? Hi| ? ? ? Hi| ? ? Hi| ? ? Hi| ? ? ? ? ? Hi| ? ? ? ? Hi
      | ? ? ? ? ? ? ? Hi| ? ? ? ? ? ? Hi| ? ? ? ? Hi]; apply Hst in Hi.
  - assert (∀ rn, lv_pool s !! j = Some rn → rn = Idle) as Hrn.
    { rewrite Hp. by intros rn [-> _]%lookup_replicate. }
    destruct Hw as [p m l Hj Hl|Hj Hst|m c calls result Hj|m c calls out Hj|m c chunk rest Hj|m c Hj];
      apply Hrn in Hj as ?; try done.
    + apply pop_queued in Hl. rewrite Hq in Hl. by apply Permutation_nil_cons in Hl.
    + congruence.
Qed.

Lemma demo_settled :
  nf (@inside demo_error (λ s, s) demo_dispatcher demo_server (portable NoFusing) false) (demo_after 11).
Proof. eapply (idle_settled _ _ _ _ _ _ _ _ 1); vm_compute; reflexivity. Qed.

Lemma every_client_answered_witness :
  sn (@inside demo_error (λ s, s) demo_dispatcher demo_server (portable NoFusing) false) (demo_after 3) ∧
  ∃ n rs, demo_end_stage = Over n rs.
Proof.
  split.
  - apply (@every_client_answered demo_error (λ s, s) demo_dispatcher demo_server (portable NoFusing) false 2 0 _ _
      (demo_after_reachable 3)).
  - destruct (@every_client_answered demo_error (λ s, s) demo_dispatcher demo_server (portable NoFusing) false 2 0 _ _
      (demo_after_reachable 11)) as [_ Hall].
    assert (at_stage (demo_after 11) 0 (demo_client "") demo_end_stage) as Hi
      by (unfold at_stage; vm_compute; reflexivity).
    destruct (Hall _ (rtc_refl _ _) demo_settled _ _ _ Hi) as [Hover|(n & t1 & w & Hst & _)]; [exact Hover|].
    vm_compute in Hst. discriminate Hst.
Defined.

Lemma handler_alone_witness :
  ∃ s' st, @rtc Live (λ a b, handle demo_server (portable NoFusing) false a 0 (demo_client "") b) (demo_after 1) s' ∧
    at_stage s' 0 (demo_client "") st ∧ match st with Over None _ | Pushed _ _ => True | _ => False end.
Proof.
  destruct (@handler_alone demo_error (λ s, s) demo_dispatcher demo_server (portable NoFusing) false 2 0 _ _ 0 (demo_client "")
    (λ _, TimedOut) (demo_after_reachable 1)) as (s' & st & Hr & Hi & Hst); [reflexivity|].
  exists s', st. split; [exact Hr|]. split; [exact Hi|]. by destruct st as [| | | | | | | | |[]].
Defined.

(** A client that streams gives up before the dispatcher has an answer; sixteen chunks later the
    dispatcher is stuck, and the next client waits in vain. *)
Definition demo_streaming : GoHttp.Request :=
  {| Method := "POST"; Path := "/v1/completions"; ReqHeader := ∅; ReqBody := Some demo_body |}.

Definition demo_long (_ : nat) (_ : Call) : Upstream := Answer 200 "text/event-stream" (replicate 17 "data") None.

Definition demo_asks (i : nat) (t : Z) : list Move :=
  [Connect demo_streaming; Turn i false; Turn i false; Turn i false; Turn i false; Turn i false; Pass t; Turn i true].

Definition demo_stall : list Move :=
  demo_asks 0 (30 * SecondNs) ++ [Work 0 (Some PriorityNormal) demo_long; Work 0 None demo_long] ++
  replicate 16 (Work 0 None demo_long).

Definition demo_stalled : Live := default demo_start (demo_perform demo_stall).

Definition demo_starved : Live :=
  default demo_stalled (@perform demo_error (λ s, s) demo_dispatcher demo_server (portable NoFusing) false demo_stalled
    (demo_asks 1 (60 * SecondNs))).

Lemma live_exhausted_witness :
  Forall (stuck demo_stalled) (lv_pool demo_stalled) ∧
  ∃ rs, at_stage demo_starved 1 demo_streaming (Over (Some 1%nat) rs) ∧ Written (rs_writer rs) = Some StatusGatewayTimeout.
Proof.
  assert (rtc (@live_step demo_error (λ s, s) demo_dispatcher demo_server (portable NoFusing) false) demo_start demo_stalled) as Hr1 by apply perform_default.
  assert (rtc (@live_step demo_error (λ s, s) demo_dispatcher demo_server (portable NoFusing) false) demo_stalled demo_starved)
    as Hr2 by apply perform_default.
  assert (lv_pool demo_stalled = [Sending 0]) as Hp by (vm_compute; reflexivity).
  assert (Forall (stuck demo_stalled) (lv_pool demo_stalled)) as Hall.
  { rewrite Hp. apply Forall_singleton. eexists _, 0%nat, demo_streaming, _.
    split; [vm_compute; reflexivity|]. split; [vm_compute; lia|]. split; [discriminate|].
    unfold at_stage. vm_compute. reflexivity. }
  split; [exact Hall|].
  destruct (@live_exhausted demo_error (λ s, s) demo_dispatcher demo_server (portable NoFusing) false 2 0 _ _ _ Hr1 Hall Hr2)
    as [_ Hans].
  assert (∃ rs, at_stage demo_starved 1 demo_streaming (Over (Some 1%nat) rs)) as [rs Hi]
    by (eexists; unfold at_stage; vm_compute; reflexivity).
  exists rs. split; [exact Hi|]. destruct (Hans _ _ _ _ Hi) as [(x & Hx & Ho)|(req & est & _ & _ & Hrs)].
  - exfalso. vm_compute in Hx. discriminate Hx.
  - rewrite Hrs. destruct est; reflexivity.
Defined.
