(* ===== verification/LiveRefine.v ===== *)
(** * The running request plane implements the pool

    Pool sees of the request plane a queue, goroutines and results; Live has handlers with
    timeouts, pointers and channels.  [pool_view] reads the one off the other, and every step of
    Live is steps of the pool whose gateways may give up, or none. *)

From S2P Require Import Prelude GoFloat GoStrings GoHttp GoJson GoUnmarshal Queue Slo Auth Dispatcher Gateway Pool Live LiveInv LiveRun LiveProps.
Open Scope Z_scope.

(** ** The view *)

(** The handler at this stage will still look at its request [n]. *)
Definition waits (n : nat) (st : Stage) : bool :=
  match st with
  | Pushed m _ | Waiting m _ _ | Received m _ _ _ | Relaying m _ _ => bool_decide (m = n)
  | _ => false
  end.

Definition awaited (cs : list Client) (n : nat) : bool := existsb (waits n ∘ cl_stage) cs.

(** The result announces a stream. *)
Definition announced (c : Cell) : bool :=
  match ce_out c with Some o => Streaming (so_result o) | None => false end.

(** A stream its dispatcher still feeds; it is read if it was announced and its handler is
    there. *)
Definition stream_view (s : Live) (n : nat) (c : Cell) : StreamSys :=
  {| to_send := ce_body c; in_channel := ce_chunks c; closed := false;
     reading := announced c && awaited (lv_clients s) n; got := ce_taken c |}.

Definition runner_view (s : Live) (rn : Runner) : Goroutine :=
  match rn with
  | Idle => Popping
  | Serving n => from_option (λ c, Dispatching (ce_req c)) Popping (lv_cells s !! n)
  | Sending n => from_option (λ c, Pumping (stream_view s n c)) Popping (lv_cells s !! n)
  | Returned => Stopped
  end.

(** The results of the requests, in the order of the requests. *)
Definition results (cells : list Cell) : list (Queue.Request * Result) :=
  omap (λ c, (λ o, (ce_req c, so_result o)) <$> ce_out c) cells.

(** [an]: the results in the order they were sent. *)
Definition pool_view (s : Live) (an : list (Queue.Request * Result)) : Pool :=
  {| pool_queue := queue_of s; goroutines := runner_view s <$> lv_pool s; stopping := lv_stopping s;
     pushed := ce_req <$> lv_cells s; answered := an |}.

(** ** Who waits *)

Lemma existsb_insert {A} (f : A → bool) (l : list A) i x y :
  l !! i = Some x → f y = f x → existsb f (<[i := y]> l) = existsb f l.
Proof.
  revert i. induction l as [|a l IH]; intros [|i] Hi Hf; simplify_eq/=; [by rewrite Hf|].
  by rewrite (IH _ Hi Hf).
Qed.

Lemma existsb_false {A} (f : A → bool) (l : list A) :
  (∀ i x, l !! i = Some x → f x = false) → existsb f l = false.
Proof.
  intros Hf. induction l as [|a l IH]; [done|]. simpl. rewrite (Hf 0%nat a) by done. simpl.
  apply IH. intros i x Hx. by apply (Hf (S i)).
Qed.

Lemma awaited_move s i r st st' n :
  at_stage s i r st → waits n st' = waits n st →
  awaited (<[i := {| cl_request := r; cl_stage := st' |}]> (lv_clients s)) n = awaited (lv_clients s) n.
Proof. intros Hi Hw. by eapply existsb_insert. Qed.

Lemma waits_pointer n st : waits n st = true → pointer st = Some n.
Proof. destruct st; try done; simpl; by intros ->%bool_decide_eq_true. Qed.

Lemma waits_other n st : pointer st ≠ Some n → waits n st = false.
Proof. intros Hp. destruct (waits n st) eqn:Hw; [|done]. by apply waits_pointer in Hw. Qed.

Lemma awaited_here s i r st n : at_stage s i r st → waits n st = true → awaited (lv_clients s) n = true.
Proof.
  intros Hi Hw. apply existsb_exists. exists {| cl_request := r; cl_stage := st |}. split; [|done].
  apply list_elem_of_In. by eapply list_elem_of_lookup_2.
Qed.

(** ** Lanes and results through the pointers *)

Lemma lane_deref p cells ls : 
  lane p (deref cells ls) = (λ l : list nat, omap (request_at cells) l) <$> lane_of p ls.
Proof. unfold lane, lane_of. destruct (p =? PriorityHigh), (p =? PriorityNormal), (p =? PriorityLow); done. Qed.

Lemma deref_pop p cells ls n c l :
  lane_of p ls = Some (n :: l) → cells !! n = Some c →
  try_receive p (deref cells ls) = Some (ce_req c, deref cells (put_lane p l ls)).
Proof.
  intros Hl Hn. apply try_receive_spec. exists (omap (request_at cells) l). rewrite lane_deref, Hl. split.
  - simpl. unfold request_at at 1. by rewrite Hn.
  - unfold set_lane, put_lane, deref.
    destruct (p =? PriorityHigh), (p =? PriorityNormal), (p =? PriorityLow); done.
Qed.

Lemma omap_pointwise {A B} (f f' : A → option B) (l : list A) :
  (∀ x, x ∈ l → f' x = f x) → omap f' l = omap f l.
Proof.
  intros Hf. apply list_omap_ext. induction l as [|a l IH]; [done|]. constructor; [apply Hf; by left|].
  apply IH. intros x Hx. apply Hf. by right.
Qed.

(** The lanes see of the requests only what never changes. *)
Lemma deref_same cells cells' ls :
  (∀ n, n ∈ queued ls → request_at cells' n = request_at cells n) → deref cells' ls = deref cells ls.
Proof.
  intros Hsame. unfold deref. f_equal; apply omap_pointwise; intros n Hn; apply Hsame;
    unfold queued; rewrite !elem_of_app; tauto.
Qed.

Lemma request_at_insert cells n c c' m :
  cells !! n = Some c → ce_req c' = ce_req c → request_at (<[n := c']> cells) m = request_at cells m.
Proof.
  intros Hn Hreq. unfold request_at. destruct (decide (m = n)) as [->|Hm].
  - rewrite list_lookup_insert_eq by (by eapply lookup_lt_Some). rewrite Hn. simpl. by f_equal.
  - by rewrite list_lookup_insert_ne.
Qed.

Lemma requests_insert (cells : list Cell) n c c' :
  cells !! n = Some c → ce_req c' = ce_req c → ce_req <$> <[n := c']> cells = ce_req <$> cells.
Proof.
  intros Hn Hreq. rewrite list_fmap_insert, Hreq. apply list_insert_id. by rewrite list_lookup_fmap, Hn.
Qed.

(** A step that keeps the lanes and changes one cell. *)
Lemma queue_insert s s' n c c' :
  lv_lanes s' = lv_lanes s → lv_cells s !! n = Some c → lv_cells s' = <[n := c']> (lv_cells s) → ce_req c' = ce_req c →
  queue_of s' = queue_of s ∧ ce_req <$> lv_cells s' = ce_req <$> lv_cells s.
Proof.
  intros Hla Hn Hce Hreq. unfold queue_of. rewrite Hla, Hce. split; [|by eapply requests_insert].
  apply deref_same. intros m _. by eapply request_at_insert.
Qed.

Lemma results_insert cells n c c' :
  cells !! n = Some c → ce_req c' = ce_req c → ce_out c' = ce_out c → results (<[n := c']> cells) = results cells.
Proof.
  intros Hn Hreq Hout. unfold results. revert n Hn. induction cells as [|x cells IH]; intros [|n] Hn; simplify_eq/=.
  - by rewrite Hreq, Hout.
  - by rewrite (IH n Hn).
Qed.

Lemma results_commit cells n c out :
  cells !! n = Some c → ce_out c = None →
  results (<[n := commit_cell out c]> cells) ≡ₚ (ce_req c, so_result out) :: results cells.
Proof.
  intros Hn Hout. pose proof (omap_insert_Permutation (λ c, (λ o, (ce_req c, so_result o)) <$> ce_out c) _ _ _
    (commit_cell out c) Hn) as Hp. cbn beta in Hp. rewrite Hout in Hp. exact Hp.
Qed.

Lemma results_new cells req : results (cells ++ [new_cell req]) = results cells.
Proof. unfold results. rewrite omap_app. simpl. by rewrite app_nil_r. Qed.

(** ** Steps of the pool *)

Section refinement.
Context `{JsonError} `{FmtQuote} (d : Dispatcher) (g : Gateway) (target : Target) (fused : bool).

Definition holds (rn : Runner) : option nat := match rn with Serving n | Sending n => Some n | _ => None end.

Lemma serving_cell s j n :
  live_inv d g target s → lv_pool s !! j = Some (Serving n) → ∃ c, lv_cells s !! n = Some c ∧ ce_out c = None.
Proof.
  intros Hinv Hj. apply (li_pending _ _ _ _ Hinv), elem_of_app. right. apply list_elem_of_omap.
  exists (Serving n). split; [by eapply list_elem_of_lookup_2|done].
Qed.

Lemma sending_pumped s j n : lv_pool s !! j = Some (Sending n) → n ∈ pumped s.
Proof.
  intros Hj. apply list_elem_of_omap. exists (Sending n). split; [by eapply list_elem_of_lookup_2|done].
Qed.

Lemma sending_cell s n :
  live_inv d g target s → n ∈ pumped s → ∃ c, lv_cells s !! n = Some c ∧ streamed c.
Proof. intros Hinv Hn. by apply (li_pumped _ _ _ _ Hinv). Qed.

Lemma holds_cell s j rn n :
  live_inv d g target s → lv_pool s !! j = Some rn → holds rn = Some n → is_Some (lv_cells s !! n).
Proof.
  intros Hinv Hj Hrn. destruct rn as [|m|m|]; simplify_eq/=.
  - destruct (serving_cell _ _ _ Hinv Hj) as (c & Hc & _). by exists c.
  - apply sending_pumped in Hj. destruct (sending_cell _ _ Hinv Hj) as (c & Hc & _). by exists c.
Qed.

(** Two dispatchers have two requests. *)
Lemma holds_apart s j j' rn rn' n :
  live_inv d g target s → lv_pool s !! j = Some rn → lv_pool s !! j' = Some rn' → holds rn = Some n →
  holds rn' = Some n → j' = j.
Proof.
  intros Hinv Hj Hj' Hrn Hrn'.
  assert (∀ a b, lv_pool s !! a = Some (Serving n) → lv_pool s !! b = Some (Sending n) → False) as Hmix.
  { intros a b Ha Hb. destruct (serving_cell _ _ _ Hinv Ha) as (c & Hc & Ho).
    destruct (sending_cell _ _ Hinv (sending_pumped _ _ _ Hb)) as (c' & Hc' & [Ho' _]). congruence. }
  destruct (li_pending _ _ _ _ Hinv) as [(_ & _ & Hnd)%NoDup_app _]. destruct (li_pumped _ _ _ _ Hinv) as [Hnd' _].
  destruct rn as [|m|m|], rn' as [|m'|m'|]; simplify_eq/=.
  - by eapply (NoDup_omap_lookup serving (lv_pool s)).
  - by destruct (Hmix _ _ Hj Hj').
  - by destruct (Hmix _ _ Hj' Hj).
  - by eapply (NoDup_omap_lookup sending (lv_pool s)).
Qed.

(** A dispatcher whose request looks the same. *)
Lemma runner_view_same s s' rn :
  (∀ n, holds rn = Some n → is_Some (lv_cells s !! n)) →
  (∀ n c, holds rn = Some n → lv_cells s !! n = Some c →
    ∃ c', lv_cells s' !! n = Some c' ∧ ce_req c' = ce_req c ∧
      (rn = Sending n → stream_view s' n c' = stream_view s n c)) →
  runner_view s' rn = runner_view s rn.
Proof.
  intros Hin Hsame. destruct rn as [|n|n|]; try done; destruct (Hin n eq_refl) as [c Hc];
    destruct (Hsame n c eq_refl Hc) as (c' & Hc' & Hreq & Hsv); simpl; rewrite Hc, Hc'; simpl.
  - by rewrite Hreq.
  - by rewrite Hsv.
Qed.

(** One dispatcher's part of the view changes. *)
Lemma views_insert s s' j rn :
  (j < length (lv_pool s))%nat → lv_pool s' = <[j := rn]> (lv_pool s) →
  (∀ j' rn', lv_pool s !! j' = Some rn' → j' ≠ j → runner_view s' rn' = runner_view s rn') →
  runner_view s' <$> lv_pool s' = <[j := runner_view s' rn]> (runner_view s <$> lv_pool s).
Proof.
  intros Hj -> Hsame. rewrite list_fmap_insert. apply list_eq. intros i.
  destruct (decide (i = j)) as [->|Hi].
  - by rewrite !list_lookup_insert_eq by (by rewrite length_fmap).
  - rewrite !list_lookup_insert_ne, !list_lookup_fmap by done.
    destruct (lv_pool s !! i) as [rn'|] eqn:Hrn; [|done]. simpl. f_equal. by apply (Hsame i).
Qed.

(** A step of a handler that neither queues its request nor touches a stream still being
    fed. *)
Lemma view_silent s s' an :
  live_inv d g target s → lv_lanes s' = lv_lanes s → lv_pool s' = lv_pool s → lv_stopping s' = lv_stopping s →
  (lv_cells s' = lv_cells s ∨
   ∃ n c c', lv_cells s !! n = Some c ∧ lv_cells s' = <[n := c']> (lv_cells s) ∧ ce_req c' = ce_req c ∧
     ce_out c' = ce_out c ∧
     (n ∈ pumped s → ce_body c' = ce_body c ∧ ce_chunks c' = ce_chunks c ∧ ce_taken c' = ce_taken c)) →
  (∀ n c, n ∈ pumped s → lv_cells s !! n = Some c →
    announced c && awaited (lv_clients s') n = announced c && awaited (lv_clients s) n) →
  pool_view s' an = pool_view s an ∧ results (lv_cells s') = results (lv_cells s).
Proof.
  intros Hinv Hla Hpo Hst Hce Haw.
  assert (∀ n c, n ∈ pumped s → lv_cells s !! n = Some c → ∃ c', lv_cells s' !! n = Some c' ∧
    stream_view s' n c' = stream_view s n c) as Hsv.
  { intros n c Hn Hc. specialize (Haw n c Hn Hc). unfold stream_view.
    destruct Hce as [->|(m & x & x' & Hx & -> & Hreq & Hout & Hsame)].
    - exists c. by rewrite Haw.
    - destruct (decide (n = m)) as [->|Hm]; [|exists c; by rewrite list_lookup_insert_ne, Haw].
      exists x'. rewrite list_lookup_insert_eq by (by eapply lookup_lt_Some). split; [done|].
      rewrite Hx in Hc. injection Hc as ->. destruct (Hsame Hn) as (-> & -> & ->).
      unfold announced in *. by rewrite Hout, Haw. }
  assert (queue_of s' = queue_of s ∧ ce_req <$> lv_cells s' = ce_req <$> lv_cells s ∧
    results (lv_cells s') = results (lv_cells s)) as (Hq & Hre & Hres).
  { destruct Hce as [Hce|(m & x & x' & Hx & Hce & Hreq & Hout & _)]; [unfold queue_of; by rewrite Hla, Hce|].
    destruct (queue_insert s s' m x x' Hla Hx Hce Hreq) as [-> ->]. rewrite Hce. split_and!; [done..|].
    by eapply results_insert. }
  split; [|done]. unfold pool_view. rewrite Hq, Hre, Hst, Hpo. f_equal. apply list_fmap_ext. intros j rn Hj.
  apply runner_view_same; [intros n Hn; by eapply holds_cell|]. intros n c Hn Hc.
  assert (∃ c', lv_cells s' !! n = Some c' ∧ ce_req c' = ce_req c) as (c' & Hc' & Hreq).
  { destruct Hce as [->|(m & x & x' & Hx & -> & Hreq & _)]; [by exists c|].
    destruct (decide (n = m)) as [->|Hm]; [|exists c; by rewrite list_lookup_insert_ne].
    exists x'. rewrite list_lookup_insert_eq by (by eapply lookup_lt_Some). split; [done|congruence]. }
  exists c'. split_and!; [done|done|]. intros ->. apply sending_pumped in Hj.
  destruct (Hsv n c Hj Hc) as (c'' & Hc'' & Heq). congruence.
Qed.

(** *** A new request *)

Lemma new_request_views s s' cl req rn :
  live_inv d g target s → lv_cells s' = lv_cells s ++ [new_cell req] → lv_clients s' = cl →
  (∀ n, (n < length (lv_cells s))%nat → awaited cl n = awaited (lv_clients s) n) →
  (∃ j, lv_pool s !! j = Some rn) → runner_view s' rn = runner_view s rn.
Proof.
  intros Hinv Hce Hcl Haw [j Hj]. apply runner_view_same; [intros n Hn; by eapply holds_cell|].
  intros n c _ Hc. exists c. rewrite Hce. split_and!; [by apply lookup_app_l_Some|done|].
  intros _. unfold stream_view. rewrite Hcl, Haw; [done|by eapply lookup_lt_Some].
Qed.

Lemma awaited_new s i r st w n :
  at_stage s i r st → (∀ m, waits m st = false) → (n < length (lv_cells s))%nat →
  awaited (<[i := {| cl_request := r; cl_stage := Pushed (length (lv_cells s)) w |}]> (lv_clients s)) n =
    awaited (lv_clients s) n.
Proof.
  intros Hi Hw Hn. eapply awaited_move; [exact Hi|]. rewrite Hw. simpl. apply bool_decide_eq_false. lia.
Qed.

Lemma push_refines s i r req estimate ls an :
  live_inv d g target s → at_stage s i r (Numbered req estimate) →
  try_push (Priority req) (length (lv_cells s)) (lv_lanes s) = Some ls →
  let s' := move i r (Pushed (length (lv_cells s)) (estimate_header estimate newWriter))
              (set_lanes ls (set_cells (lv_cells s ++ [new_cell req]) s)) in
  pool_step d false (pool_view s an) (pool_view s' an) ∧ results (lv_cells s') = results (lv_cells s).
Proof.
  intros Hinv Hi Hp s'. split; [|apply results_new]. left.
  destruct (li_stages _ _ _ _ Hinv _ _ _ Hi) as [Hreq _]. apply request_object in Hreq.
  pose proof (deref_push _ _ req (queued_in_range d g target s Hinv)) as Hq. rewrite Hp in Hq.
  assert (runner_view s' <$> lv_pool s' = runner_view s <$> lv_pool s) as Hv.
  { apply list_fmap_ext. intros j rn Hj. eapply new_request_views; [exact Hinv|done|done| |by exists j].
    intros n Hn. exact (awaited_new s i r _ _ n Hi (λ _, eq_refl) Hn). }
  unfold pool_view at 2. rewrite Hv. unfold s'. simpl. rewrite fmap_app.
  by apply (a_push (pool_view s an) req).
Qed.

Lemma handoff_refines s i r req estimate j an :
  live_inv d g target s → at_stage s i r (Numbered req estimate) →
  lv_pool s !! j = Some Idle → lane_of (Priority req) (lv_lanes s) = Some [] →
  let s' := move i r (Pushed (length (lv_cells s)) (estimate_header estimate newWriter))
              (put_runner j (Serving (length (lv_cells s))) (set_cells (lv_cells s ++ [new_cell req]) s)) in
  pool_step d false (pool_view s an) (pool_view s' an) ∧ results (lv_cells s') = results (lv_cells s).
Proof.
  intros Hinv Hi Hj Hl s'. split; [|apply results_new]. left.
  destruct (li_stages _ _ _ _ Hinv _ _ _ Hi) as [Hreq _]. apply request_object in Hreq.
  assert (runner_view s' <$> lv_pool s' = <[j := Dispatching req]> (runner_view s <$> lv_pool s)) as Hv.
  { rewrite (views_insert s s' j (Serving (length (lv_cells s)))); [|by eapply lookup_lt_Some|done|].
    - f_equal. simpl. by rewrite list_lookup_middle.
    - intros j' rn Hj' _. eapply new_request_views; [exact Hinv|done|done| |by exists j'].
      intros n Hn. exact (awaited_new s i r _ _ n Hi (λ _, eq_refl) Hn). }
  assert (queue_of s' = queue_of s) as Hq.
  { apply deref_same. intros n Hn. unfold request_at. f_equal. apply lookup_app_l.
    exact (proj1 (Forall_forall _ _) (queued_in_range d g target s Hinv) n Hn). }
  unfold pool_view at 2. rewrite Hv, Hq. unfold s'. simpl. rewrite fmap_app.
  apply (a_handoff (pool_view s an) j req); [simpl; by rewrite list_lookup_fmap, Hj| |done].
  simpl. unfold queue_of. by rewrite lane_deref, Hl.
Qed.

(** *** A stream still being fed, and its handler *)

Lemma pumped_at s n : n ∈ pumped s → ∃ j, lv_pool s !! j = Some (Sending n).
Proof.
  intros ([|m|m|] & Hj & Hm)%list_elem_of_omap; simplify_eq/=. by apply list_elem_of_lookup in Hj.
Qed.

(** The handler of [n] has left or taken something: only the stream of [n] looks different. *)
Lemma stream_views s s' i r st st' j n c c' :
  live_inv d g target s → at_stage s i r st → pointer st = Some n →
  lv_clients s' = <[i := {| cl_request := r; cl_stage := st' |}]> (lv_clients s) →
  (∀ m, m ≠ n → waits m st' = false) →
  lv_pool s' = lv_pool s → lv_pool s !! j = Some (Sending n) → lv_cells s !! n = Some c →
  lv_cells s' = <[n := c']> (lv_cells s) →
  runner_view s' <$> lv_pool s' = <[j := Pumping (stream_view s' n c')]> (runner_view s <$> lv_pool s).
Proof.
  intros Hinv Hi Hp Hcl Hw Hpo Hj Hc Hce.
  rewrite (views_insert s s' j (Sending n)); [|by eapply lookup_lt_Some|by rewrite list_insert_id|].
  - simpl. by rewrite Hce, list_lookup_insert_eq by (by eapply lookup_lt_Some).
  - intros j' rn Hj' Hne. apply runner_view_same; [intros m Hm; by eapply holds_cell|].
    intros m x Hm Hx. assert (m ≠ n) as Hmn by (intros ->; apply Hne; by eapply holds_apart).
    exists x. rewrite Hce, list_lookup_insert_ne by done. split_and!; [done|done|]. intros _.
    unfold stream_view. rewrite Hcl, (awaited_move s i r st); [done|done|].
    rewrite Hw by done. symmetry. apply waits_other. congruence.
Qed.

(** A handler that leaves is the only one that waited. *)
Lemma awaited_gone s i r st n rs :
  live_inv d g target s → at_stage s i r st → pointer st = Some n →
  awaited (<[i := {| cl_request := r; cl_stage := Over (Some n) rs |}]> (lv_clients s)) n = false.
Proof.
  intros Hinv Hi Hp. apply existsb_false. intros j [r' st'] Hj. simpl.
  apply list_lookup_insert_Some in Hj as [(_ & [= _ <-] & _)|[Hji Hj]]; [done|].
  apply waits_other. intros Hp'. apply Hji. by eapply (pointer_unique d g target s i j).
Qed.

Lemma timeout_refines s i r n started w c an :
  live_inv d g target s → at_stage s i r (Waiting n started w) → lv_cells s !! n = Some c →
  let s' := move i r (Over (Some n) (timed_out g (ce_req c) w)) s in
  rtc (pool_step d false) (pool_view s an) (pool_view s' an).
Proof.
  intros Hinv Hi Hc s'. destruct (li_stages _ _ _ _ Hinv _ _ _ Hi) as (x & est & Hx & _ & [_ Htk] & _).
  rewrite Hc in Hx. injection Hx as <-.
  assert (awaited (lv_clients s') n = false) as Hgone by by eapply awaited_gone.
  assert (awaited (lv_clients s) n = true) as Hhere
    by (eapply awaited_here; [exact Hi|by apply bool_decide_eq_true]).
  destruct (decide (n ∈ pumped s ∧ announced c = true)) as [[Hn Ha]|Hno].
  - destruct (pumped_at _ _ Hn) as [j Hj]. apply rtc_once. right.
    assert (runner_view s' <$> lv_pool s' =
      <[j := Pumping (leave (stream_view s n c))]> (runner_view s <$> lv_pool s)) as Hv.
    { rewrite (stream_views s s' i r _ (Over (Some n) (timed_out g (ce_req c) w)) j n c c Hinv Hi); try done.
      - do 2 f_equal. unfold stream_view, leave. by rewrite Hgone, andb_false_r.
      - by rewrite list_insert_id. }
    unfold pool_view at 2. rewrite Hv. apply (w_leave d false (pool_view s an) j (stream_view s n c)); simpl.
    + done.
    + by rewrite list_lookup_fmap, Hj; simpl; rewrite Hc.
    + by rewrite Ha, Hhere.
    + done.
  - destruct (view_silent s s' an Hinv) as [-> _]; try done; [by left|].
    intros m x Hm Hx. destruct (decide (m = n)) as [->|Hmn].
    + rewrite Hc in Hx. injection Hx as <-. destruct (announced c); [|done]. by destruct Hno.
    + f_equal. eapply awaited_move; [exact Hi|]. simpl. symmetry. apply bool_decide_eq_false. congruence.
Qed.

Lemma chunk_refines s i r n ok w c chunk rest an :
  live_inv d g target s → at_stage s i r (Relaying n ok w) → lv_cells s !! n = Some c →
  ce_chunks c = chunk :: rest →
  let s' := move i r (Relaying n ok (Write chunk w)) (put_cell n (take_chunk chunk rest c) s) in
  rtc (pool_step d false) (pool_view s an) (pool_view s' an).
Proof.
  intros Hinv Hi Hc Hch s'. destruct (li_stages _ _ _ _ Hinv _ _ _ Hi) as (x & o & est & at_ & Hx & _ & Ho & Hs & _).
  rewrite Hc in Hx. injection Hx as <-.
  assert (∀ m, awaited (lv_clients s') m = awaited (lv_clients s) m) as Haw
    by (intros m; by eapply (awaited_move s i r)).
  destruct (decide (n ∈ pumped s)) as [Hn|Hn].
  - destruct (pumped_at _ _ Hn) as [j Hj]. apply rtc_once. right.
    assert (runner_view s' <$> lv_pool s' =
      <[j := Pumping (stream_view s' n (take_chunk chunk rest c))]> (runner_view s <$> lv_pool s)) as Hv.
    { eapply stream_views; try done. intros m Hm. simpl. apply bool_decide_eq_false. congruence. }
    destruct (queue_insert s s' n c (take_chunk chunk rest c) eq_refl Hc eq_refl eq_refl) as [Hq Hre].
    unfold pool_view at 2. rewrite Hv, Hq, Hre.
    apply (w_chunk d false (pool_view s an) j (stream_view s n c)).
    + simpl. by rewrite list_lookup_fmap, Hj; simpl; rewrite Hc.
    + unfold stream_view at 2. rewrite Haw. simpl.
      assert (announced c = true) as Ha by (unfold announced; by rewrite Ho).
      change (announced (take_chunk chunk rest c)) with (announced c). rewrite Ha.
      assert (awaited (lv_clients s) n = true) as Hw
        by (eapply awaited_here; [exact Hi|by apply bool_decide_eq_true]). rewrite Hw.
      apply (st_receive (stream_view s n c) chunk rest); [unfold stream_view; simpl; by rewrite Ha, Hw|done].
  - destruct (view_silent s s' an Hinv) as [-> _]; try done.
    + right. exists n, c, (take_chunk chunk rest c). by split_and!.
    + intros m x _ _. by rewrite Haw.
Qed.

(** *** The other steps of a handler *)

(** A handler that moves on, with its request's cell at most emptied of its result. *)
Lemma moved_refines s s' i r st st' an :
  live_inv d g target s → at_stage s i r st →
  lv_clients s' = <[i := {| cl_request := r; cl_stage := st' |}]> (lv_clients s) →
  (∀ n c, n ∈ pumped s → lv_cells s !! n = Some c → announced c = true → waits n st' = waits n st) →
  lv_lanes s' = lv_lanes s → lv_pool s' = lv_pool s → lv_stopping s' = lv_stopping s →
  (lv_cells s' = lv_cells s ∨
   ∃ n c, lv_cells s !! n = Some c ∧ lv_cells s' = <[n := take_result c]> (lv_cells s)) →
  rtc (pool_step d false) (pool_view s an) (pool_view s' an) ∧ results (lv_cells s') = results (lv_cells s).
Proof.
  intros Hinv Hi Hcl Hw Hla Hpo Hst Hce. destruct (view_silent s s' an Hinv) as [-> ->]; try done.
  - destruct Hce as [->|(n & c & Hc & ->)]; [by left|right]. by exists n, c, (take_result c).
  - intros n c Hn Hc. destruct (announced c) eqn:Ha; [|done]. simpl. rewrite Hcl.
    eapply awaited_move; [exact Hi|]. by eapply Hw.
Qed.

Lemma handle_refines s i r s' an :
  live_inv d g target s → handle g target fused s i r s' →
  rtc (pool_step d false) (pool_view s an) (pool_view s' an) ∧ results (lv_cells s') = results (lv_cells s).
Proof.
  intros Hinv Hs. destruct Hs as [l st Hi Hg|fm Hi|fm ahead Hi|fm estimate count Hi Hcount|req estimate ls Hi Hp
    |req estimate j Hi Hj Hl|req estimate Hi Hp|n w Hi|n t0 w c result Hi Hn Hr|n t0 w c Hi Hn Hto
    |n result at_ w c tr w' Hi Hn Hsa|n ok w c chunk rest Hi Hn Hch|n ok w c Hi Hn Hch Hcl].
  - eapply moved_refines; try done; [|by left]. intros n c _ _ _.
    by destruct (gate_ok _ _ _ _ _ _ _ Hg) as [[rs ->]|(fm & -> & _)].
  - eapply moved_refines; try done; [|by left]. intros n c _ _ _. unfold look_ahead. by destruct (with_slo g).
  - eapply moved_refines; try done; [|by left]. intros n c _ _ _.
    by destruct (admission_ok g target (lv_tracker s) fm ahead) as [[rs ->]|[est ->]].
  - eapply moved_refines; try done. by left.
  - destruct (push_refines s i r req estimate ls an Hinv Hi Hp) as [Hst Hres]. split; [by apply rtc_once|exact Hres].
  - destruct (handoff_refines s i r req estimate j an Hinv Hi Hj Hl) as [Hst Hres]. split; [by apply rtc_once|exact Hres].
  - eapply moved_refines; try done. by left.
  - eapply moved_refines; try done. by left.
  - eapply moved_refines; try done. right. by exists n, c.
  - split; [by eapply timeout_refines|done].
  - eapply moved_refines; try done; [|by left]. intros m x _ Hx Ha. unfold delivered.
    destruct (li_stages _ _ _ _ Hinv _ _ _ Hi) as (y & o & est & Hy & _ & Ho & -> & _).
    rewrite Hn in Hy. injection Hy as <-. simpl. destruct (decide (m = n)) as [->|Hmn].
    + rewrite Hn in Hx. injection Hx as <-. unfold announced in Ha. rewrite Ho in Ha. rewrite Ha.
      destruct (Forall_lookup_1 _ _ _ _ (li_cells _ _ _ _ Hinv) Hn) as [Hob Hc]. rewrite Ho in Hc.
      destruct Hc as [Hp _]. by destruct (produced_stream _ _ _ Hob Hp Ha) as [_ ->].
    + rewrite bool_decide_eq_false_2 by congruence.
      destruct (Err (so_result o)); [done|]. destruct (Streaming (so_result o)); [|done].
      simpl. apply bool_decide_eq_false. congruence.
  - split; [by eapply chunk_refines|]. by eapply results_insert.
  - eapply moved_refines; try done; [|by left]. intros m x Hm Hx _. simpl.
    symmetry. apply bool_decide_eq_false. intros ->. rewrite Hn in Hx. injection Hx as <-.
    destruct (sending_cell _ _ Hinv Hm) as (y & Hy & _ & _ & Hopen). congruence.
Qed.

(** *** The steps of a dispatcher *)

(** Only the dispatcher's own request, and only its own part of the view, changes. *)
Lemma runner_views s s' j rn rn0 :
  live_inv d g target s → lv_pool s !! j = Some rn0 → lv_pool s' = <[j := rn]> (lv_pool s) →
  lv_clients s' = lv_clients s →
  (lv_cells s' = lv_cells s ∨
   ∃ n c', holds rn0 = Some n ∧ lv_cells s' = <[n := c']> (lv_cells s)) →
  runner_view s' <$> lv_pool s' = <[j := runner_view s' rn]> (runner_view s <$> lv_pool s).
Proof.
  intros Hinv Hj Hpo Hcl Hce. apply views_insert; [by eapply lookup_lt_Some|done|].
  intros j' rn' Hj' Hne. apply runner_view_same; [intros n Hn; by eapply holds_cell|].
  intros n c Hn Hc. exists c. split_and!; [|done|intros _; unfold stream_view; by rewrite Hcl].
  destruct Hce as [->|(m & c' & Hm & ->)]; [done|]. rewrite list_lookup_insert_ne; [done|].
  intros ->. apply Hne. by eapply (holds_apart s j j' rn0 rn').
Qed.

Lemma commit_cell_view s n c :
  live_inv d g target s → lv_cells s !! n = Some c → ce_out c = None →
  ce_chunks c = [] ∧ ce_taken c = [].
Proof.
  intros Hinv Hc Ho. destruct (Forall_lookup_1 _ _ _ _ (li_cells _ _ _ _ Hinv) Hc) as [_ Hok].
  rewrite Ho in Hok. tauto.
Qed.

Lemma stream_refines s j n c ask calls out an :
  live_inv d g target s → lv_pool s !! j = Some (Serving n) → lv_cells s !! n = Some c → Stream (ce_req c) = true →
  dispatchStream d ask (ce_req c) = (calls, Ok out) → an ≡ₚ results (lv_cells s) →
  let s' := put_runner j (Sending n) (put_cell n (commit_cell out c) s) in
  ∃ an', an' ≡ₚ results (lv_cells s') ∧ rtc (pool_step d false) (pool_view s an) (pool_view s' an').
Proof.
  intros Hinv Hj Hn Hs Hd Han s'.
  assert (goroutines (pool_view s an) !! j = Some (Dispatching (ce_req c))) as Hg by (simpl; rewrite list_lookup_fmap, Hj; simpl; by rewrite Hn).
  destruct (queue_insert s s' n c _ eq_refl Hn eq_refl eq_refl) as [Hq Hre].
  destruct (serving_cell _ _ _ Hinv Hj) as (x & Hx & Ho). rewrite Hn in Hx. injection Hx as <-.
  destruct (commit_cell_view _ _ _ Hinv Hn Ho) as [Hch Htk].
  set (reader := Streaming (so_result out) && awaited (lv_clients s) n).
  assert (runner_view s' <$> lv_pool s' =
    <[j := Pumping (stream_start (so_chunks out) reader)]> (runner_view s <$> lv_pool s)) as Hv.
  { rewrite (runner_views s s' j (Sending n) (Serving n)) by (done || right; by eexists _, _).
    f_equal. simpl. rewrite list_lookup_insert_eq by (by eapply lookup_lt_Some). simpl.
    unfold stream_view, stream_start. simpl. by rewrite Hch, Htk. }
  exists (an ++ [(ce_req c, so_result out)]). split.
  { unfold s'. simpl. rewrite (results_commit _ _ _ _ Hn Ho), Han. solve_Permutation. }
  apply rtc_once. right. unfold pool_view at 2. rewrite Hv, Hq, Hre.
  apply (w_stream d false (pool_view s an) j (ce_req c) ask calls out reader); try done.
  by intros [? _]%andb_true_iff.
Qed.

Lemma close_refines s j n c an :
  live_inv d g target s → lv_pool s !! j = Some (Sending n) → lv_cells s !! n = Some c → ce_body c = [] →
  an ≡ₚ results (lv_cells s) →
  let s' := put_runner j Idle (put_cell n (close_chunks c) s) in
  ∃ an', an' ≡ₚ results (lv_cells s') ∧ rtc (pool_step d false) (pool_view s an) (pool_view s' an').
Proof.
  intros Hinv Hj Hn Hb Han s'.
  assert (goroutines (pool_view s an) !! j = Some (Pumping (stream_view s n c))) as Hg by (simpl; rewrite list_lookup_fmap, Hj; simpl; by rewrite Hn).
  destruct (queue_insert s s' n c _ eq_refl Hn eq_refl eq_refl) as [Hq Hre].
  assert (runner_view s' <$> lv_pool s' = <[j := Popping]> (runner_view s <$> lv_pool s)) as Hv
    by (rewrite (runner_views s s' j Idle (Sending n)) by (done || right; by eexists _, _); done).
  exists an. split; [unfold s'; simpl; by rewrite (results_insert _ _ c)|].
  eapply rtc_l; [right; eapply (w_chunk d false (pool_view s an) j (stream_view s n c)); [exact Hg|]|].
  { by apply (st_close (stream_view s n c)). }
  assert (pool_view s' an = set_goroutine j Popping (queue_of s) (pool_view s an)) as ->
    by (unfold pool_view at 1; by rewrite Hv, Hq, Hre).
  apply rtc_once. right. set (fed := Pumping _).
  assert (set_goroutine j Popping (queue_of s) (pool_view s an) =
    set_goroutine j Popping (queue_of s) (set_goroutine j fed (queue_of s) (pool_view s an))) as ->
    by (unfold set_goroutine; simpl; by rewrite list_insert_insert_eq).
  eapply (w_next d false (set_goroutine j fed (queue_of s) (pool_view s an)) j);
    [simpl; apply list_lookup_insert_eq; rewrite length_fmap; by eapply lookup_lt_Some|reflexivity].
Qed.

Lemma run_pool_refines s j ask s' an :
  live_inv d g target s → run_pool d s j ask s' → an ≡ₚ results (lv_cells s) →
  ∃ an', an' ≡ₚ results (lv_cells s') ∧ rtc (pool_step d false) (pool_view s an) (pool_view s' an').
Proof.
  intros Hinv Hs Han. destruct Hs as [p n l Hj Hl|Hj Hst|n c calls result Hj Hn Hs Hd Hr|n c calls out Hj Hn Hs Hd Hr
    |n c chunk rest Hj Hn Hb Hlen|n c Hj Hn Hb];
    match goal with |- context [results (lv_cells ?t)] => set (s' := t) end;
    assert (goroutines (pool_view s an) !! j = runner_view s <$> lv_pool s !! j) as Hg by apply list_lookup_fmap;
    rewrite Hj in Hg; simpl in Hg; rewrite ?Hn in Hg; simpl in Hg.
  - assert (∃ c, lv_cells s !! n = Some c) as [c Hc].
    { destruct (li_pending _ _ _ _ Hinv) as [_ Hin]. destruct (proj1 (Hin n)) as (c & Hc & _); [|by exists c].
      apply elem_of_app. left. rewrite (pop_queued _ _ _ _ Hl). by left. }
    assert (runner_view s' <$> lv_pool s' = <[j := Dispatching (ce_req c)]> (runner_view s <$> lv_pool s)) as Hv.
    { rewrite (runner_views s s' j (Serving n) Idle) by (done || by left). simpl. by rewrite Hc. }
    exists an. split; [done|]. apply rtc_once. right. unfold pool_view at 2. rewrite Hv.
    apply (w_pop d false (pool_view s an) j p); [exact Hg|]. by eapply deref_pop.
  - assert (runner_view s' <$> lv_pool s' = <[j := Stopped]> (runner_view s <$> lv_pool s)) as Hv
      by (rewrite (runner_views s s' j Returned Idle) by (done || by left); done).
    exists an. split; [done|]. apply rtc_once. right. unfold pool_view at 2. rewrite Hv.
    by apply (w_stop d false (pool_view s an) j).
  - destruct (queue_insert s s' n c _ eq_refl Hn eq_refl eq_refl) as [Hq Hre].
    assert (runner_view s' <$> lv_pool s' = <[j := Popping]> (runner_view s <$> lv_pool s)) as Hv
      by (rewrite (runner_views s s' j Idle (Serving n)) by (done || right; by eexists _, _); done).
    destruct (serving_cell _ _ _ Hinv Hj) as (x & Hx & Ho). rewrite Hn in Hx. injection Hx as <-.
    exists (an ++ [(ce_req c, result)]). split.
    { unfold s'. simpl. rewrite (results_commit _ _ _ _ Hn Ho), Han. solve_Permutation. }
    apply rtc_once. right. unfold pool_view at 2. rewrite Hv, Hq, Hre.
    by apply (w_buffered d false (pool_view s an) j (ce_req c) ask calls).
  - by eapply stream_refines.
  - destruct (queue_insert s s' n c _ eq_refl Hn eq_refl eq_refl) as [Hq Hre].
    assert (runner_view s' <$> lv_pool s' =
      <[j := Pumping (stream_view s' n (send_chunk chunk rest c))]> (runner_view s <$> lv_pool s)) as Hv.
    { rewrite (runner_views s s' j (Sending n) (Sending n));
        [|done..|unfold s'; simpl; by rewrite list_insert_id|done|right; by eexists _, _].
      f_equal. simpl. by rewrite list_lookup_insert_eq by (by eapply lookup_lt_Some). }
    exists an. split; [unfold s'; simpl; by rewrite (results_insert _ _ c)|].
    apply rtc_once. right. unfold pool_view at 2. rewrite Hv, Hq, Hre.
    apply (w_chunk d false (pool_view s an) j (stream_view s n c)); [exact Hg|].
    by apply (st_send (stream_view s n c)).
  - by eapply close_refines.
Qed.

Lemma outside_refines s s' an :
  outside s s' → pool_view s' an = pool_view s an ∨ pool_step d false (pool_view s an) (pool_view s' an).
Proof.
  intros [r|t Ht|].
  - left. unfold pool_view. f_equal. apply list_fmap_ext. intros j rn _.
    destruct rn as [|n|n|]; try done. simpl. destruct (lv_cells s !! n) as [c|]; [|done]. simpl.
    unfold stream_view. simpl. unfold awaited. rewrite existsb_app. simpl. by rewrite !orb_false_r.
  - by left.
  - right. left. exact (a_cancel (pool_view s an)).
Qed.

Lemma live_step_refines s s' an :
  live_inv d g target s → live_step d g target fused s s' → an ≡ₚ results (lv_cells s) →
  ∃ an', an' ≡ₚ results (lv_cells s') ∧ rtc (pool_step d false) (pool_view s an) (pool_view s' an').
Proof.
  intros Hinv [Ho|[(i & r & Hh)|(j & ask & Hp)]] Han.
  - exists an. split; [by destruct Ho|]. destruct (outside_refines s s' an Ho) as [->|Hs]; [done|by apply rtc_once].
  - destruct (handle_refines s i r s' an Hinv Hh) as [Hr Hres]. exists an. by rewrite Hres.
  - by eapply run_pool_refines.
Qed.

(** C18: The running request plane implements the pool: whatever its handlers, dispatchers,
    clients and clock do, the pool's own steps - with gateways that may give up - lead from the
    pool of the same size on an empty queue to what Live looks like as a pool: the same
    requests in the same order in the same lanes, each dispatcher at the same request or in
    the middle of the same stream, the same requests accepted in the same order, and the
    results of exactly the requests that have one. *)
Theorem live_refines_pool c t0 tr s :
  live_reachable d g target fused c t0 tr s →
  ∃ an, an ≡ₚ results (lv_cells s) ∧ rtc (pool_step d false) (started d c) (pool_view s an).
Proof.
  intros Hr. apply (invariant_rtc (live_step d g target fused) (λ x, live_inv d g target x ∧
    ∃ an, an ≡ₚ results (lv_cells x) ∧ rtc (pool_step d false) (started d c) (pool_view x an))) in Hr;
    [by destruct Hr| |].
  - intros s1 s2 Hs (Hinv & an & Han & Hst). split; [by eapply live_step_inv|].
    destruct (live_step_refines s1 s2 an Hinv Hs Han) as (an' & Han' & Hst').
    exists an'. split; [done|]. by etrans.
  - split; [apply live_start_inv|]. exists []. split; [done|].
    assert (pool_view (live_start d c t0 tr) [] = started d c) as ->; [|done].
    unfold pool_view, started, Run, live_start. simpl. f_equal. apply fmap_replicate.
Qed.

End refinement.

(** ** The theorem at work *)

Lemma live_refines_pool_witness :
  ∃ an, an.*2 = [answer_result 200 "{}" "llama3"] ∧
    rtc (@pool_step demo_error (λ s, s) demo_dispatcher false) (started demo_dispatcher 2) (pool_view (demo_after 11) an).
Proof.
  destruct (@live_refines_pool demo_error (λ s, s) demo_dispatcher demo_server (portable NoFusing) false 2 0 _ _
    (demo_after_reachable 11)) as (an & Han & Hr).
  exists an. split; [|exact Hr]. apply Permutation_singleton_r. rewrite Han. vm_compute. reflexivity.
Defined.
