(* ===== verification/TwoPlanes.v ===== *)
(** * The two planes side by side

    The running request plane of Live next to the running router of RouterLive and, behind it,
    the running registry: a dispatcher's call is a request that arrives at the router, and
    what the dispatcher's client sees is the response of the handler that served it, or a
    failed or broken connection.  On the invariant of both planes: every answer a client gets
    but for 502, 503 and 504 is one worker's own, a worker that was in service for the model
    then. *)

From S2P Require Import Prelude GoFloat GoStrings Proto GoTimer GoHttp GoJson GoText GoUnmarshal Registry RegistryProps Router RouterProps RouterLive RouterRuns Queue Slo Auth Dispatcher Gateway Config Bodies EndToEnd RequestServer Live LiveInv LiveRun LiveProps.
Open Scope Z_scope.
#[local] Arguments transient {R}.
#[local] Arguments report {R}.
#[local] Arguments commit {R}.
#[local] Arguments exhausted {R}.

(** ** Whose answer a result reports *)

Section answers.
Context `{JsonError} `{FmtQuote} `{MapRange} (d : Dispatcher).

Lemma forwarded_in req body e ts :
  e ∈ ts → EvForward (forwarded req body e) ∈ concat (attempt_events req body <$> ts).
Proof.
  induction 1 as [e ts|e v ts _ IH]; simpl; [right; by left|]. do 3 right. exact IH.
Qed.

(** A call that the router's handler answers with a status of neither 502 nor 503 was sent to a
    worker in service for its model, and the answer is that worker's. *)
Lemma run_answered T timeout s env hook i body model evs w :
  reachable T timeout s → decode_model body = Some model → model ≠ "" →
  Router.ServeHTTP env hook i (reg s) (received d (buildRequest (upstream d) body)) newWriter = (evs, Finished w) →
  no_worker (default StatusOK (Written w)) = false →
  ∃ j e ctype br, e ∈ HealthyWorkersForModel i model (reg s) ∧
    EvForward (forwarded (received d (buildRequest (upstream d) body)) body e) ∈ evs ∧
    answer env (received d (buildRequest (upstream d) body)) body j e =
      Responded (default StatusOK (Written w)) ctype (RespBody w) br.
Proof.
  intros Hr Hm Hne Hrun Hst. unfold Router.ServeHTTP in Hrun.
  rewrite received_path, decide_True in Hrun by (by left).
  destruct (decide (HealthyWorkersForModel i model (reg s) = [])) as [Hw|Hw].
  { unfold Router.handleInference in Hrun. rewrite decide_False in Hrun by (intros Hn; by apply Hn).
    cbn [received ReqBody buildRequest call_body] in Hrun. rewrite Hm in Hrun.
    destruct model as [|a model]; [done|]. rewrite decide_True in Hrun by done.
    injection Hrun as _ <-. discriminate Hst. }
  assert (routed i (reg s) (received d (buildRequest (upstream d) body)) model body) as Hrt by done.
  destruct (routed_outcome _ _ _ _ _ _ _ _ _ _ _ _ Hr Hrt Hrun) as (ts & _ & Hin & Hout).
  inversion Hout as [ts' _ _ Ht He Hfl|ts' e st ct bs br _ _ Ha _ Ht He Hfl| |]; subst; [discriminate Hst|].
  exists (1 + length ts')%nat, e, ct, br. split_and!; [apply Hin, elem_of_app; right; by left| |exact Ha].
  apply elem_of_app. left. apply forwarded_in, elem_of_app. right. by left.
Qed.

(** What a walk leaves when no answer was decisive reports one that was not. *)
Lemma left_over_transient {R} (v : Reading R) ask sends final :
  sends ≠ [] → undecided d ask v 0 sends (length sends) →
  ∃ n s, transient v (ask n (send_call d s)) = true ∧
    left_over d ask v (map (uncurry Send) sends) 0 final = report v (ask n (send_call d s)) s.1.
Proof.
  intros Hne Hu. destruct (list.last sends) as [[m b]|] eqn:Hl; [|by apply last_None in Hl].
  exists (pred (length sends)), (m, b). split.
  - rewrite last_lookup in Hl. apply (Hu (pred (length sends))); [|done].
    apply lookup_lt_Some in Hl. lia.
  - unfold left_over. rewrite sends_of_plan. change (map (uncurry Send) sends) with (uncurry Send <$> sends).
    by rewrite fmap_last, Hl.
Qed.

(** The bytes a result brings to the client. *)
Definition content (out : StreamOut) : string :=
  if Streaming (so_result out) then read_all (so_chunks out) else ResBody (so_result out).

(** A result that is no error and has a status of neither 502 nor 503 is the upstream's answer
    to a call for a model of the chain. *)
Lemma made_answered ask req out :
  accepted req → 0 < maxAttempts d → made d ask req out →
  Err (so_result out) = None → no_worker (StatusCode (so_result out)) = false →
  ∃ n model ctype pieces broken, model ∈ chain_of d req ∧
    ask n (buildRequest (upstream d) (body_for req model)) =
      Answer (StatusCode (so_result out)) ctype pieces broken ∧
    ServedModel (so_result out) = model ∧ content out = read_all pieces ∧ (Stream req = false → broken = None).
Proof.
  intros Ha Hmax Hm Herr Hst.
  assert (all_sends d req (chain_of d req) ≠ []) as Hne.
  { intros Hnil. pose proof (all_sends_length d req (chain_of d req)) as Hlen. rewrite Hnil in Hlen.
    unfold chain_of in Hlen. simpl in Hlen. lia. }
  unfold made in Hm. destruct (Stream req).
  - destruct Hm as [calls Hd]. rewrite dispatchStream_walk in Hd by done.
    pose proof (walk_spec d ask streaming (map (uncurry Send) (all_sends d req (chain_of d req))) 0 no_result) as Hw.
    destruct (walk _ _ _ _ _ _) as [calls' r]. injection Hd as _ ->. rewrite sends_of_plan in Hw.
    destruct Hw as [(n & s & Hn & _ & Htr & Hr & _)|(Hu & Hr & _)].
    + apply all_sends_lookup in Hn as (model & Hin & ->). unfold send_call in *. cbn [snd fst] in *.
      simpl in Htr, Hr. destruct (ask n _) as [err|err|st ct ps br] eqn:Hask; try discriminate Htr.
      subst out. exists n, model, ct, ps, br. split_and!; [done|done|done|apply read_streamBody|done].
    + destruct (left_over_transient streaming ask _ no_result Hne Hu) as (n & s & Htr & Hlo).
      rewrite Hlo in Hr. subst out. simpl in *. destruct (ask n _) as [err|err|st ct ps br]; try done. simpl in *. congruence.
  - destruct Hm as [Hch [calls Hd]]. rewrite dispatchBuffered_walk in Hd by done.
    pose proof (walk_spec d ask buffered (map (uncurry Send) (all_sends d req (chain_of d req))) 0 no_result) as Hw.
    destruct (walk _ _ _ _ _ _) as [calls' r]. injection Hd as _ ->. rewrite sends_of_plan in Hw.
    destruct Hw as [(n & s & Hn & _ & Htr & Hr & _)|(Hu & Hr & _)].
    + apply all_sends_lookup in Hn as (model & Hin & ->). unfold send_call in *. cbn [snd fst] in *.
      unfold content. rewrite Hr in *. simpl in *.
      destruct (ask n _) as [err|err|st ct ps [err|]] eqn:Hask; try done. by exists n, model, ct, ps, None.
    + destruct (left_over_transient buffered ask _ no_result Hne Hu) as (n & s & Htr & Hlo).
      rewrite Hlo in Hr. rewrite Hr in *. simpl in *. destruct (ask n _) as [err|err|st ct ps [err|]]; try done.
      simpl in *. congruence.
Qed.

End answers.

(** ** The response *)

Lemma fresh_estimate estimate :
  let w := estimate_header estimate newWriter in Written w = None ∧ RespBody w = "".
Proof. by destruct estimate. Qed.

Section response.
Context (g : Gateway) (target : Target).

(** What a client reads of the response for a result. *)
Record shows (req : Queue.Request) (out : StreamOut) (rs : Response) : Prop := {
  sh_status : Written (rs_writer rs) = Some (StatusCode (so_result out));
  sh_body : RespBody (rs_writer rs) = content out;
  sh_model : ServedModel (so_result out) ≠ "" →
    Get (RespHeader (rs_writer rs)) "X-Served-Model" = ServedModel (so_result out);
  sh_calls : rs_calls rs = if with_hook g then [(ReqModel req, is_success (StatusCode (so_result out)))] else [];
}.

Lemma answered_shows req estimate out at_ rs :
  answered_with g target req (estimate_header estimate newWriter) out at_ rs →
  match Err (so_result out) with
  | Some _ => Written (rs_writer rs) = Some StatusBadGateway
  | None => shows req out rs
  end.
Proof.
  intros Ha. destruct (fresh_estimate estimate) as [Hw Hb].
  rewrite (Ha {| idCounter := 0; sh_queue := {| high := []; normal := []; low := []; capacity := 0 |};
                 sh_limiter := NewRateLimiter; sh_tracker := NewLatencyTracker 0 |}).
  destruct (Err (so_result out)) as [err|] eqn:He.
  - by eapply await_refused.
  - edestruct (await_shows g target req (so_result out) at_ (so_chunks out)) as (H1 & H2 & H3 & H4 & H5); [done..|].
    split; [exact H1|exact H2|exact H3|]. simpl. by rewrite H4, H5.
Qed.

End response.

(** ** The system *)

Section planes.
Context `{JsonError} `{FmtQuote} `{MapRange}.
Context (d : Dispatcher) (g : Gateway) (target : Target) (fused : bool) (hook : bool) (T : Timing).

(** [pl_past]: the registry after each step of the control plane so far, the present one
    last.  [pl_marks]: for each request, which of them was the present one when it was queued;
    [pl_arrivals]: the same for each handler of the router, [None] for those that were there
    from the beginning. *)
Record Planes := {
  pl_live : Live;
  pl_router : RouterSys;
  pl_past : list Registry;
  pl_marks : list nat;
  pl_arrivals : list (option nat);
}.

Definition pl_fleet (p : Planes) : Sys := rs_fleet (pl_router p).

Definition now_at (p : Planes) : nat := pred (length (pl_past p)).

(** Requests that [l] holds beyond those of [p] are marked with the present. *)
Definition go_on (l : Live) (p : Planes) : Planes :=
  {| pl_live := l; pl_router := pl_router p; pl_past := pl_past p;
     pl_marks := pl_marks p ++ replicate (length (lv_cells l) - length (pl_marks p)) (now_at p);
     pl_arrivals := pl_arrivals p |}.

Definition route_on (s : RouterSys) (p : Planes) : Planes :=
  {| pl_live := pl_live p; pl_router := s; pl_past := pl_past p ++ [reg (rs_fleet s)]; pl_marks := pl_marks p;
     pl_arrivals := pl_arrivals p ++ replicate (length (rs_handlers s) - length (pl_arrivals p)) (Some (now_at p)) |}.

(** What the dispatcher's client may see of the router's response: the status, the content type
    and the body in any pieces, or a beginning of it when the connection breaks. *)
Definition arrives_as (w : Writer) (u : Upstream) : Prop :=
  match u with
  | Answer status ctype pieces broken =>
    status = default StatusOK (Written w) ∧ ctype = Get (RespHeader w) "Content-Type" ∧
    match broken with
    | None => read_all pieces = RespBody w
    | Some _ => ∃ rest, RespBody w = read_all pieces +:+ rest
    end
  | _ => True
  end.

(** Handler [h] of the router served a call that was made since the request [n] was queued. *)
Definition serves_since (p : Planes) (n m : nat) (h : Handler) : Prop :=
  ∃ mark arrival, pl_marks p !! n = Some mark ∧ pl_arrivals p !! m = Some (Some arrival) ∧ (mark ≤ arrival)%nat ∧
    rs_handlers (pl_router p) !! m = Some h.

(** The calls made for the request [n] are answered by handlers of the router that have ended;
    any of them may fail to connect or lose its connection. *)
Definition backed (p : Planes) (n : nat) (ask : nat → Call → Upstream) : Prop :=
  ∀ k c, match ask k c with
    | Answer status ctype pieces broken =>
      ∃ m h w, serves_since p n m h ∧ h_req h = received d c ∧ h_stage h = RouterLive.Ended w ∧
        arrives_as w (ask k c)
    | _ => True
    end.

(** The control plane moves - a request arrives at the router, from a dispatcher or anybody
    else, a handler of the router goes on, or the registry does - or the request plane does. *)
Inductive planes_step (p : Planes) : Planes → Prop :=
  | pl_control s : router_step hook T (pl_router p) s → planes_step p (route_on s p)
  | pl_outside l : outside (pl_live p) l → planes_step p (go_on l p)
  | pl_handle i r l : handle g target fused (pl_live p) i r l → planes_step p (go_on l p)
  | pl_pool j ask l :
      (∀ n, lv_pool (pl_live p) !! j = Some (Serving n) → backed p n ask) →
      run_pool d (pl_live p) j ask l → planes_step p (go_on l p).

(** The request plane is started at any time in the life of the control plane. *)
Definition planes_start (l : Live) (s : RouterSys) : Planes :=
  {| pl_live := l; pl_router := s; pl_past := [reg (rs_fleet s)]; pl_marks := [];
     pl_arrivals := replicate (length (rs_handlers s)) None |}.

Definition planes_reachable (timeout : Z) (c : nat) (t0 : Z) (tr : LatencyTracker) (p : Planes) : Prop :=
  ∃ s, router_reachable hook T timeout s ∧ rtc planes_step (planes_start (live_start d c t0 tr) s) p.

(** *** Results stay what they are *)

(** The results among [cells'] are results among [cells] already. *)
Definition no_new_result (cells cells' : list Cell) : Prop :=
  ∀ n c' o, cells' !! n = Some c' → ce_out c' = Some o →
    ∃ c, cells !! n = Some c ∧ ce_req c = ce_req c' ∧ ce_out c = Some o.

Lemma no_new_result_refl cells : no_new_result cells cells.
Proof. intros n c o Hn Ho. by exists c. Qed.

Lemma no_new_result_insert cells n c c' :
  cells !! n = Some c → ce_req c' = ce_req c → ce_out c' = ce_out c → no_new_result cells (<[n := c']> cells).
Proof.
  intros Hn Hreq Hout m x o Hx Ho. apply list_lookup_insert_Some in Hx as [(-> & <- & _)|[_ Hx]]; [|by exists x].
  exists c. split_and!; congruence.
Qed.

Lemma no_new_result_new cells req : no_new_result cells (cells ++ [new_cell req]).
Proof.
  intros n c o Hn Ho. apply lookup_app_Some in Hn as [Hn|[_ Hn]]; [by exists c|].
  by apply list_lookup_singleton_Some in Hn as [_ <-].
Qed.

Lemma handle_results s i r s' :
  handle g target fused s i r s' →
  no_new_result (lv_cells s) (lv_cells s') ∧ (length (lv_cells s) ≤ length (lv_cells s'))%nat.
Proof.
  intros Hs. destruct Hs; cbn [lv_cells move put_cell put_runner set_clients set_cells set_pool set_lanes set_front];
    rewrite ?length_app, ?length_insert; (split; [|simpl; lia]);
    first [apply no_new_result_refl|apply no_new_result_new|by eapply no_new_result_insert].
Qed.

Lemma outside_cells s s' : outside s s' → lv_cells s' = lv_cells s.
Proof. by intros []. Qed.

(** A dispatcher's step brings no result, or the one it made of the request it serves. *)
Lemma run_pool_results s j ask s' :
  run_pool d s j ask s' →
  length (lv_cells s') = length (lv_cells s) ∧
  ∀ n c' o, lv_cells s' !! n = Some c' → ce_out c' = Some o →
    (∃ c, lv_cells s !! n = Some c ∧ ce_req c = ce_req c' ∧ ce_out c = Some o) ∨
    (lv_pool s !! j = Some (Serving n) ∧ made d ask (ce_req c') o).
Proof.
  assert (∀ n c out, lv_pool s !! j = Some (Serving n) → lv_cells s !! n = Some c → made d ask (ce_req c) out →
    ∀ m c' o, <[n := commit_cell out c]> (lv_cells s) !! m = Some c' → ce_out c' = Some o →
      (∃ x, lv_cells s !! m = Some x ∧ ce_req x = ce_req c' ∧ ce_out x = Some o) ∨
      (lv_pool s !! j = Some (Serving m) ∧ made d ask (ce_req c') o)) as Hcommit.
  { intros n c out Hj Hn Hm m c' o Hc Ho. apply list_lookup_insert_Some in Hc as [(-> & <- & _)|[_ Hx]];
      [right|left; by exists c']. simpl in Ho. injection Ho as <-. by split. }
  intros Hs. destruct Hs as [p n l Hj Hl|Hj Hst|n c calls result Hj Hn Hs Hd Hr|n c calls out Hj Hn Hs Hd Hr
    |n c chunk rest Hj Hn Hb Hlen|n c Hj Hn Hb];
    cbn [lv_cells move put_cell put_runner set_clients set_cells set_pool set_lanes];
    rewrite ?length_insert; (split; [done|]).
  3: { eapply Hcommit; [done..|]. unfold made. rewrite Hs. split; [done|by eexists]. }
  3: { eapply Hcommit; [done..|]. unfold made. rewrite Hs. by eexists. }
  all: intros m c' o Hc Ho; left; revert m c' o Hc Ho;
    first [apply no_new_result_refl|by eapply no_new_result_insert].
Qed.

(** *** The invariant *)

(** [o] is what a dispatcher made of [req] by calls made since it was queued. *)
Definition made_of_past (p : Planes) (n : nat) (req : Queue.Request) (o : StreamOut) : Prop :=
  ∃ ask, backed p n ask ∧ made d ask req o.

(** What the registry was at some moment from the [a]-th on. *)
Definition was_since (p : Planes) (a : nat) (r : Registry) : Prop :=
  ∃ k, (a ≤ k)%nat ∧ pl_past p !! k = Some r.

Record planes_inv (timeout : Z) (p : Planes) : Prop := {
  pi_live : live_inv d g target (pl_live p);
  pi_router : router_reachable hook T timeout (pl_router p);
  pi_now : list.last (pl_past p) = Some (reg (pl_fleet p));
  pi_marks : length (pl_marks p) = length (lv_cells (pl_live p));
  pi_marked : Forall (λ m, m < length (pl_past p))%nat (pl_marks p);
  pi_arrivals : length (pl_arrivals p) = length (rs_handlers (pl_router p));
  pi_arrived m a : pl_arrivals p !! m = Some (Some a) → (a < length (pl_past p))%nat;
  pi_met m h a i r : pl_arrivals p !! m = Some (Some a) → rs_handlers (pl_router p) !! m = Some h →
    h_met h = Some (i, r) → was_since p a r;
  pi_results n c o : lv_cells (pl_live p) !! n = Some c → ce_out c = Some o → made_of_past p n (ce_req c) o;
}.

(** A handler that has ended stays as it is. *)
Lemma ended_stays s s' m h : router_step hook T s s' → RouterRuns.ended h = true →
  rs_handlers s !! m = Some h → rs_handlers s' !! m = Some h.
Proof.
  intros Hs He Hm. destruct Hs as [req|f Hf|n s1 [h0 sh h' Hn Hs]]; simpl; [by apply lookup_app_l_Some|done|].
  destruct (decide (n = m)) as [->|Hne]; [|by rewrite list_lookup_insert_ne].
  rewrite Hm in Hn. injection Hn as <-. exfalso. by eapply ended_stuck.
Qed.

Lemma backed_later p p' n ask :
  pl_marks p `prefix_of` pl_marks p' → pl_arrivals p `prefix_of` pl_arrivals p' →
  (∀ m h, RouterRuns.ended h = true → rs_handlers (pl_router p) !! m = Some h → rs_handlers (pl_router p') !! m = Some h) →
  backed p n ask → backed p' n ask.
Proof.
  intros Hmk Har Hh Hb k c. specialize (Hb k c). destruct (ask k c) as [err|err|status ctype pieces broken]; [done..|].
  destruct Hb as (m & h & w & (mark & a & Hn & Ha & Hle & Hm) & Hreq & Hst & Hw).
  exists m, h, w. split_and!; [|done..]. exists mark, a.
  split_and!; [by eapply prefix_lookup_Some|by eapply prefix_lookup_Some|done|].
  apply Hh; [|done]. unfold RouterRuns.ended. by rewrite Hst.
Qed.

Lemma made_of_past_later p p' n req o :
  pl_marks p `prefix_of` pl_marks p' → pl_arrivals p `prefix_of` pl_arrivals p' →
  (∀ m h, RouterRuns.ended h = true → rs_handlers (pl_router p) !! m = Some h → rs_handlers (pl_router p') !! m = Some h) →
  made_of_past p n req o → made_of_past p' n req o.
Proof. intros ??? (ask & Hb & ?). exists ask. split; [by eapply backed_later|done]. Qed.

Lemma was_since_later p p' a r : pl_past p `prefix_of` pl_past p' → was_since p a r → was_since p' a r.
Proof. intros Hp (k & Hle & Hk). exists k. split; [done|by eapply prefix_lookup_Some]. Qed.

Lemma now_at_lt timeout p : planes_inv timeout p → (now_at p < length (pl_past p))%nat.
Proof. intros Hinv. pose proof (pi_now _ _ Hinv) as Hn. unfold now_at. destruct (pl_past p); [done|]. simpl. lia. Qed.

Lemma was_now timeout p a :
  planes_inv timeout p → (a < length (pl_past p))%nat → was_since p a (reg (pl_fleet p)).
Proof.
  intros Hinv Ha. exists (now_at p). split; [unfold now_at; lia|]. unfold now_at. rewrite <- last_lookup. apply Hinv.
Qed.

(** The request plane goes on, and every new result is made of the past. *)
Lemma go_on_inv timeout p l :
  planes_inv timeout p → live_inv d g target l → (length (lv_cells (pl_live p)) ≤ length (lv_cells l))%nat →
  (∀ n c' o, lv_cells l !! n = Some c' → ce_out c' = Some o →
    (∃ c, lv_cells (pl_live p) !! n = Some c ∧ ce_req c = ce_req c' ∧ ce_out c = Some o) ∨
    made_of_past p n (ce_req c') o) →
  planes_inv timeout (go_on l p).
Proof.
  intros Hinv Hl Hlen Hres. pose proof (now_at_lt _ _ Hinv) as Hnow.
  pose proof Hinv as [_ Hf Hn Hm Hmk Ha Har Hmet Hr]. split; try done.
  - simpl. rewrite length_app, length_replicate. lia.
  - simpl. apply Forall_app. split; [done|]. by apply Forall_replicate.
  - intros n c o Hc Ho. apply (made_of_past_later p); [by apply prefix_app_r|done|done|].
    destruct (Hres n c o Hc Ho) as [(x & Hx & <- & Hxo)|?]; [by eapply Hr|done].
Qed.

(** A handler meets the registry when it begins, and keeps what it met. *)
Lemma handler_step_met r sh h sh' h' : handler_step hook r sh h sh' h' →
  h_met h' = h_met h ∨ ∃ i, h_met h' = Some (i, r).
Proof. intros Hs. destruct Hs as [| |? ? ? chosen| | |]; simpl; eauto. by destruct chosen; left. Qed.

Lemma router_step_handlers s s' : router_step hook T s s' →
  (length (rs_handlers s) ≤ length (rs_handlers s'))%nat ∧
  ∀ m h', rs_handlers s' !! m = Some h' →
    h_met h' = None ∨ (∃ h, rs_handlers s !! m = Some h ∧
      (h_met h' = h_met h ∨ ∃ i, h_met h' = Some (i, reg (rs_fleet s)))).
Proof.
  intros [req|f Hf|n s1 [h sh h' Hn Hs]]; simpl.
  - split; [rewrite length_app; lia|]. intros m h' [Hm|[_ Hm]]%lookup_app_Some; [right; eauto|].
    apply list_lookup_singleton_Some in Hm as [_ <-]. by left.
  - split; [done|]. intros m h' Hm. right. eauto.
  - split; [by rewrite length_insert|]. intros m h0 [(-> & <- & _)|[_ Hm]]%list_lookup_insert_Some; right; [|eauto].
    exists h. split; [done|]. by eapply handler_step_met.
Qed.

Lemma route_on_inv timeout p s :
  planes_inv timeout p → router_step hook T (pl_router p) s → planes_inv timeout (route_on s p).
Proof.
  intros Hinv Hs. pose proof (now_at_lt _ _ Hinv) as Hnow. destruct (router_step_handlers _ _ Hs) as [Hlen Hhs].
  pose proof Hinv as [Hl [t0 Hf] Hn Hm Hmk Ha Har Hmet Hr].
  split; simpl; try done.
  - exists t0. by eapply rtc_r.
  - by rewrite last_snoc.
  - eapply Forall_impl; [exact Hmk|]. simpl. intros m Hlt. rewrite length_app. lia.
  - rewrite length_app, length_replicate. lia.
  - intros m a [Hma|[_ Hma]]%lookup_app_Some; rewrite length_app; [apply Har in Hma; lia|].
    apply lookup_replicate in Hma as [[= ->] _]. lia.
  - assert (pl_past p `prefix_of` pl_past (route_on s p)) as Hpre by by apply prefix_app_r.
    intros m h' a i r Hma Hh' Hmr. destruct (Hhs m h' Hh') as [Hnone|(h & Hh & Hcase)]; [congruence|].
    apply lookup_app_Some in Hma as [Hma|[Hge _]].
    2: { apply lookup_lt_Some in Hh. lia. }
    apply (was_since_later p); [done|]. destruct Hcase as [Heq|[i' Heq]].
    + eapply Hmet; [done..|]. by rewrite <- Heq.
    + rewrite Heq in Hmr. injection Hmr as _ <-. eapply was_now; [done|]. by eapply Har.
  - intros n c o Hc Ho. apply (made_of_past_later p); [done|by apply prefix_app_r| |by eapply Hr].
    intros m h He Hh. by eapply ended_stays.
Qed.

Lemma planes_step_inv timeout p p' : planes_step p p' → planes_inv timeout p → planes_inv timeout p'.
Proof.
  intros Hs Hinv. pose proof (pi_live _ _ Hinv) as Hl.
  destruct Hs as [s Hs|l Hs|i r l Hs|j ask l Hb Hs].
  - by apply route_on_inv.
  - apply go_on_inv; [done|by eapply outside_inv|by rewrite (outside_cells _ _ Hs)|].
    rewrite (outside_cells _ _ Hs). intros n c o Hc Ho. left. by exists c.
  - destruct (handle_results _ _ _ _ Hs) as [Hk Hlen]. apply go_on_inv; [done|by eapply handle_inv|done|].
    intros n c o Hc Ho. left. by eapply Hk.
  - destruct (run_pool_results _ _ _ _ Hs) as [Hlen Hk].
    apply go_on_inv; [done|by eapply run_pool_inv|by rewrite Hlen|].
    intros n c o Hc Ho. destruct (Hk n c o Hc Ho) as [?|[Hj Hm]]; [by left|right].
    exists ask. split; [by apply Hb|done].
Qed.

Lemma planes_reachable_inv timeout c t0 tr p : planes_reachable timeout c t0 tr p → planes_inv timeout p.
Proof.
  intros (s & Hs & Hr). eapply invariant_rtc; [intros ??; apply planes_step_inv|exact Hr|]. split; simpl.
  - apply live_start_inv.
  - done.
  - done.
  - done.
  - constructor.
  - by rewrite length_replicate.
  - intros m a [? _]%lookup_replicate. done.
  - intros m h a i r [? _]%lookup_replicate. done.
  - intros n x o Hn. done.
Qed.

(** What holds of the running request plane holds of it here. *)
Lemma planes_live timeout c t0 tr p :
  planes_reachable timeout c t0 tr p → live_reachable d g target fused c t0 tr (pl_live p).
Proof.
  intros (s & _ & Hr).
  apply (invariant_rtc planes_step (λ q, live_reachable d g target fused c t0 tr (pl_live q))) in Hr;
    [done| |apply rtc_refl].
  intros q q' Hs Hq. destruct Hs as [s' Hs|l Hs|i r l Hs|j ask l _ Hs]; [done|..];
    (eapply rtc_r; [exact Hq|]); [by left|right; left; by exists i, r|right; right; by eexists _, _].
Qed.

(** *** Whose answer it is *)

(** The registry was [r] at some moment since the request [n] was queued. *)
Definition met (p : Planes) (n : nat) (r : Registry) : Prop :=
  ∃ mark, pl_marks p !! n = Some mark ∧ was_since p mark r.

(** [rs] is the answer of one worker: a handler of the router that served a call made since the
    request [n] was queued met a registry of that time with the worker in service for
    [model], sent it the client's own request under that model's name, and has its answer in
    its log. *)
Definition answer_of_worker (p : Planes) (n : nat) (req : Queue.Request) (model : string) (rs : Response) : Prop :=
  ∃ m h i r id e l status ctype body broken rest,
    serves_since p n m h ∧ h_met h = Some (i, r) ∧ met p n r ∧
    workers r !! id = Some e ∧ is_healthy (State e) = true ∧ to_valid model ∈ ModelsLoaded (Info e) ∧
    EvForward (forwarded (received d (buildRequest (upstream d) (body_for req model))) (body_for req model) e)
      ∈ h_events h ∧
    l ∈ h_log h ∧ lk_answer l = Responded status ctype body broken ∧
    Written (rs_writer rs) = Some status ∧ body = RespBody (rs_writer rs) +:+ rest ∧ (Stream req = false → rest = "") ∧
    (model ≠ "" → Get (RespHeader (rs_writer rs)) "X-Served-Model" = model) ∧
    rs_calls rs = (if with_hook g then [(ReqModel req, is_success status)] else []).

Lemma logged_answer log req body j e status ctype bytes br :
  answer (log_env log) req body j e = Responded status ctype bytes br →
  ∃ l, l ∈ log ∧ lk_answer l = Responded status ctype bytes br.
Proof.
  unfold answer, log_env. simpl. destruct (log !! pred j) as [l|] eqn:Hl; [|done]. simpl.
  intros Ha. exists l. split; [by eapply list_elem_of_lookup_2|done].
Qed.

Lemma made_answer_of_worker timeout p n req o rs :
  planes_inv timeout p → accepted req → 0 < maxAttempts d → (∀ m, m ∈ chain_of d req → m ≠ "") →
  made_of_past p n req o → Err (so_result o) = None → no_worker (StatusCode (so_result o)) = false →
  shows g req o rs → ∃ model, model ∈ chain_of d req ∧ answer_of_worker p n req model rs.
Proof.
  intros Hinv Ha Hmax Hne (ask & Hb & Hm) Herr Hst [Hw Hbody Hsm Hcalls].
  destruct (made_answered d _ _ _ Ha Hmax Hm Herr Hst)
    as (k & model & ctype & pieces & broken & Hin & Hask & Hserved & Hc & Hwhole).
  exists model. split; [done|]. specialize (Hb k (buildRequest (upstream d) (body_for req model))).
  rewrite Hask in Hb. destruct Hb as (m & h & w & Hsince & Hreq & Hend & Hstatus & _ & Hpieces).
  pose proof Hsince as (mark & a & Hmark & Harr & Hle & Hh).
  destruct (ended_runs_ServeHTTP hook T timeout (pl_router p) h (pi_router _ _ Hinv)) with (flow := Finished w)
    as (i & f & Hmet & Hf & Hrun); [by eapply list_elem_of_lookup_2|by rewrite Hend|]. rewrite Hreq in Hrun.
  rewrite Hstatus in Hst.
  destruct (run_answered d T timeout f _ _ _ _ _ _ _ Hf (body_for_model req model Ha)
    (to_valid_nonempty _ (Hne _ Hin)) Hrun Hst) as (j & e & ct & br & He & Hev & Hans).
  apply logged_answer in Hans as (l & Hl & Hans).
  apply elem_of_HealthyWorkersForModel in He as (id & He & Hhe & Hml).
  assert (∃ rest, RespBody w = RespBody (rs_writer rs) +:+ rest ∧ (Stream req = false → rest = "")) as (rest & Hrest & Hr0).
  { rewrite Hbody, Hc. destruct broken as [err|]; simpl in Hpieces.
    - destruct Hpieces as [rest Hr]. exists rest. split; [done|]. by intros ?%Hwhole.
    - exists "". split; [by rewrite String_app_nil_r|done]. }
  exists m, h, i, (reg f), id, e, l, (StatusCode (so_result o)), ct, (RespBody w), br, rest.
  split_and!; try done.
  - exists mark. split; [done|]. destruct (pi_met _ _ Hinv _ _ _ _ _ Harr Hh Hmet) as (q & Hq & Hpast).
    exists q. split; [lia|done].
  - by rewrite Hans, Hstatus.
  - rewrite <- Hserved. by intros ?%Hsm.
Qed.

(** A client whose request was queued got one of the planes' own answers or a worker's. *)
Lemma queued_client_answer timeout c t0 tr p i r n rs :
  planes_reachable timeout c t0 tr p → 0 < maxAttempts d → (∀ m ms, fallbacks d !! m = Some ms → "" ∉ ms) →
  at_stage (pl_live p) i r (Over (Some n) rs) →
  (∃ status, Written (rs_writer rs) = Some status ∧
    (status = StatusBadGateway ∨ status = StatusServiceUnavailable ∨ status = StatusGatewayTimeout)) ∨
  ∃ req model, request_at (lv_cells (pl_live p)) n = Some req ∧ request_of g r req ∧
    model ∈ chain_of d req ∧ answer_of_worker p n req model rs.
Proof.
  intros Hinv%planes_reachable_inv Hmax Hfb Hi.
  destruct (li_stages _ _ _ _ (pi_live _ _ Hinv) _ _ _ Hi) as (x & Hx & Hreq & est & He).
  destruct (fresh_estimate est) as [Hw _]. destruct He as [[-> _]|(o & at_ & Ho & _ & _ & Hrs)].
  { left. exists StatusGatewayTimeout. split; [by apply Error_status|by right; right]. }
  apply answered_shows in Hrs. destruct (Err (so_result o)) as [err|] eqn:Herr.
  { left. exists StatusBadGateway. split; [done|by left]. }
  destruct (no_worker (StatusCode (so_result o))) eqn:Hst.
  { left. exists (StatusCode (so_result o)). split; [apply Hrs|]. apply bool_decide_eq_true in Hst as [->| ->]; auto. }
  right. destruct Hreq as [Hbody Hpay Hne Hpri Hkey].
  destruct (made_answer_of_worker timeout p n (ce_req x) o rs) as (model & Hin & Hans); try done.
  - intros m [->|Hm]%elem_of_cons; [done|]. intros ->. destruct (fallbacks d !! ReqModel (ce_req x)) as [ms|] eqn:Hf.
    + by eapply Hfb.
    + by apply not_elem_of_nil in Hm.
  - by eapply pi_results.
  - exists (ce_req x), model. split_and!; [unfold request_at; by rewrite Hx|by split|done|done].
Qed.

(** *** Schedules *)

(** Calls that nobody answers. *)
Definition unanswered (ask : nat → Call → Upstream) : Prop := ∀ k c, ∃ err, ask k c = NoConnection err.

Definition move_unanswered (m : Move) : Prop :=
  match m with Work _ _ ask => unanswered ask | _ => True end.

Lemma unanswered_backed p n ask : unanswered ask → backed p n ask.
Proof. intros Hu k c. destruct (Hu k c) as [err ->]. done. Qed.

Lemma planes_move p m l :
  (∀ j lane ask n, m = Work j lane ask → lv_pool (pl_live p) !! j = Some (Serving n) → backed p n ask) →
  perform_move d g target fused (pl_live p) m = Some l → planes_step p (go_on l p).
Proof.
  intros Hm Hp. destruct m as [r|t| |i late|j lane ask]; simpl in Hp.
  - injection Hp as <-. apply pl_outside. constructor.
  - case_decide; [|done]. injection Hp as <-. apply pl_outside. by constructor.
  - injection Hp as <-. apply pl_outside. constructor.
  - apply take_turn_sound in Hp as [r Hp]. by eapply pl_handle.
  - apply take_work_sound in Hp. eapply pl_pool; [|exact Hp]. intros n Hj. by eapply Hm.
Qed.

(** A schedule of Live during which the control plane stands still. *)
Lemma planes_perform p ms l :
  Forall move_unanswered ms → perform d g target fused (pl_live p) ms = Some l →
  ∃ p', rtc planes_step p p' ∧ pl_live p' = l ∧ pl_router p' = pl_router p.
Proof.
  intros Hall. revert p Hall. induction ms as [|m ms IH]; intros p Hall; simpl.
  - intros [= <-]. by exists p.
  - apply Forall_cons in Hall as [Hm Hall].
    destruct (perform_move d g target fused (pl_live p) m) as [l1|] eqn:Hl; [|done]. intros Hms.
    destruct (IH (go_on l1 p) Hall Hms) as (p' & Hr & Hp' & Hrt).
    exists p'. split; [|done]. eapply rtc_l; [|exact Hr]. apply (planes_move p m); [|done].
    intros j lane ask n -> _. by apply unanswered_backed.
Qed.

(** A run of the router while the request plane stands still: the handlers that come in it serve
    calls made since any request of now was queued. *)
Lemma planes_route timeout p s :
  planes_inv timeout p → rtc (router_step hook T) (pl_router p) s →
  ∃ q, rtc planes_step p q ∧ pl_router q = s ∧ pl_live q = pl_live p ∧ pl_marks q = pl_marks p ∧
    pl_arrivals p `prefix_of` pl_arrivals q ∧
    ∀ m, (length (rs_handlers (pl_router p)) ≤ m < length (rs_handlers s))%nat →
      ∃ a, pl_arrivals q !! m = Some (Some a) ∧ (now_at p ≤ a)%nat.
Proof.
  intros Hinv Hr. remember (pl_router p) as s0 eqn:E. revert p Hinv E.
  induction Hr as [s0|s0 s1 s2 Hs Hr IH]; intros p Hinv ->.
  - exists p. split_and!; [apply rtc_refl|done..|]. intros m Hm. lia.
  - pose proof (route_on_inv _ _ _ Hinv Hs) as Hinv1.
    destruct (IH (route_on s1 p) Hinv1 eq_refl) as (q & Hq & Hrt & Hl & Hmk & Hpre & Hnew).
    exists q. split_and!; [eapply rtc_l; [by apply pl_control|exact Hq]|done..| |].
    { etrans; [|exact Hpre]. by apply prefix_app_r. }
    intros m Hm. destruct (decide (length (rs_handlers s1) ≤ m)%nat) as [Hge|Hlt].
    + destruct (Hnew m) as (a & Ha & Hle); [lia|]. exists a. split; [done|].
      unfold now_at, route_on in *. simpl in *. rewrite length_app in Hle. simpl in Hle. lia.
    + exists (now_at p). split; [|done]. eapply prefix_lookup_Some; [|exact Hpre]. simpl.
      rewrite lookup_app_r by (rewrite (pi_arrivals _ _ Hinv); lia).
      apply lookup_replicate. rewrite (pi_arrivals _ _ Hinv). split; [done|lia].
Qed.

(** Such a handler, once it has answered, backs the calls it was asked. *)
Lemma planes_backed timeout p q n m h w ask :
  planes_inv timeout p → (n < length (lv_cells (pl_live p)))%nat → pl_marks q = pl_marks p →
  (∃ a, pl_arrivals q !! m = Some (Some a) ∧ (now_at p ≤ a)%nat) →
  rs_handlers (pl_router q) !! m = Some h → h_stage h = RouterLive.Ended w →
  (∀ k c, (∃ err, ask k c = NoConnection err) ∨ h_req h = received d c ∧ arrives_as w (ask k c)) →
  backed q n ask.
Proof.
  intros Hinv Hn Hmk (a & Ha & Hle) Hh Hst Hask k c.
  destruct (Hask k c) as [[err ->]|[Hreq Harr]]; [done|]. destruct (ask k c) as [| |status ctype pieces broken] eqn:E; [done..|].
  rewrite <- (pi_marks _ _ Hinv) in Hn. apply lookup_lt_is_Some_2 in Hn as [mark Hmark].
  exists m, h, w. split_and!; [|done..]. exists mark, a. split_and!; [by rewrite Hmk|done| |done].
  pose proof (Forall_lookup_1 _ _ _ _ (pi_marked _ _ Hinv) Hmark) as Hlt. unfold now_at in Hle. simpl in Hlt. lia.
Qed.

End planes.

(** ** The server of the flags *)

(** The request plane of [rp] at its start. *)
Definition server_live (f : ServerFlags) (rp : RequestPlane) (t0 : Z) : Live :=
  live_start (rp_dispatcher rp) (Z.to_nat (sf_queueCap f)) t0 (NewLatencyTracker (sf_sloFallback f)).

(** C3: With both planes running - clients' handlers, dispatchers, the router's handlers, which
    other callers may use as well, the registry and its timers, in any order - the request
    plane started with any flags, every answer a queued client gets but for the planes' own
    502, 503 and 504 is one worker's.  A handler of the router that served a call made since
    the client's request was queued found the worker registered, READY or BUSY and serving the
    model; the worker was sent a model of the request's chain with the client's body, in which
    at most the model is replaced; and status, bytes - for a stream that broke off, a
    beginning of them - and the model the client is told are those of its answer.  The
    fallback flag must not name an empty model, as a stray comma does. *)
Theorem answered_by_worker `{JsonError} `{FmtQuote} `{MapRange} f rp target fused hook T timeout s t0 p i r n rs :
  request_plane f = Ok rp → (∀ m ms, parseFallbackMap (sf_fallbackMap f) !! m = Some ms → "" ∉ ms) →
  let d := rp_dispatcher rp in let g := rp_gateway rp in
  router_reachable hook T timeout s →
  rtc (planes_step d g target fused hook T) (planes_start (server_live f rp t0) s) p →
  at_stage (pl_live p) i r (Over (Some n) rs) →
  (∃ status, Written (rs_writer rs) = Some status ∧
    (status = StatusBadGateway ∨ status = StatusServiceUnavailable ∨ status = StatusGatewayTimeout)) ∨
  ∃ req model, request_at (lv_cells (pl_live p)) n = Some req ∧ request_of g r req ∧
    model ∈ ReqModel req :: default [] (parseFallbackMap (sf_fallbackMap f) !! ReqModel req) ∧
    answer_of_worker d g p n req model rs.
Proof.
  intros Hf Hfb d g Hs Hr Hi. pose proof (request_plane_spec f) as Hsp. rewrite Hf in Hsp.
  destruct Hsp as (_ & _ & _ & _ & _ & Hmax & Hfall & _).
  assert (0 < maxAttempts d) as Hm by (unfold d; lia).
  destruct (queued_client_answer d g target fused hook T timeout (Z.to_nat (sf_queueCap f)) t0
    (NewLatencyTracker (sf_sloFallback f)) p i r n rs) as [?|(req & model & ? & ? & Hin & ?)]; try done.
  - by exists s.
  - unfold d. by rewrite Hfall.
  - by left.
  - right. exists req, model. unfold chain_of, d in Hin. by rewrite Hfall in Hin.
Qed.

(** ** The theorem at work *)

Definition demo_timing : Timing := {| gap := 1; latency := 0; insert_delay := 0 |}.

Definition demo_rp : { rp | request_plane demo_flags = Ok rp }.
Proof. eexists. reflexivity. Defined.

Abbreviation demo_d := (rp_dispatcher (proj1_sig demo_rp)).
Abbreviation demo_g := (rp_gateway (proj1_sig demo_rp)).

#[local] Instance plain_quote : FmtQuote := λ s, s.
#[local] Instance plain_error : JsonError := demo_error.

Definition demo_call : Call := buildRequest (upstream demo_d) Gateway.demo_text.

Definition nobody_answers (_ : nat) (_ : Call) : Upstream := NoConnection "refused".

(** The router answers the one call there is. *)
Definition demo_ask (_ : nat) (c : Call) : Upstream :=
  if decide (call_url c = call_url demo_call ∧ call_body c = call_body demo_call)
  then Answer 200 "application/json" ["{}"] None else NoConnection "refused".

(** A client comes, is queued, its request is taken; the call is made and answered by the router;
    the client gets what the worker said. *)
Definition demo_before : list Move :=
  Connect (demo_client "Bearer alpha") :: replicate 5 (Turn 0 false) ++
  [Work 0 (Some PriorityNormal) nobody_answers; Turn 0 false].

Definition demo_after_call : list Move := [Pass SecondNs; Turn 0 false; Turn 0 false].

Definition demo_router_moves : list RouterRuns.Move :=
  Arrive (received demo_d demo_call) :: replicate 5 (Go 0 served_200).

Abbreviation demo_perform := (perform demo_d demo_g (portable NoFusing) false).

Definition demo_planes : Planes := planes_start (server_live demo_flags (proj1_sig demo_rp) 0) (with_fleet (demo_sys 1 2)).

Definition demo_queued : Live := default (pl_live demo_planes) (demo_perform (pl_live demo_planes) demo_before).

Definition demo_routed : RouterSys :=
  default (with_fleet (demo_sys 1 2)) (exec_moves true demo_router_moves (with_fleet (demo_sys 1 2))).

Definition demo_dispatched : Live :=
  default demo_queued (perform_move demo_d demo_g (portable NoFusing) false demo_queued (Work 0 None demo_ask)).

Definition demo_end : Live := default demo_dispatched (demo_perform demo_dispatched demo_after_call).

Abbreviation demo_planes_step := (planes_step demo_d demo_g (portable NoFusing) false true demo_timing).

Lemma demo_router_reachable : router_reachable true demo_timing DefaultDeadTimeout (with_fleet (demo_sys 1 2)).
Proof. eapply (exec_reachable true demo_timing DefaultDeadTimeout (demo_sys 1 2) []); [by apply demo_reachable|done]. Qed.

Lemma demo_planes_reachable p : rtc demo_planes_step demo_planes p →
  planes_inv demo_d demo_g (portable NoFusing) true demo_timing DefaultDeadTimeout p.
Proof.
  intros Hr. eapply (planes_reachable_inv demo_d demo_g (portable NoFusing) false true demo_timing DefaultDeadTimeout
    (Z.to_nat (sf_queueCap demo_flags)) 0 (NewLatencyTracker (sf_sloFallback demo_flags))).
  exists (with_fleet (demo_sys 1 2)). split; [exact demo_router_reachable|exact Hr].
Qed.

Lemma demo_run_planes : ∃ p, rtc demo_planes_step demo_planes p ∧ pl_live p = demo_end ∧ pl_router p = demo_routed.
Proof.
  destruct (planes_perform demo_d demo_g (portable NoFusing) false true demo_timing demo_planes demo_before demo_queued)
    as (p1 & Hr1 & Hl1 & Hrt1); [|vm_compute; reflexivity|].
  { repeat (apply Forall_cons; split); try exact I; [intros k c; by exists "refused"|apply Forall_nil; exact I]. }
  pose proof (demo_planes_reachable _ Hr1) as Hinv1.
  destruct (planes_route demo_d demo_g (portable NoFusing) false true demo_timing DefaultDeadTimeout p1 demo_routed Hinv1)
    as (q & Hq & Hrt & Hl & Hmk & _ & Hnew).
  { rewrite Hrt1. apply (exec_moves_sound true demo_timing demo_router_moves). vm_compute. reflexivity. }
  assert (∃ h w, rs_handlers demo_routed !! 0%nat = Some h ∧ h_stage h = RouterLive.Ended w ∧
    h_req h = received demo_d demo_call ∧ arrives_as w (Answer 200 "application/json" ["{}"] None)) as (h & w & Hh & Hst & Hreq & Hw).
  { eexists _, _. split_and!; vm_compute; reflexivity || split_and!; reflexivity. }
  assert (backed demo_d q 0 demo_ask) as Hb.
  { eapply (planes_backed demo_d demo_g (portable NoFusing) true demo_timing DefaultDeadTimeout p1 q 0 0 h w); [done| | |..].
    - rewrite Hl1. apply Nat.ltb_lt. vm_compute. reflexivity.
    - exact Hmk.
    - apply Hnew. rewrite Hrt1. split; [apply Nat.le_0_l|]. apply Nat.ltb_lt. vm_compute. reflexivity.
    - by rewrite Hrt.
    - exact Hst.
    - intros k c. unfold demo_ask. case_decide as Hc; [right|left; by eexists]. split; [|exact Hw].
      rewrite Hreq. unfold received. by destruct Hc as [-> ->]. }
  assert (planes_step demo_d demo_g (portable NoFusing) false true demo_timing q (go_on demo_dispatched q)) as Hstep.
  { apply (planes_move demo_d demo_g (portable NoFusing) false true demo_timing q (Work 0 None demo_ask)).
    - intros j lane ask n [= <- <- <-] Hj. rewrite Hl, Hl1 in Hj. vm_compute in Hj. by injection Hj as <-.
    - rewrite Hl, Hl1. vm_compute. reflexivity. }
  destruct (planes_perform demo_d demo_g (portable NoFusing) false true demo_timing (go_on demo_dispatched q)
    demo_after_call demo_end) as (p & Hr & Hp & Hpr); [repeat constructor|vm_compute; reflexivity|].
  exists p. split; [|split; [exact Hp|by rewrite Hpr]]. etrans; [exact Hr1|]. etrans; [exact Hq|]. eapply rtc_l; [exact Hstep|exact Hr].
Qed.

Lemma answered_by_worker_witness :
  ∃ p rs req model, rtc demo_planes_step demo_planes p ∧
    at_stage (pl_live p) 0 (demo_client "Bearer alpha") (Over (Some 0%nat) rs) ∧ Written (rs_writer rs) = Some 200 ∧
    answer_of_worker demo_d demo_g p 0 req model rs.
Proof.
  destruct demo_run_planes as (p & Hr & Hp & _).
  assert (∃ rs, at_stage demo_end 0 (demo_client "Bearer alpha") (Over (Some 0%nat) rs) ∧
    Written (rs_writer rs) = Some 200) as (rs & Hi & Hw)
    by (eexists; split; [unfold at_stage; vm_compute; reflexivity|reflexivity]).
  rewrite <- Hp in Hi.
  destruct (answered_by_worker demo_flags (proj1_sig demo_rp) (portable NoFusing) false true demo_timing DefaultDeadTimeout
    (with_fleet (demo_sys 1 2)) 0 p 0 (demo_client "Bearer alpha") 0 rs)
    as [(status & Hs & Hno)|(req & model & _ & _ & _ & Hans)].
  - exact (proj2_sig demo_rp).
  - intros m ms Hf. change (({["llama3:70b" := ["llama3:8b"]]} : gmap string (list string)) !! m = Some ms) in Hf.
    apply lookup_singleton_Some in Hf as [_ <-]. by intros ?%list_elem_of_singleton.
  - exact demo_router_reachable.
  - exact Hr.
  - exact Hi.
  - exfalso. rewrite Hw in Hs. injection Hs as <-. destruct Hno as [Hn|[Hn|Hn]]; discriminate Hn.
  - exists p, rs, req, model. split; [exact Hr|]. split; [exact Hi|]. split; [exact Hw|exact Hans].
Defined.
