(* ===== verification/PlanesRest.v ===== *)
(** * Both planes come to rest

    What the whole program does by itself - clients' handlers, dispatchers, the router's
    handlers, with the registry going on in between as it likes - ends, and how it ends. *)

From S2P Require Import Prelude GoFloat GoStrings Proto GoTimer GoHttp GoJson GoText GoUnmarshal Registry RegistryProps Router RouterProps RouterLive RouterRuns Queue Slo Auth Dispatcher Gateway Config Bodies EndToEnd RequestServer Live LiveInv LiveRun LiveProps TwoPlanes.
Open Scope Z_scope.

Section rest.
Context `{JsonError} `{FmtQuote} `{MapRange}.
Context (d : Dispatcher) (g : Gateway) (target : Target) (fused : bool) (hook : bool) (T : Timing).
Implicit Types (p : Planes).

(** The control plane with the registry moved on. *)
Definition with_registry (f : Sys) (s : RouterSys) : RouterSys :=
  {| rs_fleet := f; rs_shared := rs_shared s; rs_handlers := rs_handlers s |}.

Inductive registry_moves p : Planes → Prop :=
  | registry_moved f : step T (pl_fleet p) f → registry_moves p (route_on (with_registry f (pl_router p)) p).

(** A client's handler, a dispatcher or a handler of the router takes a step. *)
Inductive own p : Planes → Prop :=
  | own_handle i r l : handle g target fused (pl_live p) i r l → own p (go_on l p)
  | own_pool j ask l :
      (∀ n, lv_pool (pl_live p) !! j = Some (Serving n) → backed d p n ask) →
      run_pool d (pl_live p) j ask l → own p (go_on l p)
  | own_turn n s : turn hook n (pl_router p) s → own p (route_on s p).

(** The registry does what it likes, then one of them takes a step. *)
Definition planes_served p p' : Prop := ∃ q, rtc registry_moves p q ∧ own q p'.

(** These are steps of the planes. *)
Lemma planes_served_steps p p' : planes_served p p' → rtc (planes_step d g target fused hook T) p p'.
Proof.
  intros (q & Hr & Ho). apply rtc_r with q.
  - clear Ho. induction Hr as [p|p q q' Hs _ IH]; [apply rtc_refl|]. eapply rtc_l; [|exact IH].
    destruct Hs as [f Hf]. apply pl_control. by apply router_registry.
  - destruct Ho as [i r l Hh|j ask l Hb Hp|n s Ht]; [by eapply pl_handle|by eapply pl_pool|].
    apply pl_control. by eapply router_turn.
Qed.

Lemma registry_moves_rest p q : rtc registry_moves p q →
  pl_live q = pl_live p ∧ pl_router q = with_registry (pl_fleet q) (pl_router p) ∧
  rtc (step T) (pl_fleet p) (pl_fleet q).
Proof.
  induction 1 as [p|p q q' [f Hf] _ IH].
  - split_and!; [done|by destruct p as [? []]|apply rtc_refl].
  - destruct IH as (Hl & Hr & Hs). split_and!; [done|exact Hr|]. by eapply rtc_l.
Qed.

(** ** Termination *)

Lemma planes_served_nearer p p' : planes_served p p' →
  let turns q := (RouterRuns.waiting (pl_router q) + turns_left (pl_live q))%nat in
  let rest q := (RouterRuns.work (pl_router q) + chunks_left (pl_live q))%nat in
  (turns p' < turns p ∨ turns p' = turns p ∧ rest p' < rest p)%nat.
Proof.
  intros (q & Hr & Ho). cbv zeta. destruct (registry_moves_rest _ _ Hr) as (Hl & Hrt & Hf).
  assert (RouterRuns.waiting (pl_router q) = RouterRuns.waiting (pl_router p) ∧
    RouterRuns.work (pl_router q) = RouterRuns.work (pl_router p)) as [Hw Hk] by (by rewrite Hrt).
  rewrite <- Hw, <- Hk, <- Hl. clear Hr Hrt Hf Hw Hk Hl. destruct Ho as [i r l Hh|j ask l _ Hp|n s Ht]; simpl.
  - destruct (handle_work _ _ _ _ _ _ _ Hh) as [?|[? ?]]; lia.
  - destruct (run_pool_work _ _ _ _ _ Hp) as [?|[? ?]]; lia.
  - destruct (served_nearer hook T (pl_router q) s) as [?|[? ?]]; [|lia..].
    eapply (handler_served _ _ _ (rs_fleet (pl_router q)) n); [apply rtc_refl|]. by destruct (pl_router q).
Qed.

Lemma planes_served_sn p : sn planes_served p.
Proof. eapply sn_measures. apply planes_served_nearer. Qed.

(** ** At rest *)

Lemma planes_served_now p p' : own p p' → planes_served p p'.
Proof. intros Ho. exists p. split; [apply rtc_refl|done]. Qed.

(** A dispatcher that can go on can do so when nobody answers it. *)
Lemma run_pool_silent s j ask s' :
  live_inv d g target s → run_pool d s j ask s' → ∃ s'', run_pool d s j silent s''.
Proof.
  intros Hinv Hs.
  destruct Hs as [p n l Hj Hl|Hj Hst|n c calls result Hj|n c calls out Hj|n c chunk rest Hj Hn Hb Hlen|n c Hj Hn Hb].
  - eexists. by eapply p_pop.
  - eexists. by apply p_return.
  - by eapply (runner_goes_on d g target s j _ silent Hj Hinv).
  - by eapply (runner_goes_on d g target s j _ silent Hj Hinv).
  - eexists. by eapply p_send.
  - eexists. by eapply p_close.
Qed.

Lemma rest_live p : live_inv d g target (pl_live p) → nf planes_served p → nf (inside d g target fused) (pl_live p).
Proof.
  intros Hinv Hnf [l [(i & r & Hh)|(j & ask & Hp)]]; apply Hnf.
  - eexists. by eapply planes_served_now, own_handle.
  - apply run_pool_silent in Hp as [l' Hp]; [|done]. eexists. eapply planes_served_now, own_pool; [|exact Hp].
    intros n _. apply unanswered_backed. intros k c. by eexists.
Qed.

Lemma registry_run p f :
  rtc (step T) (pl_fleet p) f → ∃ q, rtc registry_moves p q ∧ pl_router q = with_registry f (pl_router p).
Proof.
  intros Hr. remember (pl_fleet p) as f0 eqn:E. revert p E.
  induction Hr as [f0|f0 f1 f2 Hs _ IH]; intros p ->.
  - exists p. split; [apply rtc_refl|]. by destruct p as [? []].
  - destruct (IH (route_on (with_registry f1 (pl_router p)) p) eq_refl) as (q & Hq & Hrt).
    exists q. split; [|exact Hrt]. eapply rtc_l; [by apply registry_moved|exact Hq].
Qed.

Lemma rest_router p : nf planes_served p → nf (RouterRuns.served hook T) (pl_router p).
Proof.
  intros Hnf [s [f n s' Hf Ht]]. destruct (registry_run p f Hf) as (q & Hq & Hrt).
  apply Hnf. exists (route_on s' q), q. split; [done|]. apply (own_turn q n). by rewrite Hrt.
Qed.

(** C6: The whole program comes to rest.  Wherever the two planes are, by themselves - clients'
    handlers, dispatchers and the router's handlers, with whatever the registry does in
    between, workers and connections answering or failing - they take finitely many more
    steps.  When none is left every client has its
    response, but for those that still wait within their timeout while every dispatcher has
    returned, after the signal, or is stuck on a long stream of a client that was answered
    504; every handler of the router has ended; and no worker's in-flight counter stands for
    a request any more, unless an answer of that worker crashed a handler. *)
Theorem planes_rest timeout c t0 tr p :
  planes_reachable d g target fused hook T timeout c t0 tr p →
  sn planes_served p ∧
  (nf planes_served p →
    (∀ i r st, at_stage (pl_live p) i r st →
      (∃ n rs, st = Over n rs) ∨
      ∃ n started w, st = Waiting n started w ∧ lv_clock (pl_live p) < started + waitTimeout g ∧
        Forall (out_of_service g (pl_live p)) (lv_pool (pl_live p))) ∧
    (∀ h, h ∈ rs_handlers (pl_router p) → RouterRuns.ended h = true) ∧
    ∀ id, crashes_on id (pl_router p) = 0%nat → getInFlight (flight (pl_router p)) id = 0).
Proof.
  intros Hinv%planes_reachable_inv. split; [apply planes_served_sn|]. intros Hnf.
  pose proof (rest_live p (pi_live _ _ _ _ _ _ _ Hinv) Hnf) as Hlive.
  destruct (router_rests hook T timeout (pl_router p) (pi_router _ _ _ _ _ _ _ Hinv)) as [_ Hrouter].
  split; [|by apply Hrouter, rest_router]. intros i r st Hi.
  pose proof (settled_handler d g target fused _ (pi_live _ _ _ _ _ _ _ Hinv) Hlive _ _ _ Hi) as Hst.
  destruct st as [| | | | | |n t1 w| | |n rs]; try done.
  - right. exists n, t1, w. split; [done|].
    by eapply (settled_waiting d g target fused _ (pi_live _ _ _ _ _ _ _ Hinv) Hlive).
  - left. by exists n, rs.
Qed.

End rest.

(** ** The theorem at work *)

Section quiet.
Context `{JsonError} `{FmtQuote} `{MapRange}.
Context (d : Dispatcher) (g : Gateway) (target : Target) (fused : bool) (hook : bool) (T : Timing).

(** With nothing left to do on either side, the planes rest. *)
Lemma quiet_rest p :
  nf (inside d g target fused) (pl_live p) → forallb RouterRuns.ended (rs_handlers (pl_router p)) = true →
  nf (planes_served d g target fused hook T) p.
Proof.
  intros Hl He [p' (q & Hr & Ho)]. destruct (registry_moves_rest T p q Hr) as (Hlq & Hrq & _).
  destruct Ho as [i r l Hh|j ask l _ Hp|n s [h sh h' Hn Hs]].
  - apply Hl. rewrite <- Hlq. exists l. left. by exists i, r.
  - apply Hl. rewrite <- Hlq. exists l. right. by exists j, ask.
  - rewrite Hrq in Hn. simpl in Hn. eapply ended_stuck; [|exact Hs].
    rewrite forallb_forall in He. apply He, list_elem_of_In. by eapply list_elem_of_lookup_2.
Qed.

End quiet.

#[local] Instance plain_quote : FmtQuote := λ s, s.
#[local] Instance plain_error : JsonError := demo_error.

Lemma planes_rest_witness :
  ∃ p, pl_router p = demo_routed ∧ in_flight_to "w1" (pl_router p) = 0%nat ∧
    getInFlight (flight (pl_router p)) "w1" = 0 ∧
    ∃ st, at_stage (pl_live p) 0 (demo_client "Bearer alpha") st ∧ ∃ n rs, st = Over n rs.
Proof.
  destruct demo_run_planes as (p & Hr & Hp & Hpr). exists p. split; [exact Hpr|].
  split; [rewrite Hpr; vm_compute; reflexivity|].
  destruct (planes_rest demo_d demo_g (portable NoFusing) false true demo_timing DefaultDeadTimeout
    (Z.to_nat (sf_queueCap demo_flags)) 0 (NewLatencyTracker (sf_sloFallback demo_flags)) p) as [_ Hrest].
  { exists (with_fleet (demo_sys 1 2)). split; [exact demo_router_reachable|exact Hr]. }
  destruct Hrest as (Hclients & _ & Hcount).
  { apply quiet_rest.
    - rewrite Hp. eapply (idle_settled _ _ _ _ _ _ _ _ 2); vm_compute; reflexivity.
    - rewrite Hpr. vm_compute. reflexivity. }
  split; [apply Hcount; rewrite Hpr; vm_compute; reflexivity|].
  assert (∃ st, at_stage (pl_live p) 0 (demo_client "Bearer alpha") st) as [st Hi]
    by (rewrite Hp; eexists; unfold at_stage; vm_compute; reflexivity).
  exists st. split; [exact Hi|]. destruct (Hclients _ _ _ Hi) as [Hover|(n & started & w & Hst & _ & Hall)]; [exact Hover|].
  exfalso. rewrite Hp in Hall. apply Forall_lookup_1 with (i := 0%nat) (x := Idle) in Hall; [exact Hall|].
  vm_compute. reflexivity.
Defined.
