(* ===== verification/ControlServer.v ===== *)
(** * The control plane's server (control-plane/cmd/server/main.go, the construction of
    control-plane/router/router.go, and metrics.Setup)

    What main builds from the command line's flags, and the way an eviction takes through
    the parts it connects: the scaler's sweep, the provisioner's command, the worker the
    command starts, and the registry the router reads.  Shutdown has the process
    and its end. *)

From S2P Require Import Prelude GoFloat GoStrings Proto GoTimer Registry GoHttp Router RouterProps Scaler Provisioner Worker.
Open Scope Z_scope.

(** ** router.New and its option *)

(** [rt_hook]: [onRequest] is not nil. *)
Record RouterState := {
  rt_registry : Registry;
  rt_counter : Z;
  rt_inFlight : gmap string Z;
  rt_hook : bool;
}.

Inductive RouterOption := WithRequestHook (fn : bool).

Definition SetRequestHook (fn : bool) (r : RouterState) : RouterState :=
  {| rt_registry := rt_registry r; rt_counter := rt_counter r; rt_inFlight := rt_inFlight r; rt_hook := fn |}.

Definition apply_router_option (r : RouterState) (o : RouterOption) : RouterState :=
  match o with WithRequestHook fn => SetRequestHook fn r end.

Definition NewRouter (r : Registry) (opts : list RouterOption) : RouterState :=
  foldl apply_router_option {| rt_registry := r; rt_counter := 0; rt_inFlight := ∅; rt_hook := false |} opts.

(** ** metrics: the request counter *)

(** The labels of one increment of [llm_requests_total]. *)
Record Increment := {
  label_model : string;
  label_result : string;
}.

Definition Hook (model result : string) : Increment := {| label_model := model; label_result := result |}.

(** The increments one request of the router causes. *)
Definition increments (evs : list Event) : list Increment :=
  omap (λ e, match e with EvHook model result => Some (Hook model result) | _ => None end) evs.

Lemma increments_app l l' : increments (l ++ l') = increments l ++ increments l'.
Proof. apply omap_app. Qed.

Lemma increments_attempts req body ts : increments (concat (attempt_events req body <$> ts)) = [].
Proof. induction ts as [|e ts IH]; [done|]. by rewrite fmap_cons, concat_cons, increments_app, IH. Qed.

Lemma all_silent_last env req body k ts e :
  all_silent env req body k ts → last ts = Some e → no_answer (answer env req body (k + length ts - 1) e).
Proof.
  revert k. induction ts as [|v ts IH]; intros k; [done|]. intros [Hv Hts] Hl. destruct ts as [|v' ts].
  - injection Hl as <-. simpl. by replace (k + 1 - 1)%nat with k by lia.
  - rewrite last_cons_cons in Hl. specialize (IH (S k) Hts Hl). cbn [length] in *.
    by replace (k + S (S (length ts)) - 1)%nat with (S k + S (length ts) - 1)%nat by lia.
Qed.

(** The last worker asked, of [ts], gave an answer that was copied whole. *)
Definition answered_whole (env : nat → AttemptEnv) (req : Request) (body : string) (ts : list WorkerEntry) : bool :=
  match last ts with
  | Some e => match answer env req body (length ts) e with Responded _ _ _ None => true | _ => false end
  | None => false
  end.

(** A routed request the router answers is counted once, as a success when a worker's answer
    was copied whole; one whose handler panicked is not counted. *)
Lemma request_counted `{FmtQuote} `{MapRange} T timeout s env i req model body w evs flow :
  reachable T timeout s → routed i (reg s) req model body →
  Router.handleInference env true i (reg s) req w = (evs, flow) →
  ∃ ts, increments evs = match flow with
    | Panicked _ => []
    | Finished _ => [Hook model (if answered_whole env req body ts then "success" else "error")]
    end ∧ concat (attempt_events req body <$> ts) `prefix_of` evs.
Proof.
  intros Hr Hrt Hrun. destruct (routed_outcome _ _ _ _ _ _ _ _ _ _ _ _ Hr Hrt Hrun) as (ts & _ & _ & Hout).
  destruct Hout as [ts Hl Hsil|ts e st ct bs br Hl Hsil Ha Hv|ts p0 Hl Hsil|ts e st ct bs br Hl Hsil Ha Hv].
  - exists ts. split; [|by apply prefix_app_r]. rewrite increments_app, increments_attempts. simpl.
    unfold answered_whole. destruct (last ts) as [e|] eqn:He; [|done].
    pose proof (all_silent_last _ _ _ _ _ _ Hsil He) as Hn.
    replace (1 + length ts - 1)%nat with (length ts) in Hn by lia. by destruct (answer _ _ _ _ _).
  - exists (ts ++ [e]). split; [|by apply prefix_app_r]. rewrite increments_app, increments_attempts. simpl.
    unfold answered_whole. rewrite last_snoc, length_app, Nat.add_comm. simpl in *. rewrite Ha. by destruct br.
  - exists ts. split; [apply increments_attempts|done].
  - exists ts. split; [|by apply prefix_app_r]. by rewrite increments_app, increments_attempts.
Qed.

(** ** main *)

(** The flags that reach a component; durations in nanoseconds. *)
Record ControlFlags := {
  cf_minHealthy : Z;
  cf_deadGrace : Z;
  cf_dockerImage : string;
  cf_dockerCPAddr : string;
}.

Definition default_control_flags : ControlFlags :=
  {| cf_minHealthy := 1; cf_deadGrace := DefaultDeadGrace; cf_dockerImage := "";
     cf_dockerCPAddr := "host.docker.internal:50051" |}.

Record Plane := {
  cp_registry : Registry;
  cp_router : RouterState;
  cp_scaler : Scaler;
  cp_docker : option DockerProvisioner;
}.

(** [ExtraArgs] is not set. *)
Definition docker (f : ControlFlags) : option DockerProvisioner :=
  if decide (cf_dockerImage f = "") then None
  else Some {| Image := cf_dockerImage f; ControlPlane := cf_dockerCPAddr f; ExtraArgs := []; run := None |}.

Definition scaler_options (f : ControlFlags) : list Opt :=
  [WithMinHealthy (cf_minHealthy f); WithDeadGrace (cf_deadGrace f)] ++
  (if docker f is Some _ then [WithOnWorkerEvicted] else []).

Definition control_plane (f : ControlFlags) : Plane :=
  let r := New DefaultDeadTimeout in
  {| cp_registry := r; cp_router := SetRequestHook true (NewRouter r []);
     cp_scaler := NewScaler (scaler_options f); cp_docker := docker f |}.

(** ** The status lines *)

(** One line of the fleet printer. *)
Record StatusLine := {
  sl_worker : string;
  sl_state : WorkerState;
  sl_queue : Z;
  sl_rps : float64;
  sl_latency : float64;
  sl_vram_mb : Z;
}.

Definition status_line (w : WorkerEntry) : StatusLine :=
  {| sl_worker := WorkerId (Info w); sl_state := State w; sl_queue := QueueDepth (Load w);
     sl_rps := RequestsPerSec (Load w); sl_latency := AvgLatencyMs (Load w);
     sl_vram_mb := VramUsedBytes (Load w) / 1024 / 1024 |}.

(** One tick: the number in the heading and the lines, or nothing for an empty fleet. *)
Definition fleet_status `{MapRange} (i : nat) (r : Registry) : option (nat * list StatusLine) :=
  let workers := ListWorkers i r in
  if decide (length workers = 0%nat) then None else Some (length workers, status_line <$> workers).

(** Every registered worker has one line, under its name. *)
Lemma fleet_status_lists `{MapRange} T timeout s i n lines :
  reachable T timeout s → fleet_status i (reg s) = Some (n, lines) →
  n = size (workers (reg s)) ∧ NoDup (sl_worker <$> lines) ∧
  ∀ id, id ∈ sl_worker <$> lines ↔ is_Some (workers (reg s) !! id).
Proof.
  intros Hr. assert (∀ id e, workers (reg s) !! id = Some e → WorkerId (Info e) = id) as Hid.
  { intros id e He. by destruct (wf_workers _ (reachable_wf _ _ _ Hr) _ _ He) as [[] _]. }
  unfold fleet_status. case_decide; [done|]. intros [= <- <-]. rewrite <- list_fmap_compose. split_and!.
  - unfold ListWorkers. by rewrite length_fmap, length_range.
  - by apply (NoDup_ListWorkers i).
  - intros id. rewrite list_elem_of_fmap. setoid_rewrite elem_of_ListWorkers. split.
    + intros (e & -> & id' & He). simpl. rewrite (Hid _ _ He). eauto.
    + intros [e He]. exists e. split; [by rewrite <- (Hid _ _ He)|eauto].
Qed.

(** ** After an eviction *)

(** The calls of [OnWorkerEvicted]: the docker command lines, each with what the provisioner
    made of docker's answer; [unix k] is its clock at the [k]-th and [exec_docker k] the docker
    program then. *)
Definition commands (cp : Plane) (exec_docker : nat → list string → string * option string) (unix : nat → Z)
    (calls : list Eviction) : list (list string * ProvisionLog) :=
  match cp_docker cp with
  | None => []
  | Some p => imap (λ k c, OnEvicted p (exec_docker k) (unix k) (ev_worker c) (ev_models c)) calls
  end.

(** The container that a command line starts, up to its first READY heartbeat; the mock
    worker reads its flags from what follows the image's name. *)
Definition boot (t : Z) (args : list string) (r : Registry) : Registry :=
  match parse_flags (drop 6 args) default_flags with
  | None => r
  | Some f =>
    let '(r1, _) := Register t t (mock_info f) r in
    fst (Heartbeat t t {| hb_WorkerId := fl_id f; hb_State := READY |} r1)
  end.

(** A command that failed starts no container. *)
Fixpoint boots (at_ : nat → Z) (k : nat) (cmds : list (list string * ProvisionLog)) (r : Registry) : Registry :=
  match cmds with
  | [] => r
  | (args, ReplacementStarted _ _ _) :: cmds' => boots at_ (S k) cmds' (boot (at_ k) args r)
  | (_, ProvisionFailed _ _) :: cmds' => boots at_ (S k) cmds' r
  end.

Section healing.
Context (p : DockerProvisioner) (exec_docker : nat → list string → string * option string) (unix : nat → Z).

Definition command (k : nat) (c : Eviction) : list string * ProvisionLog :=
  OnEvicted p (exec_docker k) (unix k) (ev_worker c) (ev_models c).

Definition docker_error (k : nat) (c : Eviction) : option string :=
  snd (exec_docker k (docker_args p (replacement_id (unix k) (ev_worker c)) (ev_models c))).

(** The command line is the same whatever docker does with it. *)
Lemma command_spec k c : run p = None →
  fst (command k c) = docker_args p (replacement_id (unix k) (ev_worker c)) (ev_models c) ∧
  match docker_error k c with
  | None => snd (command k c) = ReplacementStarted (replacement_id (unix k) (ev_worker c)) (ev_worker c) (ev_models c)
  | Some _ => ∃ err, snd (command k c) = ProvisionFailed (ev_worker c) err
  end.
Proof.
  intros Hr. unfold command, docker_error, OnEvicted, Provision, executor. rewrite Hr.
  destruct (exec_docker k _) as [out [err|]]; (split; [done|]); [by eexists|done].
Qed.

(** The entry that takes the place of an evicted worker. *)
Record replaces (c : Eviction) (e : WorkerEntry) : Prop := {
  re_state : State e = READY;
  re_address : Address (Info e) = fl_addr default_flags;
  re_models : ev_models c ≠ [] → Forall (avoids comma) (ev_models c) → ModelsLoaded (Info e) = ev_models c;
}.

Lemma boot_command k c t r : ExtraArgs p = [] →
  ∃ e, workers (boot t (fst (command k c)) r) = <[replacement_id (unix k) (ev_worker c) := e]> (workers r) ∧
    replaces c e.
Proof.
  intros Hx. destruct (command_line_flags p (exec_docker k) (unix k) (ev_worker c) (ev_models c) Hx) as (f & Hf & Hid & Ha & Hm).
  unfold boot, command. rewrite Hf. pose proof Hid as Hid'. simpl in Hid'. unfold Register, Register_start.
  rewrite !decide_False; [|by rewrite Ha|rewrite Hid; unfold replacement_id; by destruct (ev_worker c)].
  simpl. unfold Heartbeat. simpl. rewrite lookup_insert_eq. simpl. rewrite insert_insert_eq, Hid'.
  eexists. split; [reflexivity|]. by split.
Qed.

(** A command puts a worker under the replacement's name, when docker does not fail. *)
Lemma boots_cons at_ j k c cmds r : ExtraArgs p = [] → run p = None →
  ∃ r1, boots at_ j (command k c :: cmds) r = boots at_ (S j) cmds r1 ∧
    match docker_error k c with
    | None => ∃ e, workers r1 = <[replacement_id (unix k) (ev_worker c) := e]> (workers r) ∧ replaces c e
    | Some _ => r1 = r
    end.
Proof.
  intros Hx Hr. destruct (command_spec k c Hr) as [_ Ho]. destruct (boot_command k c (at_ j) r Hx) as (e & He).
  destruct (command k c) as [args log]. cbn [fst snd] in *. destruct (docker_error k c) as [err|].
  - destruct Ho as [err' ->]. by eexists.
  - subst log. eexists. split; [reflexivity|]. by exists e.
Qed.

(** Containers started one after another leave each other's entries alone. *)
Lemma boots_commands at_ k j calls r :
  ExtraArgs p = [] → run p = None → (∀ n, 0 ≤ unix n) → NoDup (ev_worker <$> calls) →
  let r' := boots at_ j (imap (λ n, command (k + n)) calls) r in
  (∀ n c, calls !! n = Some c →
    match docker_error (k + n) c with
    | None => ∃ e, workers r' !! replacement_id (unix (k + n)) (ev_worker c) = Some e ∧ replaces c e
    | Some _ => workers r' !! replacement_id (unix (k + n)) (ev_worker c) =
                workers r !! replacement_id (unix (k + n)) (ev_worker c)
    end) ∧
  (∀ id, (∀ n c, calls !! n = Some c → replacement_id (unix (k + n)) (ev_worker c) ≠ id) →
    workers r' !! id = workers r !! id).
Proof.
  intros Hx Hr Hu. revert k j r. induction calls as [|c calls IH]; intros k j r Hnd; [by split|].
  simpl in Hnd. apply NoDup_cons in Hnd as [Hc Hnd]. rewrite imap_cons.
  assert (imap ((λ n, command (k + n)) ∘ S) calls = imap (λ n, command (S k + n)) calls) as ->
    by (apply imap_ext; intros n c' _; simpl; f_equal; lia).
  destruct (boots_cons at_ j (k + 0) c (imap (λ n, command (S k + n)) calls) r Hx Hr) as (r1 & -> & Hr1).
  destruct (IH (S k) (S j) r1 Hnd) as [Hin Hout].
  assert (∀ n c', calls !! n = Some c' → ∀ m, replacement_id (unix (S k + n)) (ev_worker c') ≠ replacement_id (unix m) (ev_worker c))
    as Hne.
  { intros n c' Hn m Heq. apply replacement_id_inj in Heq; [|apply Hu..]. apply Hc. rewrite <- Heq.
    apply list_elem_of_fmap. exists c'. split; [done|]. by eapply list_elem_of_lookup_2. }
  assert (∀ id, (∀ m, id ≠ replacement_id (unix m) (ev_worker c)) → workers r1 !! id = workers r !! id) as Hr1o.
  { intros id Hid. destruct (docker_error (k + 0) c) as [err|]; [by rewrite Hr1|].
    destruct Hr1 as (e & -> & _). by rewrite lookup_insert_ne. }
  split.
  - intros [|n] c' Hn; simpl in Hn.
    + injection Hn as <-. rewrite Hout by (intros n c' Hn; by apply (Hne n)).
      destruct (docker_error (k + 0) c) as [err|]; [by rewrite Hr1|]. destruct Hr1 as (e & -> & ?).
      exists e. by rewrite lookup_insert_eq.
    + specialize (Hin n c' Hn). replace (k + S n)%nat with (S k + n)%nat by lia.
      destruct (docker_error (S k + n) c') as [err|]; [|done]. rewrite Hin. apply Hr1o. intros m. by apply (Hne n).
  - intros id Hid. rewrite Hout.
    + destruct (docker_error (k + 0) c) as [err|]; [by rewrite Hr1|]. destruct Hr1 as (e & -> & _).
      rewrite lookup_insert_ne; [done|]. by apply (Hid 0%nat).
    + intros n c' Hn. replace (S k + n)%nat with (k + S n)%nat by lia. by apply (Hid (S n)).
Qed.

End healing.

Lemma control_plane_scaler f :
  cp_scaler (control_plane f) =
    {| sweepEvery := DefaultSweepInterval; deadGrace := cf_deadGrace f; minHealthy := cf_minHealthy f;
       hasCallback := bool_decide (cf_dockerImage f ≠ "") |}.
Proof.
  unfold control_plane, scaler_options, docker. cbn [cp_scaler].
  by destruct (decide (cf_dockerImage f = "")) as [->|?]; [|rewrite bool_decide_true].
Qed.

(** The command the server issues for an evicted worker. *)
Definition replacement_command (f : ControlFlags) (now : Z) (id : string) (models : list string) : list string :=
  ["run"; "--rm"; "--detach"; "--name"; replacement_id now id; cf_dockerImage f;
   "--control-plane"; cf_dockerCPAddr f; "--id"; replacement_id now id; "--models"; Join models comma].

(** C8: The fleet heals as far as docker lets it: when nothing else runs during a sweep, every
    worker that has been dead for the grace period is gone after it.  With a docker image
    configured each of them gets one command.  Where docker carries it out and the container
    has registered and reported READY, the router finds, for every model of the evicted
    worker (none of whose names holds a comma), a new worker with the same models, under the
    mock worker's default address; where docker fails, the failure is logged and nobody takes
    the worker's place.  Workers that are not overdue keep their entries, unless a container
    takes their name. *)
Theorem fleet_heals `{MapRange} f T timeout s clock lo hi i j k l r' calls report exec_docker unix at_ :
  let cp := control_plane f in
  reachable T timeout s → (∀ n, lo ≤ clock n ≤ hi) → (∀ n, 0 ≤ unix n) →
  Sweep (cp_scaler cp) clock (λ _ r, r) i j k l (reg s) = (r', calls, report) →
  let cmds := commands cp exec_docker unix calls in
  let r'' := boots at_ 0 cmds r' in
  length cmds = (if decide (cf_dockerImage f = "") then 0%nat else length calls) ∧
  (∀ id e, workers (reg s) !! id = Some e → overdue (cp_scaler cp) lo e →
    workers r' !! id = None ∧
    (cf_dockerImage f ≠ "" → ∃ n log,
       let args := replacement_command f (unix n) id (ModelsLoaded (Info e)) in
       let new_id := replacement_id (unix n) id in
       cmds !! n = Some (args, log) ∧
       match snd (exec_docker n args) with
       | Some _ => (∃ err, log = ProvisionFailed id err) ∧ workers r'' !! new_id = workers r' !! new_id
       | None => Forall (avoids comma) (ModelsLoaded (Info e)) →
         log = ReplacementStarted new_id id (ModelsLoaded (Info e)) ∧
         ∃ e', workers r'' !! new_id = Some e' ∧ Address (Info e') = fl_addr default_flags ∧
           ∀ m, m ∈ ModelsLoaded (Info e) → e' ∈ HealthyWorkersForModel i m r''
       end)) ∧
  (∀ id e, workers (reg s) !! id = Some e → ¬ overdue (cp_scaler cp) hi e →
    (∀ n evicted, replacement_id (unix n) evicted ≠ id) → workers r'' !! id = Some e).
Proof.
  intros cp Hr Hclk Hu Hs cmds r''. subst cp.
  destruct (sweep_alone _ _ _ _ _ _ _ _ _ _ _ _ _ _ Hr Hclk Hs) as (Hnd & Hout & Hin & Hr' & Hcalls).
  set (out := removed _ _ _ _) in *.
  assert (NoDup (ev_worker <$> (call_of <$> out))) as Hndc by (by rewrite <- list_fmap_compose).
  assert (∀ id e, workers (reg s) !! id = Some e → WorkerId (Info e) = id) as Hid.
  { intros id e He. by destruct (wf_workers _ (reachable_wf _ _ _ Hr) _ _ He) as [[] _]. }
  assert (∀ id e, workers (reg s) !! id = Some e → overdue (cp_scaler (control_plane f)) lo e → workers r' !! id = None) as Hgone.
  { intros id e He Hov. rewrite Hr', decide_True; [done|]. apply list_elem_of_fmap. exists e.
    split; [by rewrite (Hid _ _ He)|by eapply Hin]. }
  assert (∀ id e, workers (reg s) !! id = Some e → ¬ overdue (cp_scaler (control_plane f)) hi e →
    workers r' !! id = Some e) as Hkept.
  { intros id e He Hov. rewrite Hr', decide_False; [done|].
    intros (w & -> & Hw)%list_elem_of_fmap. destruct (Hout w Hw) as [Hw' ?]. congruence. }
  unfold cmds, commands in *. unfold r'', cmds. clear r'' cmds Hr' Hout.
  rewrite control_plane_scaler in Hcalls. cbn [hasCallback] in Hcalls. cbn [cp_docker control_plane]. unfold docker.
  destruct (decide (cf_dockerImage f = "")) as [Hi|Hi].
  - rewrite bool_decide_false in Hcalls by (intros Hn; by apply Hn). subst calls. split_and!; [done| |].
    + intros id e He Hov. split; [by eapply Hgone|done].
    + intros id e He Hov _. by apply Hkept.
  - rewrite bool_decide_true in Hcalls by done. subst calls. set (p := {| Image := _ |}).
    destruct (boots_commands p exec_docker unix at_ 0 0 (call_of <$> out) r' eq_refl eq_refl Hu Hndc) as [Hnew Hold].
    split_and!; [by rewrite length_imap| |].
    + intros id e He Hov. split; [by eapply Hgone|]. intros _.
      destruct (list_elem_of_lookup_1 _ _ (Hin _ _ He Hov)) as [n Hn].
      assert ((call_of <$> out) !! n = Some (call_of e)) as Hc by (by rewrite list_lookup_fmap, Hn).
      specialize (Hnew n (call_of e) Hc). destruct (command_spec p exec_docker unix n (call_of e) eq_refl) as [Hargs Hlog].
      exists n, (snd (command p exec_docker unix n (call_of e))). cbv zeta.
      unfold docker_error in *. simpl in Hargs, Hlog, Hnew. rewrite (Hid _ _ He) in *. split.
      { rewrite list_lookup_imap, Hc. simpl. f_equal. rewrite surjective_pairing at 1. f_equal. exact Hargs. }
      change (replacement_command f (unix n) id (ModelsLoaded (Info e)))
        with (docker_args p (replacement_id (unix n) id) (ModelsLoaded (Info e))).
      destruct (snd (exec_docker n _)) as [err|]; [done|]. intros Hav. split; [done|].
      destruct Hnew as (e' & He' & [HS Ha Hm]). exists e'. split_and!; [done..|].
      intros m Hmm. apply elem_of_HealthyWorkersForModel. eexists. split; [exact He'|].
      rewrite HS, Hm; [done|by intros Hnil; simpl in Hnil; rewrite Hnil in Hmm; apply not_elem_of_nil in Hmm|done].
    + intros id e He Hov Hfresh. etrans; [|by apply (Hkept id e)]. apply Hold. intros n c _. apply Hfresh.
Qed.

(** *** Witness *)

Definition demo_flags : ControlFlags :=
  {| cf_minHealthy := 1; cf_deadGrace := DefaultDeadGrace; cf_dockerImage := "llm-worker:latest";
     cf_dockerCPAddr := "host.docker.internal:50051" |}.

Lemma fleet_heals_witness :
  let cp := control_plane demo_flags in
  let '(r', calls, _) := Sweep (cp_scaler cp) (λ _, clock silent_sys) (λ _ r, r) 0 0 0 0 (reg silent_sys) in
  let r'' := boots (λ _, clock silent_sys) 0 (commands cp (λ _ _, ("", None)) (λ _, 1700000012345) calls) r' in
  workers r' !! "w1" = None ∧ length (commands cp (λ _ _, ("", None)) (λ _, 1700000012345) calls) = 1%nat ∧
  ∃ e', workers r'' !! "w1-r12345" = Some e' ∧ e' ∈ HealthyWorkersForModel 0 "llama3" r''.
Proof.
  intros cp. destruct (Sweep _ _ _ _ _ _ _ _) as [[r' calls] report] eqn:Hs.
  destruct (fleet_heals demo_flags prompt DefaultDeadTimeout silent_sys (λ _, clock silent_sys)
    (clock silent_sys) (clock silent_sys) 0 0 0 0 r' calls report (λ _ _, ("", None)) (λ _, 1700000012345)
    (λ _, clock silent_sys)) as (Hlen & Hrep & _).
  - apply silent_reachable.
  - intros n. lia.
  - intros n. lia.
  - exact Hs.
  - destruct (Hrep "w1" silent_entry) as [Hgone Hnew].
    + reflexivity.
    + split; [reflexivity|]. exists DefaultDeadTimeout. split; [reflexivity|]. vm_compute. discriminate.
    + split; [exact Hgone|]. split.
      * fold cp in Hlen. rewrite Hlen. vm_compute in Hs. by injection Hs as _ <- _.
      * destruct Hnew as (n & log & _ & Hm); [done|]. destruct Hm as (_ & e' & He' & _ & Hm).
        -- apply (bool_decide_unpack _). vm_compute. reflexivity.
        -- exists e'. split; [exact He'|]. apply Hm. by left.
Defined.
