(* ===== verification/Shutdown.v ===== *)
(** * The two server processes, from the first signal to their end

    What main of request-plane/cmd/server/main.go and of control-plane/cmd/server/main.go do
    around the running parts: on SIGINT or SIGTERM the context is cancelled and a goroutine
    closes the HTTP servers, or stops the gRPC server gracefully; main returns once its own
    server has been stopped, and the process is over, whatever its other goroutines were
    doing.  A listener that fails ends the process at once. *)

From S2P Require Import Prelude GoFloat GoStrings Proto GoTimer GoHttp GoJson GoUnmarshal Registry RegistryProps Router RouterProps RouterLive RouterRuns Queue Slo Auth Dispatcher Gateway Config Live LiveInv LiveProps Worker WorkerProc.
Open Scope Z_scope.

(** ** The request plane *)

(** [rq_open]: the gateway's listener and its connections; [rq_admin]: the admin server's.
    [rq_cut]: the clients as they stood when their connections were closed (history). *)
Record RequestProcess := {
  rq_live : Live;
  rq_open : bool;
  rq_admin : bool;
  rq_exited : bool;
  rq_cut : option (list Client);
}.

Definition rq_run (s : Live) (p : RequestProcess) : RequestProcess :=
  {| rq_live := s; rq_open := rq_open p; rq_admin := rq_admin p; rq_exited := rq_exited p; rq_cut := rq_cut p |}.

(** [srv.Close()]. *)
Definition rq_close (p : RequestProcess) : RequestProcess :=
  {| rq_live := rq_live p; rq_open := false; rq_admin := rq_admin p; rq_exited := rq_exited p;
     rq_cut := Some (default (lv_clients (rq_live p)) (rq_cut p)) |}.

(** [adminSrv.Close()]. *)
Definition rq_close_admin (p : RequestProcess) : RequestProcess :=
  {| rq_live := rq_live p; rq_open := rq_open p; rq_admin := false; rq_exited := rq_exited p; rq_cut := rq_cut p |}.

(** main returns, or [log.Fatalf]: every connection is gone. *)
Definition rq_exit (p : RequestProcess) : RequestProcess :=
  {| rq_live := rq_live p; rq_open := false; rq_admin := false; rq_exited := true;
     rq_cut := Some (default (lv_clients (rq_live p)) (rq_cut p)) |}.

(** The response client [i] has received. *)
Definition heard (p : RequestProcess) (i : nat) : option Response :=
  cl ← default (lv_clients (rq_live p)) (rq_cut p) !! i;
  match cl_stage cl with Live.Over _ rs => Some rs | _ => None end.

Section request_process.
Context `{JsonError} `{FmtQuote} (d : Dispatcher) (g : Gateway) (target : Target) (fused : bool).

(** New clients need the listener.  [q_close] is the goroutine that waits for the context;
    [q_exit]: [ListenAndServe] has returned [ErrServerClosed]; [q_fatal]: one of the
    listeners failed. *)
Inductive request_step (p : RequestProcess) : RequestProcess → Prop :=
  | q_outside s :
      rq_exited p = false → outside (rq_live p) s →
      (rq_open p = true ∨ length (lv_clients s) = length (lv_clients (rq_live p))) →
      request_step p (rq_run s p)
  | q_inside s : rq_exited p = false → inside d g target fused (rq_live p) s → request_step p (rq_run s p)
  | q_close :
      rq_exited p = false → lv_stopping (rq_live p) = true → rq_open p = true → request_step p (rq_close p)
  | q_close_admin :
      rq_exited p = false → lv_stopping (rq_live p) = true → rq_open p = false → rq_admin p = true →
      request_step p (rq_close_admin p)
  | q_exit : rq_exited p = false → rq_open p = false → request_step p (rq_exit p)
  | q_fatal : rq_exited p = false → rq_open p = true ∨ rq_admin p = true → request_step p (rq_exit p).

(** main has started the pool and the servers. *)
Definition request_process (c : nat) (t0 : Z) (tr : LatencyTracker) : RequestProcess :=
  {| rq_live := live_start d c t0 tr; rq_open := true; rq_admin := true; rq_exited := false; rq_cut := None |}.

Definition process_reachable (c : nat) (t0 : Z) (tr : LatencyTracker) (p : RequestProcess) : Prop :=
  rtc request_step (request_process c t0 tr) p.

Record request_inv (c : nat) (t0 : Z) (tr : LatencyTracker) (p : RequestProcess) : Prop := {
  rv_live : live_reachable d g target fused c t0 tr (rq_live p);
  rv_cut : match rq_cut p with
    | Some cs => rq_open p = false ∧ ∃ s, live_reachable d g target fused c t0 tr s ∧ lv_clients s = cs
    | None => rq_open p = true ∧ rq_exited p = false
    end;
}.

Lemma live_reachable_step c t0 tr s s' :
  live_reachable d g target fused c t0 tr s → live_step d g target fused s s' →
  live_reachable d g target fused c t0 tr s'.
Proof. intros Hr Hs. eapply rtc_r; [exact Hr|exact Hs]. Qed.

Lemma request_step_inv c t0 tr p p' : request_step p p' → request_inv c t0 tr p → request_inv c t0 tr p'.
Proof.
  intros Hs [Hl Hc].
  assert (match Some (default (lv_clients (rq_live p)) (rq_cut p)) with
    | Some cs => ∃ s, live_reachable d g target fused c t0 tr s ∧ lv_clients s = cs | None => False end) as Hcut.
  { destruct (rq_cut p) as [cs|]; simpl; [by destruct Hc|eauto]. }
  destruct Hs as [s He Ho Hn|s He Hi|He Hst Hop|He Hst Hop Hadm|He Hop|He Hop].
  - split; simpl; [eapply live_reachable_step; [done|by left]|done].
  - split; simpl; [eapply live_reachable_step; [done|by right]|done].
  - by split; simpl.
  - by split; simpl.
  - by split; simpl.
  - by split; simpl.
Qed.

Lemma process_reachable_inv c t0 tr p : process_reachable c t0 tr p → request_inv c t0 tr p.
Proof.
  intros Hr. apply (invariant_rtc request_step (request_inv c t0 tr)) in Hr; [done|intros; by eapply request_step_inv|].
  split; simpl; [apply rtc_refl|done].
Qed.

(** *** What clients have by the end *)

Definition over_in (cs : list Client) (i : nat) : option Response :=
  cl ← cs !! i; match cl_stage cl with Live.Over _ rs => Some rs | _ => None end.

Lemma handle_over s i r s' j rs :
  handle g target fused s i r s' → over_in (lv_clients s) j = Some rs → over_in (lv_clients s') j = Some rs.
Proof.
  unfold over_in. intros Hh Hj.
  assert (∀ st, at_stage s i r st → (∀ n rs', st ≠ Live.Over n rs') → i ≠ j) as Hne.
  { intros st Hi Hst ->. unfold at_stage in Hi. rewrite Hi in Hj. simpl in Hj. destruct st; try done. by eapply Hst. }
  destruct Hh as [? ? Hi| ? Hi| ? ? Hi| ? ? ? Hi| ? ? ? Hi| ? ? ? Hi| ? ? Hi| ? ? Hi| ? ? ? ? ? Hi| ? ? ? ? Hi
    | ? ? ? ? ? ? ? Hi| ? ? ? ? ? ? Hi| ? ? ? ? Hi]; pose proof (Hne _ Hi ltac:(done)); simpl; by rewrite list_lookup_insert_ne.
Qed.

Lemma live_step_over s s' j rs :
  live_step d g target fused s s' → over_in (lv_clients s) j = Some rs → over_in (lv_clients s') j = Some rs.
Proof.
  intros [Ho|[(i & r & Hh)|(k & ask & Hp)]] Hj; [|by eapply handle_over|by destruct Hp].
  destruct Ho; [|done..]. unfold over_in in *. simpl. apply bind_Some in Hj as (cl & Hcl & Hst).
  rewrite lookup_app_l by (by eapply lookup_lt_Some). by rewrite Hcl.
Qed.

Lemma request_step_heard c t0 tr p p' i :
  request_inv c t0 tr p → request_step p p' →
  (∀ rs, heard p i = Some rs → heard p' i = Some rs) ∧ (rq_open p = false → heard p' i = heard p i).
Proof.
  intros [_ Hc] Hs. assert (∀ q, heard q i = over_in (default (lv_clients (rq_live q)) (rq_cut q)) i) as Hh by done.
  rewrite !Hh. destruct Hs as [s He Ho _|s He Hi|He Hst Hop|He Hst Hop Hadm|He Hop|He Hop]; simpl; [| |done..].
  - destruct (rq_cut p) as [cs|]; simpl; [done|]. destruct Hc as [-> _].
    split; [|done]. intros rs. apply live_step_over. by left.
  - destruct (rq_cut p) as [cs|]; simpl; [done|]. destruct Hc as [-> _].
    split; [|done]. intros rs. apply live_step_over. by right.
Qed.

Lemma heard_later c t0 tr p p' i :
  process_reachable c t0 tr p → rtc request_step p p' →
  (∀ rs, heard p i = Some rs → heard p' i = Some rs) ∧ (rq_open p = false → heard p' i = heard p i).
Proof.
  intros Hr%process_reachable_inv Hs.
  apply (invariant_rtc request_step (λ q, request_inv c t0 tr q ∧ (rq_open p = false → rq_open q = false) ∧
    (∀ rs, heard p i = Some rs → heard q i = Some rs) ∧ (rq_open p = false → heard q i = heard p i))) in Hs;
    [by destruct Hs as (_ & _ & ?)| |done].
  intros q q' Hq (Hi & Ho & Hrs & Heq). destruct (request_step_heard c t0 tr q q' i Hi Hq) as [H1 H2].
  split_and!; [by eapply request_step_inv| |auto|].
  - intros Hp. specialize (Ho Hp). by destruct Hq.
  - intros Hp. rewrite H2 by auto. by apply Heq.
Qed.

(** C40: The shutdown drains nothing: whatever the state of the server - requests in their lanes,
    with dispatchers, streams half sent - the process can be over three steps after the
    signal, with everything it had accepted left as it was.  A client has by then what had
    been written before its connection was closed: a response it has heard stays the one it
    heard, is the answer [own_answer] speaks of if its request was queued, and after the
    close nobody hears anything more. *)
Theorem shutdown_drains_nothing c t0 tr p :
  process_reachable c t0 tr p →
  (rq_exited p = false → rq_open p = true → ∃ p', nsteps request_step 3 p p' ∧ rq_exited p' = true ∧
    lv_lanes (rq_live p') = lv_lanes (rq_live p) ∧ lv_cells (rq_live p') = lv_cells (rq_live p) ∧
    lv_pool (rq_live p') = lv_pool (rq_live p) ∧ ∀ i, heard p' i = heard p i) ∧
  (∀ i rs, heard p i = Some rs →
    (∃ s r n, live_reachable d g target fused c t0 tr s ∧ at_stage s i r (Live.Over n rs)) ∧
    ∀ p', rtc request_step p p' → heard p' i = Some rs) ∧
  (rq_open p = false → ∀ p' i, rtc request_step p p' → heard p' i = heard p i).
Proof.
  intros Hr. pose proof (process_reachable_inv _ _ _ _ Hr) as [Hl Hc]. split_and!.
  - intros He Ho. set (p1 := rq_run (set_world (lv_clock (rq_live p)) true (rq_live p)) p).
    exists (rq_exit (rq_close p1)). split.
    + eapply nsteps_l; [apply (q_outside p); [done|apply o_cancel|by left]|].
      eapply nsteps_l; [by apply (q_close p1)|]. by apply nsteps_once, q_exit.
    + by split_and!.
  - intros i rs Hi. split; [|intros p' Hp'; by apply (heard_later c t0 tr p p' i Hr Hp')].
    unfold heard in Hi. apply bind_Some in Hi as ([r st] & Hcl & Hst). simpl in Hst.
    destruct st as [| | | | | | | | |n rs']; try done. injection Hst as ->.
    destruct (rq_cut p) as [cs|]; [|by exists (rq_live p), r, n].
    destruct Hc as (_ & s & Hs & Hcs). exists s, r, n. split; [done|]. unfold at_stage. by rewrite Hcs.
  - intros Ho p' i Hp'. by apply (heard_later c t0 tr p p' i Hr Hp').
Qed.

End request_process.

(** ** The control plane *)

(** The gRPC server: serving, in [GracefulStop], stopped. *)
Inductive Grpc :=
  | Accepting
  | Stopping
  | Stopped.

Record ControlProcess := {
  cx_sys : RouterSys;
  cx_cancelled : bool;
  cx_grpc : Grpc;
  cx_exited : bool;
}.

Definition cx_run (s : RouterSys) (p : ControlProcess) : ControlProcess :=
  {| cx_sys := s; cx_cancelled := cx_cancelled p; cx_grpc := cx_grpc p; cx_exited := cx_exited p |}.

Definition cx_cancel (p : ControlProcess) : ControlProcess :=
  {| cx_sys := cx_sys p; cx_cancelled := true; cx_grpc := cx_grpc p; cx_exited := cx_exited p |}.

Definition cx_stop (st : Grpc) (p : ControlProcess) : ControlProcess :=
  {| cx_sys := cx_sys p; cx_cancelled := cx_cancelled p; cx_grpc := st; cx_exited := cx_exited p |}.

Definition cx_exit (p : ControlProcess) : ControlProcess :=
  {| cx_sys := cx_sys p; cx_cancelled := cx_cancelled p; cx_grpc := cx_grpc p; cx_exited := true |}.

Section control_process.
Context (hook : bool) `{FmtQuote} `{MapRange} (T : Timing) (timeout : Z).

(** The registry's steps that begin no call of a worker: timers, the admin API's drains, the
    evictions of a sweep under way, the end of a [Register] that had begun. *)
Inductive own_move (s : Sys) : Sys → Prop :=
  | m_tick t : clock s ≤ t → own_move s (advance (reg s) t s)
  | m_register_finish n e r resp :
      starting s !! n = Some e → clock s ≤ LastHeartbeat e + insert_delay T →
      Register_finish e (reg s) = (r, resp) →
      own_move s {| reg := r; clock := clock s; starting := delete n (starting s) |}
  | m_request_drain id r err :
      RequestDrain id (reg s) = (r, err) → own_move s (advance r (clock s) s)
  | m_evict id r err : Evict id (reg s) = (r, err) → own_move s (advance r (clock s) s)
  | m_expire i h :
      expire i (clock s) (heap (reg s)) = Some h → own_move s (advance (set_heap h (reg s)) (clock s) s)
  | m_mark_dead n cb h since now :
      take_callback n (heap (reg s)) = Some (cb, h) → cb_at cb + latency T ≤ since → clock s ≤ since ≤ now →
      own_move s (advance (markDead since now (cb_arg cb) (set_heap h (reg s))) now s).

Lemma own_move_step s s' : own_move s s' → step T s s'.
Proof.
  destruct 1; [by constructor|by eapply step_register_finish|by eapply step_request_drain|by eapply step_evict
    |by eapply step_expire|by eapply step_mark_dead].
Qed.

(** The HTTP servers are never told to stop.  [c_graceful] is the goroutine that waits for
    the context: from then on no call is accepted; [c_stopped]: the calls under way are over,
    [GracefulStop] and [Serve] return; [c_fatal]: a listener failed. *)
Inductive control_step (p : ControlProcess) : ControlProcess → Prop :=
  | c_run s :
      cx_exited p = false → router_step hook T (cx_sys p) s →
      cx_grpc p = Accepting ∨ rs_fleet s = rs_fleet (cx_sys p) ∨ own_move (rs_fleet (cx_sys p)) (rs_fleet s) →
      control_step p (cx_run s p)
  | c_signal : cx_exited p = false → control_step p (cx_cancel p)
  | c_graceful :
      cx_exited p = false → cx_cancelled p = true → cx_grpc p = Accepting → control_step p (cx_stop Stopping p)
  | c_stopped :
      cx_exited p = false → cx_grpc p = Stopping → starting (rs_fleet (cx_sys p)) = [] →
      control_step p (cx_stop Stopped p)
  | c_exit : cx_exited p = false → cx_grpc p = Stopped → control_step p (cx_exit p)
  | c_fatal : cx_exited p = false → control_step p (cx_exit p).

Definition control_process (t0 : Z) : ControlProcess :=
  {| cx_sys := router_init timeout t0; cx_cancelled := false; cx_grpc := Accepting; cx_exited := false |}.

Lemma own_move_starting s s' : own_move s s' → (length (starting s') ≤ length (starting s))%nat.
Proof. destruct 1; simpl; try done. rewrite length_delete; [lia|by eexists]. Qed.

Lemma control_step_inv p p' :
  control_step p p' →
  router_reachable hook T timeout (cx_sys p) ∧ (cx_grpc p = Stopped → starting (rs_fleet (cx_sys p)) = []) →
  router_reachable hook T timeout (cx_sys p') ∧ (cx_grpc p' = Stopped → starting (rs_fleet (cx_sys p')) = []).
Proof.
  intros Hs [Hr Hst]. destruct Hs as [s He Hs Hcase|He|He Hc Hg|He Hg Hnil|He Hg|He]; simpl; try done.
  split; [destruct Hr as [t0 Hr]; exists t0; by eapply rtc_r|]. intros Hg. specialize (Hst Hg).
  destruct Hcase as [Ha|[->|Hm]]; [congruence|done|]. apply own_move_starting in Hm. rewrite Hst in Hm.
  by apply nil_length_inv; simpl in *; lia.
Qed.

(** Only workers get a graceful end: once the gRPC server has stopped, every [Register] that
    had begun has been carried out.  Requests that the router has sent to workers are not
    waited for: from any moment without a [Register] under way the process can be over four
    steps after the signal, each handler where it was. *)
Theorem control_plane_stops t0 p :
  rtc control_step (control_process t0) p →
  (cx_grpc p = Stopped → starting (rs_fleet (cx_sys p)) = []) ∧
  (cx_exited p = false → cx_grpc p = Accepting → starting (rs_fleet (cx_sys p)) = [] →
    ∃ p', nsteps control_step 4 p p' ∧ cx_exited p' = true ∧ cx_sys p' = cx_sys p) ∧
  router_reachable hook T timeout (cx_sys p).
Proof.
  intros Hr.
  apply (invariant_rtc control_step (λ p, router_reachable hook T timeout (cx_sys p) ∧
    (cx_grpc p = Stopped → starting (rs_fleet (cx_sys p)) = [])) control_step_inv) in Hr as [Hr Hst];
    [|split; [by exists t0; apply rtc_refl|done]].
  split_and!; [done| |done]. intros He Hg Hnil.
  exists (cx_exit (cx_stop Stopped (cx_stop Stopping (cx_cancel p)))). split_and!; [|done..].
  eapply nsteps_l; [by apply c_signal|]. eapply nsteps_l; [by apply c_graceful|].
  eapply nsteps_l; [by apply c_stopped|]. by apply nsteps_once, c_exit.
Qed.

End control_process.

(** ** After a restart *)

Section restart.
Context (T : Timing) (k : Kind) (id : string).

(** The registry does not hold the worker, and nobody has told it to drain. *)
Record unheard (w : Proc * Sys) : Prop := {
  uh_entry : workers (reg (snd w)) !! id = None;
  uh_hb : p_hb (fst w) ≠ hb_told ∧ p_hb (fst w) ≠ hb_final;
  uh_drained : p_drained (fst w) = false;
}.

Lemma own_step_unheard p p' s : own_step k id p p' → unheard (p, s) → unheard (p', s).
Proof. intros Hs [He [Ht Hf] Hd]. simpl in *. destruct Hs; split; simpl; try done; by rewrite ?H. Qed.

Lemma world_step_unheard w w' : world_step T k id w w' → unheard w → unheard w'.
Proof.
  destruct w as [p s]. intros Hs Hu. pose proof Hu as [He [Ht Hfi] Hd]. simpl in *.
  destruct Hs as [p' Hx Ho|st a b r resp answered Hx Hhb Ha Hb Hr|a b r resp Hx Hhb Ha Hb Hr|l r resp Hx Hld Hr
    |r resp Hx Hmn Hr| |s' Hs Hf]; simpl in *.
  - by eapply own_step_unheard.
  - destruct (heartbeat_entry id a b st _ _ _ Hr) as [(_ & Hw & err & ->)|(e & He' & _)]; [|congruence].
    split; simpl; [by rewrite Hw| |done]. by destruct answered.
  - done.
  - split; simpl; [|done..]. pose proof (ReportLoad_foreign id s l r resp (clock s) Hr) as Hf.
    unfold foreign in Hf. by rewrite He in Hf.
  - split; simpl; [|done..]. unfold Deregister in Hr. simpl in Hr. rewrite He in Hr. by injection Hr as <- _.
  - by split.
  - split; simpl; [|done..]. unfold foreign in Hf. by rewrite He in Hf.
Qed.

Lemma unheard_later w w' : rtc (world_step T k id) w w' → unheard w → unheard w'.
Proof. intros Hr. apply (invariant_rtc (world_step T k id) unheard world_step_unheard _ _ Hr). Qed.

Lemma world_step_fleet w w' : world_step T k id w w' → rtc (step T) (snd w) (snd w').
Proof.
  destruct 1 as [p' _ Hown|st a b r resp answered _ Hhb Ha Hb Hr|a b r resp _ Hhb Ha Hb Hr|l r resp _ Hld Hr
    |r resp _ Hm Hr| |s' Hstep Hf]; simpl; try apply rtc_refl; apply rtc_once.
  - by eapply step_heartbeat.
  - by eapply step_heartbeat.
  - by eapply step_report_load.
  - by eapply step_deregister.
  - done.
Qed.

(** C39: A control plane that is started again has lost its fleet for good: a worker that was
    registered with the old process and goes on running among any others - with any calls
    lost, and unless somebody else registers its name - is in no state of the new registry,
    so no request is routed to it and no drain reaches it; it does not register anew. *)
Theorem restart_loses_workers timeout t0 p w' :
  p_hb p = hb_select ∨ (∃ st, p_hb p = hb_call st) → p_drained p = false →
  rtc (world_step T k id) (p, init timeout t0) w' →
  workers (reg (snd w')) !! id = None ∧ p_drained (fst w') = false ∧
  ∀ `{MapRange} i m e, e ∈ HealthyWorkersForModel i m (reg (snd w')) → WorkerId (Info e) ≠ id.
Proof.
  intros Hhb Hd Hr.
  assert (unheard (p, init timeout t0)) as Hu.
  { split; simpl; [by rewrite lookup_empty| |done]. by destruct Hhb as [->|[st ->]]. }
  destruct (unheard_later _ _ Hr Hu) as [He _ Hd']. split_and!; [done..|].
  intros mr i m e (id' & Hin & _)%elem_of_HealthyWorkersForModel Hid.
  assert (reachable T timeout (snd w')) as Hreach.
  { exists t0. clear -Hr. remember (p, init timeout t0) as w eqn:E.
    assert (snd w = init timeout t0) as <- by (by rewrite E). clear E.
    induction Hr as [|w1 w2 w3 Hs _ IH]; [apply rtc_refl|]. etrans; [by apply world_step_fleet|exact IH]. }
  destruct (wf_workers _ (reachable_wf _ _ _ Hreach) _ _ Hin) as [[Hk] _]. congruence.
Qed.

End restart.

(** ** Witnesses *)

Section running_processes.
Context `{JsonError} `{FmtQuote} (d : Dispatcher) (g : Gateway) (target : Target) (fused : bool).

(** What the request plane does before any signal is a run of its process. *)
Lemma live_run_steps p a b :
  rq_exited p = false → rq_open p = true → rtc (live_step d g target fused) a b →
  rtc (request_step d g target fused) (rq_run a p) (rq_run b p).
Proof.
  intros He Ho Hr. induction Hr as [a|a a1 b Hs _ IH]; [apply rtc_refl|].
  eapply rtc_l; [|exact IH]. destruct Hs as [Hs|Hs].
  - apply (q_outside d g target fused (rq_run a p)); [done|done|by left].
  - by apply (q_inside d g target fused (rq_run a p)).
Qed.

Lemma live_run_process c t0 tr s :
  live_reachable d g target fused c t0 tr s →
  process_reachable d g target fused c t0 tr (rq_run s (request_process d c t0 tr)).
Proof. intros Hr. by apply (live_run_steps (request_process d c t0 tr) (live_start d c t0 tr)). Qed.

End running_processes.

Lemma router_run_steps hook `{FmtQuote} `{MapRange} T p a b :
  cx_exited p = false → cx_grpc p = Accepting → rtc (router_step hook T) a b →
  rtc (control_step hook T) (cx_run a p) (cx_run b p).
Proof.
  intros He Hg Hr. induction Hr as [a|a a1 b Hs _ IH]; [apply rtc_refl|].
  eapply rtc_l; [|exact IH]. apply (c_run hook T (cx_run a p)); [done|done|by left].
Qed.

(** A request waits in its lane when the signal comes. *)
Lemma shutdown_drains_nothing_witness :
  ∃ p', rq_exited p' = true ∧ queued (lv_lanes (rq_live p')) = [0%nat] ∧ heard p' 0 = None.
Proof.
  pose proof (@live_run_process demo_error (λ s, s) demo_dispatcher demo_server (portable NoFusing) false 2 0 _ _
    (demo_after_reachable 5)) as Hr.
  set (p := rq_run (demo_after 5) _) in Hr.
  destruct (@shutdown_drains_nothing demo_error (λ s, s) demo_dispatcher demo_server (portable NoFusing) false 2 0 _ p Hr)
    as [Hex _].
  destruct (Hex eq_refl eq_refl) as (p' & _ & He & Hl & _ & _ & Hh).
  exists p'. split; [exact He|]. rewrite Hl, Hh. split; vm_compute; reflexivity.
Defined.

(** A request is with a worker when the signal comes. *)
Lemma control_plane_stops_witness :
  ∃ p', cx_exited p' = true ∧ in_flight_to "b" (cx_sys p') = 1%nat.
Proof.
  destruct (demo_run_reachable (Arrive RouterProps.demo_post :: replicate 7 (Go 0 served_200))) as [t0 Hr].
  apply (router_run_steps true pair_timing (control_process DefaultDeadTimeout t0)) in Hr; [|done..].
  destruct (control_plane_stops true pair_timing DefaultDeadTimeout t0 _ Hr) as (_ & Hex & _).
  destruct (Hex eq_refl eq_refl) as (p' & _ & He & Hs); [vm_compute; reflexivity|].
  exists p'. split; [exact He|]. rewrite Hs. vm_compute. reflexivity.
Defined.

(** A heartbeat to the new process is refused. *)
Lemma restart_loses_workers_witness :
  ∃ w', rtc (world_step demo_timing demo_mock "w1") (started demo_mock, init DefaultDeadTimeout 0) w' ∧
    p_hb (fst w') = hb_select ∧ workers (reg (snd w')) !! "w1" = None.
Proof.
  set (refused := {| code := NotFound; msg := "worker w1 not registered; re-register" |}).
  set (w' := (set_hb hb_select (set_hb (hb_call STARTING) (started demo_mock)),
    advance (reg (init DefaultDeadTimeout 0)) 0 (init DefaultDeadTimeout 0))).
  assert (rtc (world_step demo_timing demo_mock "w1") (started demo_mock, init DefaultDeadTimeout 0) w') as Hr.
  { eapply rtc_l; [apply (w_own _ _ _ (started demo_mock, init DefaultDeadTimeout 0)); [done|by apply own_tick]|].
    apply rtc_once.
    apply (w_heartbeat demo_timing demo_mock "w1" (set_hb (hb_call STARTING) (started demo_mock), init DefaultDeadTimeout 0)
      STARTING 0 0 (reg (init DefaultDeadTimeout 0)) (inr refused) true); [done|done|simpl; lia|simpl; lia|reflexivity]. }
  exists w'. split; [exact Hr|]. split; [reflexivity|].
  destruct (restart_loses_workers demo_timing demo_mock "w1" DefaultDeadTimeout 0 (started demo_mock) w'
    (or_introl eq_refl) eq_refl Hr) as [He _]. exact He.
Defined.
