(* ===== verification/Observe.v ===== *)
(** * The control plane's admin API and metrics (control-plane/api, control-plane/metrics)

    The handlers return their status and the value they encode; a scrape returns
    the samples it sends.  [i], [j], ... number the loops over maps. *)

From S2P Require Import Prelude GoFloat FloatExact Proto GoTimer Registry GoHttp Router.
Open Scope Z_scope.

(** ** api/admin.go *)

Record loadResp := {
  lr_QueueDepth : Z;
  lr_RequestsPerSec : float64;
  lr_AvgLatencyMs : float64;
  VramUsedMB : Z;
}.

Record workerResp := {
  wr_ID : string;
  wr_Address : string;
  wr_State : string;
  wr_Backend : string;
  wr_Provider : string;
  wr_Hardware : string;
  wr_Models : list string;
  wr_CostPerHour : float64;
  wr_RegisteredAt : Z;
  wr_LastHeartbeat : Z;
  wr_DrainRequested : bool;
  InFlight : Z;
  wr_Load : loadResp;
}.

Record modelResp := {
  mr_Model : string;
  mr_TotalWorkers : nat;
  mr_HealthyWorkers : nat;
  mr_TotalInFlight : Z;
}.

Record statsResp := {
  Total : Z;
  Healthy : Z;
  Starting : Z;
  Draining : Z;
  Dead : Z;
  TotalInFlight : Z;
  FleetCostPerHour : float64;
}.

Definition toWorkerResp (e : WorkerEntry) (inFlight : Z) : workerResp := {|
  wr_ID := WorkerId (Info e); wr_Address := Address (Info e); wr_State := WorkerState_String (State e);
  wr_Backend := Backend (Info e); wr_Provider := Provider (Info e); wr_Hardware := Hardware (Info e);
  wr_Models := ModelsLoaded (Info e); wr_CostPerHour := CostPerHour (Info e);
  wr_RegisteredAt := RegisteredAt e; wr_LastHeartbeat := LastHeartbeat e;
  wr_DrainRequested := DrainRequested e; InFlight := inFlight;
  wr_Load := {| lr_QueueDepth := QueueDepth (Load e); lr_RequestsPerSec := RequestsPerSec (Load e);
                lr_AvgLatencyMs := AvgLatencyMs (Load e);
                VramUsedMB := VramUsedBytes (Load e) / 1024 / 1024 |} |}.

(** An error body or a confirmation. *)
Inductive Message :=
  | WorkerNotFound
  | DrainError (err : string)
  | DrainRequestedFor (worker_id : string).

Definition no_stats (n : nat) : statsResp :=
  {| Total := Z.of_nat n; Healthy := 0; Starting := 0; Draining := 0; Dead := 0; TotalInFlight := 0;
     FleetCostPerHour := S754_zero false |}.

(** One round of the loop in [stats]. *)
Definition count_stats (inFlight : gmap string Z) (s : statsResp) (e : WorkerEntry) : statsResp :=
  let s1 := match State e with
    | READY | BUSY =>
      {| Total := Total s; Healthy := Healthy s + 1; Starting := Starting s; Draining := Draining s;
         Dead := Dead s; TotalInFlight := TotalInFlight s;
         FleetCostPerHour := f_add (FleetCostPerHour s) (CostPerHour (Info e)) |}
    | STARTING =>
      {| Total := Total s; Healthy := Healthy s; Starting := Starting s + 1; Draining := Draining s;
         Dead := Dead s; TotalInFlight := TotalInFlight s; FleetCostPerHour := FleetCostPerHour s |}
    | DRAINING =>
      {| Total := Total s; Healthy := Healthy s; Starting := Starting s; Draining := Draining s + 1;
         Dead := Dead s; TotalInFlight := TotalInFlight s; FleetCostPerHour := FleetCostPerHour s |}
    | DEAD =>
      {| Total := Total s; Healthy := Healthy s; Starting := Starting s; Draining := Draining s;
         Dead := Dead s + 1; TotalInFlight := TotalInFlight s; FleetCostPerHour := FleetCostPerHour s |}
    | UnrecognizedState _ => s
    end in
  {| Total := Total s1; Healthy := Healthy s1; Starting := Starting s1; Draining := Draining s1;
     Dead := Dead s1; TotalInFlight := int64 (TotalInFlight s1 + getInFlight inFlight (WorkerId (Info e)));
     FleetCostPerHour := FleetCostPerHour s1 |}.

Section api.
Context `{MapRange}.

(** [inFlight] is the router's snapshot, read before the registry. *)
Definition listWorkers (i : nat) (inFlight : gmap string Z) (r : Registry) : Z * list workerResp :=
  (StatusOK, (λ e, toWorkerResp e (getInFlight inFlight (WorkerId (Info e)))) <$> ListWorkers i r).

Definition getWorker (inFlight : gmap string Z) (id : string) (r : Registry) : Z * (Message + workerResp) :=
  match GetWorker id r with
  | None => (StatusNotFound, inl WorkerNotFound)
  | Some e => (StatusOK, inr (toWorkerResp e (getInFlight inFlight id)))
  end.

Definition drainWorker (id : string) (r : Registry) : Registry * (Z * Message) :=
  match RequestDrain id r with
  | (r', Some err) => (r', (StatusNotFound, DrainError err))
  | (r', None) => (r', (StatusOK, DrainRequestedFor id))
  end.

Definition stats (i : nat) (inFlight : gmap string Z) (r : Registry) : Z * statsResp :=
  let workers := ListWorkers i r in
  (StatusOK, foldl (count_stats inFlight) (no_stats (length workers)) workers).

(** [workersByModel], from the registry [r2] of the second listing. *)
Definition add_models (m : gmap string (list string)) (e : WorkerEntry) : gmap string (list string) :=
  foldl (λ m model, <[model := default [] (m !! model) ++ [WorkerId (Info e)]]> m) m (ModelsLoaded (Info e)).

Definition workersByModel (i : nat) (r : Registry) : gmap string (list string) :=
  foldl add_models ∅ (ListWorkers i r).

Definition listModels (i j k : nat) (inFlight : gmap string Z) (r1 r2 : Registry) : Z * list modelResp :=
  let byModel := workersByModel k r2 in
  (StatusOK, (λ ms,
    {| mr_Model := Model ms; mr_TotalWorkers := TotalWorkers ms; mr_HealthyWorkers := HealthyWorkers ms;
       mr_TotalInFlight := foldl (λ t wid, int64 (t + getInFlight inFlight wid)) 0
                             (default [] (byModel !! Model ms)) |})
    <$> ModelsServed i j r1).

(** ** metrics/metrics.go *)

Record Counts := {
  c_starting : float64;
  c_ready : float64;
  c_busy : float64;
  c_draining : float64;
  c_dead : float64;
  fleetCost : float64;
}.

Definition no_counts : Counts :=
  {| c_starting := S754_zero false; c_ready := S754_zero false; c_busy := S754_zero false;
     c_draining := S754_zero false; c_dead := S754_zero false; fleetCost := S754_zero false |}.

(** [counts[state]++] *)
Definition inc_float (x : float64) : float64 := f_add x (f_of_Z 1).

Definition count_state (c : Counts) (e : WorkerEntry) : Counts :=
  let cost := f_add (fleetCost c) (CostPerHour (Info e)) in
  match State e with
  | STARTING => {| c_starting := inc_float (c_starting c); c_ready := c_ready c; c_busy := c_busy c;
      c_draining := c_draining c; c_dead := c_dead c; fleetCost := fleetCost c |}
  | READY => {| c_starting := c_starting c; c_ready := inc_float (c_ready c); c_busy := c_busy c;
      c_draining := c_draining c; c_dead := c_dead c; fleetCost := cost |}
  | BUSY => {| c_starting := c_starting c; c_ready := c_ready c; c_busy := inc_float (c_busy c);
      c_draining := c_draining c; c_dead := c_dead c; fleetCost := cost |}
  | DRAINING => {| c_starting := c_starting c; c_ready := c_ready c; c_busy := c_busy c;
      c_draining := inc_float (c_draining c); c_dead := c_dead c; fleetCost := fleetCost c |}
  | DEAD => {| c_starting := c_starting c; c_ready := c_ready c; c_busy := c_busy c;
      c_draining := c_draining c; c_dead := inc_float (c_dead c); fleetCost := fleetCost c |}
  | UnrecognizedState _ => c
  end.

(** A sample: the metric, its label and its value. *)
Inductive Sample :=
  | llm_workers (state : string) (n : float64)
  | llm_fleet_cost_per_hour (cost : float64)
  | llm_worker_in_flight (worker_id : string) (n : float64)
  | llm_model_healthy_workers (model : string) (n : float64).

(** The five state gauges come in the order of a map loop: any order of [order]. *)
Definition state_samples (order : list Sample → list Sample) (c : Counts) : list Sample :=
  order [llm_workers "starting" (c_starting c); llm_workers "ready" (c_ready c);
         llm_workers "busy" (c_busy c); llm_workers "draining" (c_draining c); llm_workers "dead" (c_dead c)].

(** [r1] is the registry when the workers are listed, [r2] when the models are. *)
Definition Collect (order : list Sample → list Sample) (i j k l : nat) (inFlight : gmap string Z)
    (r1 r2 : Registry) : list Sample :=
  let c := foldl count_state no_counts (ListWorkers i r1) in
  state_samples order c ++ [llm_fleet_cost_per_hour (fleetCost c)] ++
  ((λ '(id, n), llm_worker_in_flight id (f_of_Z n)) <$> range j inFlight) ++
  ((λ ms, llm_model_healthy_workers (Model ms) (f_of_Z (Z.of_nat (HealthyWorkers ms)))) <$> ModelsServed k l r2).

(** The descriptors that [newCollector] builds and [Describe] sends. *)
Record Desc := {
  fqName : string;
  variableLabels : list string;
}.

#[export] Instance Desc_eq_dec : EqDecision Desc.
Proof. solve_decision. Defined.

Definition workersDesc : Desc := {| fqName := "llm_workers"; variableLabels := ["state"] |}.
Definition inFlightDesc : Desc := {| fqName := "llm_worker_in_flight"; variableLabels := ["worker_id"] |}.
Definition modelDesc : Desc := {| fqName := "llm_model_healthy_workers"; variableLabels := ["model"] |}.
Definition fleetCostDesc : Desc := {| fqName := "llm_fleet_cost_per_hour"; variableLabels := [] |}.

Definition Describe : list Desc := [workersDesc; inFlightDesc; modelDesc; fleetCostDesc].

(** The descriptor and the label values [MustNewConstMetric] is called with. *)
Definition metric_of (s : Sample) : Desc * list string :=
  match s with
  | llm_workers state _ => (workersDesc, [state])
  | llm_fleet_cost_per_hour _ => (fleetCostDesc, [])
  | llm_worker_in_flight worker_id _ => (inFlightDesc, [worker_id])
  | llm_model_healthy_workers model _ => (modelDesc, [model])
  end.

(** ** A scrape is well formed *)

Lemma NoDup_labelled {A} (d : Desc) (label : A → string) (l : list A) :
  NoDup (label <$> l) → NoDup ((λ x, (d, [label x])) <$> l).
Proof.
  intros Hl. assert (((λ x, (d, [label x])) <$> l) = (λ v, (d, [v])) <$> (label <$> l)) as ->
    by by rewrite <- list_fmap_compose.
  apply NoDup_fmap_2; [|done]. by intros a b [= ->].
Qed.

(** Groups of samples with different descriptors do not meet. *)
Lemma NoDup_descs (d : Desc) (l l' : list (Desc * list string)) :
  NoDup l → NoDup l' → Forall (λ x, x.1 = d) l → Forall (λ x, x.1 ≠ d) l' → NoDup (l ++ l').
Proof.
  intros Hl Hl' Hd Hd'. apply NoDup_app. split_and!; [done| |done]. intros x Hx Hx'.
  rewrite Forall_forall in Hd, Hd'. by apply (Hd' x Hx'), Hd.
Qed.

(** C32: Prometheus can take every scrape: whatever the registry and the counters hold, and
    whatever the order of the loops, each sample fits a descriptor that was announced,
    with one value for each of its labels, and no two samples of one scrape have the same
    metric and labels. *)
Theorem scrape_well_formed order i j k l inFlight r1 r2 :
  (∀ ss, order ss ≡ₚ ss) →
  let ss := metric_of <$> Collect order i j k l inFlight r1 r2 in
  NoDup ss ∧ ∀ d labels, (d, labels) ∈ ss → d ∈ Describe ∧ length labels = length (variableLabels d).
Proof.
  intros Hord ss. split.
  - subst ss. unfold Collect, state_samples. rewrite Hord, !fmap_app, <- !list_fmap_compose.
    apply (NoDup_descs workersDesc); [by apply (bool_decide_unpack _); vm_compute| |by repeat constructor|].
    + apply (NoDup_descs fleetCostDesc); [by apply NoDup_singleton| |by repeat constructor|].
      * apply (NoDup_descs inFlightDesc).
        -- assert ((metric_of ∘ _) <$> range j inFlight = (λ x, (inFlightDesc, [x.1])) <$> range j inFlight) as ->
             by (apply list_fmap_ext; by intros ? []).
           apply NoDup_labelled. rewrite range_perm. apply NoDup_fst_map_to_list.
        -- apply (NoDup_labelled modelDesc Model).
           assert (Model <$> ModelsServed k l r2 = (range l (foldl count_worker ∅ (ListWorkers k r2))).*1) as ->.
           { unfold ModelsServed. rewrite <- list_fmap_compose. apply list_fmap_ext. by intros ? [? []]. }
           rewrite range_perm. apply NoDup_fst_map_to_list.
        -- apply Forall_fmap, Forall_true. by intros [].
        -- by apply Forall_fmap, Forall_true.
      * apply Forall_app; split; apply Forall_fmap, Forall_true; by try intros [].
    + apply Forall_app; split; [by repeat constructor|].
      apply Forall_app; split; apply Forall_fmap, Forall_true; by try intros [].
  - subst ss. intros d labels (s & Hs & _)%list_elem_of_fmap.
    destruct s; injection Hs as -> ->; (split; [|done]); unfold Describe; set_solver.
Qed.

(** ** The two views agree *)

Definition in_state (s : WorkerState) (es : list WorkerEntry) : Z :=
  Z.of_nat (sum_list_with (λ e, if decide (State e = s) then 1%nat else 0%nat) es).

Lemma in_state_cons s e es : in_state s (e :: es) = (if decide (State e = s) then 1 else 0) + in_state s es.
Proof. unfold in_state. simpl. destruct (decide (State e = s)); lia. Qed.

Lemma in_state_perm s es es' : es ≡ₚ es' → in_state s es = in_state s es'.
Proof. intros Hp. unfold in_state. by rewrite Hp. Qed.

Lemma in_state_bound s es : 0 ≤ in_state s es ≤ Z.of_nat (length es).
Proof. induction es as [|e es IH]; [done|]. rewrite in_state_cons. simpl. case_decide; lia. Qed.

(** Case analysis on the comparisons of known states. *)
Ltac by_state := repeat (destruct (decide _); try congruence).

Lemma stats_counts inFlight es s :
  let r := foldl (count_stats inFlight) s es in
  Total r = Total s ∧ Healthy r = Healthy s + in_state READY es + in_state BUSY es ∧
  Starting r = Starting s + in_state STARTING es ∧ Draining r = Draining s + in_state DRAINING es ∧
  Dead r = Dead s + in_state DEAD es.
Proof.
  revert s. induction es as [|e es IH]; intros s; simpl.
  { change (in_state _ []) with 0. split_and!; lia. }
  destruct (IH (count_stats inFlight s e)) as (-> & -> & -> & -> & ->). rewrite !in_state_cons.
  unfold count_stats. destruct (State e); simpl; by_state; split_and!; lia.
Qed.

(** The in-flight total, whatever wraps around on the way. *)
Lemma stats_in_flight inFlight es s t :
  TotalInFlight s = int64 t →
  TotalInFlight (foldl (count_stats inFlight) s es) =
    int64 (t + foldr (λ e n, getInFlight inFlight (WorkerId (Info e)) + n) 0 es).
Proof.
  revert s t. induction es as [|e es IH]; intros s t Hs; simpl; [by rewrite Z.add_0_r|].
  rewrite (IH _ (t + getInFlight inFlight (WorkerId (Info e)))); [f_equal; lia|].
  unfold count_stats. destruct (State e); simpl; by rewrite Hs, int64_add_l.
Qed.

Lemma metric_counts es a b c d f cost :
  Z.of_nat (length es) + Z.max a (Z.max b (Z.max c (Z.max d f))) < 2 ^ 53 →
  0 ≤ a → 0 ≤ b → 0 ≤ c → 0 ≤ d → 0 ≤ f →
  ∃ cost', foldl count_state {| c_starting := f_int a; c_ready := f_int b; c_busy := f_int c;
      c_draining := f_int d; c_dead := f_int f; fleetCost := cost |} es =
    {| c_starting := f_int (a + in_state STARTING es); c_ready := f_int (b + in_state READY es);
       c_busy := f_int (c + in_state BUSY es); c_draining := f_int (d + in_state DRAINING es);
       c_dead := f_int (f + in_state DEAD es); fleetCost := cost' |}.
Proof.
  revert a b c d f cost. induction es as [|e es IH]; intros a b c d f cost Hb Ha0 Hb0 Hc0 Hd0 Hf0.
  { change (in_state _ []) with 0. rewrite !Z.add_0_r. by eexists. }
  assert (∀ x, 0 ≤ x → x + 1 < 2 ^ 53 → inc_float (f_int x) = f_int (x + 1)) as Hinc.
  { intros x ??. unfold inc_float. by rewrite f_of_Z_int, f_add_int by (unfold small; lia). }
  rewrite !in_state_cons. simpl length in Hb. simpl foldl. unfold count_state at 2. simpl.
  destruct (State e); rewrite ?Hinc by lia; by_state; rewrite ?Z.add_0_l, ?Z.add_assoc; apply IH; lia.
Qed.

(** C33: The admin statistics and the scraped gauges tell the same story: taken from one
    reachable registry, every worker is in exactly one of the counts, the gauges of the
    two healthy states add up to the healthy count of the API, the other gauges equal
    the API's counts, and the in-flight total is the sum of the snapshot over the
    registered workers. *)
Theorem views_agree T timeout s i j inFlight :
  reachable T timeout s → Z.of_nat (size (workers (reg s))) < 2 ^ 53 →
  let st := snd (stats i inFlight (reg s)) in
  let c := foldl count_state no_counts (ListWorkers j (reg s)) in
  Total st = Z.of_nat (size (workers (reg s))) ∧
  Total st = Healthy st + Starting st + Draining st + Dead st ∧
  Healthy st = Z.of_nat (snd (WorkerCount i (reg s))) ∧
  TotalInFlight st =
    int64 (foldr (λ e n, getInFlight inFlight (WorkerId (Info e)) + n) 0 (ListWorkers i (reg s))) ∧
  ∃ ready busy, c_ready c = f_int ready ∧ c_busy c = f_int busy ∧ Healthy st = ready + busy ∧
    c_starting c = f_int (Starting st) ∧ c_draining c = f_int (Draining st) ∧ c_dead c = f_int (Dead st).
Proof.
  intros Hr Hsize. unfold stats. cbv zeta. simpl snd at 1.
  destruct (stats_counts inFlight (ListWorkers i (reg s)) (no_stats (length (ListWorkers i (reg s)))))
    as (HT & HH & HS & HDr & HDe). simpl snd. rewrite HT, HH, HS, HDr, HDe. simpl.
  assert (length (ListWorkers i (reg s)) = size (workers (reg s))) as Hlen.
  { unfold ListWorkers. by rewrite length_fmap, length_range. }
  assert (∀ st, in_state st (ListWorkers j (reg s)) = in_state st (ListWorkers i (reg s))) as Hij.
  { intros st. apply in_state_perm. by rewrite !ListWorkers_perm. }
  destruct (metric_counts (ListWorkers j (reg s)) 0 0 0 0 0 (S754_zero false)) as [cost' Hc]; [|lia..|].
  { unfold ListWorkers. rewrite length_fmap, length_range. lia. }
  assert (in_state READY (ListWorkers i (reg s)) + in_state BUSY (ListWorkers i (reg s)) +
    in_state STARTING (ListWorkers i (reg s)) + in_state DRAINING (ListWorkers i (reg s)) +
    in_state DEAD (ListWorkers i (reg s)) = Z.of_nat (size (workers (reg s))) ∧
    in_state READY (ListWorkers i (reg s)) + in_state BUSY (ListWorkers i (reg s)) =
      Z.of_nat (length (filter (λ e, is_healthy (State e)) (ListWorkers i (reg s))))) as [Hsum Hhealthy].
  { rewrite <- Hlen. assert (∀ e, e ∈ ListWorkers i (reg s) → recognized (State e) = true) as Hrec.
    { intros e (id & He)%elem_of_ListWorkers. by destruct (wf_workers _ (reachable_wf _ _ _ Hr) _ _ He) as [[]]. }
    clear -Hrec. induction (ListWorkers i (reg s)) as [|e es IH]; [done|].
    destruct IH as [IH1 IH2]; [intros; apply Hrec; by right|].
    specialize (Hrec e ltac:(by left)). rewrite !in_state_cons, filter_cons.
    destruct (State e); simpl; try discriminate Hrec; by_state; simpl length; lia. }
  split_and!; [lia|lia| |by apply (stats_in_flight _ _ _ 0)|].
  - rewrite WorkerCount_spec. simpl. rewrite <- (ListWorkers_perm i (reg s)). lia.
  - exists (in_state READY (ListWorkers i (reg s))), (in_state BUSY (ListWorkers i (reg s))).
    assert (foldl count_state no_counts (ListWorkers j (reg s)) = _) as -> by exact Hc. simpl.
    rewrite !Hij. split_and!; (done || lia).
Qed.

End api.

Lemma views_agree_witness :
  Total (snd (stats 0 ∅ (reg (demo_sys 1 2)))) = 1 ∧ Healthy (snd (stats 0 ∅ (reg (demo_sys 1 2)))) = 1 + 0.
Proof.
  destruct (views_agree {| gap := 1; latency := 0; insert_delay := 0 |} DefaultDeadTimeout (demo_sys 1 2) 0 0 ∅)
    as (HT & _ & HH & _).
  - by apply demo_reachable.
  - vm_compute. reflexivity.
  - split; [rewrite HT; reflexivity|rewrite HH; reflexivity].
Defined.

Lemma scrape_well_formed_witness :
  NoDup (metric_of <$> Collect (λ ss, ss) 0 0 0 0 {["w1" := 2]} (reg (demo_sys 1 2)) (reg (demo_sys 1 2))) ∧
  (modelDesc, ["llama3"]) ∈ metric_of <$> Collect (λ ss, ss) 0 0 0 0 {["w1" := 2]} (reg (demo_sys 1 2)) (reg (demo_sys 1 2)).
Proof.
  split; [|apply (bool_decide_unpack _); vm_compute; reflexivity].
  apply (scrape_well_formed (λ ss, ss) 0 0 0 0 {["w1" := 2]} (reg (demo_sys 1 2)) (reg (demo_sys 1 2))). done.
Defined.
