(* ===== verification/AdminApi.v ===== *)
(** * The admin APIs over HTTP (control-plane/api/admin.go, request-plane/admin/admin.go)

    From the request line to the text that is sent: the muxes, the handlers of Observe and
    Config, and their values as JSON.  The decimal text of a float and the text of a time are
    strconv's and time's ([FloatText], [TimeText]). *)

From S2P Require Import Prelude GoFloat Proto GoTimer Registry GoHttp GoStrings GoJson GoText GoUnmarshal GoMux Queue Auth Config Router Observe.
Open Scope Z_scope.

(** ** Values as JSON *)

(** The shortest decimal of a finite float, and a time in RFC 3339. *)
Class FloatText := {
  float_text : float64 → number;
  float_text_wf : ∀ x, wf_number (float_text x) = true;
}.

Class TimeText := time_text : Z → string.

Definition f_finite (x : float64) : bool :=
  match x with S754_zero _ | S754_finite _ _ _ => true | _ => false end.

Definition json_int (z : Z) : json :=
  JNum {| n_neg := z <? 0; n_int := FormatInt (Z.abs z); n_frac := None; n_exp := None |}.

Definition json_object (l : list (string * json)) : json := JObj ((λ m, (quote_items m.1, m.2)) <$> l).

(** A nil slice of strings is null. *)
Definition json_strings (l : list string) : json :=
  match l with [] => JNull | _ => JArr (marshal_string <$> l) end.

(** An answer of the mux that is a response, or the path it redirects to. *)
Inductive AdminAnswer :=
  | Answered (w : Writer)
  | Redirected (path : string).

Section encode.
Context `{FloatText} `{TimeText}.

(** encoding/json has no text for infinities and NaN. *)
Definition json_float (x : float64) : option json := if f_finite x then Some (JNum (float_text x)) else None.

Definition json_load (l : loadResp) : option json :=
  rps ← json_float (lr_RequestsPerSec l);
  latency ← json_float (lr_AvgLatencyMs l);
  Some (json_object [("queue_depth", json_int (lr_QueueDepth l)); ("requests_per_sec", rps);
                     ("avg_latency_ms", latency); ("vram_used_mb", json_int (VramUsedMB l))]).

Definition json_worker (x : workerResp) : option json :=
  cost ← json_float (wr_CostPerHour x);
  load ← json_load (wr_Load x);
  Some (json_object [("id", marshal_string (wr_ID x)); ("address", marshal_string (wr_Address x));
    ("state", marshal_string (wr_State x)); ("backend", marshal_string (wr_Backend x));
    ("provider", marshal_string (wr_Provider x)); ("hardware", marshal_string (wr_Hardware x));
    ("models", json_strings (wr_Models x)); ("cost_per_hour", cost);
    ("registered_at", marshal_string (time_text (wr_RegisteredAt x)));
    ("last_heartbeat", marshal_string (time_text (wr_LastHeartbeat x)));
    ("drain_requested", JBool (wr_DrainRequested x)); ("in_flight", json_int (InFlight x)); ("load", load)]).

Definition json_model (x : modelResp) : json :=
  json_object [("model", marshal_string (mr_Model x)); ("total_workers", json_int (Z.of_nat (mr_TotalWorkers x)));
    ("healthy_workers", json_int (Z.of_nat (mr_HealthyWorkers x))); ("total_in_flight", json_int (mr_TotalInFlight x))].

Definition json_stats (x : Observe.statsResp) : option json :=
  cost ← json_float (FleetCostPerHour x);
  Some (json_object [("total", json_int (Observe.Total x)); ("healthy", json_int (Healthy x));
    ("starting", json_int (Starting x)); ("draining", json_int (Draining x)); ("dead", json_int (Dead x));
    ("total_in_flight", json_int (TotalInFlight x)); ("fleet_cost_per_hour", cost)]).

(** The maps of the error and confirmation bodies, their keys sorted. *)
Definition json_message (x : Message) : json :=
  match x with
  | WorkerNotFound => json_object [("error", marshal_string "worker not found")]
  | DrainError err => json_object [("error", marshal_string err)]
  | DrainRequestedFor id => json_object [("status", marshal_string "drain requested"); ("worker_id", marshal_string id)]
  end.

(** [Encode] writes the text and a newline, or nothing at all when a value has no text. *)
Definition writeJSON (status : Z) (v : option json) (w : Writer) : Writer :=
  let w1 := WriteHeader status (SetHeader "Content-Type" "application/json" w) in
  match v with Some v => Write (print v newline) w1 | None => w1 end.

(** ** control-plane/api *)

Inductive AdminEndpoint :=
  | ListWorkersHandler
  | GetWorkerHandler
  | DrainWorkerHandler
  | StatsHandler
  | ListModelsHandler
  | MetricsHandler.

#[export] Instance AdminEndpoint_eq_dec : EqDecision AdminEndpoint.
Proof. solve_decision. Defined.

Definition admin_mux : list (Pattern * AdminEndpoint) :=
  [({| pat_method := "GET"; pat_path := [Literal "admin"; Literal "workers"] |}, ListWorkersHandler);
   ({| pat_method := "GET"; pat_path := [Literal "admin"; Literal "workers"; Wildcard] |}, GetWorkerHandler);
   ({| pat_method := "POST"; pat_path := [Literal "admin"; Literal "workers"; Wildcard; Literal "drain"] |},
    DrainWorkerHandler);
   ({| pat_method := "GET"; pat_path := [Literal "admin"; Literal "stats"] |}, StatsHandler);
   ({| pat_method := "GET"; pat_path := [Literal "admin"; Literal "models"] |}, ListModelsHandler);
   ({| pat_method := "GET"; pat_path := [Literal "metrics"] |}, MetricsHandler)].

Section control.
Context `{MapRange} (metricsHandler : Writer → Writer) (inFlight : gmap string Z).

(** [req.PathValue("id")]. *)
Definition path_value (vars : list string) : string := default "" (head vars).

(** One handler, undisturbed; [i], [j], [k] number the loops over maps. *)
Definition serve_endpoint (i j k : nat) (e : AdminEndpoint) (vars : list string) (r : Registry) (w : Writer)
    : Registry * Writer :=
  match e with
  | ListWorkersHandler =>
    let '(status, out) := listWorkers i inFlight r in (r, writeJSON status (JArr <$> mapM json_worker out) w)
  | GetWorkerHandler =>
    let '(status, out) := getWorker inFlight (path_value vars) r in
    (r, writeJSON status (match out with inl m => Some (json_message m) | inr x => json_worker x end) w)
  | DrainWorkerHandler =>
    let '(r', (status, m)) := drainWorker (path_value vars) r in (r', writeJSON status (Some (json_message m)) w)
  | StatsHandler => let '(status, s) := stats i inFlight r in (r, writeJSON status (json_stats s) w)
  | ListModelsHandler =>
    let '(status, out) := listModels i j k inFlight r r in (r, writeJSON status (Some (JArr (json_model <$> out))) w)
  | MetricsHandler => (r, metricsHandler w)
  end.

Definition NewAdminHandler (i j k : nat) (method path : string) (r : Registry) (w : Writer) : Registry * AdminAnswer :=
  match route admin_mux method path with
  | Handled e vars => let '(r', w') := serve_endpoint i j k e vars r w in (r', Answered w')
  | Moved path' => (r, Redirected path')
  | NotAllowed methods => (r, Answered (method_not_allowed methods w))
  | Unmatched => (r, Answered (not_found w))
  end.

End control.

(** ** request-plane/admin *)

Inductive RequestEndpoint :=
  | QueueHandler
  | CountersHandler
  | KeysHandler.

Definition request_mux : list (Pattern * RequestEndpoint) :=
  [({| pat_method := "GET"; pat_path := [Literal "admin"; Literal "queue"] |}, QueueHandler);
   ({| pat_method := "GET"; pat_path := [Literal "admin"; Literal "stats"] |}, CountersHandler);
   ({| pat_method := "GET"; pat_path := [Literal "admin"; Literal "keys"] |}, KeysHandler)].

Definition json_queue (x : queueResp) : json :=
  json_object [("high", json_int (Z.of_nat (High x))); ("normal", json_int (Z.of_nat (Normal x)));
    ("low", json_int (Z.of_nat (Low x))); ("total", json_int (Z.of_nat (Config.Total x)));
    ("capacity", json_int (Z.of_nat (Capacity x)))].

Definition json_counters (x : Config.statsResp) : json :=
  json_object [("total_requests", json_int (TotalRequests x)); ("success_requests", json_int (SuccessRequests x));
    ("error_requests", json_int (ErrorRequests x))].

(** [omitempty]: no member for a level of zero. *)
Definition json_key (x : keyResp) : option json :=
  tokens ← (match TokensRemaining x with
    | S754_zero _ => Some []
    | t => v ← json_float t; Some [("tokens_remaining", v)]
    end);
  Some (json_object ([("key_id", marshal_string (resp_KeyID x)); ("requests_per_min", json_int (resp_RequestsPerMin x))] ++
    tokens ++ [("unlimited", JBool (Unlimited x))])).

Definition NewHandler `{MapRange} (fused : bool) (q : Queue) (s : Stats) (keys : option KeyStore)
    (limiter : option RateLimiter) (i : nat) (now : nat → Z) (method path : string) (w : Writer) : AdminAnswer :=
  let '(w1, go_on) := withCORS method w in
  if negb go_on then Answered w1
  else match route request_mux method path with
  | Handled QueueHandler _ => let '(status, x) := handleQueue q in Answered (writeJSON status (Some (json_queue x)) w1)
  | Handled CountersHandler _ =>
    let '(status, x) := handleStats s in Answered (writeJSON status (Some (json_counters x)) w1)
  | Handled KeysHandler _ =>
    let '(status, out) := handleKeys fused i now keys limiter in
    Answered (writeJSON status (JArr <$> mapM json_key out) w1)
  | Moved path' => Redirected path'
  | NotAllowed methods => Answered (method_not_allowed methods w1)
  | Unmatched => Answered (not_found w1)
  end.
End encode.

(** ** Numbers are well formed *)

Lemma pretty_char_digit x : (x < 10)%N → is_digit (pretty_N_char x) = true ∧ (x ≠ 0 → pretty_N_char x ≠ "0"%char)%N.
Proof.
  intros Hx. assert (x ∈ [0; 1; 2; 3; 4; 5; 6; 7; 8; 9]%N) as Hin by (rewrite !elem_of_cons, elem_of_nil; lia).
  rewrite !elem_of_cons, elem_of_nil in Hin. repeat (destruct Hin as [->|Hin]; [done|]). done.
Qed.

Lemma pretty_go_leading n s :
  (0 < n)%N → digits_only s = true →
  ∃ c s', pretty_N_go n s = String c s' ∧ c ≠ "0"%char ∧ digits_only (String c s') = true.
Proof.
  revert s. induction (N.lt_wf_0 n) as [n _ IH]; intros s Hn Hs. rewrite pretty_N_go_step by done.
  destruct (pretty_char_digit (n `mod` 10)) as [Hd Hz]; [by apply N.mod_lt|].
  assert (∀ x, x = 0 ∨ 0 < x)%N as Hcase by lia. destruct (Hcase (n `div` 10)%N) as [Hq|Hq].
  - rewrite Hq, pretty_N_go_0. eexists _, _. split; [done|]. split; [|simpl; by rewrite Hd].
    apply Hz. pose proof (N.div_mod n 10 ltac:(done)). lia.
  - apply IH; [by apply N.div_lt|done|]. simpl. by rewrite Hd.
Qed.

Lemma json_int_wf depth z : wf_json depth (json_int z).
Proof.
  constructor. unfold wf_number. simpl. rewrite !andb_true_r. unfold FormatInt.
  destruct (Z.abs z) as [|p|p] eqn:Hz; [done| |lia]. change (pretty (Z.pos p)) with (pretty_N_go (Npos p) "").
  destruct (pretty_go_leading (Npos p) "") as (c & s & -> & Hc & Hd); [done..|].
  unfold wf_int. rewrite chomp_other by done. unfold wf_digits. by rewrite Hd.
Qed.

(** ** What is sent is read back *)

Definition int_data (z : Z) : data :=
  DNum {| n_neg := z <? 0; n_int := FormatInt (Z.abs z); n_frac := None; n_exp := None |}.

Definition string_data (s : string) : data := DStr (to_valid s).

Definition strings_data (l : list string) : data :=
  match l with [] => DNull | _ => DArr (string_data <$> l) end.

(** [v] is a well-formed value inside [depth] containers that means [x]. *)
Definition means (depth : Z) (v : json) (x : data) : Prop := wf_json depth v ∧ decoded v = x.

Lemma means_int depth z : means depth (json_int z) (int_data z).
Proof. split; [apply json_int_wf|done]. Qed.

Lemma means_string depth s : means depth (marshal_string s) (string_data s).
Proof. split; [constructor; apply quote_wf|]. unfold string_data. simpl. by rewrite decode_quote. Qed.

Lemma means_strings depth l : depth < max_depth → means depth (json_strings l) (strings_data l).
Proof.
  intros Hd. destruct l as [|s l]; [by split; [constructor|]|]. unfold json_strings, strings_data. split.
  - constructor; [done|]. apply Forall_fmap, Forall_forall. intros x _. apply (means_string _ x).
  - assert (∀ l', map decoded (marshal_string <$> l') = string_data <$> l') as Hl.
    { induction l' as [|x l' IH]; [done|].
      change (decoded (marshal_string x) :: map decoded (marshal_string <$> l') = string_data x :: (string_data <$> l')).
      rewrite IH. f_equal. apply (means_string 0 x). }
    change (DArr (map decoded (marshal_string <$> s :: l)) = DArr (string_data <$> s :: l)). by rewrite Hl.
Qed.

Lemma means_bool depth b : means depth (JBool b) (DBool b).
Proof. by split; [constructor|]. Qed.

Lemma means_object depth l lx :
  depth < max_depth → Forall2 (λ m x, to_valid m.1 = x.1 ∧ means (depth + 1) m.2 x.2) l lx →
  means depth (json_object l) (DObj lx).
Proof.
  intros Hd Hl. unfold json_object. split.
  - constructor; [done|]. apply Forall_fmap. induction Hl as [|m x l lx [_ [Hm _]] _ IH]; constructor; [|done].
    split; [apply quote_wf|done].
  - change (DObj (map (λ m, (decode m.1, decoded m.2)) ((λ m, (quote_items m.1, m.2)) <$> l)) = DObj lx). f_equal.
    induction Hl as [|[k v] [k' x] l lx [Hk [_ Hm]] _ IH]; [done|]. simpl in Hk, Hm.
    change ((decode (quote_items k), decoded v) ::
      map (λ m, (decode m.1, decoded m.2)) ((λ m, (quote_items m.1, m.2)) <$> l) = (k', x) :: lx).
    by rewrite IH, decode_quote, Hk, Hm.
Qed.

(** A text with the newline [Encode] puts behind it. *)
Lemma parse_line v : wf_json 0 v → parse (print v newline) = Some v.
Proof.
  intros Hv. unfold parse, fuel. rewrite (value_print 0 v Hv); [done|done|simpl; lia].
Qed.

Lemma writeJSON_status status v w : Written w = None → Written (writeJSON status v w) = Some status.
Proof. intros Hw. unfold writeJSON. destruct v; simpl; by rewrite SetHeader_written, Hw. Qed.

Lemma writeJSON_body status v x w :
  means 0 v x → Written w = None → RespBody w = "" →
  let w' := writeJSON status (Some v) w in
  Written w' = Some status ∧ ∃ v', parse (RespBody w') = Some v' ∧ decoded v' = x.
Proof.
  intros [Hv Hx] Hw Hb. cbv zeta. unfold writeJSON. split.
  - simpl. by rewrite SetHeader_written, Hw.
  - exists v. split; [|done]. unfold Write, WriteHeader, SetHeader. rewrite Hw. cbn [RespBody]. rewrite Hb.
    by apply parse_line.
Qed.

Lemma writeJSON_nothing status w :
  Written w = None → RespBody w = "" →
  let w' := writeJSON status None w in Written w' = Some status ∧ RespBody w' = "".
Proof. intros Hw Hb. cbv zeta. unfold writeJSON, SetHeader, WriteHeader. rewrite Hw. by rewrite <- Hb. Qed.

Section served.
Context `{FloatText} `{TimeText}.

(** What the members of a worker's report mean. *)
Definition load_data (l : loadResp) : data :=
  DObj [("queue_depth", int_data (lr_QueueDepth l)); ("requests_per_sec", DNum (float_text (lr_RequestsPerSec l)));
        ("avg_latency_ms", DNum (float_text (lr_AvgLatencyMs l))); ("vram_used_mb", int_data (VramUsedMB l))].

Definition worker_data (x : workerResp) : data :=
  DObj [("id", string_data (wr_ID x)); ("address", string_data (wr_Address x)); ("state", string_data (wr_State x));
        ("backend", string_data (wr_Backend x)); ("provider", string_data (wr_Provider x));
        ("hardware", string_data (wr_Hardware x)); ("models", strings_data (wr_Models x));
        ("cost_per_hour", DNum (float_text (wr_CostPerHour x)));
        ("registered_at", string_data (time_text (wr_RegisteredAt x)));
        ("last_heartbeat", string_data (time_text (wr_LastHeartbeat x)));
        ("drain_requested", DBool (wr_DrainRequested x)); ("in_flight", int_data (InFlight x));
        ("load", load_data (wr_Load x))].

(** A worker whose figures encoding/json can write. *)
Definition presentable (e : WorkerEntry) : bool :=
  f_finite (CostPerHour (Info e)) && f_finite (RequestsPerSec (Load e)) && f_finite (AvgLatencyMs (Load e)).

Lemma means_float depth x v : json_float x = Some v → means depth v (DNum (float_text x)).
Proof.
  unfold json_float. destruct (f_finite x); [|done]. intros [= <-]. split; [|done]. constructor. apply float_text_wf.
Qed.

Ltac members := repeat first
  [ apply Forall2_nil_2 | apply Forall2_cons; split; [split; [vm_compute; reflexivity|cbn [fst snd]]|] ].

Lemma means_load l v : json_load l = Some v → means 1 v (load_data l).
Proof.
  unfold json_load. destruct (json_float (lr_RequestsPerSec l)) as [rps|] eqn:Hr; [|done].
  destruct (json_float (lr_AvgLatencyMs l)) as [lat|] eqn:Ha; [|done]. intros [= <-].
  apply means_object; [done|]. members; first [apply means_int|by apply means_float].
Qed.

Lemma means_worker x v : json_worker x = Some v → means 0 v (worker_data x).
Proof.
  unfold json_worker. destruct (json_float (wr_CostPerHour x)) as [cost|] eqn:Hc; [|done].
  destruct (json_load (wr_Load x)) as [load|] eqn:Hl; [|done]. intros [= <-].
  apply means_object; [done|]. members;
    first [apply means_int|apply means_string|apply means_bool|by apply means_strings|by apply means_float
          |by apply means_load].
Qed.

Lemma presentable_worker e n :
  is_Some (json_worker (toWorkerResp e n)) ↔ presentable e = true.
Proof.
  unfold presentable, json_worker, json_load, json_float. simpl.
  destruct (f_finite (CostPerHour (Info e))); simpl; [|by split; [intros [? ?]|]].
  destruct (f_finite (RequestsPerSec (Load e))); simpl; [|by split; [intros [? ?]|]].
  destruct (f_finite (AvgLatencyMs (Load e))); simpl; [by split; [|intros _; eexists]|by split; [intros [? ?]|]].
Qed.

(** ** The control plane's admin API *)

Context `{MapRange} (metricsHandler : Writer → Writer) (inFlight : gmap string Z) (i j k : nat).

Abbreviation serve := (NewAdminHandler metricsHandler inFlight i j k).

Lemma fits_literal s pat segs vars :
  fits (Literal s :: pat) segs = Some vars →
  ∃ seg segs', segs = seg :: segs' ∧ pathUnescape seg = s ∧ fits pat segs' = Some vars.
Proof. destruct segs as [|seg segs']; [done|]. simpl. case_decide; [|done]. by exists seg, segs'. Qed.

Lemma fits_wildcard pat segs vars :
  fits (Wildcard :: pat) segs = Some vars →
  ∃ seg segs' vars', segs = seg :: segs' ∧ vars = pathUnescape seg :: vars' ∧ fits pat segs' = Some vars'.
Proof.
  destruct segs as [|seg segs']; [done|]. cbn [fits]. case_decide; [done|].
  destruct (fits pat segs') as [vars'|] eqn:Hf; [|done]. intros [= <-]. by exists seg, segs', vars'.
Qed.

Lemma fits_nil segs vars : fits [] segs = Some vars → segs = [] ∧ vars = [].
Proof. destruct segs; [|done]. by intros [= <-]. Qed.

Lemma serve_endpoint_reads e vars r w :
  e ≠ DrainWorkerHandler → fst (serve_endpoint metricsHandler inFlight i j k e vars r w) = r.
Proof.
  intros He. destruct e; try done. simpl. unfold getWorker. by destruct (GetWorker _ _).
Qed.

Lemma serve_handled method path r w e vars :
  route admin_mux method path = Handled e vars →
  serve method path r w =
    let '(r', w') := serve_endpoint metricsHandler inFlight i j k e vars r w in (r', Answered w').
Proof. intros Hr. unfold NewAdminHandler. by rewrite Hr. Qed.

Lemma fits_cons_literal s pat seg segs :
  pathUnescape seg = s → fits (Literal s :: pat) (seg :: segs) = fits pat segs.
Proof. intros Hs. cbn [fits]. by rewrite decide_True. Qed.

Lemma fits_cons_wildcard pat seg segs :
  pathUnescape seg ≠ "" → pathUnescape seg ≠ String slash "" →
  fits (Wildcard :: pat) (seg :: segs) = cons (pathUnescape seg) <$> fits pat segs.
Proof. intros H1' H2'. cbn [fits]. by rewrite decide_False by tauto. Qed.

Lemma find_drain seg :
  pathUnescape seg ≠ "" → pathUnescape seg ≠ String slash "" →
  find_pattern admin_mux "POST" ["admin"; "workers"; seg; "drain"] = Some (DrainWorkerHandler, [pathUnescape seg]).
Proof.
  intros Hne Hns.
  change (find_pattern admin_mux "POST" ["admin"; "workers"; seg; "drain"]) with
    (match fits [Literal "admin"; Literal "workers"; Wildcard; Literal "drain"] ["admin"; "workers"; seg; "drain"] with
     | Some vars => Some (DrainWorkerHandler, vars) | None => None end).
  rewrite !fits_cons_literal by done. rewrite fits_cons_wildcard by done. by rewrite fits_cons_literal.
Qed.

Lemma find_worker seg :
  pathUnescape seg ≠ "" → pathUnescape seg ≠ String slash "" →
  find_pattern admin_mux "GET" ["admin"; "workers"; seg] = Some (GetWorkerHandler, [pathUnescape seg]).
Proof.
  intros Hne Hns. unfold admin_mux. cbn [find_pattern pat_method pat_path].
  rewrite (bool_decide_unpack (method_fits "GET" "GET" = true) ltac:(vm_compute; exact I)).
  rewrite !fits_cons_literal by done. rewrite fits_cons_wildcard by done. done.
Qed.

(** The literal segments are clean, and the one of [H] is. *)
Ltac kept_segments H :=
  repeat (apply Forall_cons; split);
  first [exact H | apply Forall_nil_2 | apply (bool_decide_unpack _); vm_compute; reflexivity].

(** C28: Over its admin API the registry changes in one way only: by POST to
    /admin/workers/{id}/drain, and then exactly as [RequestDrain] changes it for the unescaped
    id; no other method and no other path - not a wrong one, not one with dots or doubled
    slashes, which is redirected - touches it.  And every such request for an id that fits
    into one segment gets there, and is answered 200 or, for an unknown id, 404. *)
Theorem admin_drains method path r w :
  (fst (serve method path r w) = r ∨
   ∃ id, method = "POST" ∧ pathUnescape <$> segments path = ["admin"; "workers"; id; "drain"] ∧
     fst (serve method path r w) = fst (RequestDrain id r)) ∧
  ∀ seg, kept seg → pathUnescape seg ≠ "" → pathUnescape seg ≠ String slash "" → Written w = None →
    let id := pathUnescape seg in
    let '(r', a) := serve "POST" (rooted ["admin"; "workers"; seg; "drain"]) r w in
    r' = fst (RequestDrain id r) ∧
    ∃ w', a = Answered w' ∧
      Written w' = Some (if decide (is_Some (workers r !! id)) then StatusOK else StatusNotFound).
Proof.
  split.
  - destruct (route admin_mux method path) as [e vars|path'|ms|] eqn:Hr.
    2-4: by left; unfold NewAdminHandler; rewrite Hr.
    rewrite (serve_handled _ _ _ _ _ _ Hr). pose proof (serve_endpoint_reads e vars r w) as Hrd.
    destruct (decide (e = DrainWorkerHandler)) as [->|He].
    2: { left. specialize (Hrd He). by destruct (serve_endpoint _ _ _ _ _ _ _ _ _). }
    right. clear Hrd.
    destruct (route_Handled _ _ _ _ _ Hr) as (p & Hin & Hm & Hf).
    unfold admin_mux in Hin. rewrite !elem_of_cons in Hin.
    destruct Hin as [Hp|[Hp|[Hp|[Hp|[Hp|[Hp|Hp]]]]]]; try by injection Hp.
    2: by apply not_elem_of_nil in Hp.
    injection Hp as ->. cbn [pat_method pat_path] in Hm, Hf.
    apply fits_literal in Hf as (s1 & l1 & Hs & H1' & Hf). apply fits_literal in Hf as (s2 & l2 & -> & H2' & Hf).
    apply fits_wildcard in Hf as (s3 & l3 & v & -> & -> & Hf). apply fits_literal in Hf as (s4 & l4 & -> & H4' & Hf).
    apply fits_nil in Hf as [-> ->]. exists (pathUnescape s3). split_and!.
    + unfold method_fits in Hm. simpl in Hm. rewrite orb_false_r in Hm. by apply bool_decide_eq_true in Hm.
    + rewrite Hs. simpl. by rewrite H1', H2', H4'.
    + cbn [serve_endpoint]. change (path_value [pathUnescape s3]) with (pathUnescape s3).
      unfold drainWorker. by destruct (RequestDrain (pathUnescape s3) r) as [r' [err|]].
  - intros seg Hk Hne Hns Hw. cbv zeta. unfold NewAdminHandler.
    rewrite route_rooted by (done || kept_segments Hk).
    rewrite find_drain by done.
    cbn [serve_endpoint]. change (path_value [pathUnescape seg]) with (pathUnescape seg).
    unfold drainWorker, RequestDrain.
    destruct (workers r !! pathUnescape seg) as [e|] eqn:He; (split; [done|]); eexists; (split; [reflexivity|]);
      rewrite writeJSON_status by done.
    + by rewrite decide_True by by eexists.
    + by rewrite decide_False by by intros [].
Qed.

(** C29: What GET /admin/workers/{id} answers for a worker whose figures are finite is 200 and a
    JSON text that reads back as the worker's entry: under each name the value the registry
    holds - id, address, state, backend, provider, hardware, models, cost, the two times, the
    drain flag, and of the last load report the queue, the two rates and the memory in whole
    mebibytes - and the requests in flight to it; bytes that are no UTF-8 are replaced. *)
Theorem worker_detail_reads_back seg r e :
  kept seg → pathUnescape seg ≠ "" → pathUnescape seg ≠ String slash "" →
  let id := pathUnescape seg in
  workers r !! id = Some e → presentable e = true →
  ∃ w, serve "GET" (rooted ["admin"; "workers"; seg]) r newWriter = (r, Answered w) ∧ Written w = Some StatusOK ∧
    ∃ v, parse (RespBody w) = Some v ∧ decoded v = DObj
      [("id", string_data (WorkerId (Info e))); ("address", string_data (Address (Info e)));
       ("state", string_data (WorkerState_String (State e))); ("backend", string_data (Backend (Info e)));
       ("provider", string_data (Provider (Info e))); ("hardware", string_data (Hardware (Info e)));
       ("models", strings_data (ModelsLoaded (Info e))); ("cost_per_hour", DNum (float_text (CostPerHour (Info e))));
       ("registered_at", string_data (time_text (RegisteredAt e)));
       ("last_heartbeat", string_data (time_text (LastHeartbeat e)));
       ("drain_requested", DBool (DrainRequested e)); ("in_flight", int_data (default 0 (inFlight !! id)));
       ("load", DObj [("queue_depth", int_data (QueueDepth (Load e)));
                      ("requests_per_sec", DNum (float_text (RequestsPerSec (Load e))));
                      ("avg_latency_ms", DNum (float_text (AvgLatencyMs (Load e))));
                      ("vram_used_mb", int_data (VramUsedBytes (Load e) / 2 ^ 20))])].
Proof.
  intros Hk Hne Hns. cbv zeta. intros He Hp. unfold NewAdminHandler.
  rewrite route_rooted by (done || kept_segments Hk). rewrite find_worker by done.
  cbn [serve_endpoint]. change (path_value [pathUnescape seg]) with (pathUnescape seg).
  unfold getWorker, GetWorker. rewrite He.
  apply (presentable_worker e (getInFlight inFlight (pathUnescape seg))) in Hp as [v Hv]. rewrite Hv.
  eexists. split; [reflexivity|].
  replace (VramUsedBytes (Load e) / 2 ^ 20) with (VramUsedBytes (Load e) / 1024 / 1024) by (rewrite Z.div_div; done).
  apply (writeJSON_body _ _ (worker_data (toWorkerResp e (getInFlight inFlight (pathUnescape seg)))) newWriter);
    [by apply means_worker|done|done].
Qed.

Lemma f_add_infinite x y : f_finite x = false ∨ f_finite y = false → f_finite (f_add x y) = false.
Proof. destruct x as [|[]| |], y as [|[]| |]; intros [?|?]; done. Qed.

Lemma stats_cost_infinite l s :
  f_finite (FleetCostPerHour s) = false ∨
    (∃ e, e ∈ l ∧ is_healthy (State e) = true ∧ f_finite (CostPerHour (Info e)) = false) →
  f_finite (FleetCostPerHour (foldl (count_stats inFlight) s l)) = false.
Proof.
  revert s. induction l as [|e l IH]; intros s [Hs|(x & Hx & Hh & Hc)]; [done|by apply not_elem_of_nil in Hx|..].
  - apply IH. left. unfold count_stats. destruct (State e); simpl; try done; apply f_add_infinite; by left.
  - apply IH. apply elem_of_cons in Hx as [->|Hx]; [left|right; by exists x].
    unfold count_stats. destruct (State e); try done; simpl; apply f_add_infinite; by right.
Qed.

(** C34: One worker can blank the fleet's views: while a single registered worker reports a cost,
    a request rate or a latency that is infinite or NaN - which neither registration nor the
    load report refuses - GET /admin/workers answers 200 with an empty body, whatever the other
    workers are; and when that worker is healthy and the figure is its cost, so does
    GET /admin/stats. *)
Theorem unpresentable_blanks_listing id r e :
  workers r !! id = Some e → presentable e = false →
  let blank path := ∃ w, serve "GET" path r newWriter = (r, Answered w) ∧ Written w = Some StatusOK ∧ RespBody w = "" in
  blank "/admin/workers" ∧
  (is_healthy (State e) = true → f_finite (CostPerHour (Info e)) = false → blank "/admin/stats").
Proof.
  intros He Hp. assert (e ∈ ListWorkers i r) as Hin by (apply elem_of_ListWorkers; by exists id). cbv zeta. split.
  - rewrite (serve_handled "GET" "/admin/workers" r newWriter ListWorkersHandler []) by (vm_compute; reflexivity).
    cbn [serve_endpoint listWorkers].
    assert (mapM json_worker ((λ e, toWorkerResp e (getInFlight inFlight (WorkerId (Info e)))) <$> ListWorkers i r) = None) as ->.
    { apply mapM_None, Exists_exists. eexists. split; [by apply list_elem_of_fmap_2|].
      apply eq_None_not_Some. by rewrite presentable_worker, Hp. }
    eexists. split; [reflexivity|]. by apply writeJSON_nothing.
  - intros Hh Hc. rewrite (serve_handled "GET" "/admin/stats" r newWriter StatsHandler []) by (vm_compute; reflexivity).
    cbn [serve_endpoint stats]. unfold json_stats, json_float. rewrite stats_cost_infinite by (right; by exists e).
    eexists. split; [reflexivity|]. by apply writeJSON_nothing.
Qed.

End served.

(** ** The theorems at work *)

#[local] Instance demo_float_text : FloatText.
Proof.
  refine {| float_text _ := {| n_neg := false; n_int := "0"; n_frac := None; n_exp := None |} |}. reflexivity.
Defined.

#[local] Instance demo_time_text : TimeText := λ _, "2025-01-01T00:00:00Z".

Definition demo_fleet : Registry := reg (demo_sys 0 0).

(** The same worker with a cost that is no number. *)
Definition nan_entry : WorkerEntry :=
  {| Info := {| WorkerId := "w1"; Address := "localhost:9001"; GpuType := "cpu"; VramBytes := 0;
                ModelsLoaded := ["llama3"]; Backend := "mock"; Provider := "local"; Hardware := "cpu";
                CostPerHour := S754_nan |};
     State := READY; LastHeartbeat := 0; RegisteredAt := 0; Load := emptyLoadReport "w1"; DrainRequested := false;
     MarkedDeadAt := None; deadlineTimer := 0 |}.

Lemma admin_drains_witness :
  let r' := fst (NewAdminHandler (λ w, w) ∅ 0 0 0 "POST" "/admin/workers/w%31/drain" demo_fleet newWriter) in
  r' = fst (RequestDrain "w1" demo_fleet) ∧ (DrainRequested <$> workers r' !! "w1") = Some true.
Proof.
  cbv zeta. destruct (admin_drains (λ w, w) ∅ 0 0 0 "POST" "/admin/workers/w%31/drain" demo_fleet newWriter) as [_ Hd].
  assert (kept "w%31") as Hk by (apply (bool_decide_unpack _); vm_compute; exact I).
  specialize (Hd "w%31" Hk ltac:(done) ltac:(done) eq_refl). cbv zeta in Hd.
  change (rooted ["admin"; "workers"; "w%31"; "drain"]) with "/admin/workers/w%31/drain" in Hd.
  change (pathUnescape "w%31") with "w1" in Hd.
  destruct (NewAdminHandler _ _ _ _ _ _ _ _ _) as [r' a]. destruct Hd as [Hr _]. simpl. rewrite Hr.
  split; [reflexivity|]. vm_compute. reflexivity.
Defined.

Lemma worker_detail_reads_back_witness :
  ∃ w, NewAdminHandler (λ w, w) ∅ 0 0 0 "GET" "/admin/workers/w1" demo_fleet newWriter = (demo_fleet, Answered w) ∧
    Written w = Some StatusOK ∧
    ∃ v members, parse (RespBody w) = Some v ∧ decoded v = DObj members ∧ list.head members = Some ("id", DStr "w1") ∧
      ("provider", DStr "local") ∈ members ∧ ("hardware", DStr "cpu") ∈ members.
Proof.
  destruct (worker_detail_reads_back (λ w, w) ∅ 0 0 0 "w1" demo_fleet (demo_entry 0 READY 0))
    as (w & Hs & Hw & v & Hp & Hd).
  - apply (bool_decide_unpack _). vm_compute. exact I.
  - done.
  - done.
  - vm_compute. reflexivity.
  - vm_compute. reflexivity.
  - exists w. split; [exact Hs|]. split; [exact Hw|]. exists v. eexists. split; [exact Hp|]. split; [exact Hd|].
    split; [vm_compute; reflexivity|]. split; [do 4 right; by left|do 5 right; by left].
Defined.

Lemma unpresentable_blanks_listing_witness :
  let r := set_workers {["w1" := nan_entry; "w2" := demo_entry 0 READY 0]} demo_fleet in
  ∃ w, NewAdminHandler (λ w, w) ∅ 0 0 0 "GET" "/admin/workers" r newWriter = (r, Answered w) ∧
    Written w = Some StatusOK ∧ RespBody w = "".
Proof.
  cbv zeta. destruct (unpresentable_blanks_listing (λ w, w) ∅ 0 0 0 "w1"
    (set_workers {["w1" := nan_entry; "w2" := demo_entry 0 READY 0]} demo_fleet) nan_entry) as [Hb _].
  - vm_compute. reflexivity.
  - vm_compute. reflexivity.
  - exact Hb.
Defined.
